(** * senseye: the file sensor (senses/sense_file.c)

    A shallow embedding of the preview renderer, the cursor overlay and the
    coordinator's drain loop of [sense_file.c], and the properties of the
    design document checked against it.

    Conventions.
    - [size_t], [uint64_t] and [unsigned long long] values are integers in
      [0, 2^64); every C operation on them is followed by [wrap64].
      [shmif_pixel] is a 32-bit integer, [int32_t] wraps with [sint32].
    - The mapped file is a [list byte]; the pixel buffer is the address
      that the pointer [vidp] holds and the [list Z] of the [h * pitch]
      pixels stored there.  A pixel pointer is a 64-bit address: [&vidp[i]]
      is computed modulo 2^64, four bytes per pixel, and two pointers are
      compared as addresses.
    - A division by zero and an access outside a buffer are undefined in C;
      the model stops with a [fault] there.
    - The library calls whose code is outside the file (the event pump, the
      clock, the channel size, the mouse state) are inputs of the model.
    - [float] and [double] are the binary32 and binary64 formats of
      [SpecFloat], each operation rounded to nearest even in the format of
      its C type. *)

From Stdlib Require Import ZArith Lia Strings.Byte.
From Stdlib Require Import Reals Lra ROrderedType.
From Stdlib Require Import Floats.SpecFloat.
From stdpp Require Import base numbers list.

Local Open Scope Z_scope.

(** ** Machine integers *)

Definition wrap64 (z : Z) : Z := z mod 2 ^ 64.
Definition wrap32 (z : Z) : Z := z mod 2 ^ 32.
Definition sint32 (z : Z) : Z := (z + 2 ^ 31) mod 2 ^ 32 - 2 ^ 31.

(** ** Faults and the error monad *)

Inductive fault : Type :=
| DivideByZero
| ReadOutOfBounds (idx : Z)
| WriteOutOfBounds (idx : Z).

Inductive result (A : Type) : Type :=
| Ret (a : A)
| Err (f : fault).
Arguments Ret {A} a.
Arguments Err {A} f.

#[global] Instance result_ret : MRet result := @Ret.
#[global] Instance result_bind : MBind result :=
  λ A B k m, match m with Ret a => k a | Err f => Err f end.

(** Unsigned division, undefined for a zero divisor. *)
Definition udiv (a b : Z) : result Z :=
  if b =? 0 then Err DivideByZero else Ret (a / b).

(** ** Pixels *)

(** Modelled from the spec: the [SHMIF_RGBA] macro of arcan_shmif.h, which is
    not part of the source file.  The four 8-bit channels of an RGBA pixel
    occupy disjoint byte lanes of the 32-bit [shmif_pixel]; the layout below
    is the default one (red in the low byte, alpha in the high byte). *)
Definition SHMIF_RGBA (r g b a : Z) : Z :=
  Z.lor (Z.shiftl a 24) (Z.lor (Z.shiftl b 16) (Z.lor (Z.shiftl g 8) r)).

Definition olay : Z := SHMIF_RGBA 0x88 0x00 0x88 0x00.
Definition mask : Z := SHMIF_RGBA 0x00 0xff 0x00 0xff.
Definition clear_color : Z := SHMIF_RGBA 0x00 0x00 0x00 0xff.
Definition edge_tint : Z := SHMIF_RGBA 0xff 0x00 0x00 0x00.
Definition edge_marker : Z := SHMIF_RGBA 0xff 0x00 0x00 0xff.

(** ** The shared segment and the data window *)

Record arcan_shmif_cont : Type := {
  w : Z;
  h : Z;
  pitch : Z;
  vidp_addr : Z;         (* the address that the pointer vidp holds *)
  vidp : list Z          (* the pixels stored from that address on *)
}.

Record data_window : Type := {
  pipe_in : list Z;      (* worker -> coordinator, oldest message first *)
  last_pos : Z;
  last_pos_sz : Z;
  last_count_px : Z;
  last_coord : Z * Z     (* last_coord[0], last_coord[1] *)
}.

Definition set_vidp (c : arcan_shmif_cont) (v : list Z) : arcan_shmif_cont :=
  {| w := w c; h := h c; pitch := pitch c; vidp_addr := vidp_addr c;
     vidp := v |}.

(** [c->vidp[idx] = f (c->vidp[idx])] *)
Definition vid_store (f : Z → Z) (idx : Z) (v : list Z) : result (list Z) :=
  if idx <? Z.of_nat (length v)
  then Ret (alter f (Z.to_nat idx) v)
  else Err (WriteOutOfBounds idx).

(** ** Pixel pointers *)

(** [&c->vidp[idx]]: a [shmif_pixel] takes four bytes, and the address is
    computed on 64 bits. *)
Definition pixel_ptr (c : arcan_shmif_cont) (idx : Z) : Z :=
  wrap64 (vidp_addr c + 4 * idx).

(** [*dst = f ( *dst )] through the pixel pointer [dst], for the buffer [v]
    at the address [base]: the pointer is [(dst - base) / 4] pixels away
    from [base], below it when that number is negative. *)
Definition ptr_store (f : Z → Z) (base dst : Z) (v : list Z) : result (list Z) :=
  let idx := (dst - base) / 4 in
  if (0 <=? idx) && (idx <? Z.of_nat (length v))
  then Ret (alter f (Z.to_nat idx) v)
  else Err (WriteOutOfBounds idx).

(** ** update_region *)

(** [while (np-- && dst < endm) *dst++ op= colour;]
    [dst] and [endm] are addresses, compared as such; [base] is the address
    of the buffer [v]. *)
Fixpoint fill (f : Z → Z) (fuel : nat) (np dst endm base : Z) (v : list Z)
  : result (list Z) :=
  match fuel with
  | O => Ret v
  | S fuel' =>
      if negb (np =? 0) && (dst <? endm)
      then v' ← ptr_store f base dst v;
           fill f fuel' (wrap64 (np - 1)) (wrap64 (dst + 4)) endm base v'
      else Ret v
  end.

(** Every turn of the loop stores to one pixel of the buffer and moves to
    the next one, or stops on a fault: in a buffer that lies below 2^64, one
    turn per pixel and one more are never used up ([fill_paint] and
    [fill_below] hold for any larger number of turns). *)
Definition fill_run (f : Z → Z) (np dst endm base : Z) (v : list Z)
  : result (list Z) :=
  fill f (S (length v)) np dst endm base v.

(** The index [coord[1] * cont->pitch + coord[0]], a [size_t]. *)
Definition coord_index (c : arcan_shmif_cont) (coord : Z * Z) : Z :=
  wrap64 (wrap64 (coord.2 * pitch c) + coord.1).

Definition update_region (map_sz : Z) (c : arcan_shmif_cont) (wnd : data_window)
    (new_pos : Z) (count : Z) : result (arcan_shmif_cont * data_window) :=
  let endm := pixel_ptr c (wrap64 (h c * pitch c)) in
  step_sz ← udiv map_sz (wrap64 (w c * h c));
  let bytes_perline := wrap64 (step_sz * w c) in
  if last_pos wnd =? new_pos then Ret (c, wnd) else
  (* first, reset the r/g channel *)
  v1 ← (if last_pos_sz wnd =? 0 then Ret (vidp c)
        else fill_run (Z.land mask) (last_count_px wnd)
               (pixel_ptr c (coord_index c (last_coord wnd))) endm
               (vidp_addr c) (vidp c));
  (* get the number of bytes used: count = wnd->ch->size(wnd->ch) *)
  if count =? 0 then
    Ret (set_vidp c v1,
         {| pipe_in := pipe_in wnd; last_pos := last_pos wnd; last_pos_sz := count;
            last_count_px := last_count_px wnd; last_coord := last_coord wnd |})
  else
  (* estimate the starting position *)
  coord1 ← udiv new_pos bytes_perline;
  coord0 ← udiv (wrap64 (new_pos - wrap64 (coord1 * bytes_perline))) step_sz;
  let dst := pixel_ptr c (coord_index c (coord0, coord1)) in
  (* find out how many pixels to fill *)
  nr ← udiv count bytes_perline;
  let count' := wrap64 (count - wrap64 (nr * bytes_perline)) in
  q ← udiv count' step_sz;
  let np := wrap64 (wrap64 (nr * w c) + q) in
  v2 ← fill_run (Z.lor olay) np dst endm (vidp_addr c) v1;
  Ret (set_vidp c v2,
       {| pipe_in := pipe_in wnd; last_pos := new_pos; last_pos_sz := count;
          last_count_px := np; last_coord := (coord0, coord1) |}).

(** ** The coordinator's drain loop (body of the [while] in [main]) *)

(** [read(pipe_in, &pos, sizeof(pos))] on the non-blocking pipe: the oldest
    8-byte message, or [None] for the -1 of an empty pipe. *)
Definition pipe_read (p : list Z) : option Z * list Z :=
  match p with
  | [] => (None, [])
  | x :: p' => (Some x, p')
  end.

(** [while (-1 != read(pipe_in, &pos, sizeof(pos))){}] *)
Fixpoint flush (p : list Z) (pos : Z) : Z * list Z :=
  match p with
  | [] => (pos, [])
  | x :: p' => flush p' x
  end.

Definition set_pipe_in (wnd : data_window) (p : list Z) : data_window :=
  {| pipe_in := p; last_pos := last_pos wnd; last_pos_sz := last_pos_sz wnd;
     last_count_px := last_count_px wnd; last_coord := last_coord wnd |}.

(** One turn of the loop for the single window: the result carries [dirty],
    which makes the loop signal the frame. *)
Definition main_loop_body (map_sz : Z) (c : arcan_shmif_cont) (wnd : data_window)
    (count : Z) : result (arcan_shmif_cont * data_window * bool) :=
  match pipe_read (pipe_in wnd) with
  | (None, _) => Ret (c, wnd, false)
  | (Some pos, p') =>
      let '(pos', p'') := flush p' pos in
      '(c', wnd') ← update_region map_sz c (set_pipe_in wnd p'') pos' count;
      Ret (c', wnd', true)
  end.

(** ** Single and double precision arithmetic of [cmp_histo] *)

Definition f32_of_Z (z : Z) : spec_float := binary_normalize 24 128 z 0 false.
Definition f64_of_Z (z : Z) : spec_float := binary_normalize 53 1024 z 0 false.

(** Conversions between [float] and [double]: rounding to the target format. *)
Definition f64_of_f32 (x : spec_float) : spec_float :=
  match x with
  | S754_finite s m e => binary_normalize 53 1024 (cond_Zopp s (Z.pos m)) e s
  | _ => x
  end.

Definition f32_of_f64 (x : spec_float) : spec_float :=
  match x with
  | S754_finite s m e => binary_normalize 24 128 (cond_Zopp s (Z.pos m)) e s
  | _ => x
  end.

(** [double floor(double)] *)
Definition f64_floor (x : spec_float) : spec_float :=
  match x with
  | S754_finite s m e =>
      if 0 <=? e then x
      else binary_normalize 53 1024 (Z.shiftr (cond_Zopp s (Z.pos m)) (- e)) 0 s
  | _ => x
  end.

Definition is_nan (x : spec_float) : bool :=
  match x with S754_nan => true | _ => false end.

(** [#define EPSILON 0.0000001f] *)
Definition EPSILON : spec_float := SFdiv 24 128 (f32_of_Z 1) (f32_of_Z 10000000).

Definition f64_half : spec_float := SFdiv 53 1024 (f64_of_Z 1) (f64_of_Z 2).

(** ** cmp_histo *)

Fixpoint cmp_histo_loop (n : nat) (i : nat) (a b : list Z) (roww : spec_float)
    (acc : spec_float * spec_float * spec_float)
  : spec_float * spec_float * spec_float :=
  match n with
  | O => acc
  | S n' =>
      let '(bcf, sum_1, sum_2) := acc in
      let na := SFdiv 24 128 (SFadd 24 128 (f32_of_Z (a !!! i)) EPSILON) roww in
      let nb := SFdiv 24 128 (SFadd 24 128 (f32_of_Z (b !!! i)) EPSILON) roww in
      let bcf' :=
        f32_of_f64 (SFadd 53 1024 (f64_of_f32 bcf)
                      (SFsqrt 53 1024 (f64_of_f32 (SFmul 24 128 na nb)))) in
      cmp_histo_loop n' (S i) a b roww
        (bcf', SFadd 24 128 sum_1 na, SFadd 24 128 sum_2 nb)
  end.

Definition cmp_histo (a b : list Z) (roww : spec_float) : spec_float :=
  let '(bcf, sum_1, sum_2) :=
    cmp_histo_loop 256 0 a b roww
      (S754_zero false, S754_zero false, S754_zero false) in
  let rnd := f32_of_f64 (f64_floor (SFadd 53 1024 (f64_of_f32 sum_1) f64_half)) in
  let bcf := if SFltb rnd bcf then rnd else bcf in
  f32_of_f64
    (SFsub 53 1024 (f64_of_Z 1)
       (f64_of_f32 (SFsqrt 24 128 (SFsub 24 128 rnd bcf)))).


(** ** rebuild_preview *)

(** The process-wide [fsense] record, restricted to what the preview and the
    overlay read and write. *)
Record fsense_t : Type := {
  map : list byte;
  map_sz : Z;
  cont : arcan_shmif_cont;
  cutoff : spec_float;
  detailed : bool;
  in_rebuild : bool;
  windows_0 : data_window
}.

(** [map[idx]] *)
Definition map_read (m : list byte) (idx : Z) : result Z :=
  match m !! Z.to_nat idx with
  | Some b => Ret (Z.of_N (Byte.to_N b))
  | None => Err (ReadOutOfBounds idx)
  end.

(** [dr[b]++] on an [int32_t] bin *)
Definition histo_incr (b : Z) (dr : list Z) : list Z :=
  alter (λ n, sint32 (n + 1)) (Z.to_nat b) dr.

Definition histo_zero : list Z := replicate 256 0.

(** [for (i = i0; i < n && guard; i++) vidp[base + i] = f (vidp[base + i]);]
    The loop runs at most [n - i0] times. *)
Fixpoint span_store (f : Z → Z) (fuel : nat) (i n : Z) (guard : bool) (base : Z)
    (v : list Z) : result (list Z) :=
  match fuel with
  | O => Ret v
  | S fuel' =>
      if (i <? n) && guard
      then v' ← vid_store f (wrap64 (base + i)) v;
           span_store f fuel' (i + 1) n guard base v'
      else Ret v
  end.

Record rebuild_state : Type := {
  rb_pos : Z;
  rb_row : Z;
  rb_vid : list Z;
  rb_dr : list Z;
  rb_cr : list Z;
  rb_last : Z;
  rb_dirty : bool;
  rb_clock : nat;      (* readings of arcan_timemillis taken so far *)
  rb_signals : nat     (* frames handed to arcan_shmif_signal so far *)
}.

Section Rebuild.
(** [senseye_pump(cont, false)] as the rebuild sees it: its result after
    the row with the given number.  What the pump does to the events it
    dispatches is outside this model. *)
Variable pump : Z → bool.
(** [arcan_timemillis()]: the n-th reading during the rebuild. *)
Variable timemillis : nat → Z.

Variable m : list byte.
Variable m_sz : Z.
Variable cut : spec_float.
Variable detail : bool.
Variable wd ht : Z.
Variable step_sz : Z.

(** [for (size_t j = 0; j < step_sz && pos < map_sz; j++) dr[map[pos+j]]++;] *)
Fixpoint histo_span (fuel : nat) (j pos : Z) (dr : list Z) : result (list Z) :=
  match fuel with
  | O => Ret dr
  | S fuel' =>
      if (j <? step_sz) && (pos <? m_sz)
      then b ← map_read m (wrap64 (pos + j));
           histo_span fuel' (j + 1) pos (histo_incr b dr)
      else Ret dr
  end.

(** [for (size_t i = 0; i < c->w && pos < map_sz; i++){ ... pos += step_sz; }] *)
Fixpoint row_pixels (fuel : nat) (row i pos : Z) (vid dr : list Z)
  : result (Z * list Z * list Z) :=
  match fuel with
  | O => Ret (pos, vid, dr)
  | S fuel' =>
      if (i <? wd) && (pos <? m_sz)
      then
        g ← map_read m pos;
        vid' ← vid_store (λ _, SHMIF_RGBA 0x00 g 0x00 0xff)
                 (wrap64 (wrap64 (row * wd) + i)) vid;
        dr' ← (if is_nan cut then Ret dr
               else if detail then histo_span (Z.to_nat step_sz) 0 pos dr
               else b ← map_read m pos; Ret (histo_incr b dr));
        row_pixels fuel' row (i + 1) (wrap64 (pos + step_sz)) vid' dr'
      else Ret (pos, vid, dr)
  end.

(** The body of the [while] up to the call of the pump: the pixels of the
    row, then the comparison with the previous histogram and the tint. *)
Definition row_body (st : rebuild_state) : result rebuild_state :=
  '(pos, vid, dr) ← row_pixels (Z.to_nat wd) (rb_row st) 0 (rb_pos st)
                      (rb_vid st) (rb_dr st);
  if is_nan cut then
    Ret {| rb_pos := pos; rb_row := rb_row st; rb_vid := vid; rb_dr := dr;
           rb_cr := rb_cr st; rb_last := rb_last st; rb_dirty := true;
           rb_clock := rb_clock st; rb_signals := rb_signals st |}
  else
    let val := cmp_histo dr (rb_cr st)
                 (f32_of_Z (if detail then wrap64 (step_sz * wd) else wd)) in
    vid' ← (if SFltb val cut
            then span_store (Z.lor edge_tint) (Z.to_nat wd) 0 wd true
                   (wrap64 (rb_row st * wd)) vid
            else Ret vid);
    Ret {| rb_pos := pos; rb_row := rb_row st; rb_vid := vid'; rb_dr := histo_zero;
           rb_cr := dr; rb_last := rb_last st; rb_dirty := true;
           rb_clock := rb_clock st; rb_signals := rb_signals st |}.

(** After the pump: the transient "processing edge" on the next row, at
    most every 14 ms, and [row++]. *)
Definition edge_step (st : rebuild_state) : result rebuild_state :=
  if 14 <? wrap64 (timemillis (rb_clock st) - rb_last st) then
    vid' ← span_store (λ _, edge_marker) (Z.to_nat wd) 0 wd (rb_row st <? ht)
              (wrap64 (wrap64 (rb_row st + 1) * wd)) (rb_vid st);
    Ret {| rb_pos := rb_pos st; rb_row := wrap64 (rb_row st + 1); rb_vid := vid';
           rb_dr := rb_dr st; rb_cr := rb_cr st;
           rb_last := wrap64 (timemillis (S (rb_clock st)));
           rb_dirty := false; rb_clock := S (S (rb_clock st));
           rb_signals := S (rb_signals st) |}
  else
    Ret {| rb_pos := rb_pos st; rb_row := wrap64 (rb_row st + 1); rb_vid := rb_vid st;
           rb_dr := rb_dr st; rb_cr := rb_cr st; rb_last := rb_last st;
           rb_dirty := rb_dirty st; rb_clock := S (rb_clock st);
           rb_signals := rb_signals st |}.

(** [while (pos + step_sz < map_sz && row < c->h){ ... }]; the boolean is
    false when the pump stopped the rebuild.  [row] grows by one per turn
    and stays below [c->h], so [c->h] turns of fuel are never used up. *)
Fixpoint rebuild_rows (fuel : nat) (st : rebuild_state)
  : result (bool * rebuild_state) :=
  match fuel with
  | O => Ret (true, st)
  | S fuel' =>
      if (wrap64 (rb_pos st + step_sz) <? m_sz) && (rb_row st <? ht)
      then
        st1 ← row_body st;
        if negb (pump (rb_row st)) then Ret (false, st1)
        else st2 ← edge_step st1; rebuild_rows fuel' st2
      else Ret (true, st)
  end.
End Rebuild.

Definition set_last_pos (wnd : data_window) (p : Z) : data_window :=
  {| pipe_in := pipe_in wnd; last_pos := p; last_pos_sz := last_pos_sz wnd;
     last_count_px := last_count_px wnd; last_coord := last_coord wnd |}.

Definition set_view (fs : fsense_t) (c : arcan_shmif_cont) (wnd : data_window)
  : fsense_t :=
  {| map := map fs; map_sz := map_sz fs; cont := c; cutoff := cutoff fs;
     detailed := detailed fs; in_rebuild := false; windows_0 := wnd |}.

(** ** Events *)

Inductive target_kind : Type := TARGET_COMMAND_DISPLAYHINT | TARGET_COMMAND_OTHER.
Inductive io_devkind : Type := EVENT_IDEVKIND_MOUSE | EVENT_IDEVKIND_OTHER.
Inductive io_datatype : Type := EVENT_IDATATYPE_DIGITAL | EVENT_IDATATYPE_OTHER.

(** [arcan_event], a tagged union: the target command with its first two
    integer arguments, or the input sample. *)
Inductive arcan_event : Type :=
| EVENT_TARGET (kind : target_kind) (iv0 iv1 : Z)
| EVENT_IO (devkind : io_devkind) (datatype : io_datatype) (active : bool)
| EVENT_OTHER.

(** The state in which the loop of [rebuild_preview] starts: [pos = 0],
    [row = 0], the cleared buffer, and the first reading of the clock. *)
Definition rebuild_start (timemillis : nat → Z) (dr0 cr0 vid0 : list Z)
  : rebuild_state :=
  {| rb_pos := 0; rb_row := 0; rb_vid := vid0; rb_dr := dr0; rb_cr := cr0;
     rb_last := wrap64 (timemillis 0%nat); rb_dirty := false; rb_clock := 1;
     rb_signals := 0 |}.

Section Coordinator.
Variable pump : Z → bool.
Variable timemillis : nat → Z.
(** [wnd->ch->size(wnd->ch)] at the time of the overlay update. *)
Variable ch_size : Z.
(** What the automatic arrays [dr] and [cr] hold when [rebuild_preview]
    starts: they are declared without an initialiser. *)
Variable dr0 cr0 : list Z.

Definition rebuild_preview (fs : fsense_t) (m : list byte) (m_sz : Z)
    (cut : spec_float) (detail : bool) : result (bool * fsense_t * nat) :=
  let c := cont fs in
  s0 ← udiv m_sz (wrap64 (w c * h c));
  let step_sz := if s0 =? 0 then 1 else s0 in
  (* clear before generating preview *)
  vid0 ← span_store (λ _, clear_color) (Z.to_nat (wrap64 (w c * h c))) 0
           (wrap64 (w c * h c)) true 0 (vidp c);
  '(completed, st) ← rebuild_rows pump timemillis m m_sz cut detail (w c) (h c)
                       step_sz (Z.to_nat (h c))
                       (rebuild_start timemillis dr0 cr0 vid0);
  let c1 := set_vidp c (rb_vid st) in
  if negb completed then Ret (false, set_view fs c1 (windows_0 fs), rb_signals st)
  else if rb_dirty st then
    let pos := last_pos (windows_0 fs) in
    '(c2, wnd2) ← update_region (map_sz fs) c1
                    (set_last_pos (windows_0 fs) (2 ^ 64 - 1)) pos ch_size;
    Ret (true, set_view fs c2 wnd2, S (rb_signals st))
  else Ret (true, set_view fs c1 (windows_0 fs), rb_signals st).

(** [senseye_resize(cont, w, h)]: the resized segment, or [None] when the
    request is refused. *)
Variable senseye_resize : arcan_shmif_cont → Z → Z → option arcan_shmif_cont.
(** [arcan_shmif_mousestate]: the result of the call that consumes the
    event, and the [x], [y] (two [int]) reported by the query call. *)
Variable mouse_moved : bool.
Variable mouse_xy : Z * Z.

(** The result carries the offset handed to [write] on the request pipe of
    the window, if any. *)
Definition control_event (fs : fsense_t) (ev : arcan_event)
  : result (fsense_t * option Z) :=
  let c := cont fs in
  fs1 ← match ev with
        | EVENT_TARGET TARGET_COMMAND_DISPLAYHINT iv0 iv1 =>
            let dev := (negb (iv0 =? 0) && negb (iv1 =? 0))
                       && ((0 <? Z.abs (iv0 - sint32 (w c)))
                           || (0 <? Z.abs (iv1 - sint32 (h c)))) in
            if dev then
              match senseye_resize c iv0 iv1 with
              | Some c' =>
                  let fs' := {| map := map fs; map_sz := map_sz fs; cont := c';
                                cutoff := cutoff fs; detailed := detailed fs;
                                in_rebuild := in_rebuild fs;
                                windows_0 := windows_0 fs |} in
                  '(_, fs'', _) ← rebuild_preview fs' (map fs) (map_sz fs)
                                    (cutoff fs) (detailed fs);
                  Ret fs''
              | None => Ret fs
              end
            else Ret fs
        | _ => Ret fs
        end;
  match ev with
  | EVENT_IO EVENT_IDEVKIND_MOUSE datatype active =>
      let c := cont fs1 in
      s0 ← udiv (map_sz fs1) (wrap64 (w c * h c));
      let step_sz := if s0 =? 0 then 1 else s0 in
      let bytes_perline := wrap64 (step_sz * w c) in
      if mouse_moved then Ret (fs1, None)
      else
        match datatype with
        | EVENT_IDATATYPE_DIGITAL =>
            if active then
              let '(x, y) := mouse_xy in
              let ofs := wrap64 (wrap64 (wrap64 y * bytes_perline)
                                 + wrap64 (wrap64 x * step_sz)) in
              Ret (fs1, Some ofs)
            else Ret (fs1, None)
        | _ => Ret (fs1, None)
        end
  | _ => Ret (fs1, None)
  end.
End Coordinator.

(** ** Vocabulary of the statements *)

(** [paint f lo hi v]: [f] applied to the pixels with index in [lo, hi). *)
Definition paint (f : Z → Z) (lo hi : Z) (v : list Z) : list Z :=
  imap (λ i x, if bool_decide (lo ≤ Z.of_nat i < hi) then f x else x) v.

(** Index of [endm], one past the last pixel that [update_region] touches. *)
Definition endm (c : arcan_shmif_cont) : Z := wrap64 (h c * pitch c).

(** The pixel that a pointer points to, counted from [vidp]: negative for an
    address below the buffer. *)
Definition pixel_of (c : arcan_shmif_cont) (ptr : Z) : Z :=
  (ptr - vidp_addr c) / 4.

(** The pixel run recorded in a window: the pixels [run_lo, run_hi), where
    [run_lo] is the pixel that the pointer to [last_coord] points to. *)
Definition run_lo (c : arcan_shmif_cont) (wnd : data_window) : Z :=
  pixel_of c (pixel_ptr c (coord_index c (last_coord wnd))).
Definition run_hi (c : arcan_shmif_cont) (wnd : data_window) : Z :=
  Z.min (run_lo c wnd + last_count_px wnd) (endm c).

Definition in_run (c : arcan_shmif_cont) (wnd : data_window) (i : nat) : Prop :=
  last_pos_sz wnd ≠ 0 ∧ run_lo c wnd ≤ Z.of_nat i < run_hi c wnd.

(** The buffer after the first half of [update_region]. *)
Definition unpainted (c : arcan_shmif_cont) (wnd : data_window) : list Z :=
  if last_pos_sz wnd =? 0 then vidp c
  else paint (Z.land mask) (run_lo c wnd) (run_hi c wnd) (vidp c).

(** [vidp] points to a buffer of [h * pitch] pixels, which lies in the
    address space as every object does: its last byte is below 2^64. *)
Definition buffer_ok (c : arcan_shmif_cont) : Prop :=
  Z.of_nat (length (vidp c)) = h c * pitch c
  ∧ 0 ≤ vidp_addr c ∧ vidp_addr c + 4 * (h c * pitch c) < 2 ^ 64.

Definition count_ok (wnd : data_window) : Prop :=
  0 ≤ last_count_px wnd < 2 ^ 64.

Definition uint64 (z : Z) : Prop := 0 ≤ z < 2 ^ 64.

(** The window that [update_region] stores when it paints. *)
Definition painted_window (map_sz : Z) (c : arcan_shmif_cont) (wnd : data_window)
    (new_pos count : Z) : data_window :=
  let step_sz := map_sz / wrap64 (w c * h c) in
  let bytes_perline := wrap64 (step_sz * w c) in
  let coord1 := new_pos / bytes_perline in
  let coord0 := wrap64 (new_pos - wrap64 (coord1 * bytes_perline)) / step_sz in
  let nr := count / bytes_perline in
  let q := wrap64 (count - wrap64 (nr * bytes_perline)) / step_sz in
  {| pipe_in := pipe_in wnd; last_pos := new_pos; last_pos_sz := count;
     last_count_px := wrap64 (wrap64 (nr * w c) + q);
     last_coord := (coord0, coord1) |}.

(** The coordinates that [update_region] computes for an offset, and the
    pixel that the pointer to them points to. *)
Definition offset_coord (map_sz : Z) (c : arcan_shmif_cont) (new_pos : Z) : Z * Z :=
  let step_sz := map_sz / wrap64 (w c * h c) in
  let bytes_perline := wrap64 (step_sz * w c) in
  let coord1 := new_pos / bytes_perline in
  (wrap64 (new_pos - wrap64 (coord1 * bytes_perline)) / step_sz, coord1).

Definition offset_lo (map_sz : Z) (c : arcan_shmif_cont) (new_pos : Z) : Z :=
  pixel_of c (pixel_ptr c (coord_index c (offset_coord map_sz c new_pos))).

(** Neither pixel pointer of the overlay update that ends a rebuild lies
    below the buffer: the one to the run that the window records, and the
    one computed for the offset that the window holds. *)
Definition overlay_reach (fs : fsense_t) : Prop :=
  0 ≤ run_lo (cont fs) (windows_0 fs)
  ∧ 0 ≤ offset_lo (map_sz fs) (cont fs) (last_pos (windows_0 fs)).

Definition cleared_window (wnd : data_window) : data_window :=
  {| pipe_in := pipe_in wnd; last_pos := last_pos wnd; last_pos_sz := 0;
     last_count_px := last_count_px wnd; last_coord := last_coord wnd |}.

(** The three ways through [update_region]. *)
Inductive update_case (map_sz : Z) (c : arcan_shmif_cont) (wnd : data_window)
    (new_pos count : Z) : arcan_shmif_cont → data_window → Prop :=
| update_same :
    last_pos wnd = new_pos →
    update_case map_sz c wnd new_pos count c wnd
| update_unpaint :
    last_pos wnd ≠ new_pos → count = 0 →
    update_case map_sz c wnd new_pos count
      (set_vidp c (unpainted c wnd)) (cleared_window wnd)
| update_repaint :
    last_pos wnd ≠ new_pos → count ≠ 0 →
    map_sz / wrap64 (w c * h c) ≠ 0 →
    wrap64 (map_sz / wrap64 (w c * h c) * w c) ≠ 0 →
    let wnd' := painted_window map_sz c wnd new_pos count in
    update_case map_sz c wnd new_pos count
      (set_vidp c (paint (Z.lor olay) (run_lo c wnd') (run_hi c wnd')
                     (unpainted c wnd)))
      wnd'.

(** The divisors of [update_region] are not zero. *)
Definition geometry_ok (map_sz : Z) (c : arcan_shmif_cont) : Prop :=
  wrap64 (w c * h c) ≠ 0
  ∧ map_sz / wrap64 (w c * h c) ≠ 0
  ∧ wrap64 (map_sz / wrap64 (w c * h c) * w c) ≠ 0.

(** SampleStep and bytesPerRow of the design document. *)
Definition sample_step (map_sz : Z) (c : arcan_shmif_cont) : Z :=
  Z.max 1 (map_sz / (w c * h c)).
Definition bytes_per_row (map_sz : Z) (c : arcan_shmif_cont) : Z :=
  sample_step map_sz c * w c.

(** The stored run agrees with the stored offset and size. *)
Definition window_consistent (map_sz : Z) (c : arcan_shmif_cont)
    (wnd : data_window) : Prop :=
  last_pos_sz wnd ≠ 0 →
  last_coord wnd
  = ((last_pos wnd mod bytes_per_row map_sz c) / sample_step map_sz c,
     last_pos wnd / bytes_per_row map_sz c)
  ∧ last_count_px wnd
    = last_pos_sz wnd / bytes_per_row map_sz c * w c
      + (last_pos_sz wnd mod bytes_per_row map_sz c) / sample_step map_sz c.


Record raster_ok (map_sz : Z) (c : arcan_shmif_cont) : Prop := {
  raster_w : 0 < w c;
  raster_h : 0 < h c;
  raster_fits : w c * h c ≤ map_sz;
  raster_size : map_sz < 2 ^ 64;
  raster_buffer : buffer_ok c
}.


(** The run did not stop on a read outside the mapped file. *)
Definition no_read_fault {A} (r : result A) : Prop :=
  ∀ idx, r ≠ Err (ReadOutOfBounds idx).

(** The state in which the loop of [rebuild_rows] starts row [n], when the
    pump lets the first [n] rows through. *)
Fixpoint iter_rows (timemillis : nat → Z) (m : list byte) (m_sz : Z)
    (cut : spec_float) (detail : bool) (wd ht step_sz : Z) (n : nat)
    (st : rebuild_state) : result rebuild_state :=
  match n with
  | O => Ret st
  | S n' =>
      st1 ← row_body m m_sz cut detail wd step_sz st;
      st2 ← edge_step timemillis wd ht st1;
      iter_rows timemillis m m_sz cut detail wd ht step_sz n' st2
  end.

(** Invariant of the loop of [rebuild_rows]. *)
Definition rows_inv (m_sz wd ht step_sz : Z) (st : rebuild_state) : Prop :=
  0 ≤ rb_row st ≤ ht ∧ rb_pos st ≤ m_sz
  ∧ (rb_pos st = rb_row st * wd * step_sz ∨ rb_pos st = m_sz)
  ∧ wd * ht ≤ Z.of_nat (length (rb_vid st)).

(** Row [r] is about to start and the rows below it are still clear. *)
Definition rows_clear (wd ht step_sz : Z) (st : rebuild_state) (r : Z) : Prop :=
  rb_row st = r ∧ rb_pos st = r * wd * step_sz
  ∧ wd * ht ≤ Z.of_nat (length (rb_vid st))
  ∧ ∀ j : nat, (r + 1) * wd ≤ Z.of_nat j < wd * ht →
               rb_vid st !! j = Some clear_color.

(** ** The real value of a float *)

Definition pow2 (e : Z) : R := powerRZ 2 e.

(** The value of the mantissa [m] at the exponent [e]. *)
Definition F2R (m e : Z) : R := (IZR m * pow2 e)%R.

(** A positive float in canonical normal form. *)
Definition canonical (prec emax : Z) (m : positive) (e : Z) : Prop :=
  2 ^ (prec - 1) ≤ Z.pos m < 2 ^ prec ∧ emin prec emax ≤ e ≤ emax - prec.

(** One unit in the last place, relative: twice the unit roundoff. *)
Definition eps_rel (prec : Z) : R := pow2 (1 - prec).

(** The reals whose rounding is a normal number, with room on both sides. *)
Definition in_range (prec emax : Z) (x : R) : Prop :=
  (pow2 (emin prec emax + prec + 1) <= x < pow2 (emax - 2))%R.

(** [x] is a positive normal number of the format and [v] is its value. *)
Definition is_float (prec emax : Z) (x : spec_float) (v : R) : Prop :=
  ∃ m e, x = S754_finite false m e ∧ canonical prec emax m e ∧ v = F2R (Z.pos m) e.

(** [v] is within one unit in the last place of [x]. *)
Definition near (prec : Z) (v x : R) : Prop :=
  (Rabs (v - x) <= eps_rel prec * x)%R.

(** [v] lies between [l * x] and [h * x]. *)
Definition within (l h v x : R) : Prop := (l * x <= v <= h * x)%R.

(** The value of [EPSILON]. *)
Definition EPSILON_R : R := F2R 14073749 (-47).

(** ** A row compared with itself *)

(** The number of samples a histogram holds. *)
Definition hsum (l : list Z) : Z := foldr Z.add 0 l.

(** [int32_t hist[256]] with counts that have not wrapped. *)
Definition histogram (a : list Z) : Prop :=
  length a = 256%nat ∧ Forall (λ c, 0 ≤ c < 2 ^ 31) a.

(** The exact value of [sum_1] after [i] bins. *)
Definition share (a : list Z) (i : nat) : R :=
  ((IZR (hsum (take i a)) + INR i * EPSILON_R) / IZR (hsum a))%R.

(** What one turn of the loop loses and gains at most: a rounding to
    [double] and one to [float]. *)
Definition step_lo : R := ((1 - 1 / 8388608) * (1 - 1 / 4503599627370496))%R.
Definition step_hi : R := ((1 + 1 / 8388608) * (1 + 1 / 4503599627370496))%R.

(** The same for the term of one bin. *)
Definition bin_lo : R := (1 - 7 / 8388608)%R.
Definition bin_hi : R := (1 + 7 / 8388608)%R.

(** The accumulators [bcf] and [sum_1] after [i] bins of a row compared with
    itself. *)
Definition acc_ok (a : list Z) (i : nat) (bcf sum_1 : spec_float) : Prop :=
  ∃ bv sv,
    is_float 24 128 bcf bv ∧ is_float 24 128 sum_1 sv
    ∧ within (step_lo ^ i * bin_lo) (step_hi ^ i * bin_hi) bv (share a i)
    ∧ within (step_lo ^ i * bin_lo) (step_hi ^ i * bin_hi) sv (share a i).

(** ** Concrete inputs *)

Definition fresh_window : data_window :=
  {| pipe_in := []; last_pos := 0; last_pos_sz := 0; last_count_px := 0;
     last_coord := (0, 0) |}.

Definition raster_2x2 : arcan_shmif_cont :=
  {| w := 2; h := 2; pitch := 2; vidp_addr := 0x10000; vidp := replicate 4 0 |}.

Definition raster_4x4 : arcan_shmif_cont :=
  {| w := 4; h := 4; pitch := 4; vidp_addr := 0x10000;
     vidp := replicate 16 clear_color |}.

(** The default preview of the command line, 128 x 512. *)
Definition raster_default : arcan_shmif_cont :=
  {| w := 128; h := 512; pitch := 128; vidp_addr := 0x10000;
     vidp := replicate (Z.to_nat 65536) clear_color |}.

(** The window and the raster left by a first highlight at offset 0. *)
Definition highlighted_window : data_window :=
  {| pipe_in := []; last_pos := 0; last_pos_sz := 1; last_count_px := 1;
     last_coord := (0, 0) |}.
Definition highlighted_raster : arcan_shmif_cont :=
  {| w := 4; h := 4; pitch := 4; vidp_addr := 0x10000;
     vidp := Z.lor olay clear_color :: replicate 15 clear_color |}.

Definition file_8 : list byte := [x00; x01; x02; x03; x04; x05; x06; x07].

(** The default cutoff of the command line, [0.9] as a [float]. *)
Definition cutoff_default : spec_float := SFdiv 24 128 (f32_of_Z 9) (f32_of_Z 10).

Definition fsense_8 : fsense_t :=
  {| map := file_8; map_sz := 8; cont := raster_2x2; cutoff := cutoff_default;
     detailed := false; in_rebuild := false; windows_0 := fresh_window |}.

Definition fsense_1k : fsense_t :=
  {| map := replicate 1024 x00; map_sz := 1024;
     cont := {| w := 16; h := 16; pitch := 16; vidp_addr := 0x10000;
               vidp := replicate 256 clear_color |};
     cutoff := S754_nan; detailed := false; in_rebuild := false;
     windows_0 := fresh_window |}.

(** A histogram given by its non-zero bins. *)
Definition hist_of (l : list (nat * Z)) : list Z :=
  foldr (λ '(i, n) acc, <[i := n]> acc) histo_zero l.

(** A row of 64 zero bytes. *)
Definition hist_64 : list Z := hist_of [(0%nat, 64)].

(** ** The main loop *)

(** The worker writes its offsets to the pipe of the window. *)
Definition pipe_write (wnd : data_window) (msgs : list Z) : data_window :=
  set_pipe_in wnd (pipe_in wnd ++ msgs).

(** [while (senseye_pump(&fsense.cont, true)){ ... }] of [main], for the
    single window.  Each turn is given by what the worker has written since
    the turn before and by the channel size that [update_region] reads;
    the list ends when the pump returns false.  The events that the pump
    dispatches between two turns are not part of this model: the raster and
    the window go from one turn to the next as they are.  The result carries
    the number of frames signalled. *)
Fixpoint main_loop (map_sz : Z) (c : arcan_shmif_cont) (wnd : data_window)
    (frames : nat) (turns : list (list Z * Z))
  : result (arcan_shmif_cont * data_window * nat) :=
  match turns with
  | [] => Ret (c, wnd, frames)
  | (msgs, count) :: turns' =>
      '(c', wnd', dirty) ← main_loop_body map_sz c (pipe_write wnd msgs) count;
      main_loop map_sz c' wnd' (if dirty : bool then S frames else frames) turns'
  end.

(** The offsets the worker sent, oldest first. *)
Definition offsets_sent (turns : list (list Z * Z)) : list Z :=
  concat (turns.*1).

(** ** The options of [main] *)

(** What [getopt_long] returns to the [switch] of [main], with the
    conversion of [optarg] that the case performs.  The cases with an
    argument are those in which [optarg] points to one. *)
Inductive getopt_case : Type :=
| case_help                                 (* '?' *)
| case_pcomp (strtof_optarg : spec_float)   (* 'p', strtof(optarg, NULL) *)
| case_pdetail                              (* 'd' *)
| case_wrap                                 (* 'W' *)
| case_width (strtol_optarg : Z)            (* 'w', strtol(optarg, NULL, 10) *)
| case_height (strtol_optarg : Z).          (* 'h' *)

Inductive exit_status : Type := EXIT_SUCCESS | EXIT_FAILURE.

(** The variables that the option loop sets: the locals [p_w], [p_h],
    [detailed] and [wrap] of [main], and [fsense.cutoff]. *)
Record main_opts : Type := {
  p_w : Z;
  p_h : Z;
  opt_detailed : bool;
  opt_wrap : bool;
  opt_cutoff : spec_float
}.

Definition is_inf (x : spec_float) : bool :=
  match x with S754_infinity _ => true | _ => false end.

(** The [double] constant [0.9]. *)
Definition f64_0_9 : spec_float := SFdiv 53 1024 (f64_of_Z 9) (f64_of_Z 10).

(** [cutoff = (isinf(cutoff)||isnan(cutoff)||cutoff<=0.0||cutoff>1.0) ?
    0.9 : cutoff;] with the comparisons and the conditional in [double]. *)
Definition pcomp_cutoff (cutoff : spec_float) : spec_float :=
  f32_of_f64
    (if is_inf cutoff || is_nan cutoff
        || SFleb (f64_of_f32 cutoff) (S754_zero false)
        || SFltb (f64_of_Z 1) (f64_of_f32 cutoff)
     then f64_0_9 else f64_of_f32 cutoff).

(** The state before the first option: [fsense.cutoff = NAN]. *)
Definition main_opts_init : main_opts :=
  {| p_w := 128; p_h := 512; opt_detailed := false; opt_wrap := false;
     opt_cutoff := S754_nan |}.

Section Options.
(** The limits of arcan_shmif.h, which the source file does not define. *)
Variable PP_SHMPAGE_MAXW PP_SHMPAGE_MAXH : Z.

(** One turn of [while ((ch = getopt_long(...)) >= 0) switch (ch){ ... }]:
    the exit status when the case returns from [main]. *)
Definition option_case (o : main_opts) (ch : getopt_case)
  : exit_status + main_opts :=
  match ch with
  | case_help => inl EXIT_SUCCESS
  | case_pcomp f =>
      inr {| p_w := p_w o; p_h := p_h o; opt_detailed := opt_detailed o;
             opt_wrap := opt_wrap o; opt_cutoff := pcomp_cutoff f |}
  | case_pdetail =>
      inr {| p_w := p_w o; p_h := p_h o; opt_detailed := true;
             opt_wrap := opt_wrap o; opt_cutoff := opt_cutoff o |}
  | case_wrap =>
      inr {| p_w := p_w o; p_h := p_h o; opt_detailed := opt_detailed o;
             opt_wrap := true; opt_cutoff := opt_cutoff o |}
  | case_width n =>
      let v := wrap64 n in
      if (v =? 0) || (PP_SHMPAGE_MAXW <? v) then inl EXIT_FAILURE
      else inr {| p_w := v; p_h := p_h o; opt_detailed := opt_detailed o;
                  opt_wrap := opt_wrap o; opt_cutoff := opt_cutoff o |}
  | case_height n =>
      let v := wrap64 n in
      if (v =? 0) || (PP_SHMPAGE_MAXH <? v) then inl EXIT_FAILURE
      else inr {| p_w := p_w o; p_h := v; opt_detailed := opt_detailed o;
                  opt_wrap := opt_wrap o; opt_cutoff := opt_cutoff o |}
  end.

Fixpoint option_loop (o : main_opts) (chs : list getopt_case)
  : exit_status + main_opts :=
  match chs with
  | [] => inr o
  | ch :: chs' =>
      match option_case o ch with
      | inl status => inl status
      | inr o' => option_loop o' chs'
      end
  end.
End Options.

Definition is_pcomp (ch : getopt_case) : bool :=
  match ch with case_pcomp _ => true | _ => false end.

(** [x] is a zero, a finite number or an infinity of sign [sx]. *)
Definition has_sign (sx : bool) (x : spec_float) : Prop :=
  match x with
  | S754_zero s | S754_infinity s | S754_finite s _ _ => s = sx
  | S754_nan => False
  end.

(** ** Vocabulary of the further statements *)

(** Pixel [j] of the buffer carries, in its green channel and with full
    alpha, the byte of the file at offset [j * step_sz]. *)
Definition pixel_shows (m : list byte) (step_sz : Z) (vid : list Z) (j : nat) : Prop :=
  ∃ g px,
    map_read m (Z.of_nat j * step_sz) = Ret g
    ∧ vid !! j = Some px
    ∧ Z.land mask px = SHMIF_RGBA 0x00 g 0x00 0xff.

(** The [n]-th reading of the clock is at most 14 ms after the first. *)
Definition quiet (timemillis : nat → Z) (n : nat) : Prop :=
  wrap64 (timemillis n - wrap64 (timemillis 0%nat)) ≤ 14.

(** Invariant of the loop of [rebuild_rows] while the clock stays quiet:
    the rows done show their samples, and no marker has been drawn. *)
Definition quiet_inv (timemillis : nat → Z) (m : list byte)
    (m_sz wd ht step_sz : Z) (st : rebuild_state) : Prop :=
  0 ≤ rb_row st ≤ ht
  ∧ (rb_pos st = rb_row st * wd * step_sz ∨ rb_pos st = m_sz)
  ∧ rb_pos st ≤ m_sz ∧ rb_pos st ≤ rb_row st * wd * step_sz
  ∧ wd * ht ≤ Z.of_nat (length (rb_vid st))
  ∧ rb_last st = wrap64 (timemillis 0%nat)
  ∧ rb_clock st = S (Z.to_nat (rb_row st))
  ∧ ∀ j : nat, Z.of_nat j < rb_row st * wd → Z.of_nat j * step_sz < m_sz →
               pixel_shows m step_sz (rb_vid st) j.

(** The histogram [dr] holds [k] samples. *)
Definition counts (dr : list Z) (k : Z) : Prop :=
  length dr = 256%nat ∧ Forall (λ c, 0 ≤ c) dr ∧ hsum dr = k.

(** A [float] that is zero, or positive, normal and at most 1. *)
Definition unit_score (x : spec_float) : Prop :=
  x = S754_zero false ∨ ∃ v, is_float 24 128 x v ∧ (0 < v <= 1)%R.

(** What [bcf] holds after [i] bins of two rows of the same weight, when no
    bin adds more than [t]. *)
Definition bcf_ok (t : R) (i : nat) (bcf : spec_float) : Prop :=
  ∃ bv, is_float 24 128 bcf bv
        ∧ (1 / 10000000000000000000 <= bv <= INR i * t)%R.

(** The histogram of [k] samples of the byte [g]. *)
Definition uniform_hist (g k : Z) : list Z := <[Z.to_nat g := k]> histo_zero.

(** The pixels of the row [r] of a file whose row [r] repeats the byte
    [rowbyte r]: the sample, tinted when the byte is not that of the row
    before. *)
Definition row_pixel (rowbyte : Z → Z) (r : Z) : Z :=
  if rowbyte r =? rowbyte (r - 1)
  then SHMIF_RGBA 0x00 (rowbyte r) 0x00 0xff
  else Z.lor edge_tint (SHMIF_RGBA 0x00 (rowbyte r) 0x00 0xff).

(** Invariant of the loop of [rebuild_rows] on such a file, with rows of
    [k] samples: from the second row on [dr] starts from zero, from the
    third on [cr] is the histogram of the row before, and the rows from the
    third on are drawn as [row_pixel] says. *)
Definition uniform_inv (rowbyte : Z → Z) (k wd : Z) (st : rebuild_state) : Prop :=
  (1 ≤ rb_row st → rb_dr st = histo_zero)
  ∧ (2 ≤ rb_row st → rb_cr st = uniform_hist (rowbyte (rb_row st - 1)) k)
  ∧ ∀ j : nat, 2 * wd ≤ Z.of_nat j < rb_row st * wd →
               rb_vid st !! j = Some (row_pixel rowbyte (Z.of_nat j / wd)).

(** A 16-byte file of two rows of 0x00 and two rows of 0xff, on the 4x4
    raster. *)
Definition file_striped : list byte := replicate 8 x00 ++ replicate 8 xff.
Definition fsense_striped : fsense_t :=
  {| map := file_striped; map_sz := 16; cont := raster_4x4; cutoff := cutoff_default;
     detailed := false; in_rebuild := false; windows_0 := fresh_window |}.

(** Two runs end alike: with the same fault, or with results that [R]
    relates. *)
Definition same_outcome {A : Type} (R : A → A → Prop) (x y : result A) : Prop :=
  match x, y with
  | Ret a, Ret a' => R a a'
  | Err f, Err f' => f = f'
  | _, _ => False
  end.

(** Two buffers of the same length whose pixels differ at most in the red
    channel, and not at all from the index [lim] on. *)
Definition vid_sim (lim : Z) (v v' : list Z) : Prop :=
  length v = length v'
  ∧ ∀ (j : nat) (x y : Z), v !! j = Some x → v' !! j = Some y →
      Z.lor edge_tint x = Z.lor edge_tint y ∧ (lim ≤ Z.of_nat j → x = y).

(** The operations on pixels that keep [vid_sim]. *)
Definition keeps_sim (f : Z → Z) : Prop :=
  ∀ x y, Z.lor edge_tint x = Z.lor edge_tint y →
         Z.lor edge_tint (f x) = Z.lor edge_tint (f y).

(** Two states of the loop of [rebuild_rows] before the row [r], reached
    from different contents of [dr] and [cr]: with the comparison on, [dr]
    is the same from the second row on and [cr] from the third. *)
Definition rebuild_sim (cut : spec_float) (lim r : Z) (st st' : rebuild_state)
  : Prop :=
  rb_pos st = rb_pos st' ∧ rb_row st = rb_row st' ∧ rb_last st = rb_last st'
  ∧ rb_dirty st = rb_dirty st' ∧ rb_clock st = rb_clock st'
  ∧ rb_signals st = rb_signals st'
  ∧ vid_sim lim (rb_vid st) (rb_vid st')
  ∧ (is_nan cut = false →
     (1 ≤ r → rb_dr st = rb_dr st') ∧ (2 ≤ r → rb_cr st = rb_cr st')).

(** Two results of [rebuild_preview] that differ at most in the red channel
    of the pixels below [lim]. *)
Definition preview_sim (lim : Z) (x y : bool * fsense_t * nat) : Prop :=
  x.1.1 = y.1.1 ∧ x.2 = y.2
  ∧ map x.1.2 = map y.1.2 ∧ map_sz x.1.2 = map_sz y.1.2
  ∧ cutoff x.1.2 = cutoff y.1.2 ∧ detailed x.1.2 = detailed y.1.2
  ∧ in_rebuild x.1.2 = in_rebuild y.1.2 ∧ windows_0 x.1.2 = windows_0 y.1.2
  ∧ w (cont x.1.2) = w (cont y.1.2) ∧ h (cont x.1.2) = h (cont y.1.2)
  ∧ pitch (cont x.1.2) = pitch (cont y.1.2)
  ∧ vid_sim lim (vidp (cont x.1.2)) (vidp (cont y.1.2)).

(** A resize that always gives a 4x4 segment. *)
Definition resize_4x4 (c : arcan_shmif_cont) (iv0 iv1 : Z) : option arcan_shmif_cont :=
  Some raster_4x4.



(** ** Further inputs *)

(** An 8-byte file on the 4x4 raster. *)
Definition fsense_short : fsense_t :=
  {| map := file_8; map_sz := 8; cont := raster_4x4; cutoff := cutoff_default;
     detailed := false; in_rebuild := false; windows_0 := fresh_window |}.

(** A clock that jumps by 100 ms before its third reading. *)
Definition clock_jump (n : nat) : Z := if (n <? 2)%nat then 0 else 100.

(** * Proofs *)

(** ** Machine arithmetic and the error monad *)

Lemma wrap64_small z : 0 ≤ z < 2 ^ 64 → wrap64 z = z.
Proof. intros Hz. unfold wrap64. apply Z.mod_small. exact Hz. Qed.

Lemma wrap64_range z : 0 ≤ wrap64 z < 2 ^ 64.
Proof. unfold wrap64. apply Z.mod_pos_bound. lia. Qed.

Lemma bind_Ret {A B} (a : A) (k : A → result B) : (Ret a ≫= k) = k a.
Proof. reflexivity. Qed.

Lemma bind_Err {A B} (f : fault) (k : A → result B) : (Err f ≫= k) = Err f.
Proof. reflexivity. Qed.

Lemma bind_inv {A B} (mm : result A) (k : A → result B) (b : B) :
  (mm ≫= k) = Ret b → ∃ a, mm = Ret a ∧ k a = Ret b.
Proof. destruct mm as [a|f]; [eauto | discriminate]. Qed.

Lemma udiv_Ret a b : b ≠ 0 → udiv a b = Ret (a / b).
Proof. intros Hb. unfold udiv. destruct (Z.eqb_spec b 0); [contradiction | reflexivity]. Qed.

Lemma udiv_inv a b q : udiv a b = Ret q → b ≠ 0 ∧ q = a / b.
Proof. unfold udiv. destruct (Z.eqb_spec b 0); [discriminate | intros [= <-]; auto]. Qed.

(** ** The pixel runs of the overlay *)

Lemma paint_lookup f lo hi v (i : nat) :
  paint f lo hi v !! i
  = (if bool_decide (lo ≤ Z.of_nat i < hi) then f <$> v !! i else v !! i).
Proof.
  unfold paint. rewrite list_lookup_imap.
  case_bool_decide; [reflexivity |]. by destruct (v !! i).
Qed.

Lemma length_paint f lo hi v : length (paint f lo hi v) = length v.
Proof. apply length_imap. Qed.

Lemma paint_empty f lo hi v : hi ≤ lo → paint f lo hi v = v.
Proof.
  intros Hle. apply list_eq. intros i. rewrite paint_lookup.
  case_bool_decide; [lia | reflexivity].
Qed.

Lemma paint_step f lo hi v :
  0 ≤ lo < hi → paint f (lo + 1) hi (alter f (Z.to_nat lo) v) = paint f lo hi v.
Proof.
  intros Hlo. apply list_eq. intros i. rewrite !paint_lookup.
  destruct (decide (Z.to_nat lo = i)) as [<- | Hne].
  - rewrite list_lookup_alter_eq.
    rewrite bool_decide_eq_false_2 by lia. rewrite bool_decide_eq_true_2 by lia. done.
  - rewrite list_lookup_alter_ne by done.
    case_bool_decide; case_bool_decide; try reflexivity; lia.
Qed.

Lemma vid_store_Ret f idx v :
  0 ≤ idx < Z.of_nat (length v) → vid_store f idx v = Ret (alter f (Z.to_nat idx) v).
Proof. intros H. unfold vid_store. destruct (Z.ltb_spec idx (Z.of_nat (length v))); [done | lia]. Qed.

(** *** Pixel pointers *)

Lemma pixel_ptr_range c idx : 0 ≤ pixel_ptr c idx < 2 ^ 64.
Proof. apply wrap64_range. Qed.

(** A pixel pointer is a whole number of pixels away from [vidp]. *)
Lemma pixel_ptr_of c idx :
  pixel_ptr c idx = vidp_addr c + 4 * pixel_of c (pixel_ptr c idx).
Proof.
  unfold pixel_of, pixel_ptr, wrap64.
  rewrite (Z.mod_eq (vidp_addr c + 4 * idx)) by lia.
  set (q := (vidp_addr c + 4 * idx) / 2 ^ 64).
  replace (vidp_addr c + 4 * idx - 2 ^ 64 * q - vidp_addr c)
    with ((idx - 2 ^ 62 * q) * 4) by lia.
  rewrite Z.div_mul by lia. lia.
Qed.

(** A pointer that does not wrap around points to the pixel of its index. *)
Lemma pixel_of_ptr c idx :
  0 ≤ vidp_addr c → 0 ≤ idx → vidp_addr c + 4 * idx < 2 ^ 64 →
  pixel_of c (pixel_ptr c idx) = idx.
Proof.
  intros Hb Hi Hlt. unfold pixel_of, pixel_ptr. rewrite wrap64_small by lia.
  replace (vidp_addr c + 4 * idx - vidp_addr c) with (idx * 4) by lia.
  apply Z.div_mul. lia.
Qed.

Lemma endm_eq_length c : buffer_ok c → endm c = Z.of_nat (length (vidp c)).
Proof.
  intros (Hl & Hb & Hlt). unfold endm. rewrite Hl. apply wrap64_small. lia.
Qed.

Lemma endm_le_length c : buffer_ok c → endm c ≤ Z.of_nat (length (vidp c)).
Proof. intros Hb. rewrite endm_eq_length by done. lia. Qed.

Lemma endm_ptr c : buffer_ok c → pixel_ptr c (endm c) = vidp_addr c + 4 * endm c.
Proof.
  intros Hb. pose proof (endm_eq_length c Hb). destruct Hb as (Hl & Hb & Hlt).
  unfold pixel_ptr. apply wrap64_small. lia.
Qed.

Lemma ptr_store_Ret f base p v :
  0 ≤ p < Z.of_nat (length v) →
  ptr_store f base (base + 4 * p) v = Ret (alter f (Z.to_nat p) v).
Proof.
  intros Hp. unfold ptr_store.
  replace (base + 4 * p - base) with (p * 4) by lia. rewrite Z.div_mul by lia.
  destruct (Z.leb_spec 0 p); [| lia].
  destruct (Z.ltb_spec p (Z.of_nat (length v))); [done | lia].
Qed.

Lemma ptr_store_below f base p v :
  p < 0 → ptr_store f base (base + 4 * p) v = Err (WriteOutOfBounds p).
Proof.
  intros Hp. unfold ptr_store.
  replace (base + 4 * p - base) with (p * 4) by lia. rewrite Z.div_mul by lia.
  destruct (Z.leb_spec 0 p); [lia | done].
Qed.

Lemma ptr_store_length f base dst v v' :
  ptr_store f base dst v = Ret v' → length v' = length v.
Proof.
  unfold ptr_store. destruct (_ && _); [| discriminate].
  intros [= <-]. apply length_alter.
Qed.

(** The loop from a pointer at or above the buffer: the pixels from the one
    it points to, [np] of them, as far as [endm]. *)
Lemma fill_paint f base e fuel : ∀ np p v,
  0 ≤ base → base + 4 * e < 2 ^ 64 → e ≤ Z.of_nat (length v) →
  0 ≤ p → base + 4 * p < 2 ^ 64 → 0 ≤ np < 2 ^ 64 →
  (Z.to_nat (e - p) ≤ fuel)%nat →
  fill f fuel np (base + 4 * p) (base + 4 * e) base v
  = Ret (paint f p (Z.min (p + np) e) v).
Proof.
  induction fuel as [|fuel IH]; intros np p v Hb He Hlen Hp Hpt Hnp Hfuel; simpl.
  - rewrite paint_empty by lia. reflexivity.
  - destruct (Z.eqb_spec np 0) as [-> | Hnz]; simpl.
    { rewrite paint_empty by lia. reflexivity. }
    destruct (Z.ltb_spec (base + 4 * p) (base + 4 * e)) as [Hlt | Hge]; simpl.
    2:{ rewrite paint_empty by lia. reflexivity. }
    rewrite ptr_store_Ret by lia. rewrite bind_Ret.
    rewrite (wrap64_small (np - 1)) by lia.
    rewrite (wrap64_small (base + 4 * p + 4)) by lia.
    replace (base + 4 * p + 4) with (base + 4 * (p + 1)) by lia.
    rewrite IH; [| lia | lia | rewrite length_alter; lia | lia | lia | lia | lia].
    f_equal. replace (p + 1 + (np - 1)) with (p + np) by lia.
    apply paint_step. lia.
Qed.

(** The loop from a pointer below the buffer: the first store is outside. *)
Lemma fill_below f base e fuel np p v :
  0 ≤ e → p < 0 → np ≠ 0 →
  fill f (S fuel) np (base + 4 * p) (base + 4 * e) base v
  = Err (WriteOutOfBounds p).
Proof.
  intros He Hp Hnp. simpl.
  destruct (Z.eqb_spec np 0) as [? | _]; [contradiction |]. simpl.
  destruct (Z.ltb_spec (base + 4 * p) (base + 4 * e)) as [_ | ?]; [| lia].
  by rewrite ptr_store_below.
Qed.

Lemma fill_run_paint c f np idx v :
  buffer_ok c → length v = length (vidp c) → 0 ≤ np < 2 ^ 64 →
  0 ≤ pixel_of c (pixel_ptr c idx) →
  fill_run f np (pixel_ptr c idx) (pixel_ptr c (wrap64 (h c * pitch c)))
    (vidp_addr c) v
  = Ret (paint f (pixel_of c (pixel_ptr c idx))
           (Z.min (pixel_of c (pixel_ptr c idx) + np) (endm c)) v).
Proof.
  intros Hb Hl Hnp Hp. fold (endm c). rewrite (endm_ptr c Hb).
  pose proof (endm_eq_length c Hb) as He. pose proof (pixel_ptr_range c idx) as Hr.
  rewrite (pixel_ptr_of c idx) in Hr |- * at 1.
  destruct Hb as (Hlen & Hb0 & Hlt). unfold endm in *.
  rewrite (wrap64_small (h c * pitch c)) in * by lia.
  unfold fill_run. apply fill_paint; try lia.
Qed.

Lemma fill_run_below c f np idx v :
  buffer_ok c → np ≠ 0 → pixel_of c (pixel_ptr c idx) < 0 →
  fill_run f np (pixel_ptr c idx) (pixel_ptr c (wrap64 (h c * pitch c)))
    (vidp_addr c) v
  = Err (WriteOutOfBounds (pixel_of c (pixel_ptr c idx))).
Proof.
  intros Hb Hnp Hp. fold (endm c). rewrite (endm_ptr c Hb).
  pose proof (endm_eq_length c Hb) as He.
  rewrite (pixel_ptr_of c idx) at 1.
  unfold fill_run. apply fill_below; [lia | done | done].
Qed.

(** Whenever the loop returns, it has painted the run of its pointer. *)
Lemma fill_run_inv c f np idx v v' :
  buffer_ok c → length v = length (vidp c) → 0 ≤ np < 2 ^ 64 →
  fill_run f np (pixel_ptr c idx) (pixel_ptr c (wrap64 (h c * pitch c)))
    (vidp_addr c) v = Ret v' →
  v' = paint f (pixel_of c (pixel_ptr c idx))
         (Z.min (pixel_of c (pixel_ptr c idx) + np) (endm c)) v.
Proof.
  intros Hb Hl Hnp H.
  destruct (Z.le_gt_cases 0 (pixel_of c (pixel_ptr c idx))) as [Hp | Hp].
  - rewrite fill_run_paint in H by done. by injection H as <-.
  - destruct (Z.eq_dec np 0) as [-> | Hnz].
    + unfold fill_run in H. simpl in H. injection H as <-.
      rewrite paint_empty by lia. reflexivity.
    + rewrite fill_run_below in H by done. discriminate.
Qed.

Lemma unpaint_eq c wnd :
  buffer_ok c → count_ok wnd → (last_pos_sz wnd ≠ 0 → 0 ≤ run_lo c wnd) →
  (if last_pos_sz wnd =? 0 then Ret (vidp c)
   else fill_run (Z.land mask) (last_count_px wnd)
          (pixel_ptr c (coord_index c (last_coord wnd)))
          (pixel_ptr c (wrap64 (h c * pitch c))) (vidp_addr c) (vidp c))
  = Ret (unpainted c wnd).
Proof.
  intros Hb Hc Hlo. unfold unpainted.
  destruct (Z.eqb_spec (last_pos_sz wnd) 0) as [? | Hnz]; [reflexivity |].
  rewrite fill_run_paint; [reflexivity | done | done | exact Hc | by apply Hlo].
Qed.

Lemma unpaint_inv c wnd v1 :
  buffer_ok c → count_ok wnd →
  (if last_pos_sz wnd =? 0 then Ret (vidp c)
   else fill_run (Z.land mask) (last_count_px wnd)
          (pixel_ptr c (coord_index c (last_coord wnd)))
          (pixel_ptr c (wrap64 (h c * pitch c))) (vidp_addr c) (vidp c))
  = Ret v1 →
  v1 = unpainted c wnd.
Proof.
  intros Hb Hc. unfold unpainted.
  destruct (Z.eqb_spec (last_pos_sz wnd) 0) as [? | Hnz]; [by intros [= <-] |].
  intros H. by apply fill_run_inv in H.
Qed.

Lemma length_unpainted c wnd : length (unpainted c wnd) = length (vidp c).
Proof. unfold unpainted. destruct (_ =? _); [done | apply length_paint]. Qed.

Lemma run_lo_painted map_sz c wnd new_pos count :
  run_lo c (painted_window map_sz c wnd new_pos count) = offset_lo map_sz c new_pos.
Proof. reflexivity. Qed.

Lemma update_region_cases map_sz c wnd new_pos count c' wnd' :
  buffer_ok c → count_ok wnd →
  update_region map_sz c wnd new_pos count = Ret (c', wnd') →
  wrap64 (w c * h c) ≠ 0 ∧ update_case map_sz c wnd new_pos count c' wnd'.
Proof.
  intros Hb Hc. unfold update_region.
  intros (step & [Hwh ->]%udiv_inv & H)%bind_inv. split; [exact Hwh |].
  destruct (Z.eqb_spec (last_pos wnd) new_pos) as [Heq | Hne].
  { injection H as <- <-. by constructor. }
  apply bind_inv in H as (v1 & Hv1 & H).
  apply unpaint_inv in Hv1; [| done | done]. subst v1.
  destruct (Z.eqb_spec count 0) as [-> | Hcnt].
  { injection H as <- <-. by constructor. }
  apply bind_inv in H as (coord1 & [Hbpl ->]%udiv_inv & H).
  apply bind_inv in H as (coord0 & [Hstep ->]%udiv_inv & H).
  apply bind_inv in H as (nr & [_ ->]%udiv_inv & H).
  apply bind_inv in H as (q & [_ ->]%udiv_inv & H).
  apply bind_inv in H as (v2 & Hv2 & H).
  apply fill_run_inv in Hv2;
    [| done | apply length_unpainted | apply wrap64_range].
  subst v2. injection H as <- <-.
  by apply update_repaint.
Qed.

Lemma update_region_same map_sz c wnd count :
  wrap64 (w c * h c) ≠ 0 →
  update_region map_sz c wnd (last_pos wnd) count = Ret (c, wnd).
Proof.
  intros Hwh. unfold update_region. rewrite udiv_Ret by exact Hwh. rewrite bind_Ret.
  by rewrite Z.eqb_refl.
Qed.

(** The call returns when neither of its two pointers lies below the
    buffer. *)
Lemma update_region_returns map_sz c wnd new_pos count :
  buffer_ok c → count_ok wnd →
  wrap64 (w c * h c) ≠ 0 →
  map_sz / wrap64 (w c * h c) ≠ 0 →
  wrap64 (map_sz / wrap64 (w c * h c) * w c) ≠ 0 →
  (last_pos_sz wnd ≠ 0 → 0 ≤ run_lo c wnd) →
  (count ≠ 0 → 0 ≤ offset_lo map_sz c new_pos) →
  ∃ c' wnd', update_region map_sz c wnd new_pos count = Ret (c', wnd').
Proof.
  intros Hb Hc Hwh Hstep Hbpl Hlo Hnew. unfold update_region.
  rewrite udiv_Ret by exact Hwh. rewrite bind_Ret.
  destruct (last_pos wnd =? new_pos); [eauto |].
  rewrite unpaint_eq by assumption. rewrite bind_Ret.
  destruct (Z.eqb_spec count 0) as [? | Hnz]; [eauto |].
  do 2 eexists.
  do 4 (lazymatch goal with
        | |- (udiv ?a ?b ≫= _) = _ =>
            rewrite (udiv_Ret a b) by assumption; rewrite bind_Ret; cbv beta zeta
        end).
  rewrite fill_run_paint;
    [| done | apply length_unpainted | apply wrap64_range | by apply Hnew].
  rewrite bind_Ret. reflexivity.
Qed.

Lemma in_run_set_vidp c v wnd i : in_run (set_vidp c v) wnd i ↔ in_run c wnd i.
Proof. reflexivity. Qed.

Lemma unpainted_lookup_out c wnd (i : nat) :
  ¬ in_run c wnd i → unpainted c wnd !! i = vidp c !! i.
Proof.
  intros Hout. unfold unpainted. destruct (Z.eqb_spec (last_pos_sz wnd) 0); [done |].
  rewrite paint_lookup. case_bool_decide; [| done].
  exfalso. apply Hout. by split.
Qed.

(** One call changes no pixel outside the run stored before it and the run
    stored after it. *)
Lemma update_case_frame map_sz c wnd o n c' wnd' (i : nat) :
  update_case map_sz c wnd o n c' wnd' →
  ¬ in_run c wnd i → ¬ in_run c' wnd' i → vidp c' !! i = vidp c !! i.
Proof.
  intros Hcase Hold Hnew. destruct Hcase as [Hsame | Hne Hz | Hne Hnz Hstep Hbpl wnd''].
  - reflexivity.
  - simpl. by apply unpainted_lookup_out.
  - simpl. rewrite paint_lookup. case_bool_decide as Hin.
    + exfalso. apply Hnew. split; [exact Hnz | exact Hin].
    + by apply unpainted_lookup_out.
Qed.

Lemma update_case_preserves map_sz c wnd o n c' wnd' :
  update_case map_sz c wnd o n c' wnd' →
  buffer_ok c → count_ok wnd →
  buffer_ok c' ∧ count_ok wnd' ∧ w c' = w c ∧ h c' = h c ∧ pitch c' = pitch c.
Proof.
  intros Hcase Hb Hc. destruct Hcase as [Hsame | Hne Hz | Hne Hnz Hstep Hbpl wnd''].
  - by split_and!.
  - split_and!; try done. unfold buffer_ok in *. simpl. by rewrite length_unpainted.
  - split_and!; try done.
    + unfold buffer_ok in *. simpl. by rewrite length_paint, length_unpainted.
    + unfold count_ok, wnd'', painted_window. simpl. apply wrap64_range.
Qed.

Lemma update_case_addr map_sz c wnd o n c' wnd' :
  update_case map_sz c wnd o n c' wnd' → vidp_addr c' = vidp_addr c.
Proof. by intros [Hsame | Hne Hz | Hne Hnz Hstep Hbpl wnd'']. Qed.

(** The geometry and the address of the buffer locate the runs. *)
Lemma run_lo_dims c c' wnd :
  pitch c' = pitch c → vidp_addr c' = vidp_addr c → run_lo c' wnd = run_lo c wnd.
Proof.
  intros Ep Ea. unfold run_lo, pixel_of, pixel_ptr, coord_index. by rewrite Ep, Ea.
Qed.

Lemma offset_lo_dims map_sz c c' o :
  w c' = w c → h c' = h c → pitch c' = pitch c → vidp_addr c' = vidp_addr c →
  offset_lo map_sz c' o = offset_lo map_sz c o.
Proof.
  intros Ew Eh Ep Ea.
  unfold offset_lo, offset_coord, pixel_of, pixel_ptr, coord_index.
  by rewrite Ew, Eh, Ep, Ea.
Qed.

(** The run that a call records starts where the run before it did, or at
    the pixel of the new offset. *)
Lemma update_case_reach map_sz c wnd o n c' wnd' :
  update_case map_sz c wnd o n c' wnd' →
  0 ≤ run_lo c wnd → (n ≠ 0 → 0 ≤ offset_lo map_sz c o) → 0 ≤ run_lo c' wnd'.
Proof.
  intros [Hsame | Hne Hz | Hne Hnz Hstep Hbpl wnd''] Hlo Hnew; [done | done |].
  by apply Hnew.
Qed.

Lemma geometry_ok_intro map_sz c :
  0 < w c → 0 < h c → w c * h c ≤ map_sz → map_sz < 2 ^ 64 → geometry_ok map_sz c.
Proof.
  intros Hw Hh Hle Hlt. unfold geometry_ok.
  assert (0 < w c * h c) by nia.
  rewrite (wrap64_small (w c * h c)) by lia.
  assert (1 ≤ map_sz / (w c * h c)) by (apply Z.div_le_lower_bound; lia).
  assert (map_sz / (w c * h c) * (w c * h c) ≤ map_sz)
    by (rewrite Z.mul_comm; apply Z.mul_div_le; lia).
  assert (map_sz / (w c * h c) * w c ≤ map_sz / (w c * h c) * (w c * h c)) by nia.
  rewrite wrap64_small by nia. repeat split; nia.
Qed.

(** C6, as amended.  Two successive calls [update_region o1] then
    [update_region o2] on the same window, none of whose pixel pointers
    lies below the buffer, return, and every pixel outside the union of
    three runs holds the value it had before the first call: the run the
    window recorded on entry (the previous highlight, which the first call
    un-paints), the run painted for [o1] and the run painted for [o2].  A
    run starts at the pixel its pointer points to, which for an index of
    2^62 or more is not the pixel of that index. *)
Theorem update_region_twice_frame map_sz c wnd o1 n1 o2 n2 :
  buffer_ok c → count_ok wnd → geometry_ok map_sz c →
  0 ≤ run_lo c wnd → 0 ≤ offset_lo map_sz c o1 → 0 ≤ offset_lo map_sz c o2 →
  ∃ c1 wnd1 c2 wnd2,
    update_region map_sz c wnd o1 n1 = Ret (c1, wnd1)
    ∧ update_region map_sz c1 wnd1 o2 n2 = Ret (c2, wnd2)
    ∧ ∀ i : nat,
        ¬ in_run c wnd i → ¬ in_run c1 wnd1 i → ¬ in_run c2 wnd2 i →
        vidp c2 !! i = vidp c !! i.
Proof.
  intros Hb Hc (Hwh & Hstep & Hbpl) Hlo Ho1 Ho2.
  destruct (update_region_returns map_sz c wnd o1 n1) as (c1 & wnd1 & H1);
    try assumption; [done | done |].
  destruct (update_region_cases _ _ _ _ _ _ _ Hb Hc H1) as [_ Hcase1].
  destruct (update_case_preserves _ _ _ _ _ _ _ Hcase1 Hb Hc) as (Hb1 & Hc1 & Ew & Eh & Ep).
  pose proof (update_case_addr _ _ _ _ _ _ _ Hcase1) as Ea.
  pose proof (update_case_reach _ _ _ _ _ _ _ Hcase1 Hlo (λ _, Ho1)) as Hlo1.
  destruct (update_region_returns map_sz c1 wnd1 o2 n2) as (c2 & wnd2 & H2);
    try assumption; rewrite ?Ew, ?Eh; try assumption; [done |..].
  { intros _. by rewrite (offset_lo_dims map_sz c c1). }
  destruct (update_region_cases _ _ _ _ _ _ _ Hb1 Hc1 H2) as [_ Hcase2].
  exists c1, wnd1, c2, wnd2. split; [exact H1 |]. split; [exact H2 |].
  intros i H0 Hi1 Hi2.
  rewrite (update_case_frame _ _ _ _ _ _ _ i Hcase2 Hi1 Hi2).
  apply (update_case_frame _ _ _ _ _ _ _ i Hcase1 H0 Hi1).
Qed.

Lemma update_region_twice_frame_witness :
  ∃ c1 wnd1 c2 wnd2,
    update_region 16 raster_4x4 fresh_window (2 ^ 62 + 5) 1 = Ret (c1, wnd1)
    ∧ update_region 16 c1 wnd1 10 1 = Ret (c2, wnd2)
    ∧ ∀ i : nat,
        ¬ in_run raster_4x4 fresh_window i → ¬ in_run c1 wnd1 i → ¬ in_run c2 wnd2 i →
        vidp c2 !! i = vidp raster_4x4 !! i.
Proof.
  apply (update_region_twice_frame 16 raster_4x4 fresh_window (2 ^ 62 + 5) 1 10 1).
  - vm_compute. split_and!; [reflexivity | discriminate | reflexivity].
  - unfold count_ok. simpl. lia.
  - unfold geometry_ok. vm_compute. repeat split; discriminate.
  - vm_compute. discriminate.
  - vm_compute. discriminate.
  - vm_compute. discriminate.
Defined.

Lemma highlighted_reachable :
  update_region 16 raster_4x4 (set_last_pos fresh_window (2 ^ 64 - 1)) 0 1
  = Ret (highlighted_raster, highlighted_window).
Proof. vm_compute. reflexivity. Qed.

(** C6 as stated fails.  The window holds the highlight of a first update at
    offset 0; pixel 0 lies outside the runs painted for the offsets 5 and 10,
    and the first of the two calls takes the highlight off it. *)
Lemma update_region_twice_changes_old_run :
  ∃ c1 wnd1 c2 wnd2,
    update_region 16 highlighted_raster highlighted_window 5 1 = Ret (c1, wnd1)
    ∧ update_region 16 c1 wnd1 10 1 = Ret (c2, wnd2)
    ∧ ¬ in_run c1 wnd1 0 ∧ ¬ in_run c2 wnd2 0
    ∧ vidp highlighted_raster !! 0%nat = Some (Z.lor olay clear_color)
    ∧ vidp c2 !! 0%nat = Some clear_color
    ∧ Z.lor olay clear_color ≠ clear_color.
Proof.
  do 4 eexists.
  split; [vm_compute; reflexivity |].
  split; [vm_compute; reflexivity |].
  split; [intros [_ [H _]]; vm_compute in H; exact (H eq_refl) |].
  split; [intros [_ [H _]]; vm_compute in H; exact (H eq_refl) |].
  split; [reflexivity |]. split; [reflexivity |].
  vm_compute. discriminate.
Qed.

(** C7.  [update_region] called with the offset the window already holds
    returns at once and leaves the raster and the window as they are; and a
    second call with the offset and size of a first call leaves the state
    the first call produced: twice is the same as once. *)
Theorem update_region_idempotent map_sz c wnd new_pos count :
  wrap64 (w c * h c) ≠ 0 →
  (last_pos wnd = new_pos → update_region map_sz c wnd new_pos count = Ret (c, wnd))
  ∧ (∀ c1 wnd1,
       update_region map_sz c wnd new_pos count = Ret (c1, wnd1) →
       update_region map_sz c1 wnd1 new_pos count = Ret (c1, wnd1)).
Proof.
  intros Hwh. split.
  - intros <-. by apply update_region_same.
  - intros c1 wnd1. unfold update_region at 1.
    rewrite udiv_Ret by exact Hwh. rewrite bind_Ret. cbv beta zeta.
    destruct (Z.eqb_spec (last_pos wnd) new_pos) as [Heq | Hne].
    { intros [= <- <-]. rewrite <- Heq. by apply update_region_same. }
    intros (v1 & Hv1 & H)%bind_inv.
    destruct (Z.eqb_spec count 0) as [-> | Hcnt].
    + injection H as <- <-. unfold update_region. simpl.
      rewrite udiv_Ret by exact Hwh. rewrite bind_Ret. cbv beta zeta.
      destruct (Z.eqb_spec (last_pos wnd) new_pos); [contradiction | reflexivity].
    + apply bind_inv in H as (coord1 & _ & H).
      apply bind_inv in H as (coord0 & _ & H).
      apply bind_inv in H as (nr & _ & H).
      apply bind_inv in H as (q & _ & H).
      apply bind_inv in H as (v2 & _ & H).
      injection H as <- <-.
      apply (update_region_same map_sz (set_vidp c v2)). exact Hwh.
Qed.

Lemma update_region_idempotent_witness :
  (last_pos fresh_window = 5 →
   update_region 16 raster_4x4 fresh_window 5 1 = Ret (raster_4x4, fresh_window))
  ∧ (∀ c1 wnd1,
       update_region 16 raster_4x4 fresh_window 5 1 = Ret (c1, wnd1) →
       update_region 16 c1 wnd1 5 1 = Ret (c1, wnd1)).
Proof.
  apply (update_region_idempotent 16 raster_4x4 fresh_window 5 1).
  vm_compute. discriminate.
Defined.

Lemma flush_snoc backlog : ∀ pos newest, flush (backlog ++ [newest]) pos = (newest, []).
Proof. induction backlog as [|x p IH]; intros; simpl; [reflexivity | apply IH]. Qed.

(** C3.  When N >= 1 offsets wait in the pipe of the window, one turn of the
    main loop empties the pipe and calls [update_region] once, with the
    offset enqueued last; the offsets before it reach no overlay update. *)
Theorem main_loop_body_coalesces map_sz c wnd count backlog newest :
  pipe_in wnd = backlog ++ [newest] →
  main_loop_body map_sz c wnd count
  = ('(c', wnd') ← update_region map_sz c (set_pipe_in wnd []) newest count;
     Ret (c', wnd', true)).
Proof.
  intros Hpipe. unfold main_loop_body. rewrite Hpipe.
  destruct backlog as [|x backlog]; simpl; [reflexivity |].
  by rewrite flush_snoc.
Qed.

Lemma main_loop_body_coalesces_witness :
  main_loop_body 16 raster_4x4
    {| pipe_in := [3; 9; 5]; last_pos := 0; last_pos_sz := 0; last_count_px := 0;
       last_coord := (0, 0) |} 1
  = ('(c', wnd') ← update_region 16 raster_4x4 fresh_window 5 1; Ret (c', wnd', true)).
Proof.
  exact (main_loop_body_coalesces 16 raster_4x4
           {| pipe_in := [3; 9; 5]; last_pos := 0; last_pos_sz := 0;
              last_count_px := 0; last_coord := (0, 0) |} 1 [3; 9] 5 eq_refl).
Defined.

(** C4 fails on the code.  [update_region] divides the file length by the
    number of pixels without the clamp to 1 that [rebuild_preview] and
    [control_event] apply: for a file shorter than the raster the step is 0
    and the division by [bytes_perline] is a division by zero.  Here a file
    of 1000 bytes under the default 128 x 512 preview, in the call that
    [rebuild_preview] makes when it completes. *)
Theorem update_region_small_file_faults :
  update_region 1000 raster_default (set_last_pos fresh_window (2 ^ 64 - 1)) 0 256
  = Err DivideByZero.
Proof. vm_compute. reflexivity. Qed.

Lemma update_region_step_zero map_sz c wnd new_pos count :
  buffer_ok c → count_ok wnd → (last_pos_sz wnd ≠ 0 → 0 ≤ run_lo c wnd) →
  0 ≤ map_sz < wrap64 (w c * h c) → last_pos wnd ≠ new_pos → count ≠ 0 →
  update_region map_sz c wnd new_pos count = Err DivideByZero.
Proof.
  intros Hb Hc Hlo Hsz Hne Hcnt. unfold update_region.
  rewrite udiv_Ret by lia. rewrite bind_Ret. cbv beta zeta.
  destruct (Z.eqb_spec (last_pos wnd) new_pos); [contradiction |].
  rewrite unpaint_eq by assumption. rewrite bind_Ret.
  destruct (Z.eqb_spec count 0); [contradiction |].
  rewrite Z.div_small by lia. reflexivity.
Qed.

Section Geometry.
Variable map_sz : Z.
Variable c : arcan_shmif_cont.
Hypothesis Hok : raster_ok map_sz c.

Lemma wh_pos : 0 < w c * h c.
Proof. destruct Hok. nia. Qed.

Lemma wrap_wh : wrap64 (w c * h c) = w c * h c.
Proof. destruct Hok. pose proof wh_pos. apply wrap64_small. lia. Qed.

Lemma step_eq : map_sz / wrap64 (w c * h c) = sample_step map_sz c.
Proof.
  rewrite wrap_wh. unfold sample_step. destruct Hok. pose proof wh_pos.
  assert (1 ≤ map_sz / (w c * h c)) by (apply Z.div_le_lower_bound; lia). lia.
Qed.

Lemma step_pos : 1 ≤ sample_step map_sz c.
Proof. unfold sample_step. lia. Qed.

Lemma bpl_bound : w c ≤ bytes_per_row map_sz c ≤ map_sz.
Proof.
  unfold bytes_per_row. pose proof step_pos. destruct Hok. pose proof wh_pos.
  split; [nia |].
  rewrite <- step_eq, wrap_wh.
  assert (map_sz / (w c * h c) * (w c * h c) ≤ map_sz)
    by (rewrite Z.mul_comm; apply Z.mul_div_le; lia).
  assert (0 ≤ map_sz / (w c * h c)) by (apply Z.div_pos; lia).
  nia.
Qed.

Lemma bpl_eq : wrap64 (sample_step map_sz c * w c) = bytes_per_row map_sz c.
Proof. pose proof bpl_bound. destruct Hok. apply wrap64_small. unfold bytes_per_row in *. lia. Qed.

Lemma raster_geometry_ok : geometry_ok map_sz c.
Proof. destruct Hok. by apply geometry_ok_intro. Qed.

(** The remainder computed as [x - (x / bpl) * bpl] on 64-bit words. *)
Lemma rem_eq x :
  uint64 x →
  wrap64 (x - wrap64 (x / bytes_per_row map_sz c * bytes_per_row map_sz c))
  = x mod bytes_per_row map_sz c.
Proof.
  intros Hx. pose proof bpl_bound. destruct Hok. unfold uint64 in Hx.
  set (b := bytes_per_row map_sz c) in *.
  assert (0 < b) by lia.
  pose proof (Z.mul_div_le x b ltac:(lia)).
  assert (0 ≤ x / b) by (apply Z.div_pos; lia).
  rewrite (wrap64_small (x / b * b)) by nia.
  rewrite Z.mod_eq by lia.
  pose proof (Z.mod_pos_bound x b ltac:(lia)).
  rewrite Z.mod_eq in * by lia.
  rewrite wrap64_small; lia.
Qed.

Lemma px_count_eq n :
  uint64 n →
  wrap64 (wrap64 (n / bytes_per_row map_sz c * w c)
          + n mod bytes_per_row map_sz c / sample_step map_sz c)
  = n / bytes_per_row map_sz c * w c
    + n mod bytes_per_row map_sz c / sample_step map_sz c.
Proof.
  intros Hn. pose proof bpl_bound. pose proof step_pos. destruct Hok.
  unfold uint64 in Hn.
  set (b := bytes_per_row map_sz c) in *. set (s := sample_step map_sz c) in *.
  assert (0 < b) by lia.
  pose proof (Z.mul_div_le n b ltac:(lia)).
  assert (0 ≤ n / b) by (apply Z.div_pos; lia).
  pose proof (Z.mod_pos_bound n b ltac:(lia)).
  assert (0 ≤ n mod b / s ≤ n mod b).
  { split; [apply Z.div_pos; lia |]. apply Z.div_le_upper_bound; nia. }
  assert (n = b * (n / b) + n mod b) by (apply Z.div_mod; lia).
  rewrite (wrap64_small (n / b * w c)) by nia.
  apply wrap64_small. nia.
Qed.

Lemma painted_window_consistent wnd new_pos count :
  uint64 new_pos → uint64 count → count ≠ 0 →
  window_consistent map_sz c (painted_window map_sz c wnd new_pos count).
Proof.
  intros Hp Hn Hnz _. unfold painted_window. simpl.
  rewrite !step_eq, !bpl_eq, !rem_eq by assumption.
  rewrite px_count_eq by assumption. done.
Qed.
End Geometry.


Lemma raster_ok_dims map_sz c c' :
  raster_ok map_sz c → w c' = w c → h c' = h c → buffer_ok c' → raster_ok map_sz c'.
Proof. intros [] Ew Eh Hb. split; rewrite ?Ew, ?Eh; assumption. Qed.





Lemma clamp_step q : 0 ≤ q → (if q =? 0 then 1 else q) = Z.max 1 q.
Proof. intros Hq. destruct (Z.eqb_spec q 0); lia. Qed.

(** C8.  A click on the pixel [(x, y)] of the raster makes [control_event]
    write the offset [y * bytesPerRow + x * step] to the request pipe, with
    [step = max 1 (length / (w * h))] and [bytesPerRow = step * w]; with
    step 4 and width 16 the pixel (3, 2) gives 140. *)
Theorem control_event_click_offset pump timemillis ch_size dr0 cr0 senseye_resize
    fs x y :
  0 < w (cont fs) → 0 < h (cont fs) → w (cont fs) * h (cont fs) < 2 ^ 64 →
  0 ≤ map_sz fs < 2 ^ 64 →
  0 ≤ x < w (cont fs) → 0 ≤ y < h (cont fs) →
  ∃ ofs,
    control_event pump timemillis ch_size dr0 cr0 senseye_resize false (x, y) fs
      (EVENT_IO EVENT_IDEVKIND_MOUSE EVENT_IDATATYPE_DIGITAL true)
    = Ret (fs, Some ofs)
    ∧ ofs = y * bytes_per_row (map_sz fs) (cont fs)
            + x * sample_step (map_sz fs) (cont fs)
    ∧ (sample_step (map_sz fs) (cont fs) = 4 → w (cont fs) = 16 → x = 3 → y = 2 →
       ofs = 140).
Proof.
  intros Hw Hh Hwh Hsz Hx Hy.
  set (c := cont fs) in *. set (s := sample_step (map_sz fs) c).
  set (b := bytes_per_row (map_sz fs) c).
  assert (Hwhpos : 0 < w c * h c) by nia.
  assert (Hs1 : 1 ≤ s) by (unfold s, sample_step; lia).
  assert (Hq : 0 ≤ map_sz fs / (w c * h c)) by (apply Z.div_pos; lia).
  assert (Hqle : map_sz fs / (w c * h c) * (w c * h c) ≤ map_sz fs)
    by (rewrite Z.mul_comm; apply Z.mul_div_le; lia).
  assert (Hsw : s * (w c * h c) < 2 ^ 64).
  { unfold s, sample_step. destruct (Z.max_spec 1 (map_sz fs / (w c * h c))) as [[_ ->] | [_ ->]]; lia. }
  assert (Hhb : h c < 2 ^ 64) by nia.
  assert (Hwb : w c < 2 ^ 64) by nia.
  exists (y * b + x * s). split; [| split; [reflexivity |]].
  - unfold control_event. rewrite bind_Ret. fold c.
    rewrite (wrap64_small (w c * h c)) by lia.
    rewrite udiv_Ret by lia. rewrite bind_Ret. cbv beta zeta.
    rewrite (clamp_step _ Hq). fold (sample_step (map_sz fs) c). fold s.
    rewrite (wrap64_small (s * w c)) by nia.
    rewrite (wrap64_small y), (wrap64_small x) by lia.
    fold b. unfold b, bytes_per_row. fold c. fold s.
    assert (0 ≤ y * (s * w c) ≤ (h c - 1) * (s * w c)) by nia.
    assert (0 ≤ x * s ≤ (w c - 1) * s) by nia.
    rewrite (wrap64_small (y * (s * w c))) by lia.
    rewrite (wrap64_small (x * s)) by lia.
    rewrite wrap64_small by lia. reflexivity.
  - intros Es Ew -> ->. unfold b, bytes_per_row. fold c. fold s. rewrite Es, Ew. reflexivity.
Qed.

Lemma control_event_click_offset_witness :
  ∃ ofs,
    control_event (λ _, true) (λ _, 0) 0 histo_zero histo_zero (λ _ _ _, None)
      false (3, 2) fsense_1k
      (EVENT_IO EVENT_IDEVKIND_MOUSE EVENT_IDATATYPE_DIGITAL true)
    = Ret (fsense_1k, Some ofs)
    ∧ ofs = 2 * bytes_per_row 1024 (cont fsense_1k)
            + 3 * sample_step 1024 (cont fsense_1k)
    ∧ (sample_step 1024 (cont fsense_1k) = 4 → w (cont fsense_1k) = 16 →
       3 = 3 → 2 = 2 → ofs = 140).
Proof.
  apply (control_event_click_offset (λ _, true) (λ _, 0) 0 histo_zero histo_zero
           (λ _ _ _, None) fsense_1k 3 2); simpl; lia.
Defined.

(** ** The row loops of the preview *)

Lemma span_store_paint f fuel : ∀ i n base v,
  0 ≤ i → 0 ≤ base → base + n ≤ Z.of_nat (length v) → base + n < 2 ^ 64 →
  (Z.to_nat (n - i) ≤ fuel)%nat →
  span_store f fuel i n true base v = Ret (paint f (base + i) (base + n) v).
Proof.
  induction fuel as [|fuel IH]; intros i n base v Hi Hbase Hlen Hmax Hfuel; simpl.
  - rewrite paint_empty by lia. reflexivity.
  - destruct (Z.ltb_spec i n) as [Hlt | Hge]; simpl.
    2:{ rewrite paint_empty by lia. reflexivity. }
    rewrite (wrap64_small (base + i)) by lia.
    rewrite vid_store_Ret by lia. rewrite bind_Ret.
    rewrite IH; [| lia | lia | rewrite length_alter; lia | lia | lia].
    f_equal. replace (base + (i + 1)) with (base + i + 1) by lia.
    apply paint_step. lia.
Qed.

Lemma span_store_unguarded f fuel i n base v :
  span_store f fuel i n false base v = Ret v.
Proof. destruct fuel; simpl; [reflexivity |]. by rewrite andb_false_r. Qed.

(** A store loop that starts at the first pixel succeeds only inside the
    buffer. *)
Lemma span_store_Ret_length f fuel : ∀ i n v v',
  0 ≤ i → n < 2 ^ 64 → (Z.to_nat (n - i) ≤ fuel)%nat →
  span_store f fuel i n true 0 v = Ret v' →
  (i < n → n ≤ Z.of_nat (length v)) ∧ length v' = length v.
Proof.
  induction fuel as [|fuel IH]; intros i n v v' Hi Hn Hfuel; simpl.
  - intros [= <-]. split; [lia | reflexivity].
  - destruct (Z.ltb_spec i n) as [Hlt | Hge]; simpl.
    2:{ intros [= <-]. split; [lia | reflexivity]. }
    rewrite (wrap64_small (0 + i)) by lia. unfold vid_store.
    destruct (Z.ltb_spec (0 + i) (Z.of_nat (length v))) as [Hin | Hout]; [| discriminate].
    rewrite bind_Ret. intros Hrec.
    apply IH in Hrec as [Hle Hlen]; [| lia | lia | lia].
    rewrite length_alter in Hle, Hlen. split; [| exact Hlen].
    intros _. destruct (Z.eq_dec (i + 1) n); lia.
Qed.

Lemma no_read_fault_Ret {A} (a : A) : no_read_fault (Ret a).
Proof. intros idx. discriminate. Qed.

Lemma no_read_fault_bind {A B} (mm : result A) (k : A → result B) :
  no_read_fault mm → (∀ a, mm = Ret a → no_read_fault (k a)) →
  no_read_fault (mm ≫= k).
Proof.
  intros Hm Hk. destruct mm as [a | f]; simpl.
  - by apply Hk.
  - intros idx [= ->]. by apply (Hm idx).
Qed.

Lemma vid_store_no_read f idx v : no_read_fault (vid_store f idx v).
Proof. unfold vid_store. destruct (_ <? _); intros i; discriminate. Qed.

Lemma span_store_no_read f fuel : ∀ i n g base v,
  no_read_fault (span_store f fuel i n g base v).
Proof.
  induction fuel as [|fuel IH]; intros; simpl; [apply no_read_fault_Ret |].
  destruct (_ && _); [| apply no_read_fault_Ret].
  apply no_read_fault_bind; [apply vid_store_no_read | intros; apply IH].
Qed.

Lemma ptr_store_no_read f base dst v : no_read_fault (ptr_store f base dst v).
Proof. unfold ptr_store. destruct (_ && _); intros i; discriminate. Qed.

Lemma fill_no_read f fuel : ∀ np dst endm base v,
  no_read_fault (fill f fuel np dst endm base v).
Proof.
  induction fuel as [|fuel IH]; intros; simpl; [apply no_read_fault_Ret |].
  destruct (_ && _); [| apply no_read_fault_Ret].
  apply no_read_fault_bind; [apply ptr_store_no_read | intros; apply IH].
Qed.

Lemma udiv_no_read a b : no_read_fault (udiv a b).
Proof. unfold udiv. destruct (_ =? _); intros i; discriminate. Qed.

Lemma update_region_no_read map_sz c wnd new_pos count :
  no_read_fault (update_region map_sz c wnd new_pos count).
Proof.
  unfold update_region.
  apply no_read_fault_bind; [apply udiv_no_read | intros step _].
  destruct (_ =? _); [apply no_read_fault_Ret |].
  apply no_read_fault_bind.
  { destruct (_ =? _); [apply no_read_fault_Ret | apply fill_no_read]. }
  intros v1 _. destruct (_ =? _); [apply no_read_fault_Ret |].
  apply no_read_fault_bind; [apply udiv_no_read | intros coord1 _].
  apply no_read_fault_bind; [apply udiv_no_read | intros coord0 _].
  apply no_read_fault_bind; [apply udiv_no_read | intros nr _].
  apply no_read_fault_bind; [apply udiv_no_read | intros q _].
  apply no_read_fault_bind; [apply fill_no_read | intros v2 _].
  apply no_read_fault_Ret.
Qed.

Lemma map_read_Ret (m : list byte) idx :
  0 ≤ idx < Z.of_nat (length m) →
  ∃ b, map_read m idx = Ret b ∧ 0 ≤ b < 256.
Proof.
  intros Hidx. unfold map_read.
  destruct (lookup_lt_is_Some_2 m (Z.to_nat idx)) as [b Hb]; [lia |].
  rewrite Hb. eexists. split; [reflexivity |].
  pose proof (Byte.to_N_bounded b). lia.
Qed.

Lemma length_histo_incr b dr : length (histo_incr b dr) = length dr.
Proof. apply length_alter. Qed.

Lemma span_store_length f fuel : ∀ i n g base v v',
  span_store f fuel i n g base v = Ret v' → length v' = length v.
Proof.
  induction fuel as [|fuel IH]; intros i n g base v v'; simpl.
  - by intros [= <-].
  - destruct (_ && _); [| by intros [= <-]].
    intros (v1 & Hst & Hrec)%bind_inv. apply IH in Hrec. rewrite Hrec.
    unfold vid_store in Hst. destruct (_ <? _); [| discriminate].
    injection Hst as <-. apply length_alter.
Qed.

Section RowLoops.
Variable pump : Z → bool.
Variable timemillis : nat → Z.
Variable m : list byte.
Variable m_sz : Z.
Variable cut : spec_float.
Variable detail : bool.
Variable wd ht : Z.
Variable step_sz : Z.

Hypothesis Hwd : 0 < wd.
Hypothesis Hht : 0 < ht.
Hypothesis Hwh : wd * ht < 2 ^ 64.
Hypothesis Hlen : Z.of_nat (length m) = m_sz.
Hypothesis Hsz : m_sz < 2 ^ 63.
Hypothesis Hstep : step_sz = Z.max 1 (m_sz / (wd * ht)).

Lemma step_ge1 : 1 ≤ step_sz.
Proof. lia. Qed.

Lemma step_lt : step_sz < 2 ^ 63.
Proof.
  assert (0 < wd * ht) by nia.
  assert (m_sz / (wd * ht) ≤ m_sz) by (apply Z.div_le_upper_bound; nia).
  lia.
Qed.

Lemma step_fits : step_sz = 1 ∨ step_sz * (wd * ht) ≤ m_sz.
Proof.
  assert (0 < wd * ht) by nia.
  destruct (Z.max_spec 1 (m_sz / (wd * ht))) as [[Hlt E] | [Hge E]].
  - right. rewrite Hstep, E. rewrite Z.mul_comm. apply Z.mul_div_le. lia.
  - left. lia.
Qed.

(** The [step_sz] bytes of pixel number [k] lie inside the file as soon
    as the first of them does. *)
Lemma px_in_file k j :
  0 ≤ k < wd * ht → k * step_sz < m_sz → 0 ≤ j < step_sz →
  k * step_sz + j < m_sz.
Proof.
  intros Hk Hfirst Hj. destruct step_fits as [E1 | Hfit]; [lia |].
  assert ((k + 1) * step_sz ≤ step_sz * (wd * ht)) by nia. lia.
Qed.

Lemma px_next k :
  0 ≤ k < wd * ht → k * step_sz < m_sz → (k + 1) * step_sz ≤ m_sz.
Proof.
  intros Hk Hfirst. destruct step_fits as [E1 | Hfit]; [lia |].
  assert ((k + 1) * step_sz ≤ step_sz * (wd * ht)) by nia. lia.
Qed.

Lemma histo_span_Ret fuel pos : ∀ j dr,
  0 ≤ j → 0 ≤ pos →
  (∀ j', 0 ≤ j' < step_sz → pos + j' < m_sz) →
  ∃ dr', histo_span m m_sz step_sz fuel j pos dr = Ret dr'
         ∧ length dr' = length dr.
Proof.
  intros j dr Hj Hpos Hin. revert j dr Hj.
  induction fuel as [|fuel IH]; intros j dr Hj; simpl; [eauto |].
  destruct (Z.ltb_spec j step_sz) as [Hlt | Hge]; simpl; [| eauto].
  destruct (Z.ltb_spec pos m_sz) as [Hp | Hp]; simpl; [| eauto].
  specialize (Hin j ltac:(lia)).
  rewrite (wrap64_small (pos + j)) by lia.
  destruct (map_read_Ret m (pos + j)) as (b & -> & Hb); [lia |].
  rewrite bind_Ret.
  destruct (IH (j + 1) (histo_incr b dr)) as (dr' & -> & Hl); [lia |].
  exists dr'. split; [reflexivity |]. by rewrite Hl, length_histo_incr.
Qed.

Lemma row_index row i :
  0 ≤ row < ht → 0 ≤ i < wd → 0 ≤ row * wd + i < wd * ht.
Proof. intros Hrow Hi. nia. Qed.

Lemma row_pixels_spec fuel row : ∀ i pos vid dr,
  0 ≤ row < ht → 0 ≤ i ≤ wd → pos = (row * wd + i) * step_sz → pos ≤ m_sz →
  wd * ht ≤ Z.of_nat (length vid) →
  (Z.to_nat (wd - i) ≤ fuel)%nat →
  ∃ i' pos' vid' dr',
    row_pixels m m_sz cut detail wd step_sz fuel row i pos vid dr
    = Ret (pos', vid', dr')
    ∧ i ≤ i' ≤ wd ∧ pos' = (row * wd + i') * step_sz ∧ pos' ≤ m_sz
    ∧ (i' = wd ∨ pos' = m_sz)
    ∧ length vid' = length vid
    ∧ (∀ j : nat, ¬ (row * wd + i ≤ Z.of_nat j < row * wd + i') →
                  vid' !! j = vid !! j).
Proof.
  intros i pos vid dr Hrow. revert i pos vid dr.
  pose proof step_ge1 as Hs1. pose proof step_lt as Hs2.
  induction fuel as [|fuel IH]; intros i pos vid dr Hi Hpos Hple Hbuf Hfuel; simpl.
  { exists i, pos, vid, dr. split_and!; try done; lia. }
  destruct (Z.ltb_spec i wd) as [Hlt | Hge]; simpl.
  2:{ exists i, pos, vid, dr. split_and!; try done; lia. }
  destruct (Z.ltb_spec pos m_sz) as [Hp | Hp]; simpl.
  2:{ exists i, pos, vid, dr. split_and!; try done; lia. }
  pose proof (row_index row i Hrow ltac:(lia)) as Hk.
  assert (0 ≤ row * wd) by nia.
  assert (0 ≤ pos) by nia.
  destruct (map_read_Ret m pos) as (g & Hg & _); [lia |].
  assert (Hnext : (row * wd + i + 1) * step_sz ≤ m_sz)
    by (apply px_next; [lia | lia]).
  assert (Hdr : ∃ dr',
    (if is_nan cut then Ret dr
     else if detail then histo_span m m_sz step_sz (Z.to_nat step_sz) 0 pos dr
     else b ← map_read m pos; Ret (histo_incr b dr)) = Ret dr').
  { destruct (is_nan cut); [eauto |]. destruct detail.
    - destruct (histo_span_Ret (Z.to_nat step_sz) pos 0 dr) as (dr' & -> & _);
        [lia | lia | | eauto].
      intros j' Hj'. subst pos. apply px_in_file; [lia | lia | lia].
    - rewrite Hg, bind_Ret. eauto. }
  destruct Hdr as (dr' & Hdr). rewrite Hdr. clear Hdr.
  rewrite Hg, bind_Ret.
  rewrite (wrap64_small (row * wd)) by lia.
  rewrite (wrap64_small (row * wd + i)) by lia.
  rewrite vid_store_Ret by lia. rewrite bind_Ret.
  rewrite bind_Ret.
  rewrite (wrap64_small (pos + step_sz)) by lia.
  destruct (IH (i + 1) (pos + step_sz)
              (alter (λ _, SHMIF_RGBA 0 g 0 255) (Z.to_nat (row * wd + i)) vid) dr')
    as (i' & pos' & vid' & dr'' & Hrec & Hi' & Hpos' & Hple' & Hend & Hl & Hframe);
    [lia | lia | lia | rewrite length_alter; lia | lia |].
  exists i', pos', vid', dr''. split; [exact Hrec |].
  split_and!; try done; try lia.
  - by rewrite Hl, length_alter.
  - intros j Hj. rewrite Hframe by lia.
    apply list_lookup_alter_ne. lia.
Qed.


Lemma row_body_spec st :
  0 ≤ rb_row st < ht → rb_pos st = rb_row st * wd * step_sz → rb_pos st ≤ m_sz →
  wd * ht ≤ Z.of_nat (length (rb_vid st)) →
  ∃ i' st',
    row_body m m_sz cut detail wd step_sz st = Ret st'
    ∧ 0 ≤ i' ≤ wd ∧ rb_pos st' = (rb_row st * wd + i') * step_sz
    ∧ rb_pos st' ≤ m_sz ∧ (i' = wd ∨ rb_pos st' = m_sz)
    ∧ rb_row st' = rb_row st
    ∧ length (rb_vid st') = length (rb_vid st)
    ∧ (∀ j : nat, ¬ (rb_row st * wd ≤ Z.of_nat j < (rb_row st + 1) * wd) →
                  rb_vid st' !! j = rb_vid st !! j)
    ∧ rb_clock st' = rb_clock st ∧ rb_last st' = rb_last st
    ∧ rb_signals st' = rb_signals st.
Proof.
  intros Hrow Hpos Hple Hbuf. unfold row_body.
  destruct (row_pixels_spec (Z.to_nat wd) (rb_row st) 0 (rb_pos st) (rb_vid st)
              (rb_dr st))
    as (i' & pos' & vid' & dr' & -> & Hi' & Hpos' & Hple' & Hend & Hl & Hframe);
    [lia | lia | lia | lia | lia | lia |].
  rewrite bind_Ret. cbv beta iota zeta.
  assert (0 ≤ rb_row st * wd) by nia.
  assert ((rb_row st + 1) * wd ≤ wd * ht) by nia.
  destruct (is_nan cut).
  - eexists i', _. split; [reflexivity |]. simpl.
    split_and!; try done; try lia.
    intros j Hj. apply Hframe. lia.
  - rewrite (wrap64_small (rb_row st * wd)) by lia.
    destruct (SFltb _ cut).
    + rewrite span_store_paint; [| lia | lia | lia | lia | lia].
      rewrite bind_Ret. eexists i', _. split; [reflexivity |]. simpl.
      split_and!; try done; try lia.
      * by rewrite length_paint.
      * intros j Hj. rewrite paint_lookup.
        rewrite bool_decide_eq_false_2 by lia. apply Hframe. lia.
    + rewrite bind_Ret. eexists i', _. split; [reflexivity |]. simpl.
      split_and!; try done; try lia.
      intros j Hj. apply Hframe. lia.
Qed.

Lemma edge_step_inv st st' :
  0 ≤ rb_row st < ht → edge_step timemillis wd ht st = Ret st' →
  rb_row st' = rb_row st + 1 ∧ rb_pos st' = rb_pos st
  ∧ length (rb_vid st') = length (rb_vid st)
  ∧ rb_dr st' = rb_dr st ∧ rb_cr st' = rb_cr st.
Proof.
  intros Hrow. unfold edge_step.
  assert (ht ≤ wd * ht) by nia.
  rewrite (wrap64_small (rb_row st + 1)) by lia.
  destruct (14 <? _).
  - intros (vid' & Hst & [= <-])%bind_inv. simpl.
    apply span_store_length in Hst. by split_and!.
  - intros [= <-]. simpl. by split_and!.
Qed.

Lemma edge_step_spec st :
  0 ≤ rb_row st → rb_row st + 1 < ht →
  wd * ht ≤ Z.of_nat (length (rb_vid st)) →
  ∃ st',
    edge_step timemillis wd ht st = Ret st'
    ∧ (∀ j : nat, ¬ ((rb_row st + 1) * wd ≤ Z.of_nat j < (rb_row st + 2) * wd) →
                  rb_vid st' !! j = rb_vid st !! j).
Proof.
  intros Hrow Hnext Hbuf. unfold edge_step.
  assert (ht ≤ wd * ht) by nia.
  assert (0 ≤ (rb_row st + 1) * wd) by nia.
  assert ((rb_row st + 2) * wd ≤ wd * ht) by nia.
  rewrite (wrap64_small (rb_row st + 1)) by lia.
  rewrite (wrap64_small ((rb_row st + 1) * wd)) by lia.
  destruct (14 <? _).
  - destruct (Z.ltb_spec (rb_row st) ht) as [_ | ?]; [| lia].
    rewrite span_store_paint; [| lia | lia | lia | lia | lia].
    rewrite bind_Ret. eexists. split; [reflexivity |]. simpl.
    intros j Hj. rewrite paint_lookup. rewrite bool_decide_eq_false_2 by lia. done.
  - eexists. split; [reflexivity |]. done.
Qed.

(** ** No read outside the file *)

Lemma rebuild_rows_no_read fuel : ∀ st,
  rows_inv m_sz wd ht step_sz st → no_read_fault (rebuild_rows pump timemillis m m_sz cut detail wd ht step_sz fuel st).
Proof.
  pose proof step_ge1 as Hs1. pose proof step_lt as Hs2.
  induction fuel as [|fuel IH]; intros st (Hrow & Hple & Hpos & Hbuf); simpl;
    [apply no_read_fault_Ret |].
  assert (0 ≤ rb_pos st).
  { destruct Hpos as [-> | ->]; [| lia].
    assert (0 ≤ rb_row st * wd) by nia. nia. }
  rewrite (wrap64_small (rb_pos st + step_sz)) by lia.
  destruct (Z.ltb_spec (rb_pos st + step_sz) m_sz) as [Hcond | ?]; simpl;
    [| apply no_read_fault_Ret].
  destruct (Z.ltb_spec (rb_row st) ht) as [Hlt | ?]; simpl;
    [| apply no_read_fault_Ret].
  destruct Hpos as [Hpos | Hpos]; [| lia].
  destruct (row_body_spec st)
    as (i' & st1 & -> & Hi' & Hpos1 & Hple1 & Hend & Hrow1 & Hl1 & _);
    [lia | exact Hpos | lia | lia |].
  rewrite bind_Ret. destruct (pump (rb_row st)); simpl; [| apply no_read_fault_Ret].
  apply no_read_fault_bind.
  { unfold edge_step. destruct (14 <? _); [| apply no_read_fault_Ret].
    apply no_read_fault_bind; [apply span_store_no_read |].
    intros; apply no_read_fault_Ret. }
  intros st2 Hst2. apply edge_step_inv in Hst2 as (Hrow2 & Hpos2 & Hl2 & _); [| lia].
  apply IH. unfold rows_inv. rewrite Hrow2, Hpos2, Hl2, Hrow1, Hl1.
  split_and!; lia.
Qed.

(** ** Cancellation after row [k] *)

Variable k : Z.
Hypothesis Hk : 0 ≤ k < ht.
Hypothesis Hreach : k * wd * step_sz + step_sz < m_sz.

Lemma row_start_bound r : 0 ≤ r ≤ k → r * wd * step_sz + step_sz < m_sz.
Proof.
  intros Hr. pose proof step_ge1.
  assert (0 ≤ wd * step_sz) by nia.
  assert (r * (wd * step_sz) ≤ k * (wd * step_sz)) by nia. lia.
Qed.

Lemma row_body_clear st r :
  0 ≤ r ≤ k → rows_clear wd ht step_sz st r →
  ∃ i' st',
    row_body m m_sz cut detail wd step_sz st = Ret st'
    ∧ rb_row st' = r ∧ 0 ≤ i' ≤ wd ∧ rb_pos st' = (r * wd + i') * step_sz
    ∧ (i' = wd ∨ rb_pos st' = m_sz)
    ∧ wd * ht ≤ Z.of_nat (length (rb_vid st'))
    ∧ ∀ j : nat, (r + 1) * wd ≤ Z.of_nat j < wd * ht →
                 rb_vid st' !! j = Some clear_color.
Proof.
  intros Hr (Hrow & Hpos & Hbuf & Hclear).
  pose proof (row_start_bound r Hr). pose proof step_ge1.
  destruct (row_body_spec st)
    as (i' & st' & Hbody & Hi' & Hpos' & Hple' & Hend & Hrow' & Hl & Hframe & _);
    [lia | by rewrite Hrow | lia | exact Hbuf |].
  exists i', st'. rewrite Hrow in *.
  split_and!; try done; try lia.
  intros j Hj. rewrite Hframe by lia. by apply Hclear.
Qed.

Lemma row_turn_clear st r :
  0 ≤ r < k → rows_clear wd ht step_sz st r →
  ∃ st1 st2,
    row_body m m_sz cut detail wd step_sz st = Ret st1 ∧ edge_step timemillis wd ht st1 = Ret st2 ∧ rows_clear wd ht step_sz st2 (r + 1).
Proof.
  intros Hr Hinv.
  destruct (row_body_clear st r ltac:(lia) Hinv)
    as (i' & st1 & Hbody & Hrow1 & Hi' & Hpos1 & Hend & Hbuf1 & Hclear1).
  pose proof (row_start_bound (r + 1) ltac:(lia)) as Hnext. pose proof step_ge1.
  assert (Hfull : i' = wd).
  { destruct Hend as [-> | Hend]; [reflexivity |].
    assert ((r * wd + i') * step_sz ≤ (r + 1) * wd * step_sz) by nia. lia. }
  subst i'.
  destruct (edge_step_spec st1) as (st2 & Hedge & Hframe2); [lia | lia | exact Hbuf1 |].
  destruct (edge_step_inv st1 st2 ltac:(lia) Hedge) as (Hrow2 & Hpos2 & Hl2 & _).
  exists st1, st2. split; [exact Hbody |]. split; [exact Hedge |].
  unfold rows_clear. rewrite Hrow2, Hpos2, Hl2, Hrow1, Hpos1.
  split_and!; try done; try lia.
  intros j Hj. rewrite Hframe2 by lia. apply Hclear1. lia.
Qed.

Lemma iter_rows_clear n : ∀ st r,
  0 ≤ r → rows_clear wd ht step_sz st r → r + Z.of_nat n ≤ k →
  ∃ st', iter_rows timemillis m m_sz cut detail wd ht step_sz n st = Ret st' ∧ rows_clear wd ht step_sz st' (r + Z.of_nat n).
Proof.
  induction n as [|n IH]; intros st r Hr Hinv Hle; simpl iter_rows.
  - exists st. split; [reflexivity |]. by rewrite Z.add_0_r.
  - destruct (row_turn_clear st r ltac:(lia) Hinv) as (st1 & st2 & -> & Hedge & Hinv2).
    rewrite bind_Ret, Hedge, bind_Ret.
    destruct (IH st2 (r + 1) ltac:(lia) Hinv2 ltac:(lia)) as (st' & Hit & Hinv').
    exists st'. split; [exact Hit |].
    by replace (r + Z.of_nat (S n)) with (r + 1 + Z.of_nat n) by lia.
Qed.

Lemma rebuild_rows_unroll n : ∀ fuel st r,
  0 ≤ r → rows_clear wd ht step_sz st r → r + Z.of_nat n ≤ k →
  (∀ j, r ≤ j < r + Z.of_nat n → pump j = true) →
  rebuild_rows pump timemillis m m_sz cut detail wd ht step_sz (n + fuel) st
  = (st' ← iter_rows timemillis m m_sz cut detail wd ht step_sz n st; rebuild_rows pump timemillis m m_sz cut detail wd ht step_sz fuel st').
Proof.
  induction n as [|n IH]; intros fuel st r Hr Hinv Hle Hpump.
  - reflexivity.
  - simpl. destruct Hinv as (Hrow & Hpos & Hbuf & Hclear).
    pose proof (row_start_bound r ltac:(lia)). pose proof step_ge1.
    assert (0 ≤ r * wd * step_sz) by nia.
    rewrite Hpos, Hrow. rewrite (wrap64_small (r * wd * step_sz + step_sz)) by lia.
    destruct (Z.ltb_spec (r * wd * step_sz + step_sz) m_sz) as [_ | ?]; [| lia].
    destruct (Z.ltb_spec r ht) as [_ | ?]; [| lia]. simpl.
    destruct (row_turn_clear st r ltac:(lia) (conj Hrow (conj Hpos (conj Hbuf Hclear))))
      as (st1 & st2 & -> & Hedge & Hinv2).
    rewrite !bind_Ret. rewrite (Hpump r) by lia. simpl.
    rewrite Hedge, !bind_Ret.
    apply (IH fuel st2 (r + 1)); [lia | exact Hinv2 | lia |].
    intros j Hj. apply Hpump. lia.
Qed.

(** The pump lets the rows before [k] through and stops after row [k]. *)
Lemma rebuild_rows_cancel st0 :
  rows_clear wd ht step_sz st0 0 →
  (∀ j, 0 ≤ j < k → pump j = true) → pump k = false →
  ∃ stk st',
    iter_rows timemillis m m_sz cut detail wd ht step_sz (Z.to_nat k) st0 = Ret stk
    ∧ row_body m m_sz cut detail wd step_sz stk = Ret st'
    ∧ rebuild_rows pump timemillis m m_sz cut detail wd ht step_sz (Z.to_nat ht) st0 = Ret (false, st')
    ∧ ∀ j : nat, (k + 1) * wd ≤ Z.of_nat j < wd * ht →
                 rb_vid st' !! j = Some clear_color.
Proof.
  intros Hinv Hpump Hstop.
  destruct (iter_rows_clear (Z.to_nat k) st0 0 ltac:(lia) Hinv ltac:(lia))
    as (stk & Hit & Hinvk).
  replace (0 + Z.of_nat (Z.to_nat k)) with k in Hinvk by lia.
  destruct (row_body_clear stk k ltac:(lia) Hinvk)
    as (i' & st' & Hbody & _ & _ & _ & _ & _ & Hclear).
  exists stk, st'. split; [exact Hit |]. split; [exact Hbody |]. split; [| exact Hclear].
  replace (Z.to_nat ht) with (Z.to_nat k + S (Z.to_nat (ht - k - 1)))%nat by lia.
  rewrite (rebuild_rows_unroll (Z.to_nat k) _ st0 0); [| lia | exact Hinv | lia |].
  2:{ intros j Hj. apply Hpump. lia. }
  rewrite Hit, bind_Ret. simpl.
  destruct Hinvk as (Hrow & Hpos & _).
  pose proof (row_start_bound k ltac:(lia)). pose proof step_ge1.
  assert (0 ≤ k * wd * step_sz) by nia.
  rewrite Hpos, Hrow. rewrite (wrap64_small (k * wd * step_sz + step_sz)) by lia.
  destruct (Z.ltb_spec (k * wd * step_sz + step_sz) m_sz) as [_ | ?]; [| lia].
  destruct (Z.ltb_spec k ht) as [_ | ?]; [| lia]. simpl.
  rewrite Hbody, bind_Ret, Hstop. reflexivity.
Qed.
End RowLoops.

(** C10.  In detailed mode no read of the mapped file by [rebuild_preview],
    the [map[pos + j]] of the histogram included, is at or beyond the file
    length, for every file, raster size, pump, clock and initial content of
    the buffers: the run never stops on [ReadOutOfBounds]. *)
Theorem rebuild_preview_reads_inside_file pump timemillis ch_size dr0 cr0 fs m cut :
  0 < w (cont fs) → 0 < h (cont fs) → w (cont fs) * h (cont fs) < 2 ^ 64 →
  Z.of_nat (length m) < 2 ^ 63 →
  no_read_fault
    (rebuild_preview pump timemillis ch_size dr0 cr0 fs m (Z.of_nat (length m))
       cut true).
Proof.
  intros Hw Hh Hwh Hsz. set (c := cont fs). fold c in Hw, Hh, Hwh.
  unfold rebuild_preview. fold c.
  assert (Hwhpos : 0 < w c * h c) by nia.
  rewrite (wrap64_small (w c * h c)) by lia.
  rewrite udiv_Ret by lia. rewrite bind_Ret. cbv beta zeta.
  assert (Hq : 0 ≤ Z.of_nat (length m) / (w c * h c)) by (apply Z.div_pos; lia).
  rewrite (clamp_step _ Hq).
  apply no_read_fault_bind; [apply span_store_no_read |].
  intros vid0 Hclear.
  apply span_store_Ret_length in Hclear as [Hbuf Hl]; [| lia | lia | lia].
  specialize (Hbuf Hwhpos).
  apply no_read_fault_bind.
  { apply rebuild_rows_no_read; try done.
    unfold rows_inv, rebuild_start. simpl. rewrite Hl. split_and!; lia. }
  intros [completed st] _.
  destruct completed; simpl; [| apply no_read_fault_Ret].
  destruct (rb_dirty st); [| apply no_read_fault_Ret].
  apply no_read_fault_bind; [apply update_region_no_read |].
  intros [c2 wnd2] _. apply no_read_fault_Ret.
Qed.

Lemma rebuild_preview_reads_inside_file_witness :
  no_read_fault
    (rebuild_preview (λ _, true) (λ _, 0) 4 histo_zero histo_zero fsense_8 file_8
       (Z.of_nat (length file_8)) cutoff_default true).
Proof.
  apply (rebuild_preview_reads_inside_file (λ _, true) (λ _, 0) 4 histo_zero histo_zero
           fsense_8 file_8 cutoff_default); simpl; lia.
Defined.

(** C5.  When the pump answers false after row [k] (and true after the rows
    before), [rebuild_preview] returns false at once: the raster it leaves is
    the one the body of row [k] produced, the window is untouched, and every
    pixel of the rows [k+1 .. h-1] holds the opaque black written by the
    clear at the start of the call. *)
Theorem rebuild_preview_cancel pump timemillis ch_size dr0 cr0 fs m cut detail k :
  let c := cont fs in
  let m_sz := Z.of_nat (length m) in
  let step_sz := sample_step m_sz c in
  0 < w c → 0 < h c → w c * h c < 2 ^ 64 →
  w c * h c ≤ Z.of_nat (length (vidp c)) →
  m_sz < 2 ^ 63 →
  0 ≤ k < h c → k * w c * step_sz + step_sz < m_sz →
  (∀ j, 0 ≤ j < k → pump j = true) → pump k = false →
  ∃ vid0 stk st',
    span_store (λ _, clear_color) (Z.to_nat (w c * h c)) 0 (w c * h c) true 0 (vidp c)
    = Ret vid0
    ∧ iter_rows timemillis m m_sz cut detail (w c) (h c) step_sz (Z.to_nat k)
        (rebuild_start timemillis dr0 cr0 vid0) = Ret stk
    ∧ row_body m m_sz cut detail (w c) step_sz stk = Ret st'
    ∧ rebuild_preview pump timemillis ch_size dr0 cr0 fs m m_sz cut detail
      = Ret (false, set_view fs (set_vidp c (rb_vid st')) (windows_0 fs), rb_signals st')
    ∧ ∀ j : nat, (k + 1) * w c ≤ Z.of_nat j < w c * h c →
                 rb_vid st' !! j = Some clear_color.
Proof.
  intros c m_sz step_sz Hw Hh Hwh Hbuf Hsz Hk Hreach Hpump Hstop.
  assert (Hwhpos : 0 < w c * h c) by nia.
  exists (paint (λ _, clear_color) 0 (w c * h c) (vidp c)).
  assert (Hclear :
    span_store (λ _, clear_color) (Z.to_nat (w c * h c)) 0 (w c * h c) true 0 (vidp c)
    = Ret (paint (λ _, clear_color) 0 (w c * h c) (vidp c))).
  { by rewrite span_store_paint by lia. }
  destruct (rebuild_rows_cancel pump timemillis m m_sz cut detail (w c) (h c) step_sz
              Hw Hh Hwh eq_refl Hsz eq_refl k Hk Hreach
              (rebuild_start timemillis dr0 cr0
                 (paint (λ _, clear_color) 0 (w c * h c) (vidp c))))
    as (stk & st' & Hit & Hbody & Hrows & Hblack); [| exact Hpump | exact Hstop |].
  { unfold rows_clear, rebuild_start. simpl. rewrite length_paint.
    split_and!; try done; try lia.
    intros j Hj. rewrite paint_lookup. rewrite bool_decide_eq_true_2 by lia.
    destruct (lookup_lt_is_Some_2 (vidp c) j) as [x ->]; [lia | reflexivity]. }
  exists stk, st'. split; [exact Hclear |]. split; [exact Hit |].
  split; [exact Hbody |]. split; [| exact Hblack].
  unfold rebuild_preview. fold c.
  rewrite (wrap64_small (w c * h c)) by lia.
  rewrite udiv_Ret by lia. rewrite bind_Ret. cbv beta zeta.
  assert (Hq : 0 ≤ m_sz / (w c * h c)) by (apply Z.div_pos; lia).
  rewrite (clamp_step _ Hq). fold (sample_step m_sz c). fold step_sz.
  rewrite Hclear, bind_Ret. rewrite Hrows, bind_Ret. reflexivity.
Qed.

Lemma rebuild_preview_cancel_witness :
  ∃ vid0 stk st',
    span_store (λ _, clear_color) (Z.to_nat (2 * 2)) 0 (2 * 2) true 0 (vidp raster_2x2)
    = Ret vid0
    ∧ iter_rows (λ _, 0) file_8 8 cutoff_default true 2 2 2 (Z.to_nat 1)
        (rebuild_start (λ _, 0) histo_zero histo_zero vid0) = Ret stk
    ∧ row_body file_8 8 cutoff_default true 2 2 stk = Ret st'
    ∧ rebuild_preview (λ j, j <? 1) (λ _, 0) 4 histo_zero histo_zero fsense_8 file_8 8
        cutoff_default true
      = Ret (false, set_view fsense_8 (set_vidp raster_2x2 (rb_vid st'))
                      (windows_0 fsense_8), rb_signals st')
    ∧ ∀ j : nat, (1 + 1) * 2 ≤ Z.of_nat j < 2 * 2 → rb_vid st' !! j = Some clear_color.
Proof.
  apply (rebuild_preview_cancel (λ j, j <? 1) (λ _, 0) 4 histo_zero histo_zero fsense_8
           file_8 cutoff_default true 1); simpl; try lia; reflexivity.
Defined.

Section Histograms.
Variable timemillis : nat → Z.
Variable m : list byte.
Variable m_sz : Z.
Variable cut : spec_float.
Variable detail : bool.
Variable wd ht step_sz : Z.

Lemma iter_rows_snoc n : ∀ st0 st,
iter_rows timemillis m m_sz cut detail wd ht step_sz (S n) st0 = Ret st →
∃ stp st1,
  iter_rows timemillis m m_sz cut detail wd ht step_sz n st0 = Ret stp
  ∧ row_body m m_sz cut detail wd step_sz stp = Ret st1
  ∧ edge_step timemillis wd ht st1 = Ret st.
Proof.
induction n as [|n IH]; intros st0 st.
- simpl. intros (st1 & Hbody & (st2 & Hedge & [= <-])%bind_inv)%bind_inv.
  exists st0, st1. by split_and!.
- intros H. change (iter_rows timemillis m m_sz cut detail wd ht step_sz (S (S n)) st0)
    with (st1 ← row_body m m_sz cut detail wd step_sz st0;
          st2 ← edge_step timemillis wd ht st1;
          iter_rows timemillis m m_sz cut detail wd ht step_sz (S n) st2) in H.
  apply bind_inv in H as (st1 & Hbody & H).
  apply bind_inv in H as (st2 & Hedge & H).
  apply IH in H as (stp & st1' & Hit & Hbody' & Hedge').
  exists stp, st1'. split; [| by split].
  simpl. by rewrite Hbody, bind_Ret, Hedge, bind_Ret.
Qed.

Lemma edge_step_histograms st st' :
edge_step timemillis wd ht st = Ret st' →
rb_dr st' = rb_dr st ∧ rb_cr st' = rb_cr st.
Proof.
unfold edge_step. destruct (14 <? _).
- by intros (vid' & _ & [= <-])%bind_inv.
- by intros [= <-].
Qed.

(** What [row_body] does with the two histograms when the comparison is on. *)
Lemma row_body_histograms st st1 :
is_nan cut = false →
row_body m m_sz cut detail wd step_sz st = Ret st1 →
∃ pos vid hist,
  row_pixels m m_sz cut detail wd step_sz (Z.to_nat wd) (rb_row st) 0 (rb_pos st)
    (rb_vid st) (rb_dr st) = Ret (pos, vid, hist)
  ∧ (if SFltb (cmp_histo hist (rb_cr st)
                 (f32_of_Z (if detail then wrap64 (step_sz * wd) else wd))) cut
     then span_store (Z.lor edge_tint) (Z.to_nat wd) 0 wd true
            (wrap64 (rb_row st * wd)) vid
     else Ret vid) = Ret (rb_vid st1)
  ∧ rb_cr st1 = hist ∧ rb_dr st1 = histo_zero.
Proof.
intros Hcut. unfold row_body.
intros ([[pos vid] hist] & Hpx & H)%bind_inv. rewrite Hcut in H.
apply bind_inv in H as (vid' & Htint & [= <-]).
exists pos, vid, hist. by split_and!.
Qed.

(** C1, as amended.  With the comparison on (the cutoff is not NaN), in the
    state in which a row after the first starts, [dr] is all zero and [cr] is
    the histogram accumulated over the row before; the row is then tinted
    exactly when [cmp_histo] of its own histogram against [cr] is below the
    cutoff. *)
Theorem row_histogram_handover st0 n st :
is_nan cut = false →
iter_rows timemillis m m_sz cut detail wd ht step_sz (S n) st0 = Ret st →
rb_dr st = histo_zero
∧ (∃ stp pos vid hist,
     iter_rows timemillis m m_sz cut detail wd ht step_sz n st0 = Ret stp
     ∧ row_pixels m m_sz cut detail wd step_sz (Z.to_nat wd) (rb_row stp) 0
         (rb_pos stp) (rb_vid stp) (rb_dr stp) = Ret (pos, vid, hist)
     ∧ rb_cr st = hist)
∧ (∀ st1,
     row_body m m_sz cut detail wd step_sz st = Ret st1 →
     ∃ pos vid hist,
       row_pixels m m_sz cut detail wd step_sz (Z.to_nat wd) (rb_row st) 0
         (rb_pos st) (rb_vid st) histo_zero = Ret (pos, vid, hist)
       ∧ (if SFltb (cmp_histo hist (rb_cr st)
                      (f32_of_Z (if detail then wrap64 (step_sz * wd) else wd))) cut
          then span_store (Z.lor edge_tint) (Z.to_nat wd) 0 wd true
                 (wrap64 (rb_row st * wd)) vid
          else Ret vid) = Ret (rb_vid st1)
       ∧ rb_cr st1 = hist ∧ rb_dr st1 = histo_zero).
Proof.
intros Hcut (stp & st1 & Hit & Hbody & Hedge)%iter_rows_snoc.
destruct (row_body_histograms stp st1 Hcut Hbody)
  as (pos & vid & hist & Hpx & _ & Hcr & Hdr).
destruct (edge_step_histograms st1 st Hedge) as [Edr Ecr].
assert (Hzero : rb_dr st = histo_zero) by congruence.
split; [exact Hzero |]. split.
- exists stp, pos, vid, hist. split; [exact Hit |]. split; [exact Hpx | congruence].
- intros st2 Hbody2.
  destruct (row_body_histograms st st2 Hcut Hbody2) as (pos2 & vid2 & hist2 & H2).
  rewrite Hzero in H2. by exists pos2, vid2, hist2.
Qed.
End Histograms.

Lemma row_histogram_handover_witness :
  let st0 := rebuild_start (λ _, 0) histo_zero histo_zero (replicate 4 clear_color) in
  ∃ st,
    iter_rows (λ _, 0) file_8 8 cutoff_default false 2 2 2 1 st0 = Ret st
    ∧ rb_dr st = histo_zero
    ∧ rb_cr st = <[0%nat := 1]> (<[2%nat := 1]> histo_zero).
Proof.
  intros st0.
  assert (Hrun : ∃ st, iter_rows (λ _, 0) file_8 8 cutoff_default false 2 2 2 1 st0 = Ret st)
    by (vm_compute; eauto).
  destruct Hrun as [st Hst]. exists st. split; [exact Hst |].
  destruct (row_histogram_handover (λ _, 0) file_8 8 cutoff_default false 2 2 2 st0 0 st
              eq_refl Hst) as (Hdr & (stp & pos & vid & hist & Hit & Hpx & Hcr) & _).
  split; [exact Hdr |].
  injection Hit as <-. rewrite Hcr. vm_compute in Hpx. by injection Hpx as _ _ <-.
Defined.

(** C1 as stated fails: nothing exempts the first row.  With both buffers
    zero on entry, the row 0 of an 8-byte file is compared with the empty
    histogram and receives the red tint. *)
Lemma rebuild_preview_tints_first_row :
  ∃ fs',
    rebuild_preview (λ _, true) (λ _, 0) 0 histo_zero histo_zero fsense_8 file_8 8
      cutoff_default false = Ret (true, fs', 1%nat)
    ∧ vidp (cont fs') !! 0%nat = Some (Z.lor edge_tint (SHMIF_RGBA 0x00 0x00 0x00 0xff))
    ∧ vidp (cont fs') !! 1%nat = Some (Z.lor edge_tint (SHMIF_RGBA 0x00 0x02 0x00 0xff)).
Proof. eexists. split; [vm_compute; reflexivity |]. split; reflexivity. Qed.

(** * The score of a row against itself *)

(** ** Binary rounding, on integers *)

Lemma digits2_pos_size p : digits2_pos p = Pos.size p.
Proof. induction p as [p IH | p IH |]; simpl; by rewrite ?IH. Qed.

Lemma Zdigits2_bounds m :
  0 < m → 2 ^ (Zdigits2 m - 1) ≤ m < 2 ^ Zdigits2 m.
Proof.
  destruct m as [|p|p]; try lia. intros _.
  change (Zdigits2 (Z.pos p)) with (Z.pos (digits2_pos p)). rewrite digits2_pos_size.
  pose proof (Pos.size_gt p) as Hgt. pose proof (Pos.size_le p) as Hle.
  apply Pos2Z.pos_lt_pos in Hgt. apply Pos2Z.pos_le_pos in Hle.
  rewrite Pos2Z.inj_pow in Hgt, Hle. change (Z.pos p~0) with (2 * Z.pos p) in Hle.
  split; [| exact Hgt].
  replace (Z.pos (Pos.size p)) with (Z.succ (Z.pos (Pos.size p) - 1)) in Hle by lia.
  rewrite Z.pow_succ_r in Hle by lia. lia.
Qed.

Lemma Zdigits2_unique m d :
  2 ^ (d - 1) ≤ m < 2 ^ d → 0 < m → Zdigits2 m = d.
Proof.
  intros [Hlo Hhi] Hm. pose proof (Zdigits2_bounds m Hm) as [Hl Hh].
  assert (Hd : 0 < Zdigits2 m) by (destruct m; simpl; lia).
  destruct (Z.lt_trichotomy (Zdigits2 m) d) as [Hlt | [Heq | Hgt]]; [| exact Heq |].
  - assert (2 ^ Zdigits2 m ≤ 2 ^ (d - 1)) by (apply Z.pow_le_mono_r; lia). lia.
  - assert (0 ≤ d) by (destruct (Z.le_gt_cases 0 d); [done |]; rewrite Z.pow_neg_r in Hhi; lia).
    assert (2 ^ d ≤ 2 ^ (Zdigits2 m - 1)) by (apply Z.pow_le_mono_r; lia). lia.
Qed.

Lemma iter_pos_nat {A} (f : A → A) p : ∀ x,
  SpecFloat.iter_pos f p x = Nat.iter (Pos.to_nat p) f x.
Proof.
  induction p as [p IH | p IH |]; intros x; cbn [SpecFloat.iter_pos].
  - rewrite !IH. rewrite Pos2Nat.inj_xI.
    rewrite <- Nat.iter_add, <- Nat.iter_succ_r. f_equal. lia.
  - rewrite !IH. rewrite Pos2Nat.inj_xO. rewrite <- Nat.iter_add. f_equal. lia.
  - reflexivity.
Qed.

Lemma shr_1_m mrs : 0 ≤ shr_m mrs → shr_m (shr_1 mrs) = shr_m mrs / 2.
Proof.
  destruct mrs as [mm r s]. simpl. intros Hm.
  destruct mm as [|[p | p |]|p]; simpl; try lia; try reflexivity.
  - rewrite Pos2Z.inj_xI. apply (Z.div_unique _ _ _ 1); lia.
  - rewrite Pos2Z.inj_xO. apply (Z.div_unique _ _ _ 0); lia.
Qed.

Lemma shr_iter_m k : ∀ mrs,
  0 ≤ shr_m mrs → shr_m (Nat.iter k shr_1 mrs) = shr_m mrs / 2 ^ Z.of_nat k.
Proof.
  induction k as [|k IH]; intros mrs Hm.
  - simpl. by rewrite Z.div_1_r.
  - rewrite Nat.iter_succ_r. rewrite IH.
    + rewrite shr_1_m by exact Hm. rewrite Nat2Z.inj_succ, Z.pow_succ_r by lia.
      rewrite Z.div_div by lia. reflexivity.
    + rewrite shr_1_m by exact Hm. apply Z.div_pos; lia.
Qed.

Lemma shr_record_of_loc_m m l : shr_m (shr_record_of_loc m l) = m.
Proof. by destruct l as [|[]]. Qed.

Section Rounding.
Variable prec emax : Z.
Hypothesis Hprec : 1 < prec.

Lemma shr_fexp_m m e l :
  0 < m → 0 ≤ fexp prec emax (Zdigits2 m + e) - e →
  let n := fexp prec emax (Zdigits2 m + e) - e in
  ∃ mrs, shr_fexp prec emax m e l = (mrs, e + n)
         ∧ shr_m mrs = m / 2 ^ n
         ∧ (n = 0 → mrs = shr_record_of_loc m l).
Proof.
  intros Hm Hn n. unfold shr_fexp. fold n. unfold shr.
  destruct n as [|p|p] eqn:En; try lia.
  - eexists. split; [by rewrite Z.add_0_r |]. split; [| done].
    rewrite shr_record_of_loc_m. by rewrite Z.div_1_r.
  - eexists. split; [reflexivity |]. split; [| lia].
    rewrite iter_pos_nat. rewrite shr_iter_m by (rewrite shr_record_of_loc_m; lia).
    rewrite shr_record_of_loc_m. by rewrite positive_nat_Z.
Qed.

Lemma round_nearest_even_cases m l :
  round_nearest_even m l = m ∨ round_nearest_even m l = m + 1.
Proof. destruct l as [|[]]; simpl; auto. destruct (Z.even m); auto. Qed.

(** Rounding a mantissa of at least [prec] digits in the normal range. *)
Lemma binary_round_aux_normal sx mx ex lx :
  0 < mx → prec ≤ Zdigits2 mx →
  emin prec emax ≤ ex + Zdigits2 mx - prec → ex + Zdigits2 mx + 1 ≤ emax →
  let n := Zdigits2 mx - prec in
  let m1 := mx / 2 ^ n in
  ∃ m3 e3,
    binary_round_aux prec emax sx mx ex lx = S754_finite sx m3 e3
    ∧ 2 ^ (prec - 1) ≤ Z.pos m3 < 2 ^ prec
    ∧ emin prec emax ≤ e3 ≤ emax - prec
    ∧ 2 ^ (prec - 1) ≤ m1 < 2 ^ prec
    ∧ ((e3 = ex + n ∧ (Z.pos m3 = m1 ∨ Z.pos m3 = m1 + 1))
       ∨ (e3 = ex + n + 1 ∧ m1 + 1 = 2 ^ prec ∧ Z.pos m3 = 2 ^ (prec - 1)))
    ∧ (n = 0 → lx = loc_Exact → Z.pos m3 = mx ∧ e3 = ex).
Proof.
  intros Hm Hd Hmin Hmax n m1.
  pose proof (Zdigits2_bounds mx Hm) as [Hlo Hhi].
  assert (Hfexp : fexp prec emax (Zdigits2 mx + ex) - ex = n).
  { unfold fexp, n. lia. }
  assert (Hm1 : 2 ^ (prec - 1) ≤ m1 < 2 ^ prec).
  { unfold m1. assert (0 < 2 ^ n) by (apply Z.pow_pos_nonneg; lia).
    split.
    - apply Z.div_le_lower_bound; [lia |].
      rewrite <- Z.pow_add_r by lia. replace (n + (prec - 1)) with (Zdigits2 mx - 1) by lia.
      exact Hlo.
    - apply Z.div_lt_upper_bound; [lia |].
      rewrite <- Z.pow_add_r by lia. replace (n + prec) with (Zdigits2 mx) by lia.
      exact Hhi. }
  assert (Hpow : 0 < 2 ^ (prec - 1)) by (apply Z.pow_pos_nonneg; lia).
  assert (Hpow2 : 2 ^ prec = 2 * 2 ^ (prec - 1)).
  { replace prec with (Z.succ (prec - 1)) at 1 by lia. rewrite Z.pow_succ_r by lia. done. }
  unfold binary_round_aux.
  destruct (shr_fexp_m mx ex lx Hm ltac:(lia)) as (mrs & Hshr & Hmrs & Hexact).
  rewrite Hfexp in Hshr, Hmrs, Hexact. rewrite Hshr. fold m1 in Hmrs.
  set (m2 := round_nearest_even (shr_m mrs) (loc_of_shr_record mrs)).
  assert (Hm2 : m2 = m1 ∨ m2 = m1 + 1).
  { unfold m2. rewrite <- Hmrs. apply round_nearest_even_cases. }
  assert (Hm2pos : 0 < m2) by lia.
  destruct (Z.eq_dec m2 (2 ^ prec)) as [Hcarry | Hnocarry].
  - (* the mantissa overflows to [prec + 1] digits *)
    assert (Hd2 : Zdigits2 m2 = prec + 1).
    { apply Zdigits2_unique; [| lia]. rewrite Hcarry.
      replace (prec + 1 - 1) with prec by lia. split; [lia |].
      rewrite Z.pow_add_r by lia. lia. }
    destruct (shr_fexp_m m2 (ex + n) loc_Exact Hm2pos) as (mrs2 & Hshr2 & Hmrs2 & _).
    { rewrite Hd2. unfold fexp. lia. }
    assert (Hn2 : fexp prec emax (Zdigits2 m2 + (ex + n)) - (ex + n) = 1).
    { rewrite Hd2. unfold fexp, n. lia. }
    rewrite Hn2 in Hshr2, Hmrs2. rewrite Hshr2.
    rewrite Hcarry in Hmrs2. rewrite Hpow2 in Hmrs2.
    rewrite Z.pow_1_r in Hmrs2. rewrite Z.mul_comm, Z.div_mul in Hmrs2 by lia.
    rewrite Hmrs2. destruct (2 ^ (prec - 1)) as [|q|q] eqn:Eq; try lia.
    destruct (Z.leb_spec (ex + n + 1) (emax - prec)) as [_ | ?]; [| unfold n in *; lia].
    exists q, (ex + n + 1). split; [reflexivity |].
    split; [lia |]. split; [unfold n; lia |]. split; [lia |]. split.
    + right. split; [reflexivity |]. split; [lia | reflexivity].
    + intros Hn0 Hl. subst lx. specialize (Hexact Hn0). exfalso.
      unfold m2 in Hcarry. rewrite Hexact in Hcarry. simpl in Hcarry.
      unfold m1 in Hm1. rewrite Hn0, Z.div_1_r in Hm1. lia.
  - assert (Hd2 : Zdigits2 m2 = prec).
    { apply Zdigits2_unique; lia. }
    destruct (shr_fexp_m m2 (ex + n) loc_Exact Hm2pos) as (mrs2 & Hshr2 & Hmrs2 & _).
    { rewrite Hd2. unfold fexp, n. lia. }
    assert (Hn2 : fexp prec emax (Zdigits2 m2 + (ex + n)) - (ex + n) = 0).
    { rewrite Hd2. unfold fexp, n. lia. }
    rewrite Hn2 in Hshr2, Hmrs2. rewrite Hshr2.
    rewrite Z.pow_0_r, Z.div_1_r in Hmrs2. rewrite Hmrs2.
    destruct m2 as [|q|q] eqn:Eq; try lia.
    rewrite Z.add_0_r.
    destruct (Z.leb_spec (ex + n) (emax - prec)) as [_ | ?]; [| unfold n in *; lia].
    exists q, (ex + n). split; [reflexivity |].
    split; [lia |]. split; [unfold n; lia |]. split; [lia |]. split.
    + left. split; [reflexivity | lia].
    + intros Hn0 Hl. subst lx. specialize (Hexact Hn0).
      rewrite Hn0, Z.add_0_r. split; [| reflexivity].
      unfold m2 in Eq. rewrite Hexact in Eq. simpl in Eq. lia.
Qed.
End Rounding.

(** ** Powers of two and the real value of a float *)

Lemma pow2_pos e : (0 < pow2 e)%R.
Proof. apply powerRZ_lt. lra. Qed.

Lemma pow2_add a b : pow2 (a + b) = (pow2 a * pow2 b)%R.
Proof. apply powerRZ_add. lra. Qed.

Lemma pow2_IZR k : 0 ≤ k → pow2 k = IZR (2 ^ k).
Proof.
  intros Hk. unfold pow2. rewrite <- (Z2Nat.id k Hk) at 1.
  rewrite <- pow_powerRZ. rewrite pow_IZR. by rewrite Z2Nat.id.
Qed.

Lemma pow2_0 : pow2 0 = 1%R.
Proof. reflexivity. Qed.

Lemma pow2_le a b : a ≤ b → (pow2 a <= pow2 b)%R.
Proof.
  intros Hab. replace b with (a + (b - a)) by lia. rewrite pow2_add.
  rewrite (pow2_IZR (b - a)) by lia.
  assert (0 < 2 ^ (b - a)) by (apply Z.pow_pos_nonneg; lia).
  assert (1 ≤ 2 ^ (b - a)) as H1 by lia.
  apply IZR_le in H1. pose proof (pow2_pos a). nra.
Qed.

Lemma pow2_lt a b : a < b → (pow2 a < pow2 b)%R.
Proof.
  intros Hab. replace b with (a + (b - a)) by lia. rewrite pow2_add.
  rewrite (pow2_IZR (b - a)) by lia.
  assert (2 ^ 1 ≤ 2 ^ (b - a)) by (apply Z.pow_le_mono_r; lia).
  apply IZR_le in H. simpl in H. pose proof (pow2_pos a). nra.
Qed.

Lemma pow2_lt_inv a b : (pow2 a < pow2 b)%R → a < b.
Proof.
  intros Hlt. destruct (Z.lt_ge_cases a b) as [|Hge]; [done |].
  apply pow2_le in Hge. lra.
Qed.

Lemma pow2_le_inv a b : (pow2 a <= pow2 b)%R → a ≤ b.
Proof.
  intros Hle. destruct (Z.le_gt_cases a b) as [|Hgt]; [done |].
  apply pow2_lt in Hgt. lra.
Qed.

Lemma pow2_succ a : pow2 (a + 1) = (2 * pow2 a)%R.
Proof. rewrite pow2_add. unfold pow2 at 2. simpl. lra. Qed.

Lemma pow2_pred a : pow2 (a - 1) = (pow2 a / 2)%R.
Proof. replace a with (a - 1 + 1) at 2 by lia. rewrite pow2_succ. lra. Qed.

Lemma F2R_shift m e n : 0 ≤ n → F2R (m * 2 ^ n) e = F2R m (e + n).
Proof.
  intros Hn. unfold F2R. rewrite mult_IZR, pow2_add, (pow2_IZR n) by lia. ring.
Qed.

(** The value of a mantissa of [d] digits. *)
Lemma F2R_digits m e :
  0 < m → (pow2 (Zdigits2 m - 1 + e) <= F2R m e < pow2 (Zdigits2 m + e))%R.
Proof.
  intros Hm. pose proof (Zdigits2_bounds m Hm) as [Hlo Hhi].
  assert (Hd : 0 < Zdigits2 m) by (destruct m; simpl; lia).
  unfold F2R. rewrite !pow2_add.
  rewrite (pow2_IZR (Zdigits2 m - 1)), (pow2_IZR (Zdigits2 m)) by lia.
  apply IZR_le in Hlo. apply IZR_lt in Hhi. pose proof (pow2_pos e). nra.
Qed.

Section RoundingReal.
Variable prec emax : Z.
Hypothesis Hprec : 1 < prec.

(** [binary_round_aux] on the truncation [(mx, ex)] of a real [x], in the
    normal range: the result is within one ulp of [x]. *)
Lemma binary_round_aux_real sx mx ex lx (x : R) :
  0 < mx → prec ≤ Zdigits2 mx →
  (F2R mx ex <= x < F2R (mx + 1) ex)%R →
  (pow2 (emin prec emax + prec - 1) <= x < pow2 (emax - 2))%R →
  ∃ m3 e3,
    binary_round_aux prec emax sx mx ex lx = S754_finite sx m3 e3
    ∧ canonical prec emax m3 e3
    ∧ (Rabs (F2R (Z.pos m3) e3 - x) <= eps_rel prec * x)%R
    ∧ (Zdigits2 mx = prec → lx = loc_Exact → F2R (Z.pos m3) e3 = F2R mx ex).
Proof.
  intros Hm Hd [Hlo Hhi] [Hmin Hmax].
  pose proof (F2R_digits mx ex Hm) as [Hdl Hdh].
  pose proof (Zdigits2_bounds mx Hm) as [Hbl Hbh].
  assert (Hdpos : 0 < Zdigits2 mx) by lia.
  assert (Hx1 : (x < pow2 (Zdigits2 mx + ex))%R).
  { eapply Rlt_le_trans; [exact Hhi |].
    unfold F2R. rewrite pow2_add, (pow2_IZR (Zdigits2 mx)) by lia.
    assert (mx + 1 ≤ 2 ^ Zdigits2 mx) as Hle%IZR_le by lia.
    pose proof (pow2_pos ex). nra. }
  assert (Hnormal : emin prec emax ≤ ex + Zdigits2 mx - prec).
  { assert (emin prec emax + prec - 1 < Zdigits2 mx + ex); [| lia].
    apply pow2_lt_inv. lra. }
  assert (Hnoover : ex + Zdigits2 mx + 1 ≤ emax).
  { assert (Zdigits2 mx - 1 + ex < emax - 2); [| lia].
    apply pow2_lt_inv. lra. }
  destruct (binary_round_aux_normal prec emax Hprec sx mx ex lx Hm Hd Hnormal Hnoover)
    as (m3 & e3 & Hres & Hcan & He3 & Hm1 & Hcases & Hexact).
  exists m3, e3. split; [exact Hres |]. split; [by split |].
  split; [| intros Hd0 Hl; destruct (Hexact ltac:(lia) Hl) as [-> ->]; reflexivity].
  set (n := Zdigits2 mx - prec) in *. set (m1 := mx / 2 ^ n) in *.
  assert (Hn : 0 ≤ n) by (unfold n; lia).
  assert (H2n : 0 < 2 ^ n) by (apply Z.pow_pos_nonneg; lia).
  (* [x] lies between [m1] and [m1 + 1] at exponent [ex + n] *)
  assert (Hm1le : m1 * 2 ^ n ≤ mx).
  { unfold m1. rewrite Z.mul_comm. apply Z.mul_div_le. lia. }
  assert (Hm1gt : mx + 1 ≤ (m1 + 1) * 2 ^ n).
  { unfold m1. pose proof (Z.mod_pos_bound mx (2 ^ n) H2n).
    pose proof (Z.div_mod mx (2 ^ n) ltac:(lia)). nia. }
  assert (Hxlo : (F2R m1 (ex + n) <= x)%R).
  { rewrite <- F2R_shift by lia. eapply Rle_trans; [| exact Hlo].
    unfold F2R. apply IZR_le in Hm1le. pose proof (pow2_pos ex). nra. }
  assert (Hxhi : (x <= F2R (m1 + 1) (ex + n))%R).
  { rewrite <- F2R_shift by lia. apply Rlt_le. eapply Rlt_le_trans; [exact Hhi |].
    unfold F2R. apply IZR_le in Hm1gt. pose proof (pow2_pos ex). nra. }
  assert (Hres3 : F2R (Z.pos m3) e3 = F2R m1 (ex + n)
                  ∨ F2R (Z.pos m3) e3 = F2R (m1 + 1) (ex + n)).
  { destruct Hcases as [[-> [-> | ->]] | (-> & Hc & ->)]; [by left | by right |].
    right. rewrite Hc. unfold F2R. rewrite pow2_succ.
    replace (2 ^ prec) with (2 * 2 ^ (prec - 1)).
    - rewrite mult_IZR. lra.
    - replace prec with (Z.succ (prec - 1)) at 2 by lia. rewrite Z.pow_succ_r by lia. done. }
  (* one ulp is at most [eps_rel * x] *)
  assert (Hulp : (pow2 (ex + n) <= eps_rel prec * x)%R).
  { unfold eps_rel.
    assert (Hb : (pow2 (prec - 1) * pow2 (ex + n) <= x)%R).
    { eapply Rle_trans; [| exact Hxlo]. unfold F2R.
      rewrite (pow2_IZR (prec - 1)) by lia.
      destruct Hm1 as [Hm1l _]. apply IZR_le in Hm1l.
      pose proof (pow2_pos (ex + n)). nra. }
    replace (pow2 (ex + n)) with (pow2 (1 - prec) * (pow2 (prec - 1) * pow2 (ex + n)))%R.
    - pose proof (pow2_pos (1 - prec)). nra.
    - rewrite <- Rmult_assoc, <- pow2_add. replace (1 - prec + (prec - 1)) with 0 by lia.
      rewrite pow2_0. lra. }
  assert (Hw : (F2R (m1 + 1) (ex + n) - F2R m1 (ex + n) = pow2 (ex + n))%R).
  { unfold F2R. rewrite plus_IZR. lra. }
  apply Rabs_le. destruct Hres3 as [-> | ->]; lra.
Qed.
End RoundingReal.

Lemma Pos_iter_xO mx d : Z.pos (Pos.iter xO mx d) = Z.pos mx * 2 ^ Z.pos d.
Proof.
  induction d as [|d IH] using Pos.peano_ind.
  - simpl. lia.
  - rewrite Pos.iter_succ. rewrite Pos2Z.inj_xO, IH.
    rewrite Pos2Z.inj_succ, Z.pow_succ_r by lia. lia.
Qed.

Lemma shl_align_le mx ex ez :
  ez ≤ ex →
  shl_align mx ex ez = (Z.to_pos (Z.pos mx * 2 ^ (ex - ez)), ez)
  ∧ Z.pos (Z.to_pos (Z.pos mx * 2 ^ (ex - ez))) = Z.pos mx * 2 ^ (ex - ez).
Proof.
  intros Hle. unfold shl_align.
  assert (Hp : 0 < Z.pos mx * 2 ^ (ex - ez)).
  { assert (0 < 2 ^ (ex - ez)) by (apply Z.pow_pos_nonneg; lia). lia. }
  split; [| by rewrite Z2Pos.id].
  destruct (ez - ex) as [|d|d] eqn:Ed; try lia.
  - replace (ex - ez) with 0 by lia. rewrite Z.mul_1_r. simpl.
    f_equal. lia.
  - f_equal. apply Pos2Z.inj. rewrite Pos_iter_xO, Z2Pos.id by exact Hp.
    f_equal. f_equal. lia.
Qed.

Lemma shl_align_ge mx ex ez : ex ≤ ez → shl_align mx ex ez = (mx, ex).
Proof. intros Hle. unfold shl_align. destruct (ez - ex) eqn:E; try reflexivity. lia. Qed.

Lemma Zdigits2_shift m k : 0 < m → 0 ≤ k → Zdigits2 (m * 2 ^ k) = Zdigits2 m + k.
Proof.
  intros Hm Hk. pose proof (Zdigits2_bounds m Hm) as [Hlo Hhi].
  assert (Hd : 0 < Zdigits2 m) by (destruct m; simpl; lia).
  assert (0 < 2 ^ k) by (apply Z.pow_pos_nonneg; lia).
  apply Zdigits2_unique; [| lia].
  replace (Zdigits2 m + k - 1) with (Zdigits2 m - 1 + k) by lia.
  rewrite !Z.pow_add_r by lia. nia.
Qed.

Section Operations.
Variable prec emax : Z.
Hypothesis Hprec : 1 < prec.

Lemma in_range_normal x :
  in_range prec emax x → (pow2 (emin prec emax + prec - 1) <= x < pow2 (emax - 2))%R.
Proof.
  intros [Hlo Hhi]. split; [| exact Hhi].
  eapply Rle_trans; [| exact Hlo]. apply pow2_le. lia.
Qed.

(** [binary_round] of a positive mantissa. *)
Lemma binary_round_real sx mx ex :
  in_range prec emax (F2R (Z.pos mx) ex) →
  ∃ m3 e3,
    binary_round prec emax sx mx ex = S754_finite sx m3 e3
    ∧ canonical prec emax m3 e3
    ∧ (Rabs (F2R (Z.pos m3) e3 - F2R (Z.pos mx) ex)
       <= eps_rel prec * F2R (Z.pos mx) ex)%R
    ∧ (Zdigits2 (Z.pos mx) ≤ prec → F2R (Z.pos m3) e3 = F2R (Z.pos mx) ex).
Proof.
  intros Hr%in_range_normal. unfold binary_round.
  set (d := Zdigits2 (Z.pos mx)).
  pose proof (F2R_digits (Z.pos mx) ex ltac:(lia)) as [Hdl Hdh]. fold d in Hdl, Hdh.
  assert (Hnormal : emin prec emax ≤ d + ex - prec).
  { assert (emin prec emax + prec - 1 < d + ex); [| lia]. apply pow2_lt_inv. lra. }
  change (Z.pos (digits2_pos mx)) with d.
  assert (Hfexp : fexp prec emax (d + ex) = d + ex - prec) by (unfold fexp; lia).
  rewrite Hfexp.
  destruct (Z.le_gt_cases prec d) as [Hge | Hlt].
  - (* enough digits: no alignment *)
    rewrite shl_align_ge by lia.
    destruct (binary_round_aux_real prec emax Hprec sx (Z.pos mx) ex loc_Exact
                (F2R (Z.pos mx) ex)) as (m3 & e3 & Hres & Hcan & Herr & Hex);
      [lia | exact Hge | | exact Hr |].
    { split; [lra |]. unfold F2R. rewrite plus_IZR. pose proof (pow2_pos ex). lra. }
    exists m3, e3. split_and!; try done. intros Hd. apply Hex; [fold d; lia | done].
  - (* too few digits: shift left to [prec] digits, then the rounding is exact *)
    destruct (shl_align_le mx ex (d + ex - prec) ltac:(lia)) as [-> Hmz].
    set (mz := Z.to_pos (Z.pos mx * 2 ^ (ex - (d + ex - prec)))) in *.
    assert (Hdz : Zdigits2 (Z.pos mz) = prec).
    { rewrite Hmz. rewrite Zdigits2_shift by lia. fold d. lia. }
    assert (Hval : F2R (Z.pos mz) (d + ex - prec) = F2R (Z.pos mx) ex).
    { rewrite Hmz. rewrite F2R_shift by lia. f_equal. lia. }
    destruct (binary_round_aux_real prec emax Hprec sx (Z.pos mz) (d + ex - prec)
                loc_Exact (F2R (Z.pos mx) ex)) as (m3 & e3 & Hres & Hcan & Herr & Hex);
      [lia | lia | | exact Hr |].
    { rewrite <- Hval. split; [lra |]. unfold F2R. rewrite plus_IZR.
      pose proof (pow2_pos (d + ex - prec)). lra. }
    exists m3, e3. split_and!; try done.
    intros _. rewrite <- Hval. by apply Hex.
Qed.

Lemma is_float_pos x v : is_float prec emax x v → (0 < v)%R.
Proof.
  intros (m & e & _ & _ & ->). unfold F2R.
  pose proof (pow2_pos e). assert (0 < IZR (Z.pos m))%R by (apply IZR_lt; lia). nra.
Qed.

Lemma binary_normalize_real m e :
  0 < m → in_range prec emax (F2R m e) →
  ∃ v, is_float prec emax (binary_normalize prec emax m e false) v
       ∧ near prec v (F2R m e)
       ∧ (Zdigits2 m ≤ prec → v = F2R m e).
Proof.
  intros Hm Hr. destruct m as [|p|p]; try lia. simpl.
  destruct (binary_round_real false p e Hr) as (m3 & e3 & -> & Hcan & Herr & Hex).
  exists (F2R (Z.pos m3) e3). split; [by exists m3, e3 |]. by split.
Qed.
End Operations.

Lemma Rcompare_Eq (a b : R) : a = b → Rcompare a b = Eq.
Proof. intros. destruct (Rcompare_spec a b); (done || lra). Qed.

Lemma Rcompare_Lt (a b : R) : (a < b)%R → Rcompare a b = Lt.
Proof. intros. destruct (Rcompare_spec a b); (done || lra). Qed.

Lemma Rcompare_Gt (a b : R) : (b < a)%R → Rcompare a b = Gt.
Proof. intros. destruct (Rcompare_spec a b); (done || lra). Qed.

Lemma shift_match m s :
  0 ≤ s →
  match s with
  | Z.pos _ => Z.shiftl m s
  | 0 => m
  | Z.neg _ => 0
  end = m * 2 ^ s.
Proof.
  intros Hs. destruct s as [|p|p]; [by rewrite Z.mul_1_r | | lia].
  by rewrite Z.shiftl_mul_pow2.
Qed.

Section Arithmetic.
Variable prec emax : Z.
Hypothesis Hprec : 1 < prec.
Hypothesis Hemax : prec < emax.

Lemma canonical_digits m e : canonical prec emax m e → Zdigits2 (Z.pos m) = prec.
Proof. intros [Hm _]. apply Zdigits2_unique; lia. Qed.

Lemma canonical_value m e :
  canonical prec emax m e →
  (pow2 (prec - 1 + e) <= F2R (Z.pos m) e < pow2 (prec + e))%R.
Proof.
  intros Hc. pose proof (F2R_digits (Z.pos m) e ltac:(lia)) as H.
  by rewrite (canonical_digits m e Hc) in H.
Qed.

Lemma pow2_half_succ : 2 ^ prec = 2 * 2 ^ (prec - 1).
Proof. replace prec with (Z.succ (prec - 1)) at 1 by lia. by rewrite Z.pow_succ_r by lia. Qed.

Lemma SFadd_real x y vx vy :
  is_float prec emax x vx → is_float prec emax y vy →
  in_range prec emax (vx + vy) →
  ∃ v, is_float prec emax (SFadd prec emax x y) v ∧ near prec v (vx + vy).
Proof.
  intros (mx & ex & -> & Hcx & ->) (my & ey & -> & Hcy & ->) Hr.
  unfold SFadd. cbv zeta. unfold cond_Zopp.
  destruct (shl_align_le mx ex (Z.min ex ey) ltac:(lia)) as [-> Hx].
  destruct (shl_align_le my ey (Z.min ex ey) ltac:(lia)) as [-> Hy].
  cbn [fst]. rewrite Hx, Hy.
  set (ez := Z.min ex ey) in *.
  assert (Hval : F2R (Z.pos mx * 2 ^ (ex - ez) + Z.pos my * 2 ^ (ey - ez)) ez
                 = (F2R (Z.pos mx) ex + F2R (Z.pos my) ey)%R).
  { unfold F2R at 1. rewrite plus_IZR, Rmult_plus_distr_r.
    fold (F2R (Z.pos mx * 2 ^ (ex - ez)) ez). fold (F2R (Z.pos my * 2 ^ (ey - ez)) ez).
    rewrite !F2R_shift by lia. f_equal; f_equal; lia. }
  assert (Hpos : 0 < Z.pos mx * 2 ^ (ex - ez) + Z.pos my * 2 ^ (ey - ez)).
  { assert (0 < 2 ^ (ex - ez)) by (apply Z.pow_pos_nonneg; lia).
    assert (0 < 2 ^ (ey - ez)) by (apply Z.pow_pos_nonneg; lia). lia. }
  destruct (binary_normalize_real prec emax Hprec _ ez Hpos) as (v & Hv & Hn & _).
  { by rewrite Hval. }
  exists v. split; [exact Hv |]. by rewrite <- Hval.
Qed.

(** [x - y] for [y < x]. *)
Lemma SFsub_real x y vx vy :
  is_float prec emax x vx → is_float prec emax y vy →
  (vy < vx)%R → in_range prec emax (vx - vy) →
  ∃ v, is_float prec emax (SFsub prec emax x y) v ∧ near prec v (vx - vy).
Proof.
  intros (mx & ex & -> & Hcx & ->) (my & ey & -> & Hcy & ->) Hlt Hr.
  unfold SFsub. cbv zeta. unfold cond_Zopp.
  destruct (shl_align_le mx ex (Z.min ex ey) ltac:(lia)) as [-> Hx].
  destruct (shl_align_le my ey (Z.min ex ey) ltac:(lia)) as [-> Hy].
  cbn [fst]. rewrite Hx, Hy.
  set (ez := Z.min ex ey) in *.
  assert (Hval : F2R (Z.pos mx * 2 ^ (ex - ez) - Z.pos my * 2 ^ (ey - ez)) ez
                 = (F2R (Z.pos mx) ex - F2R (Z.pos my) ey)%R).
  { unfold F2R at 1. rewrite minus_IZR, Rmult_minus_distr_r.
    fold (F2R (Z.pos mx * 2 ^ (ex - ez)) ez). fold (F2R (Z.pos my * 2 ^ (ey - ez)) ez).
    rewrite !F2R_shift by lia. f_equal; f_equal; lia. }
  assert (Hpos : 0 < Z.pos mx * 2 ^ (ex - ez) - Z.pos my * 2 ^ (ey - ez)).
  { apply lt_IZR. apply (Rmult_lt_reg_r (pow2 ez)); [apply pow2_pos |].
    rewrite Rmult_0_l. fold (F2R (Z.pos mx * 2 ^ (ex - ez) - Z.pos my * 2 ^ (ey - ez)) ez).
    rewrite Hval. lra. }
  destruct (binary_normalize_real prec emax Hprec _ ez Hpos) as (v & Hv & Hn & _).
  { by rewrite Hval. }
  exists v. split; [exact Hv |]. by rewrite <- Hval.
Qed.

Lemma SFsub_same x v :
  is_float prec emax x v → SFsub prec emax x x = S754_zero false.
Proof.
  intros (mx & ex & -> & Hcx & ->). unfold SFsub. cbv zeta. unfold cond_Zopp.
  by rewrite Z.sub_diag.
Qed.

Lemma SFmul_real x y vx vy :
  is_float prec emax x vx → is_float prec emax y vy →
  (pow2 (emin prec emax + prec - 1) <= vx * vy < pow2 (emax - 2))%R →
  ∃ v, is_float prec emax (SFmul prec emax x y) v ∧ near prec v (vx * vy).
Proof.
  intros (mx & ex & -> & Hcx & ->) (my & ey & -> & Hcy & ->) Hr.
  unfold SFmul. simpl xorb.
  assert (Hval : F2R (Z.pos (mx * my)) (ex + ey)
                 = (F2R (Z.pos mx) ex * F2R (Z.pos my) ey)%R).
  { unfold F2R. rewrite Pos2Z.inj_mul, mult_IZR, pow2_add. ring. }
  assert (Hd : prec ≤ Zdigits2 (Z.pos (mx * my))).
  { destruct Hcx as [[Hx _] _]. destruct Hcy as [[Hy _] _].
    pose proof (Zdigits2_bounds (Z.pos (mx * my)) ltac:(lia)) as [_ Hhi].
    assert (0 < 2 ^ (prec - 1)) by (apply Z.pow_pos_nonneg; lia).
    assert (2 ^ (prec - 1) * 2 ^ (prec - 1) ≤ Z.pos (mx * my)) by (rewrite Pos2Z.inj_mul; nia).
    rewrite <- Z.pow_add_r in H0 by lia.
    assert (prec - 1 + (prec - 1) < Zdigits2 (Z.pos (mx * my))); [| lia].
    apply (Z.pow_lt_mono_r_iff 2); [lia | simpl; lia | lia]. }
  destruct (binary_round_aux_real prec emax Hprec false (Z.pos (mx * my)) (ex + ey)
              loc_Exact (F2R (Z.pos mx) ex * F2R (Z.pos my) ey))
    as (m3 & e3 & -> & Hcan & Herr & _); [lia | exact Hd | | exact Hr |].
  { rewrite <- Hval. split; [lra |]. unfold F2R. rewrite plus_IZR.
    pose proof (pow2_pos (ex + ey)). lra. }
  exists (F2R (Z.pos m3) e3). split; [by exists m3, e3 | exact Herr].
Qed.

Lemma SFdiv_real x y vx vy :
  is_float prec emax x vx → is_float prec emax y vy →
  in_range prec emax (vx / vy) →
  ∃ v, is_float prec emax (SFdiv prec emax x y) v ∧ near prec v (vx / vy).
Proof.
  intros (mx & ex & -> & Hcx & ->) (my & ey & -> & Hcy & ->) Hr.
  pose proof (canonical_value mx ex Hcx) as [Hxl Hxh].
  pose proof (canonical_value my ey Hcy) as [Hyl Hyh].
  pose proof (canonical_digits mx ex Hcx) as Hdx.
  pose proof (canonical_digits my ey Hcy) as Hdy.
  set (vx := F2R (Z.pos mx) ex) in *. set (vy := F2R (Z.pos my) ey) in *.
  assert (Hvy : (0 < vy)%R) by (pose proof (pow2_pos (prec - 1 + ey)); lra).
  (* the quotient is below [2 ^ (ex - ey + 1)] *)
  assert (Hq : (vx / vy < pow2 (ex - ey + 1))%R).
  { apply (Rmult_lt_reg_r vy); [exact Hvy |].
    unfold Rdiv. rewrite Rmult_assoc, Rinv_l, Rmult_1_r by lra.
    eapply Rlt_le_trans; [exact Hxh |].
    replace (prec + ex) with (ex - ey + 1 + (prec - 1 + ey)) by lia. rewrite pow2_add.
    pose proof (pow2_pos (ex - ey + 1)). nra. }
  assert (He : emin prec emax + prec < ex - ey).
  { destruct Hr as [Hlo _].
    assert (emin prec emax + prec + 1 < ex - ey + 1); [| lia]. apply pow2_lt_inv. lra. }
  unfold SFdiv, SFdiv_core_binary. simpl xorb. cbv zeta.
  rewrite Hdx, Hdy.
  replace (Z.min (fexp prec emax (prec + ex - (prec + ey))) (ex - ey))
    with (ex - ey - prec) by (unfold fexp; lia).
  replace (ex - ey - (ex - ey - prec)) with prec by lia.
  rewrite shift_match by lia.
  set (m' := Z.pos mx * 2 ^ prec).
  pose proof (Z_div_mod m' (Z.pos my) ltac:(lia)) as Hdm.
  destruct (Z.div_eucl m' (Z.pos my)) as [q r]. destruct Hdm as [Hm' Hrem].
  destruct Hcx as [[Hxm Hxm'] _]. destruct Hcy as [[Hym Hym'] _].
  assert (H2p : 0 < 2 ^ (prec - 1)) by (apply Z.pow_pos_nonneg; lia).
  pose proof pow2_half_succ as Hps.
  assert (Hqlo : 2 ^ (prec - 1) ≤ q).
  { assert (2 ^ (prec - 1) * Z.pos my < m' + Z.pos my); [| nia].
    unfold m'. nia. }
  assert (Hdq : prec ≤ Zdigits2 q).
  { pose proof (Zdigits2_bounds q ltac:(lia)) as [_ Hhi].
    assert (prec - 1 < Zdigits2 q); [| lia].
    apply (Z.pow_lt_mono_r_iff 2); [lia | | lia].
    destruct q; simpl; lia. }
  assert (Hvx : vx = (IZR m' * pow2 (ex - prec))%R).
  { unfold vx, F2R, m'. rewrite mult_IZR, <- (pow2_IZR prec) by lia.
    rewrite Rmult_assoc, <- pow2_add. do 2 f_equal. lia. }
  assert (Hquot : (vx / vy = IZR m' / IZR (Z.pos my) * pow2 (ex - ey - prec))%R).
  { rewrite Hvx. unfold vy, F2R.
    replace (ex - prec) with (ex - ey - prec + ey) by lia. rewrite pow2_add.
    pose proof (pow2_pos ey).
    field. split; first [apply eq_IZR_contrapositive; lia | lra]. }
  destruct (binary_round_aux_real prec emax Hprec false q (ex - ey - prec)
              (new_location (Z.pos my) r) (vx / vy))
    as (m3 & e3 & -> & Hcan & Herr & _); [lia | exact Hdq | | by apply in_range_normal |].
  { rewrite Hquot. unfold F2R.
    assert (Hy0 : (0 < IZR (Z.pos my))%R) by (apply IZR_lt; lia).
    pose proof (pow2_pos (ex - ey - prec)) as Hp.
    assert (IZR q <= IZR m' / IZR (Z.pos my) < IZR (q + 1))%R as [Hl Hh].
    { split.
      - apply (Rmult_le_reg_r (IZR (Z.pos my))); [exact Hy0 |].
        unfold Rdiv. rewrite Rmult_assoc, Rinv_l, Rmult_1_r by lra.
        rewrite <- mult_IZR. apply IZR_le. lia.
      - apply (Rmult_lt_reg_r (IZR (Z.pos my))); [exact Hy0 |].
        unfold Rdiv. rewrite Rmult_assoc, Rinv_l, Rmult_1_r by lra.
        rewrite <- mult_IZR. apply IZR_lt. lia. }
    split; nra. }
  exists (F2R (Z.pos m3) e3). split; [by exists m3, e3 | exact Herr].
Qed.

Lemma SFsqrt_real x vx :
  is_float prec emax x vx →
  in_range prec emax (sqrt vx) →
  ∃ v, is_float prec emax (SFsqrt prec emax x) v ∧ near prec v (sqrt vx).
Proof.
  intros (mx & ex & -> & Hcx & ->) Hr.
  pose proof (canonical_digits mx ex Hcx) as Hdx.
  destruct Hcx as [[Hxm Hxm'] [Hemin Hemaxe]].
  unfold SFsqrt, SFsqrt_core_binary. cbv zeta. rewrite Hdx.
  rewrite !Z.div2_div.
  set (t := (prec + ex + 1) / 2).
  assert (Ht : prec + ex ≤ 2 * t ≤ prec + ex + 1).
  { unfold t. pose proof (Z.div_mod (prec + ex + 1) 2 ltac:(lia)).
    pose proof (Z.mod_pos_bound (prec + ex + 1) 2 ltac:(lia)). lia. }
  assert (He2 : ex - 1 ≤ 2 * (ex / 2) ≤ ex).
  { pose proof (Z.div_mod ex 2 ltac:(lia)).
    pose proof (Z.mod_pos_bound ex 2 ltac:(lia)). lia. }
  assert (Hemin' : emin prec emax ≤ 1 - prec) by (unfold emin; lia).
  unfold emin in *.
  replace (Z.min (fexp prec emax t) (ex / 2)) with (t - prec)
    by (unfold fexp, emin; lia).
  set (s := ex - 2 * (t - prec)).
  assert (Hs : prec - 1 ≤ s ≤ prec) by (unfold s; lia).
  rewrite shift_match by lia.
  set (m' := Z.pos mx * 2 ^ s).
  assert (H2s : 0 < 2 ^ s) by (apply Z.pow_pos_nonneg; lia).
  assert (H2p : 0 < 2 ^ (prec - 1)) by (apply Z.pow_pos_nonneg; lia).
  assert (Hm'lo : 2 ^ (prec - 1) * 2 ^ (prec - 1) ≤ m').
  { unfold m'. assert (2 ^ (prec - 1) ≤ 2 ^ s) by (apply Z.pow_le_mono_r; lia). nia. }
  pose proof (Z.sqrtrem_spec m' ltac:(lia)) as Hsq.
  destruct (Z.sqrtrem m') as [q r]. destruct Hsq as [Hm' Hrem].
  assert (Hq0 : 0 ≤ q).
  { destruct (Z.le_gt_cases 0 q); [done |]. lia. }
  assert (Hqlo : 2 ^ (prec - 1) ≤ q) by nia.
  assert (Hdq : prec ≤ Zdigits2 q).
  { pose proof (Zdigits2_bounds q ltac:(lia)) as [_ Hhi].
    assert (prec - 1 < Zdigits2 q); [| lia].
    apply (Z.pow_lt_mono_r_iff 2); [lia | | lia].
    destruct q; simpl; lia. }
  set (e' := t - prec) in *.
  assert (Hvx : F2R (Z.pos mx) ex = (IZR m' * (pow2 e' * pow2 e'))%R).
  { unfold F2R, m'. rewrite mult_IZR, <- (pow2_IZR s), <- pow2_add by lia.
    rewrite Rmult_assoc, <- pow2_add. do 2 f_equal. unfold s. lia. }
  pose proof (pow2_pos e') as Hpe.
  assert (Hqr : (0 <= IZR q)%R) by (apply IZR_le; lia).
  assert (Hlow : (F2R q e' <= sqrt (F2R (Z.pos mx) ex))%R).
  { rewrite <- (sqrt_square (F2R q e')) by (unfold F2R; nra).
    apply sqrt_le_1; [unfold F2R; nra | rewrite Hvx; apply IZR_le in Hm'lo |].
    - assert (0 <= IZR m')%R by (apply IZR_le; lia). nra.
    - rewrite Hvx. unfold F2R.
      assert (IZR q * IZR q <= IZR m')%R by (rewrite <- mult_IZR; apply IZR_le; lia).
      nra. }
  assert (Hupp : (sqrt (F2R (Z.pos mx) ex) < F2R (q + 1) e')%R).
  { assert (Hq1 : (0 <= IZR (q + 1))%R) by (apply IZR_le; lia).
    rewrite <- (sqrt_square (F2R (q + 1) e')) by (unfold F2R; nra).
    apply sqrt_lt_1; [rewrite Hvx | unfold F2R; nra |].
    - assert (0 <= IZR m')%R by (apply IZR_le; lia). nra.
    - rewrite Hvx. unfold F2R.
      assert (IZR m' < IZR (q + 1) * IZR (q + 1))%R
        by (rewrite <- mult_IZR; apply IZR_lt; nia).
      replace (IZR (q + 1) * pow2 e' * (IZR (q + 1) * pow2 e'))%R
        with (IZR (q + 1) * IZR (q + 1) * (pow2 e' * pow2 e'))%R by ring.
      apply Rmult_lt_compat_r; [nra | done]. }
  destruct (binary_round_aux_real prec emax Hprec false q e'
              (if r =? 0 then loc_Exact else loc_Inexact (if r <=? q then Lt else Gt))
              (sqrt (F2R (Z.pos mx) ex)))
    as (m3 & e3 & -> & Hcan & Herr & _);
    [lia | exact Hdq | by split | by apply in_range_normal |].
  exists (F2R (Z.pos m3) e3). split; [by exists m3, e3 | exact Herr].
Qed.

(** The canonical form is unique, and the comparison follows the values. *)
Lemma SFcompare_real x y vx vy :
  is_float prec emax x vx → is_float prec emax y vy →
  SFcompare x y = Some (Rcompare vx vy).
Proof.
  intros (mx & ex & -> & Hcx & ->) (my & ey & -> & Hcy & ->).
  pose proof (canonical_value mx ex Hcx) as [Hxl Hxh].
  pose proof (canonical_value my ey Hcy) as [Hyl Hyh].
  simpl. f_equal. symmetry. destruct (Z.compare_spec ex ey) as [-> | Hlt | Hgt].
  - rewrite Pos.compare_cont_spec. simpl.
    pose proof (pow2_pos ey). unfold F2R.
    destruct (Pos.compare_spec mx my) as [-> | Hm | Hm].
    + apply Rcompare_Eq. reflexivity.
    + assert (IZR (Z.pos mx) < IZR (Z.pos my))%R by (apply IZR_lt; lia).
      apply Rcompare_Lt. nra.
    + assert (IZR (Z.pos my) < IZR (Z.pos mx))%R by (apply IZR_lt; lia).
      apply Rcompare_Gt. nra.
  - assert (pow2 (prec + ex) <= pow2 (prec - 1 + ey))%R by (apply pow2_le; lia).
    apply Rcompare_Lt. lra.
  - assert (pow2 (prec + ey) <= pow2 (prec - 1 + ex))%R by (apply pow2_le; lia).
    apply Rcompare_Gt. lra.
Qed.

Lemma SFltb_real x y vx vy :
  is_float prec emax x vx → is_float prec emax y vy →
  SFltb x y = true ↔ (vx < vy)%R.
Proof.
  intros Hx Hy. unfold SFltb. rewrite (SFcompare_real x y vx vy Hx Hy).
  destruct (Rcompare_spec vx vy); split; (done || lra).
Qed.

Lemma is_float_unique x y v :
  is_float prec emax x v → is_float prec emax y v → x = y.
Proof.
  intros Hx Hy. pose proof (SFcompare_real x y v v Hx Hy) as Hc.
  rewrite Rcompare_Eq in Hc by reflexivity.
  destruct Hx as (mx & ex & -> & Hcx & Hvx). destruct Hy as (my & ey & -> & Hcy & Hvy).
  simpl in Hc. injection Hc as Hc.
  destruct (Z.compare_spec ex ey) as [-> | |]; try discriminate.
  rewrite Pos.compare_cont_spec in Hc.
  destruct (Pos.compare_spec mx my) as [-> | |]; [done | discriminate | discriminate].
Qed.
End Arithmetic.

(** ** The two formats of [cmp_histo] *)

Lemma pow2_neg k : 0 ≤ k → pow2 (- k) = (/ IZR (2 ^ k))%R.
Proof.
  intros Hk. pose proof (pow2_add k (- k)) as H. replace (k + - k) with 0 in H by lia.
  rewrite pow2_0, (pow2_IZR k Hk) in H.
  assert (0 < IZR (2 ^ k))%R by (apply IZR_lt; lia).
  apply (Rmult_eq_reg_l (IZR (2 ^ k))); [| lra]. rewrite <- H. field. lra.
Qed.

Lemma pow2_Zneg p : pow2 (Z.neg p) = (/ IZR (2 ^ Z.pos p))%R.
Proof. apply (pow2_neg (Z.pos p)). lia. Qed.

Lemma F2R_one k : 0 ≤ k → F2R (2 ^ k) (- k) = 1%R.
Proof.
  intros Hk. unfold F2R. rewrite pow2_neg by done. field.
  apply eq_IZR_contrapositive. lia.
Qed.

Lemma F2R_half k : 0 ≤ k → F2R (2 ^ k) (- (k + 1)) = (1 / 2)%R.
Proof.
  intros Hk. unfold F2R. replace (- (k + 1)) with (- k - 1) by lia.
  rewrite pow2_pred, pow2_neg by done. field.
  apply eq_IZR_contrapositive. lia.
Qed.

Lemma float_range_double x :
  (pow2 (-126) <= x < pow2 128)%R → in_range 53 1024 x.
Proof.
  intros [H1 H2]. change (pow2 (-1020) <= x < pow2 1022)%R.
  pose proof (pow2_le (-1020) (-126) ltac:(lia)).
  pose proof (pow2_lt 128 1022 ltac:(lia)). lra.
Qed.

(** Every [float] is a [double]: the widening conversion is exact. *)
Lemma f64_of_f32_real x v :
  is_float 24 128 x v → is_float 53 1024 (f64_of_f32 x) v.
Proof.
  intros (m & e & -> & Hc & ->). unfold f64_of_f32. simpl cond_Zopp.
  pose proof (canonical_value 24 128 m e Hc) as [Hl Hh].
  pose proof (canonical_digits 24 128 m e Hc) as Hd.
  destruct Hc as [_ He]. unfold emin in He.
  destruct (binary_normalize_real 53 1024 ltac:(lia) (Z.pos m) e ltac:(lia))
    as (v & Hv & _ & Hex).
  { apply float_range_double.
    pose proof (pow2_le (-126) (24 - 1 + e) ltac:(lia)).
    pose proof (pow2_le (24 + e) 128 ltac:(lia)). lra. }
  rewrite <- (Hex ltac:(lia)). exact Hv.
Qed.

(** The narrowing conversion rounds. *)
Lemma f32_of_f64_real x v :
  is_float 53 1024 x v → in_range 24 128 v →
  ∃ w, is_float 24 128 (f32_of_f64 x) w ∧ near 24 w v.
Proof.
  intros (m & e & -> & Hc & ->) Hr. unfold f32_of_f64. simpl cond_Zopp.
  destruct (binary_normalize_real 24 128 ltac:(lia) (Z.pos m) e ltac:(lia) Hr)
    as (w & Hw & Hn & _).
  eauto.
Qed.

Lemma f32_of_Z_real c :
  0 < c < 2 ^ 40 →
  ∃ v, is_float 24 128 (f32_of_Z c) v ∧ near 24 v (IZR c).
Proof.
  intros Hc. unfold f32_of_Z.
  assert (F2R c 0 = IZR c) as HF by (unfold F2R; rewrite pow2_0; ring).
  destruct (binary_normalize_real 24 128 ltac:(lia) c 0 ltac:(lia))
    as (v & Hv & Hn & _).
  { rewrite HF. change (pow2 (-124) <= IZR c < pow2 126)%R.
    assert (1 <= IZR c)%R by (apply IZR_le; lia).
    assert (IZR c < IZR (2 ^ 40))%R by (apply IZR_lt; lia).
    rewrite <- (pow2_IZR 40) in * by lia.
    pose proof (pow2_le (-124) 0 ltac:(lia)). rewrite pow2_0 in *.
    pose proof (pow2_lt 40 126 ltac:(lia)). lra. }
  rewrite HF in Hn. eauto.
Qed.

Lemma is_float_intro prec emax m e :
  canonical prec emax m e →
  is_float prec emax (S754_finite false m e) (F2R (Z.pos m) e).
Proof. intros Hc. exists m, e. done. Qed.

Lemma EPSILON_real : is_float 24 128 EPSILON (F2R 14073749 (-47)).
Proof.
  replace EPSILON with (S754_finite false 14073749 (-47)) by (vm_compute; reflexivity).
  apply is_float_intro. unfold canonical, emin. simpl. lia.
Qed.

Lemma f32_one_real : is_float 24 128 (S754_finite false 8388608 (-23)) 1.
Proof.
  replace 1%R with (F2R 8388608 (-23)).
  - apply is_float_intro. unfold canonical, emin. simpl. lia.
  - exact (F2R_one 23 ltac:(lia)).
Qed.

Lemma f64_one_real : is_float 53 1024 (f64_of_Z 1) 1.
Proof.
  replace (f64_of_Z 1) with (S754_finite false 4503599627370496 (-52))
    by (vm_compute; reflexivity).
  replace 1%R with (F2R 4503599627370496 (-52)).
  - apply is_float_intro. unfold canonical, emin. simpl. lia.
  - exact (F2R_one 52 ltac:(lia)).
Qed.

Lemma f64_half_real : is_float 53 1024 f64_half (1 / 2).
Proof.
  replace f64_half with (S754_finite false 4503599627370496 (-53))
    by (vm_compute; reflexivity).
  replace (1 / 2)%R with (F2R 4503599627370496 (-53)).
  - apply is_float_intro. unfold canonical, emin. simpl. lia.
  - exact (F2R_half 52 ltac:(lia)).
Qed.

(** [floor] of a [double] in [1, 2) is 1. *)
Lemma f64_floor_one x v :
  is_float 53 1024 x v → (1 <= v < 2)%R → f64_floor x = f64_of_Z 1.
Proof.
  intros (m & e & -> & Hc & ->) [H1 H2].
  pose proof (canonical_value 53 1024 m e Hc) as [Hl Hh].
  destruct Hc as [Hm _]. 
  assert (e = -52) as ->.
  { assert (0 < 53 + e).
    { apply pow2_lt_inv. rewrite pow2_0. lra. }
    assert (53 - 1 + e < 1).
    { apply pow2_lt_inv. replace (pow2 1) with 2%R; [lra |].
      rewrite (pow2_IZR 1) by lia. reflexivity. }
    lia. }
  unfold f64_floor. simpl cond_Zopp.
  change (0 <=? -52) with false. cbv iota.
  change (- -52) with 52. rewrite Z.shiftr_div_pow2 by lia.
  replace (Z.pos m `div` 2 ^ 52) with 1.
  - vm_compute. reflexivity.
  - apply Z.div_unique with (Z.pos m - 2 ^ 52); lia.
Qed.

(** Below 1 the nearest [float] to 1 is [1 - 2^-24]. *)
Lemma float_below_one x v :
  is_float 24 128 x v → (v < 1)%R → (v <= 1 - pow2 (-24))%R.
Proof.
  intros (m & e & -> & Hc & ->) H1.
  pose proof (canonical_value 24 128 m e Hc) as [Hl Hh].
  destruct Hc as [Hm _].
  assert (e ≤ -24) as He.
  { assert (24 - 1 + e < 0); [| lia].
    apply pow2_lt_inv. rewrite pow2_0. lra. }
  destruct (decide (e = -24)) as [-> | Hne].
  - unfold F2R in *. pose proof (pow2_pos (-24)).
    assert (IZR (Z.pos m) <= IZR (2 ^ 24 - 1))%R as Hb by (apply IZR_le; lia).
    rewrite minus_IZR in Hb.
    assert (IZR (2 ^ 24) * pow2 (-24) = 1)%R as Hone.
    { exact (F2R_one 24 ltac:(lia)). }
    nra.
  - pose proof (pow2_le (24 + e) (-1) ltac:(lia)).
    pose proof (pow2_le (-24) (-1) ltac:(lia)).
    assert (pow2 (-1) = 1 / 2)%R as Hh2.
    { pose proof (F2R_half 0 ltac:(lia)) as Hf. unfold F2R in Hf.
      change (- (0 + 1)) with (-1) in Hf. change (2 ^ 0) with 1 in Hf. lra. }
    lra.
Qed.

(** ** Relative enclosures *)

Lemma near_within prec v x :
  near prec v x → within (1 - eps_rel prec) (1 + eps_rel prec) v x.
Proof.
  unfold near, within. intros H.
  unfold Rabs in H. destruct (Rcase_abs (v - x)); lra.
Qed.

Lemma within_refl l h x :
  (0 <= x)%R → (l <= 1 <= h)%R → within l h x x.
Proof. unfold within. intros. nra. Qed.

Lemma within_weaken l h l' h' v x :
  (0 <= x)%R → (l' <= l)%R → (h <= h')%R → within l h v x → within l' h' v x.
Proof.
  unfold within. intros Hx Hl Hh [H1 H2].
  assert (l' * x <= l * x)%R by (apply Rmult_le_compat_r; done).
  assert (h * x <= h' * x)%R by (apply Rmult_le_compat_r; done).
  lra.
Qed.

Lemma within_trans l1 h1 l2 h2 w v x :
  (0 <= x)%R → (0 <= l1)%R → (0 <= l2 <= h2)%R →
  within l1 h1 v x → within l2 h2 w v → within (l1 * l2) (h1 * h2) w x.
Proof.
  unfold within. intros Hx Hl1 [Hl2 Hlh] [H1 H2] [H3 H4].
  assert (0 <= l1 * x)%R by (apply Rmult_le_pos; done).
  assert (0 <= v)%R by lra.
  assert (l2 * (l1 * x) <= l2 * v)%R by (apply Rmult_le_compat_l; done).
  assert (h2 * v <= h2 * (h1 * x))%R by (apply Rmult_le_compat_l; lra).
  split.
  - replace (l1 * l2 * x)%R with (l2 * (l1 * x))%R by ring. lra.
  - replace (h1 * h2 * x)%R with (h2 * (h1 * x))%R by ring. lra.
Qed.

Lemma within_add l h v w x y :
  within l h v x → within l h w y → within l h (v + w) (x + y).
Proof. unfold within. intros [] []. split; lra. Qed.

Lemma within_square l h v x :
  (0 <= x)%R → (0 <= l)%R →
  within l h v x → within (l * l) (h * h) (v * v) (x * x).
Proof.
  unfold within. intros Hx Hl [H1 H2].
  assert (0 <= l * x)%R by (apply Rmult_le_pos; done).
  assert (0 <= v)%R by lra.
  split.
  - replace (l * l * (x * x))%R with ((l * x) * (l * x))%R by ring.
    apply Rmult_le_compat; done.
  - replace (h * h * (x * x))%R with ((h * x) * (h * x))%R by ring.
    apply Rmult_le_compat; done.
Qed.

Lemma within_sqrt l h v x :
  (0 <= x)%R → (0 <= l)%R → (0 <= h)%R →
  within (l * l) (h * h) v (x * x) → within l h (sqrt v) x.
Proof.
  unfold within. intros Hx Hl Hh [H1 H2]. split.
  - rewrite <- (sqrt_square (l * x)) by (apply Rmult_le_pos; done).
    apply sqrt_le_1_alt. replace (l * x * (l * x))%R with (l * l * (x * x))%R by ring.
    done.
  - rewrite <- (sqrt_square (h * x)) by (apply Rmult_le_pos; done).
    apply sqrt_le_1_alt. replace (h * x * (h * x))%R with (h * h * (x * x))%R by ring.
    done.
Qed.

Lemma within_div l1 h1 l2 h2 v w x y :
  (0 <= x)%R → (0 < y)%R → (0 <= l1)%R → (0 < l2)%R →
  within l1 h1 v x → within l2 h2 w y →
  within (l1 / h2) (h1 / l2) (v / w) (x / y).
Proof.
  unfold within. intros Hx Hy Hl1 Hl2 [H1 H2] [H3 H4].
  assert (0 < l2 * y)%R by (apply Rmult_lt_0_compat; done).
  assert (0 < w)%R by lra.
  assert (0 < h2 * y)%R by lra.
  assert (0 < h2)%R.
  { destruct (Rlt_dec 0 h2) as [|Hn]; [done |]. nra. }
  assert (0 <= l1 * x)%R by (apply Rmult_le_pos; done).
  assert (0 <= v)%R by lra.
  assert (/ (h2 * y) <= / w)%R by (apply Rinv_le_contravar; lra).
  assert (/ w <= / (l2 * y))%R by (apply Rinv_le_contravar; lra).
  assert (0 < / w)%R by (apply Rinv_0_lt_compat; done).
  assert (0 < / (h2 * y))%R by (apply Rinv_0_lt_compat; done).
  split.
  - replace (l1 / h2 * (x / y))%R with ((l1 * x) * / (h2 * y))%R by (field; lra).
    unfold Rdiv. apply Rmult_le_compat; lra.
  - replace (h1 / l2 * (x / y))%R with ((h1 * x) * / (l2 * y))%R by (field; lra).
    unfold Rdiv. apply Rmult_le_compat; lra.
Qed.

(** ** Powers of the per-step factors *)

Lemma pow_lower x n :
  (0 <= x <= 1)%R → (0 <= (1 - x) ^ n <= 1 ∧ 1 - INR n * x <= (1 - x) ^ n)%R.
Proof.
  intros Hx. induction n as [|n IH].
  - simpl. lra.
  - rewrite S_INR. simpl pow. destruct IH as [[H0 H1] H2].
    assert (x * (1 - x) ^ n <= x)%R by nra.
    assert (0 <= (1 - x) * (1 - x) ^ n)%R by (apply Rmult_le_pos; lra).
    nra.
Qed.

Lemma pow_upper x n :
  (0 <= x)%R → (2 * INR n * x <= 1)%R →
  (1 <= (1 + x) ^ n <= 1 + 2 * INR n * x)%R.
Proof.
  intros Hx. induction n as [|n IH]; intros Hn.
  - simpl. lra.
  - rewrite S_INR in *. simpl pow.
    assert (0 <= INR n)%R by apply pos_INR.
    destruct IH as [H1 H2]; [nra |].
    assert (x * (1 + x) ^ n <= x * 2)%R by (apply Rmult_le_compat_l; nra).
    nra.
Qed.

Lemma INR_le_256 (i : nat) : (i ≤ 256)%nat → (0 <= INR i <= 256)%R.
Proof.
  intros Hi. split; [apply pos_INR |].
  rewrite INR_IZR_INZ. apply IZR_le. lia.
Qed.

(** ** The constants *)

Lemma u32_value : eps_rel 24 = (1 / 8388608)%R.
Proof.
  unfold eps_rel. change (1 - 24) with (-23). rewrite pow2_Zneg.
  change (2 ^ Z.pos 23) with 8388608. lra.
Qed.

Lemma u64_value : eps_rel 53 = (1 / 4503599627370496)%R.
Proof.
  unfold eps_rel. change (1 - 53) with (-52). rewrite pow2_Zneg.
  change (2 ^ Z.pos 52) with 4503599627370496. lra.
Qed.

Lemma E_value : F2R 14073749 (-47) = (14073749 / 140737488355328)%R.
Proof.
  unfold F2R. rewrite pow2_Zneg.
  change (2 ^ Z.pos 47) with 140737488355328. lra.
Qed.

Lemma EPSILON_R_value : EPSILON_R = (14073749 / 140737488355328)%R.
Proof. exact E_value. Qed.

Lemma near_bounds prec v x :
  near prec v x → ((1 - eps_rel prec) * x <= v <= (1 + eps_rel prec) * x)%R.
Proof. apply near_within. Qed.

(** Values between [1e-7 / 2^41] and [2^40] are well inside both formats. *)
Lemma in_range_both v :
  (14073749 / 140737488355328 / 2199023255552 <= v <= 1099511627776)%R →
  in_range 24 128 v ∧ in_range 53 1024 v.
Proof.
  intros [H1 H2].
  assert (pow2 (-124) <= v)%R as Hl.
  { pose proof (pow2_le (-124) (-70) ltac:(lia)) as H.
    rewrite (pow2_Zneg 70) in H.
    change (2 ^ Z.pos 70) with 1180591620717411303424 in H. lra. }
  assert (v < pow2 126)%R as Hh.
  { pose proof (pow2_lt 40 126 ltac:(lia)) as H.
    rewrite (pow2_IZR 40) in H by lia.
    change (2 ^ 40) with 1099511627776 in H. lra. }
  split.
  - exact (conj Hl Hh).
  - change (pow2 (-1020) <= v < pow2 1022)%R.
    pose proof (pow2_le (-1020) (-124) ltac:(lia)).
    pose proof (pow2_lt 126 1022 ltac:(lia)). lra.
Qed.

Lemma in_range_normal_32 v :
  (1 / 85070591730234615865843651857942052864 <= v
     <= 1180591620717411303424)%R →
  (pow2 (emin 24 128 + 24 - 1) <= v < pow2 (128 - 2))%R.
Proof.
  intros [H1 H2]. change (pow2 (-126) <= v < pow2 126)%R.
  pose proof (pow2_Zneg 126) as Hl.
  change (2 ^ Z.pos 126) with 85070591730234615865843651857942052864 in Hl.
  pose proof (pow2_lt 70 126 ltac:(lia)) as H.
  rewrite (pow2_IZR 70) in H by lia.
  change (2 ^ 70) with 1180591620717411303424 in H. lra.
Qed.

Section Bins.
Variable T : Z.
Variable roww : spec_float.
Variable Tv : R.
Hypothesis HT : 1 ≤ T < 2 ^ 39.
Hypothesis Hroww : is_float 24 128 roww Tv.
Hypothesis HTv : near 24 Tv (IZR T).

Lemma T_bounds : (1 <= IZR T <= 549755813888)%R.
Proof.
  split; [apply IZR_le; lia |].
  change 549755813888%R with (IZR (2 ^ 39)). apply IZR_le. lia.
Qed.

Lemma quotient_bounds (c : Z) :
  0 ≤ c < 2 ^ 31 →
  (14073749 / 140737488355328 / 549755813888
     <= (IZR c + EPSILON_R) / IZR T <= 2147483649)%R.
Proof.
  intros Hc. pose proof T_bounds as [Ht1 Ht2].
  assert (0 <= IZR c <= 2147483648)%R as [Hc1 Hc2].
  { split; [apply IZR_le; lia |].
    change 2147483648%R with (IZR (2 ^ 31)). apply IZR_le. lia. }
  rewrite EPSILON_R_value.
  assert (/ 549755813888 <= / IZR T)%R by (apply Rinv_le_contravar; lra).
  assert (/ IZR T <= / 1)%R by (apply Rinv_le_contravar; lra).
  rewrite Rinv_1 in *.
  assert (0 < / IZR T)%R by (apply Rinv_0_lt_compat; lra).
  unfold Rdiv. split.
  - apply Rmult_le_compat; lra.
  - replace 2147483649%R with (2147483649 * 1)%R by ring.
    apply Rmult_le_compat; lra.
Qed.

(** [(float)a[i] + EPSILON] *)
Lemma bin_numerator c :
  0 ≤ c < 2 ^ 31 →
  ∃ x, is_float 24 128 (SFadd 24 128 (f32_of_Z c) EPSILON) x
       ∧ within ((1 - 1 / 8388608) * (1 - 1 / 8388608))
                ((1 + 1 / 8388608) * (1 + 1 / 8388608)) x (IZR c + EPSILON_R).
Proof.
  intros Hc. destruct (decide (c = 0)) as [-> | Hne].
  - exists EPSILON_R. split.
    + change (f32_of_Z 0) with (S754_zero false).
      pose proof EPSILON_real as HE. destruct HE as (m & e & -> & Hm).
      simpl. exists m, e. done.
    + unfold within. rewrite EPSILON_R_value. lra.
  - destruct (f32_of_Z_real c) as (cv & Hcv & Hn); [lia |].
    apply near_bounds in Hn. rewrite u32_value in Hn.
    assert (1 <= IZR c <= 2147483648)%R as [Hc1 Hc2].
    { split; [apply IZR_le; lia |].
      change 2147483648%R with (IZR (2 ^ 31)). apply IZR_le. lia. }
    destruct (SFadd_real 24 128 ltac:(lia) _ _ cv EPSILON_R Hcv EPSILON_real)
      as (x & Hx & Hnx).
    { apply in_range_both. rewrite EPSILON_R_value. lra. }
    exists x. split; [done |].
    apply near_bounds in Hnx. rewrite u32_value in Hnx.
    unfold within. rewrite EPSILON_R_value in *. lra.
Qed.

(** [na = ((float)a[i] + EPSILON) / roww] and the term [sqrt(na * na)] that
    the loop adds to [bcf], against the exact quotient. *)
Lemma bin_terms c :
  0 ≤ c < 2 ^ 31 →
  ∃ nav tv,
    is_float 24 128
      (SFdiv 24 128 (SFadd 24 128 (f32_of_Z c) EPSILON) roww) nav
    ∧ is_float 53 1024
        (SFsqrt 53 1024
           (f64_of_f32
              (SFmul 24 128
                 (SFdiv 24 128 (SFadd 24 128 (f32_of_Z c) EPSILON) roww)
                 (SFdiv 24 128 (SFadd 24 128 (f32_of_Z c) EPSILON) roww)))) tv
    ∧ within (1 - 7 / 8388608) (1 + 7 / 8388608) nav
        ((IZR c + EPSILON_R) / IZR T)
    ∧ within (1 - 7 / 8388608) (1 + 7 / 8388608) tv
        ((IZR c + EPSILON_R) / IZR T).
Proof.
  intros Hc. destruct (bin_numerator c Hc) as (x & Hx & Hwx).
  pose proof T_bounds as [Ht1 Ht2].
  pose proof (quotient_bounds c Hc) as [Hq1 Hq2].
  set (q := ((IZR c + EPSILON_R) / IZR T)%R) in *.
  assert (0 <= IZR c)%R as Hc0 by (apply IZR_le; lia).
  assert (0 < EPSILON_R)%R as HE0 by (rewrite EPSILON_R_value; lra).
  pose proof (near_within _ _ _ HTv) as HwT. rewrite u32_value in HwT.
  assert (within ((1 - 1 / 8388608) * (1 - 1 / 8388608) / (1 + 1 / 8388608))
            ((1 + 1 / 8388608) * (1 + 1 / 8388608) / (1 - 1 / 8388608))
            (x / Tv) q) as Hwr.
  { apply within_div; try done; lra. }
  unfold within in Hwr.
  destruct (SFdiv_real 24 128 ltac:(lia) _ _ x Tv Hx Hroww) as (nav & Hna & Hnn).
  { apply in_range_both. lra. }
  apply near_bounds in Hnn. rewrite u32_value in Hnn.
  assert (within (1 - 5 / 8388608) (1 + 5 / 8388608) nav q) as Hwn.
  { unfold within. lra. }
  assert (0 <= q)%R as Hq0 by lra.
  assert (0 <= 1 - 5 / 8388608)%R as Hl0 by lra.
  pose proof (within_square _ _ _ _ Hq0 Hl0 Hwn) as Hsq.
  assert (0 <= q * q)%R as Hqq by (apply Rmult_le_pos; done).
  assert (14073749 / 140737488355328 / 549755813888
          * (14073749 / 140737488355328 / 549755813888) <= q * q)%R as Hqql.
  { apply Rmult_le_compat; lra. }
  assert (q * q <= 2147483649 * 2147483649)%R as Hqqh.
  { apply Rmult_le_compat; lra. }
  unfold within in Hsq.
  destruct (SFmul_real 24 128 ltac:(lia) _ _ nav nav Hna Hna) as (pv & Hp & Hnp).
  { apply in_range_normal_32. lra. }
  apply near_bounds in Hnp. rewrite u32_value in Hnp.
  pose proof (f64_of_f32_real _ _ Hp) as Hp64.
  assert (within (1 - 6 / 8388608) (1 + 6 / 8388608) (sqrt pv) q) as Hws.
  { apply within_sqrt; try lra. unfold within. lra. }
  unfold within in Hws.
  destruct (SFsqrt_real 53 1024 ltac:(lia) ltac:(lia) _ pv Hp64) as (tv & Ht & Hnt).
  { apply in_range_both. lra. }
  apply near_bounds in Hnt. rewrite u64_value in Hnt.
  exists nav, tv. unfold within. split_and!; try done; lra.
Qed.

End Bins.

Lemma hsum_app l k : hsum (l ++ k) = hsum l + hsum k.
Proof. induction l as [|x l IH]; simpl; lia. Qed.

Lemma hsum_bounds l :
  Forall (λ c, 0 ≤ c < 2 ^ 31) l → 0 ≤ hsum l ≤ Z.of_nat (length l) * (2 ^ 31 - 1).
Proof. induction 1 as [|x l Hx _ IH]; simpl; lia. Qed.

Lemma hsum_take_S (l : list Z) i :
  (i < length l)%nat → hsum (take (S i) l) = hsum (take i l) + l !!! i.
Proof.
  intros Hi. rewrite (take_S_r l i (l !!! i)).
  - rewrite hsum_app. simpl. lia.
  - apply list_lookup_lookup_total_lt. done.
Qed.

Lemma hsum_take_le l i :
  Forall (λ c, 0 ≤ c < 2 ^ 31) l → 0 ≤ hsum (take i l) ≤ hsum l.
Proof.
  intros Hl. rewrite <- (take_drop i l) at 3. rewrite hsum_app.
  pose proof (hsum_bounds (take i l) ltac:(by apply Forall_take)).
  pose proof (hsum_bounds (drop i l) ltac:(by apply Forall_drop)). lia.
Qed.

Lemma step_factors (i : nat) :
  (i ≤ 256)%nat →
  (1 - 264 / 8388608 <= step_lo ^ i * bin_lo
   ∧ step_hi ^ i * bin_hi <= 1 + 530 / 8388608
   ∧ 0 < step_lo ^ i <= 1 ∧ 1 <= step_hi ^ i)%R.
Proof.
  intros Hi. pose proof (INR_le_256 i Hi) as [Hi0 Hi1].
  pose proof (pow_lower (1 - step_lo) i) as Hlo.
  replace (1 - (1 - step_lo))%R with step_lo in Hlo by ring.
  destruct Hlo as [[Hl0 Hl1] Hl2]; [unfold step_lo; lra |].
  pose proof (pow_upper (step_hi - 1) i) as Hhi.
  replace (1 + (step_hi - 1))%R with step_hi in Hhi by ring.
  destruct Hhi as [Hh1 Hh2]; [unfold step_hi; lra | unfold step_hi; lra |].
  assert (0 < step_lo ^ i)%R by (apply pow_lt; unfold step_lo; lra).
  unfold step_lo, step_hi, bin_lo, bin_hi in *.
  split_and!; try lra; nra.
Qed.

Section SelfSimilarity.
Variable a : list Z.
Hypothesis Ha : histogram a.
Hypothesis Hsum : 1 ≤ hsum a.

Lemma total_range : 1 ≤ hsum a < 2 ^ 39.
Proof.
  destruct Ha as [Hlen Hall]. pose proof (hsum_bounds a Hall) as H.
  rewrite Hlen in H. change (Z.of_nat 256) with 256 in H. lia.
Qed.

Lemma bin_range (i : nat) : (i < 256)%nat → 0 ≤ a !!! i < 2 ^ 31.
Proof.
  destruct Ha as [Hlen Hall]. intros Hi.
  assert (a !! i = Some (a !!! i)) as Hl
    by (apply list_lookup_lookup_total_lt; lia).
  exact (Forall_lookup_1 _ _ _ _ Hall Hl).
Qed.

Lemma share_S (i : nat) :
  (i < 256)%nat →
  share a (S i)
  = (share a i + (IZR (a !!! i) + EPSILON_R) / IZR (hsum a))%R.
Proof.
  destruct Ha as [Hlen Hall]. intros Hi. unfold share.
  rewrite hsum_take_S by lia. rewrite plus_IZR, S_INR.
  field. apply eq_IZR_contrapositive. lia.
Qed.

Lemma share_0 : share a 0 = 0%R.
Proof.
  unfold share. simpl. field. apply eq_IZR_contrapositive. lia.
Qed.

Lemma share_bounds (i : nat) :
  (1 ≤ i ≤ 256)%nat →
  (14073749 / 140737488355328 / 549755813888 <= share a i <= 2)%R.
Proof.
  destruct Ha as [Hlen Hall]. intros Hi. unfold share.
  pose proof (T_bounds (hsum a) total_range) as [Ht1 Ht2].
  pose proof (hsum_take_le a i Hall) as [Hs0 Hs1].
  apply IZR_le in Hs0, Hs1.
  assert (1 <= INR i <= 256)%R as [Hi1 Hi2].
  { rewrite INR_IZR_INZ. split; apply IZR_le; lia. }
  rewrite EPSILON_R_value.
  assert (/ 549755813888 <= / IZR (hsum a))%R by (apply Rinv_le_contravar; lra).
  assert (0 < / IZR (hsum a))%R by (apply Rinv_0_lt_compat; lra).
  unfold Rdiv. split.
  - apply Rmult_le_compat; lra.
  - apply (Rmult_le_reg_r (IZR (hsum a))); [lra |].
    rewrite Rmult_assoc, Rinv_l by lra. lra.
Qed.

Lemma share_total :
  (1 <= share a 256 <= 1 + 256 * (14073749 / 140737488355328))%R.
Proof.
  destruct Ha as [Hlen Hall]. unfold share.
  rewrite take_ge by lia.
  pose proof (T_bounds (hsum a) total_range) as [Ht1 Ht2].
  replace (INR 256) with 256%R by (rewrite INR_IZR_INZ; reflexivity).
  rewrite EPSILON_R_value. split.
  - apply (Rmult_le_reg_r (IZR (hsum a))); [lra |].
    unfold Rdiv. rewrite Rmult_assoc, Rinv_l by lra. lra.
  - apply (Rmult_le_reg_r (IZR (hsum a))); [lra |].
    unfold Rdiv. rewrite Rmult_assoc, Rinv_l by lra. nra.
Qed.

End SelfSimilarity.

Lemma SFadd_zero_l prec emax x v :
  is_float prec emax x v → SFadd prec emax (S754_zero false) x = x.
Proof. intros (m & e & -> & _). reflexivity. Qed.

Lemma cmp_histo_loop_S n i a b roww bcf sum_1 sum_2 :
  cmp_histo_loop (S n) i a b roww (bcf, sum_1, sum_2)
  = cmp_histo_loop n (S i) a b roww
      (f32_of_f64
         (SFadd 53 1024 (f64_of_f32 bcf)
            (SFsqrt 53 1024
               (f64_of_f32
                  (SFmul 24 128
                     (SFdiv 24 128 (SFadd 24 128 (f32_of_Z (a !!! i)) EPSILON) roww)
                     (SFdiv 24 128 (SFadd 24 128 (f32_of_Z (b !!! i)) EPSILON) roww))))),
       SFadd 24 128 sum_1
         (SFdiv 24 128 (SFadd 24 128 (f32_of_Z (a !!! i)) EPSILON) roww),
       SFadd 24 128 sum_2
         (SFdiv 24 128 (SFadd 24 128 (f32_of_Z (b !!! i)) EPSILON) roww)).
Proof. reflexivity. Qed.

Section Loop.
Variable a : list Z.
Hypothesis Ha : histogram a.
Hypothesis Hsum : 1 ≤ hsum a.

Lemma roww_real :
  ∃ Tv, is_float 24 128 (f32_of_Z (hsum a)) Tv ∧ near 24 Tv (IZR (hsum a)).
Proof.
  pose proof (total_range a Ha Hsum). apply f32_of_Z_real. lia.
Qed.

(** The first bin: the accumulators leave zero. *)
Lemma first_bin sum_2 :
  ∃ bcf sum_1 sum_2',
    cmp_histo_loop 256 0 a a (f32_of_Z (hsum a))
      (S754_zero false, S754_zero false, sum_2)
    = cmp_histo_loop 255 1 a a (f32_of_Z (hsum a)) (bcf, sum_1, sum_2')
    ∧ acc_ok a 1 bcf sum_1.
Proof.
  destruct roww_real as (Tv & Hroww & HTv).
  pose proof (total_range a Ha Hsum) as HT.
  destruct (bin_terms (hsum a) _ Tv HT Hroww HTv (a !!! 0%nat))
    as (nav & tv & Hna & Ht & Hwn & Hwt).
  { apply bin_range; [done | lia]. }
  rewrite cmp_histo_loop_S. do 3 eexists. split; [reflexivity |].
  pose proof (share_S a Ha Hsum 0 ltac:(lia)) as HS.
  rewrite (share_0 a Hsum), Rplus_0_l in HS. rewrite <- HS in Hwn, Hwt.
  pose proof (share_bounds a Ha Hsum 1 ltac:(lia)) as [Hq1 Hq2].
  change (f64_of_f32 (S754_zero false)) with (S754_zero false).
  rewrite (SFadd_zero_l 53 1024 _ tv Ht), (SFadd_zero_l 24 128 _ nav Hna).
  unfold within, bin_lo, bin_hi in *.
  destruct (f32_of_f64_real _ tv Ht) as (bv & Hb & Hnb).
  { apply in_range_both. lra. }
  apply near_bounds in Hnb. rewrite u32_value in Hnb.
  exists bv, nav. unfold within, step_lo, step_hi, bin_lo, bin_hi.
  simpl pow. split_and!; try done; lra.
Qed.

(** One more bin. *)
Lemma next_bin (i : nat) bcf sum_1 :
  (1 ≤ i < 256)%nat → acc_ok a i bcf sum_1 →
  acc_ok a (S i)
    (f32_of_f64
       (SFadd 53 1024 (f64_of_f32 bcf)
          (SFsqrt 53 1024
             (f64_of_f32
                (SFmul 24 128
                   (SFdiv 24 128 (SFadd 24 128 (f32_of_Z (a !!! i)) EPSILON)
                      (f32_of_Z (hsum a)))
                   (SFdiv 24 128 (SFadd 24 128 (f32_of_Z (a !!! i)) EPSILON)
                      (f32_of_Z (hsum a))))))))
    (SFadd 24 128 sum_1
       (SFdiv 24 128 (SFadd 24 128 (f32_of_Z (a !!! i)) EPSILON)
          (f32_of_Z (hsum a)))).
Proof.
  intros Hi (bv & sv & Hb & Hs & Hwb & Hws).
  destruct roww_real as (Tv & Hroww & HTv).
  pose proof (total_range a Ha Hsum) as HT.
  pose proof (bin_range a Ha i ltac:(lia)) as Hc.
  destruct (bin_terms (hsum a) _ Tv HT Hroww HTv (a !!! i) Hc)
    as (nav & tv & Hna & Ht & Hwn & Hwt).
  pose proof (quotient_bounds (hsum a) HT (a !!! i) Hc) as [Hq1 Hq2].
  pose proof (share_S a Ha Hsum i ltac:(lia)) as HS.
  pose proof (share_bounds a Ha Hsum i ltac:(lia)) as [HQ1 HQ2].
  pose proof (share_bounds a Ha Hsum (S i) ltac:(lia)) as [HQ3 HQ4].
  pose proof (step_factors i ltac:(lia)) as (Hf1 & Hf2 & Hf3 & Hf4).
  set (q := ((IZR (a !!! i) + EPSILON_R) / IZR (hsum a))%R) in *.
  set (L := (step_lo ^ i * bin_lo)%R) in *.
  set (H := (step_hi ^ i * bin_hi)%R) in *.
  assert (within L H nav q ∧ within L H tv q) as [Hwn' Hwt'].
  { split; (eapply within_weaken; [| | | eassumption]; [lra | |]);
      unfold L, H, bin_lo, bin_hi; nra. }
  pose proof (within_add _ _ _ _ _ _ Hwb Hwt') as Hb2.
  pose proof (within_add _ _ _ _ _ _ Hws Hwn') as Hs2.
  rewrite <- HS in Hb2, Hs2.
  assert (within (1 - 264 / 8388608) (1 + 530 / 8388608) (bv + tv) (share a (S i))
          ∧ within (1 - 264 / 8388608) (1 + 530 / 8388608) (sv + nav) (share a (S i)))
    as [Hb3 Hs3].
  { split; (eapply within_weaken; [| | | eassumption]; lra). }
  unfold within in Hb3, Hs3.
  (* sum_1 *)
  destruct (SFadd_real 24 128 ltac:(lia) _ _ sv nav Hs Hna) as (sv' & Hs' & Hns).
  { apply in_range_both. lra. }
  apply near_within in Hns. rewrite u32_value in Hns.
  (* bcf *)
  pose proof (f64_of_f32_real _ _ Hb) as Hb64.
  destruct (SFadd_real 53 1024 ltac:(lia) _ _ bv tv Hb64 Ht) as (w & Hw & Hnw).
  { apply in_range_both. lra. }
  apply near_within in Hnw. rewrite u64_value in Hnw.
  destruct (f32_of_f64_real _ w Hw) as (bv' & Hb' & Hnb).
  { apply in_range_both. unfold within in Hnw. lra. }
  apply near_within in Hnb. rewrite u32_value in Hnb.
  assert (0 <= L)%R as HL0 by lra.
  exists bv', sv'. split_and!; try done.
  - assert (within (L * ((1 - 1 / 4503599627370496) * (1 - 1 / 8388608)))
             (H * ((1 + 1 / 4503599627370496) * (1 + 1 / 8388608)))
             bv' (share a (S i))) as Hfin.
    { rewrite <- !Rmult_assoc.
      eapply within_trans; [lra | | | | exact Hnb]; [| lra |].
      - apply Rmult_le_pos; lra.
      - eapply within_trans; [lra | lra | | exact Hb2 | exact Hnw]. lra. }
    eapply within_weaken; [lra | | | exact Hfin];
      unfold L, H, step_lo, step_hi; simpl pow; apply Req_le; ring.
  - assert (within (L * (1 - 1 / 8388608)) (H * (1 + 1 / 8388608))
             sv' (share a (S i))) as Hfin.
    { eapply within_trans; [lra | lra | | exact Hs2 | exact Hns]. lra. }
    eapply within_weaken; [lra | | | exact Hfin];
      unfold L, H, step_lo, step_hi, bin_lo, bin_hi in *; simpl pow; lra.
Qed.

Lemma cmp_histo_loop_self n (i : nat) bcf sum_1 sum_2 :
  (1 ≤ i)%nat → (i + n = 256)%nat → acc_ok a i bcf sum_1 →
  ∃ bcf' sum_1' sum_2',
    cmp_histo_loop n i a a (f32_of_Z (hsum a)) (bcf, sum_1, sum_2)
    = (bcf', sum_1', sum_2')
    ∧ acc_ok a 256 bcf' sum_1'.
Proof.
  revert i bcf sum_1 sum_2. induction n as [|n IH]; intros i bcf sum_1 sum_2 Hi Hn Hacc.
  - replace i with 256%nat in Hacc by lia. simpl. eauto.
  - rewrite cmp_histo_loop_S. apply IH; [lia | lia |].
    apply next_bin; [lia | done].
Qed.

End Loop.

Lemma sqrt_bounds x l h :
  (0 <= l)%R → (0 <= h)%R → (l * l <= x <= h * h)%R → (l <= sqrt x <= h)%R.
Proof.
  intros Hl Hh [H1 H2]. split.
  - rewrite <- (sqrt_square l) by done. apply sqrt_le_1_alt. done.
  - rewrite <- (sqrt_square h) by done. apply sqrt_le_1_alt. done.
Qed.

(** [rnd]: the rounded [sum_1] of a row compared with itself is 1. *)
Lemma rnd_one sum_1 sv :
  is_float 24 128 sum_1 sv → (9 / 10 <= sv <= 11 / 10)%R →
  f32_of_f64 (f64_floor (SFadd 53 1024 (f64_of_f32 sum_1) f64_half))
  = S754_finite false 8388608 (-23).
Proof.
  intros Hs Hv. pose proof (f64_of_f32_real _ _ Hs) as Hs64.
  destruct (SFadd_real 53 1024 ltac:(lia) _ _ sv (1 / 2)%R Hs64 f64_half_real)
    as (w & Hw & Hnw).
  { apply in_range_both. lra. }
  apply near_bounds in Hnw. rewrite u64_value in Hnw.
  rewrite (f64_floor_one _ w Hw) by lra.
  vm_compute. reflexivity.
Qed.

(** The tail of [cmp_histo], from the clamped [bcf] on. *)
Lemma score_exact :
  f32_of_f64
    (SFsub 53 1024 (f64_of_Z 1)
       (f64_of_f32 (SFsqrt 24 128 (S754_zero false))))
  = S754_finite false 8388608 (-23).
Proof. vm_compute. reflexivity. Qed.

Lemma score_near bcf bv :
  is_float 24 128 bcf bv → (1 - 264 / 8388608 <= bv < 1)%R →
  ∃ v,
    is_float 24 128
      (f32_of_f64
         (SFsub 53 1024 (f64_of_Z 1)
            (f64_of_f32
               (SFsqrt 24 128
                  (SFsub 24 128 (S754_finite false 8388608 (-23)) bcf))))) v
    ∧ (99 / 100 <= v <= 1)%R.
Proof.
  intros Hb [Hb1 Hb2].
  pose proof (float_below_one _ _ Hb Hb2) as Hgap.
  rewrite (pow2_Zneg 24) in Hgap. change (2 ^ Z.pos 24) with 16777216 in Hgap.
  destruct (SFsub_real 24 128 ltac:(lia) _ _ 1%R bv f32_one_real Hb Hb2)
    as (dv & Hd & Hnd).
  { apply in_range_both. lra. }
  apply near_bounds in Hnd. rewrite u32_value in Hnd.
  assert (1 / 8192 <= sqrt dv <= 6 / 1000)%R as Hsq.
  { apply sqrt_bounds; lra. }
  destruct (SFsqrt_real 24 128 ltac:(lia) ltac:(lia) _ dv Hd) as (s & Hs & Hns).
  { apply in_range_both. lra. }
  apply near_bounds in Hns. rewrite u32_value in Hns.
  pose proof (f64_of_f32_real _ _ Hs) as Hs64.
  destruct (SFsub_real 53 1024 ltac:(lia) _ _ 1%R s f64_one_real Hs64) as (w & Hw & Hnw).
  { lra. }
  { apply in_range_both. lra. }
  apply near_bounds in Hnw. rewrite u64_value in Hnw.
  destruct (f32_of_f64_real _ w Hw) as (v & Hv & Hnv).
  { apply in_range_both. lra. }
  apply near_bounds in Hnv. rewrite u32_value in Hnv.
  exists v. split; [done | lra].
Qed.

(** C2.  A row compared with itself scores close to 1, inside [0, 1]: for
    every histogram [a] of 256 counts between 0 and [INT32_MAX] that holds
    at least one sample, [cmp_histo a a roww] with [roww] the number of
    samples as a [float] returns a positive normal [float] whose value lies
    between 0.99 and 1. *)
Theorem cmp_histo_self_similar (a : list Z) :
  histogram a → 1 ≤ hsum a →
  ∃ v, is_float 24 128 (cmp_histo a a (f32_of_Z (hsum a))) v
       ∧ (99 / 100 <= v <= 1)%R.
Proof.
  intros Ha Hsum.
  destruct (first_bin a Ha Hsum (S754_zero false))
    as (b1 & s1 & t1 & Hfirst & Hacc1).
  destruct (cmp_histo_loop_self a Ha Hsum 255 1 b1 s1 t1 ltac:(lia) ltac:(lia) Hacc1)
    as (bcf & sum_1 & sum_2 & Hloop & bv & sv & Hb & Hs & Hwb & Hws).
  unfold cmp_histo. rewrite Hfirst, Hloop. cbv beta iota zeta.
  pose proof (share_total a Ha Hsum) as [Hq1 Hq2].
  pose proof (step_factors 256 ltac:(lia)) as (Hf1 & Hf2 & _).
  assert (within (1 - 264 / 8388608) (1 + 530 / 8388608) bv (share a 256)
          ∧ within (1 - 264 / 8388608) (1 + 530 / 8388608) sv (share a 256))
    as [Hb3 Hs3].
  { split; (eapply within_weaken; [| | | eassumption]; lra). }
  unfold within in Hb3, Hs3.
  rewrite (rnd_one sum_1 sv Hs) by lra.
  destruct (SFltb (S754_finite false 8388608 (-23)) bcf) eqn:Hlt.
  - exists 1%R. rewrite (SFsub_same 24 128 _ 1%R f32_one_real), score_exact.
    split; [exact f32_one_real | lra].
  - assert (¬ (1 < bv)%R) as Hle.
    { intros Hc. apply (SFltb_real 24 128 _ _ 1%R bv f32_one_real Hb) in Hc.
      congruence. }
    destruct (Req_dec bv 1) as [-> | Hne].
    + rewrite <- (is_float_unique 24 128 _ _ 1%R f32_one_real Hb).
      exists 1%R. rewrite (SFsub_same 24 128 _ 1%R f32_one_real), score_exact.
      split; [exact f32_one_real | lra].
    + apply (score_near bcf bv Hb). lra.
Qed.

Lemma cmp_histo_self_similar_witness :
  ∃ v, is_float 24 128 (cmp_histo hist_64 hist_64 (f32_of_Z (hsum hist_64))) v
       ∧ (99 / 100 <= v <= 1)%R.
Proof.
  apply (cmp_histo_self_similar hist_64).
  - split; [reflexivity |]. apply (bool_decide_unpack _). vm_compute. exact I.
  - vm_compute. discriminate.
Defined.

(** * Further evaluations of the model *)

(** An empty pipe leaves the window and the raster alone, and the frame is
    not signalled. *)
Lemma main_loop_body_idle map_sz c wnd count :
  pipe_in wnd = [] → main_loop_body map_sz c wnd count = Ret (c, wnd, false).
Proof. intros Hpipe. unfold main_loop_body. by rewrite Hpipe. Qed.

(** The defect behind C4, end to end: the rebuild of a 2-byte file on a
    2 x 2 raster completes its rows and then divides by zero in the overlay
    update. *)
Lemma rebuild_preview_small_file_faults :
  rebuild_preview (λ _, true) (λ _, 0) 4 histo_zero histo_zero
    {| map := [x00; x01]; map_sz := 2; cont := raster_2x2; cutoff := S754_nan;
       detailed := false; in_rebuild := false; windows_0 := fresh_window |}
    [x00; x01] 2 S754_nan false
  = Err DivideByZero.
Proof. vm_compute. reflexivity. Qed.

(** The "processing edge" is drawn one row below the row just finished,
    also below the last one. *)
Lemma rebuild_preview_edge_below_last_row :
  rebuild_preview (λ _, true) (λ n, 100 * Z.of_nat n) 0 histo_zero histo_zero
    fsense_8 file_8 8 cutoff_default false
  = Err (WriteOutOfBounds 4).
Proof. vm_compute. reflexivity. Qed.

(** [EPSILON] is the [float] nearest to 1e-7. *)
Lemma EPSILON_value : EPSILON = S754_finite false 14073749 (-47).
Proof. vm_compute. reflexivity. Qed.

(** Two rows of 64 zero bytes: the score is exactly 1. *)
Lemma cmp_histo_same_row :
  cmp_histo (hist_of [(0%nat, 64)]) (hist_of [(0%nat, 64)]) (f32_of_Z 64)
  = f32_of_Z 1.
Proof. vm_compute. reflexivity. Qed.

(** A row of 0x00 against a row of 0xff: the score is about 4e-5, below the
    default cutoff. *)
Lemma cmp_histo_disjoint_rows :
  cmp_histo (hist_of [(0%nat, 64)]) (hist_of [(255%nat, 64)]) (f32_of_Z 64)
  = S754_finite false 10928128 (-38)
  ∧ SFltb (S754_finite false 10928128 (-38)) cutoff_default = true.
Proof. split; vm_compute; reflexivity. Qed.

(** Outside the use [rebuild_preview] makes of it, the score leaves [0, 1]:
    four samples weighed as one give about -1. *)
Lemma cmp_histo_negative :
  cmp_histo (hist_of [(0%nat, 4)]) (hist_of [(255%nat, 4)]) (f32_of_Z 1)
  = S754_finite true 16771804 (-24).
Proof. vm_compute. reflexivity. Qed.

(** * The overlay, the clicks, the preview and [main] *)

(** ** More on the overlay *)

Lemma mask_land_idemp x : Z.land mask (Z.land mask x) = Z.land mask x.
Proof. by rewrite Z.land_assoc, Z.land_diag. Qed.

Lemma mask_land_olay x : Z.land mask (Z.lor olay x) = Z.land mask x.
Proof.
  rewrite Z.land_lor_distr_r.
  change (Z.land mask olay) with 0. apply Z.lor_0_l.
Qed.

Lemma update_case_mask map_sz c wnd o n c' wnd' (i : nat) :
  update_case map_sz c wnd o n c' wnd' →
  Z.land mask <$> vidp c' !! i = Z.land mask <$> vidp c !! i.
Proof.
  assert (Hun : Z.land mask <$> unpainted c wnd !! i = Z.land mask <$> vidp c !! i).
  { unfold unpainted. destruct (_ =? _); [done |].
    rewrite paint_lookup. case_bool_decide; [| done].
    destruct (vidp c !! i); simpl; [| done]. by rewrite mask_land_idemp. }
  intros [Hsame | _ _ | _ _ _ _ wnd'']; simpl; [done | done |].
  rewrite paint_lookup. case_bool_decide; [| done].
  rewrite <- Hun. destruct (unpainted c wnd !! i); simpl; [| done].
  by rewrite mask_land_olay.
Qed.

(** X1.  The overlay leaves the green and alpha channels of every pixel, where
    the preview keeps the sampled byte, and the geometry of the raster. *)
Theorem update_region_keeps_preview map_sz c wnd new_pos count c' wnd' :
  buffer_ok c → count_ok wnd →
  update_region map_sz c wnd new_pos count = Ret (c', wnd') →
  w c' = w c ∧ h c' = h c ∧ pitch c' = pitch c
  ∧ length (vidp c') = length (vidp c)
  ∧ ∀ i : nat, Z.land mask <$> vidp c' !! i = Z.land mask <$> vidp c !! i.
Proof.
  intros Hb Hc Hret.
  destruct (update_region_cases _ _ _ _ _ _ _ Hb Hc Hret) as [_ Hcase].
  destruct (update_case_preserves _ _ _ _ _ _ _ Hcase Hb Hc)
    as (Hb' & _ & Ew & Eh & Ep).
  split_and!; try done.
  - unfold buffer_ok in *. rewrite Eh, Ep in Hb'. lia.
  - intros i. by apply (update_case_mask map_sz c wnd new_pos count c' wnd').
Qed.

Lemma update_region_keeps_preview_witness :
  w highlighted_raster = w raster_4x4 ∧ h highlighted_raster = h raster_4x4
  ∧ pitch highlighted_raster = pitch raster_4x4
  ∧ length (vidp highlighted_raster) = length (vidp raster_4x4)
  ∧ ∀ i : nat, Z.land mask <$> vidp highlighted_raster !! i
               = Z.land mask <$> vidp raster_4x4 !! i.
Proof.
  apply (update_region_keeps_preview 16 raster_4x4
           (set_last_pos fresh_window (2 ^ 64 - 1)) 0 1
           highlighted_raster highlighted_window).
  - vm_compute. split_and!; [reflexivity | discriminate | reflexivity].
  - unfold count_ok. simpl. lia.
  - vm_compute. reflexivity.
Defined.

Lemma udiv_cases a b : udiv a b = Err DivideByZero ∨ udiv a b = Ret (a / b).
Proof. unfold udiv. destruct (b =? 0); auto. Qed.

(** X2.  On a buffer of [h * pitch] pixels the overlay update does not store
    outside the buffer when neither of its two pixel pointers lies below the
    buffer, the one to the run that the window records and the one computed
    for the new offset: whatever the size, it returns, or stops on a
    division by zero. *)
Theorem update_region_stays_inside map_sz c wnd new_pos count :
  buffer_ok c → count_ok wnd →
  0 ≤ run_lo c wnd → 0 ≤ offset_lo map_sz c new_pos →
  (∃ c' wnd', update_region map_sz c wnd new_pos count = Ret (c', wnd'))
  ∨ update_region map_sz c wnd new_pos count = Err DivideByZero.
Proof.
  intros Hb Hc Hlo Hnew. unfold update_region.
  destruct (udiv_cases map_sz (wrap64 (w c * h c))) as [-> | ->]; [by right |].
  rewrite bind_Ret. cbv beta zeta.
  destruct (last_pos wnd =? new_pos); [left; eauto |].
  rewrite unpaint_eq by done. rewrite bind_Ret.
  destruct (count =? 0); [left; eauto |].
  do 4 (lazymatch goal with
        | |- context [udiv ?a ?b ≫= _] =>
            destruct (udiv_cases a b) as [-> | ->];
            [by right | rewrite bind_Ret; cbv beta zeta]
        end).
  rewrite fill_run_paint;
    [| done | apply length_unpainted | apply wrap64_range | exact Hnew].
  rewrite bind_Ret. left. eauto.
Qed.

Lemma update_region_stays_inside_witness :
  (∃ c' wnd', update_region 16 raster_4x4 fresh_window (2 ^ 62 + 5) (2 ^ 64 - 1)
              = Ret (c', wnd'))
  ∨ update_region 16 raster_4x4 fresh_window (2 ^ 62 + 5) (2 ^ 64 - 1)
    = Err DivideByZero.
Proof.
  apply (update_region_stays_inside 16 raster_4x4 fresh_window).
  - vm_compute. split_and!; [reflexivity | discriminate | reflexivity].
  - unfold count_ok. simpl. lia.
  - vm_compute. discriminate.
  - vm_compute. discriminate.
Defined.

(** X28.  A pixel pointer that wraps around the address space to below the
    buffer: on a raster that the file fills, when the pointer computed for
    the new offset lies below [vidp] and the size gives at least one pixel
    to paint, the first store of the paint loop is outside the buffer, at
    the pixel the pointer points to.  Offset 2^64 - 1 on the 4 x 4 raster
    stores at [vidp[-1]]. *)
Theorem update_region_stores_below map_sz c wnd new_pos count :
  buffer_ok c → count_ok wnd → geometry_ok map_sz c →
  0 ≤ run_lo c wnd → last_pos wnd ≠ new_pos → count ≠ 0 →
  last_count_px (painted_window map_sz c wnd new_pos count) ≠ 0 →
  offset_lo map_sz c new_pos < 0 →
  update_region map_sz c wnd new_pos count
  = Err (WriteOutOfBounds (offset_lo map_sz c new_pos)).
Proof.
  intros Hb Hc (Hwh & Hstep & Hbpl) Hlo Hne Hcnt Hnp Hnew. unfold update_region.
  rewrite udiv_Ret by exact Hwh. rewrite bind_Ret. cbv beta zeta.
  destruct (Z.eqb_spec (last_pos wnd) new_pos) as [? | _]; [contradiction |].
  rewrite unpaint_eq by done. rewrite bind_Ret.
  destruct (Z.eqb_spec count 0) as [? | _]; [contradiction |].
  do 4 (lazymatch goal with
        | |- (udiv ?a ?b ≫= _) = _ =>
            rewrite (udiv_Ret a b) by assumption; rewrite bind_Ret; cbv beta zeta
        end).
  rewrite fill_run_below; [reflexivity | done | exact Hnp | exact Hnew].
Qed.

Lemma update_region_stores_below_witness :
  update_region 16 raster_4x4 fresh_window (2 ^ 64 - 1) 1
  = Err (WriteOutOfBounds (offset_lo 16 raster_4x4 (2 ^ 64 - 1)))
  ∧ offset_lo 16 raster_4x4 (2 ^ 64 - 1) = -1.
Proof.
  split; [| reflexivity].
  apply (update_region_stores_below 16 raster_4x4 fresh_window (2 ^ 64 - 1) 1).
  - vm_compute. split_and!; [reflexivity | discriminate | reflexivity].
  - unfold count_ok. simpl. lia.
  - unfold geometry_ok. vm_compute. repeat split; discriminate.
  - vm_compute. discriminate.
  - simpl. lia.
  - lia.
  - vm_compute. discriminate.
  - vm_compute. reflexivity.
Defined.

(** X3.  A channel of size zero: the previous highlight is removed from the run
    that the window records (which must not start below the buffer) and the
    size is recorded; the offset and the run of the window stay as they
    were, and the step is not divided by, so the call returns for a file of
    any length. *)
Theorem update_region_empty_channel map_sz c wnd new_pos :
  buffer_ok c → count_ok wnd → wrap64 (w c * h c) ≠ 0 → last_pos wnd ≠ new_pos →
  0 ≤ run_lo c wnd →
  update_region map_sz c wnd new_pos 0
  = Ret (set_vidp c (unpainted c wnd), cleared_window wnd).
Proof.
  intros Hb Hc Hwh Hne Hlo. unfold update_region.
  rewrite udiv_Ret by exact Hwh. rewrite bind_Ret.
  destruct (Z.eqb_spec (last_pos wnd) new_pos) as [? | _]; [contradiction |].
  rewrite unpaint_eq by done. reflexivity.
Qed.

Lemma update_region_empty_channel_witness :
  update_region 3 highlighted_raster highlighted_window 7 0
  = Ret (set_vidp highlighted_raster (unpainted highlighted_raster highlighted_window),
         cleared_window highlighted_window).
Proof.
  apply (update_region_empty_channel 3 highlighted_raster highlighted_window 7).
  - vm_compute. split_and!; [reflexivity | discriminate | reflexivity].
  - unfold count_ok. simpl. lia.
  - vm_compute. discriminate.
  - simpl. lia.
  - vm_compute. discriminate.
Defined.

(** ** Offsets and pixels *)

(** Row and column of an offset, put together again. *)
Lemma offset_pixel x s wd :
  0 ≤ x → 0 < s → 0 < wd →
  x / (s * wd) * wd + x mod (s * wd) / s = x / s
  ∧ x mod (s * wd) / s = (x / s) mod wd
  ∧ x / (s * wd) = x / s / wd.
Proof.
  intros Hx Hs Hwd.
  assert (E1 : x / (s * wd) = x / s / wd) by (rewrite Z.div_div; lia).
  assert (E2 : x mod (s * wd) / s = (x / s) mod wd).
  { rewrite Z.rem_mul_r by lia.
    rewrite (Z.mul_comm s), Z.div_add by lia.
    rewrite (Z.div_small (x mod s)) by (apply Z.mod_pos_bound; lia). lia. }
  split_and!; try done.
  rewrite E1, E2. pose proof (Z.div_mod (x / s) wd ltac:(lia)). lia.
Qed.

Section Pixels.
Variable map_sz : Z.
Variable c : arcan_shmif_cont.
Hypothesis Hok : raster_ok map_sz c.
Hypothesis Hpitch : pitch c = w c.

Lemma endm_eq : endm c = w c * h c.
Proof.
  unfold endm. rewrite Hpitch. destruct Hok as [? ? ? ? (Hb & Ha & Hlt)].
  rewrite Hpitch in Hb, Hlt.
  rewrite wrap64_small; nia.
Qed.

Lemma painted_run wnd new_pos count :
  uint64 new_pos → uint64 count → count ≠ 0 →
  vidp_addr c + 4 * (new_pos / sample_step map_sz c) < 2 ^ 64 →
  let s := sample_step map_sz c in
  let wnd' := painted_window map_sz c wnd new_pos count in
  last_coord wnd' = ((new_pos / s) mod w c, new_pos / s / w c)
  ∧ last_count_px wnd' = count / s
  ∧ run_lo c wnd' = new_pos / s
  ∧ run_hi c wnd' = Z.min (new_pos / s + count / s) (w c * h c).
Proof.
  intros Hp Hn Hnz Hreach s wnd'. fold s in Hreach.
  pose proof (painted_window_consistent map_sz c Hok wnd new_pos count Hp Hn Hnz) as Hcons.
  destruct Hcons as [Hcoord Hpx]; [done |]. fold wnd' in Hcoord, Hpx.
  change (last_pos wnd') with new_pos in Hcoord.
  change (last_pos_sz wnd') with count in Hpx.
  pose proof (step_pos map_sz c) as Hs. fold s in Hs.
  destruct Hok as [Hw Hh Hfit Hsz (Hb & Ha & Hlt)]. unfold uint64 in *.
  unfold bytes_per_row in Hcoord, Hpx. fold s in Hcoord, Hpx.
  destruct (offset_pixel new_pos s (w c)) as (Ea & Eb & Ec); [lia | lia | lia |].
  destruct (offset_pixel count s (w c)) as (Fa & Fb & Fc); [lia | lia | lia |].
  assert (Hcoord' : last_coord wnd' = ((new_pos / s) mod w c, new_pos / s / w c)).
  { rewrite Hcoord. by rewrite Eb, Ec. }
  assert (Hpx' : last_count_px wnd' = count / s) by lia.
  assert (Hq : 0 ≤ new_pos / s ≤ new_pos).
  { split; [apply Z.div_pos; lia |]. apply Z.div_le_upper_bound; nia. }
  assert (Hlo : run_lo c wnd' = new_pos / s).
  { assert (Hidx : coord_index c (last_coord wnd') = new_pos / s).
    { unfold coord_index. rewrite Hcoord'. simpl. rewrite Hpitch.
      pose proof (Z.mod_pos_bound (new_pos / s) (w c) ltac:(lia)).
      pose proof (Z.div_mod (new_pos / s) (w c) ltac:(lia)).
      assert (0 ≤ new_pos / s / w c) by (apply Z.div_pos; lia).
      rewrite (wrap64_small (new_pos / s / w c * w c)) by nia.
      rewrite wrap64_small by nia. lia. }
    unfold run_lo. rewrite Hidx. apply pixel_of_ptr; lia. }
  split_and!; try done.
  unfold run_hi. rewrite Hlo, Hpx', endm_eq. reflexivity.
Qed.

(** X4.  The highlight of the window moved to the offset [new_pos], with
    [count] bytes, on a raster without padding that the file fills: the
    pixels from [new_pos / step] on, [count / step] of them, as far as the
    raster goes.  The pixel [new_pos / step] is addressed from [vidp]
    without wrapping around the address space, and the run that the window
    records does not start below the buffer. *)
Theorem update_region_run wnd new_pos count :
  count_ok wnd → uint64 new_pos → uint64 count → count ≠ 0 →
  last_pos wnd ≠ new_pos →
  0 ≤ run_lo c wnd →
  vidp_addr c + 4 * (new_pos / sample_step map_sz c) < 2 ^ 64 →
  let s := sample_step map_sz c in
  ∃ c' wnd',
    update_region map_sz c wnd new_pos count = Ret (c', wnd')
    ∧ vidp c'
      = paint (Z.lor olay) (new_pos / s)
          (Z.min (new_pos / s + count / s) (w c * h c)) (unpainted c wnd)
    ∧ last_pos wnd' = new_pos ∧ last_pos_sz wnd' = count
    ∧ last_count_px wnd' = count / s
    ∧ last_coord wnd' = ((new_pos / s) mod w c, new_pos / s / w c).
Proof.
  intros Hc Hp Hn Hnz Hne Hlo Hreach s.
  destruct (painted_run wnd new_pos count Hp Hn Hnz Hreach) as (Hcoord & Hpx & Hnew & Hhi).
  destruct (raster_geometry_ok _ _ Hok) as (Hwh & Hstep & Hbpl).
  destruct (update_region_returns map_sz c wnd new_pos count)
    as (c' & wnd' & Hret); try assumption; [by destruct Hok | done | |].
  { intros _. rewrite <- (run_lo_painted map_sz c wnd new_pos count), Hnew.
    apply Z.div_pos; [unfold uint64 in Hp; lia |]. pose proof (step_pos map_sz c). lia. }
  destruct (update_region_cases _ _ _ _ _ _ _ (raster_buffer _ _ Hok) Hc Hret)
    as [_ Hcase].
  exists c', wnd'. split; [exact Hret |].
  destruct Hcase as [Hsame | _ Hz | _ _ _ _ wnd'']; [congruence | congruence |].
  fold wnd'' in Hcoord, Hpx, Hnew, Hhi. fold s in Hcoord, Hpx, Hnew, Hhi.
  simpl vidp. rewrite Hnew, Hhi. split_and!; done.
Qed.
End Pixels.

Lemma update_region_run_witness :
  ∃ c' wnd',
    update_region 32 raster_4x4 fresh_window 10 6 = Ret (c', wnd')
    ∧ vidp c'
      = paint (Z.lor olay) (10 / sample_step 32 raster_4x4)
          (Z.min (10 / sample_step 32 raster_4x4 + 6 / sample_step 32 raster_4x4)
                 (w raster_4x4 * h raster_4x4))
          (unpainted raster_4x4 fresh_window)
    ∧ last_pos wnd' = 10 ∧ last_pos_sz wnd' = 6
    ∧ last_count_px wnd' = 6 / sample_step 32 raster_4x4
    ∧ last_coord wnd'
      = ((10 / sample_step 32 raster_4x4) mod w raster_4x4,
         10 / sample_step 32 raster_4x4 / w raster_4x4).
Proof.
  apply (update_region_run 32 raster_4x4).
  - split; simpl; try lia.
    vm_compute. split_and!; [reflexivity | discriminate | reflexivity].
  - reflexivity.
  - unfold count_ok. simpl. lia.
  - unfold uint64. lia.
  - unfold uint64. lia.
  - lia.
  - simpl. lia.
  - vm_compute. discriminate.
  - vm_compute. reflexivity.
Defined.

(** ** Offsets inside the file *)

(** The pixel index that [update_region] computes for an offset inside the
    file stays below twice the size of the buffer. *)
Lemma offset_index_bound map_sz c o :
  raster_ok map_sz c → w c ≤ pitch c → 0 ≤ o < map_sz →
  0 ≤ coord_index c (offset_coord map_sz c o) < 2 * (h c * pitch c).
Proof.
  intros Hok Hp Ho. unfold offset_coord. cbv zeta.
  rewrite (step_eq _ _ Hok), (bpl_eq _ _ Hok).
  rewrite (rem_eq _ _ Hok) by (destruct Hok; unfold uint64; lia).
  pose proof (step_pos map_sz c) as Hs. pose proof (bpl_bound _ _ Hok) as Hbpl.
  pose proof (step_eq _ _ Hok) as Hstep. rewrite (wrap_wh _ _ Hok) in Hstep.
  destruct Hok as [Hw Hh Hfit Hsz (Hl & Ha & Hlt)].
  set (s := sample_step map_sz c) in *. set (b := bytes_per_row map_sz c) in *.
  assert (Eb : b = s * w c) by done.
  assert (Hwh : 0 < w c * h c) by nia.
  assert (Hupper : map_sz < (s + 1) * (w c * h c)).
  { pose proof (Z.mod_pos_bound map_sz (w c * h c) ltac:(lia)).
    pose proof (Z.div_mod map_sz (w c * h c) ltac:(lia)). nia. }
  assert (Hrow : 0 ≤ o / b < 2 * h c).
  { split; [apply Z.div_pos; lia |]. apply Z.div_lt_upper_bound; nia. }
  assert (Hcol : 0 ≤ o mod b / s < w c).
  { pose proof (Z.mod_pos_bound o b ltac:(lia)).
    split; [apply Z.div_pos; lia |]. apply Z.div_lt_upper_bound; nia. }
  unfold coord_index. cbn [fst snd].
  assert (0 ≤ o / b * pitch c ≤ (2 * h c - 1) * pitch c) by nia.
  assert (h c * pitch c < 2 ^ 62) by lia.
  rewrite (wrap64_small (o / b * pitch c)) by nia.
  rewrite wrap64_small by nia. nia.
Qed.

(** X29.  On a raster that the file fills, in a buffer with as much address space
    above it as it is long, the overlay update returns for every offset
    inside the file, whatever the size of the channel: no store falls
    outside the buffer, and the run it records does not start below the
    buffer either. *)
Theorem update_region_inside_file map_sz c wnd new_pos count :
  raster_ok map_sz c → w c ≤ pitch c → count_ok wnd → 0 ≤ run_lo c wnd →
  vidp_addr c + 8 * (h c * pitch c) ≤ 2 ^ 64 →
  0 ≤ new_pos < map_sz →
  ∃ c' wnd',
    update_region map_sz c wnd new_pos count = Ret (c', wnd')
    ∧ 0 ≤ run_lo c' wnd'.
Proof.
  intros Hok Hp Hc Hlo Haddr Ho.
  pose proof (offset_index_bound map_sz c new_pos Hok Hp Ho) as Hidx.
  assert (Hnew : 0 ≤ offset_lo map_sz c new_pos).
  { unfold offset_lo. destruct Hok as [? ? ? ? (_ & Ha & _)].
    rewrite pixel_of_ptr; lia. }
  destruct (raster_geometry_ok _ _ Hok) as (Hwh & Hstep & Hbpl).
  destruct (update_region_returns map_sz c wnd new_pos count)
    as (c' & wnd' & Hret); try assumption; [by destruct Hok | done | done |].
  exists c', wnd'. split; [exact Hret |].
  destruct (update_region_cases _ _ _ _ _ _ _ (raster_buffer _ _ Hok) Hc Hret)
    as [_ Hcase].
  by apply (update_case_reach _ _ _ _ _ _ _ Hcase).
Qed.

Lemma update_region_inside_file_witness :
  ∃ c' wnd',
    update_region 30 raster_4x4 highlighted_window 29 (2 ^ 64 - 1) = Ret (c', wnd')
    ∧ 0 ≤ run_lo c' wnd'.
Proof.
  apply (update_region_inside_file 30 raster_4x4 highlighted_window 29 (2 ^ 64 - 1)).
  - split; simpl; try lia.
    vm_compute. split_and!; [reflexivity | discriminate | reflexivity].
  - simpl. lia.
  - unfold count_ok. simpl. lia.
  - vm_compute. discriminate.
  - vm_compute. discriminate.
  - lia.
Defined.

(** ** Clicks *)

Section Clicks.
Variable pump : Z → bool.
Variable timemillis : nat → Z.
Variable ch_size : Z.
Variable dr0 cr0 : list Z.
Variable senseye_resize : arcan_shmif_cont → Z → Z → option arcan_shmif_cont.
Variable fs : fsense_t.
Hypothesis Hok : raster_ok (map_sz fs) (cont fs).

(** The offset written for a click on the pixel [(x, y)]. *)
Lemma control_event_click x y :
  0 ≤ x < w (cont fs) → 0 ≤ y < h (cont fs) →
  control_event pump timemillis ch_size dr0 cr0 senseye_resize false (x, y) fs
    (EVENT_IO EVENT_IDEVKIND_MOUSE EVENT_IDATATYPE_DIGITAL true)
  = Ret (fs, Some ((y * w (cont fs) + x) * sample_step (map_sz fs) (cont fs))).
Proof.
  intros Hx Hy. destruct Hok as [Hw Hh Hfit Hsz Hb].
  pose proof (step_pos (map_sz fs) (cont fs)) as Hs1.
  pose proof (bpl_bound _ _ Hok) as Hbpl. unfold bytes_per_row in Hbpl.
  pose proof (step_eq _ _ Hok) as Hstep. rewrite (wrap_wh _ _ Hok) in Hstep.
  set (c := cont fs) in *. set (s := sample_step (map_sz fs) c) in *.
  assert (Hwhpos : 0 < w c * h c) by nia.
  assert (Hsw : s * (w c * h c) ≤ map_sz fs).
  { rewrite <- Hstep, Z.mul_comm. apply Z.mul_div_le. lia. }
  unfold control_event. rewrite bind_Ret. fold c.
  rewrite (wrap64_small (w c * h c)) by lia.
  rewrite udiv_Ret by lia. rewrite bind_Ret. cbv beta zeta.
  rewrite Hstep.
  assert (Hsnz : (s =? 0) = false) by (apply Z.eqb_neq; lia). rewrite Hsnz.
  rewrite (wrap64_small (s * w c)) by lia.
  rewrite (wrap64_small y), (wrap64_small x) by nia.
  assert (0 ≤ y * (s * w c) ≤ (h c - 1) * (s * w c)) by nia.
  assert (0 ≤ x * s ≤ (w c - 1) * s) by nia.
  rewrite (wrap64_small (y * (s * w c))) by nia.
  rewrite (wrap64_small (x * s)) by nia.
  rewrite wrap64_small by nia. do 3 f_equal. ring.
Qed.

(** X5.  On a raster that the file fills, a click on the pixel [(x, y)] asks the
    worker to seek to the offset whose byte the preview samples for that
    pixel, and this offset lies inside the file. *)
Theorem control_event_click_inside_file x y :
  0 ≤ x < w (cont fs) → 0 ≤ y < h (cont fs) →
  ∃ ofs,
    control_event pump timemillis ch_size dr0 cr0 senseye_resize false (x, y) fs
      (EVENT_IO EVENT_IDEVKIND_MOUSE EVENT_IDATATYPE_DIGITAL true)
    = Ret (fs, Some ofs)
    ∧ ofs = (y * w (cont fs) + x) * sample_step (map_sz fs) (cont fs)
    ∧ 0 ≤ ofs < map_sz fs.
Proof.
  intros Hx Hy. eexists. split; [by apply control_event_click |].
  split; [reflexivity |].
  destruct Hok as [Hw Hh Hfit Hsz Hb].
  pose proof (step_pos (map_sz fs) (cont fs)) as Hs1.
  pose proof (step_eq _ _ Hok) as Hstep. rewrite (wrap_wh _ _ Hok) in Hstep.
  set (c := cont fs) in *. set (s := sample_step (map_sz fs) c) in *.
  assert (Hwhpos : 0 < w c * h c) by nia.
  assert (Hsw : s * (w c * h c) ≤ map_sz fs).
  { rewrite <- Hstep, Z.mul_comm. apply Z.mul_div_le. lia. }
  assert (y * w c + x + 1 ≤ w c * h c) by nia.
  nia.
Qed.

(** X6.  Click, seek, highlight, on a raster without padding that the file
    fills and for a window whose recorded run does not start below the
    buffer: when the offset written for a click on the pixel [(x, y)] comes
    back from the worker, with a channel that is not empty and while the
    window holds another offset, [update_region] records the pixel [(x, y)]
    as the start of the highlight and paints from there. *)
Theorem click_highlights_pixel x y count :
  pitch (cont fs) = w (cont fs) → count_ok (windows_0 fs) →
  0 ≤ run_lo (cont fs) (windows_0 fs) →
  0 ≤ x < w (cont fs) → 0 ≤ y < h (cont fs) →
  uint64 count → count ≠ 0 →
  ∃ ofs,
    control_event pump timemillis ch_size dr0 cr0 senseye_resize false (x, y) fs
      (EVENT_IO EVENT_IDEVKIND_MOUSE EVENT_IDATATYPE_DIGITAL true)
    = Ret (fs, Some ofs)
    ∧ (last_pos (windows_0 fs) ≠ ofs →
       ∃ c' wnd',
         update_region (map_sz fs) (cont fs) (windows_0 fs) ofs count = Ret (c', wnd')
         ∧ last_pos wnd' = ofs ∧ last_coord wnd' = (x, y)
         ∧ run_lo c' wnd' = y * w (cont fs) + x).
Proof.
  intros Hpitch Hc Hlo Hx Hy Hn Hnz. eexists. split; [by apply control_event_click |].
  intros Hne.
  pose proof (step_pos (map_sz fs) (cont fs)) as Hs1.
  pose proof (step_eq _ _ Hok) as Hstep. rewrite (wrap_wh _ _ Hok) in Hstep.
  destruct (raster_geometry_ok _ _ Hok) as (Hwh & Hstep' & Hbpl).
  pose proof Hok as [Hw Hh Hfit Hsz Hb].
  set (c := cont fs) in *. set (s := sample_step (map_sz fs) c) in *.
  set (ofs := (y * w c + x) * s) in *.
  assert (Hwhpos : 0 < w c * h c) by nia.
  assert (Hsw : s * (w c * h c) ≤ map_sz fs).
  { rewrite <- Hstep, Z.mul_comm. apply Z.mul_div_le. lia. }
  assert (Hk : 0 ≤ y * w c + x < w c * h c) by nia.
  assert (Hofs : uint64 ofs) by (unfold uint64, ofs; nia).
  assert (Hdiv : ofs / s = y * w c + x) by (unfold ofs; apply Z.div_mul; lia).
  assert (Hreach : vidp_addr c + 4 * (ofs / s) < 2 ^ 64).
  { destruct Hb as (_ & _ & Hlt). rewrite Hpitch in Hlt. rewrite Hdiv. nia. }
  destruct (painted_run (map_sz fs) c Hok Hpitch (windows_0 fs) ofs count Hofs Hn Hnz
              Hreach) as (Hcoord & Hpx & Hnew & Hhi).
  destruct (update_region_returns (map_sz fs) c (windows_0 fs) ofs count)
    as (c' & wnd' & Hret); try assumption; [done | |].
  { intros _. rewrite <- (run_lo_painted (map_sz fs) c (windows_0 fs) ofs count).
    rewrite Hnew. fold s. lia. }
  destruct (update_region_cases _ _ _ _ _ _ _ Hb Hc Hret) as [_ Hcase].
  exists c', wnd'. split; [exact Hret |].
  destruct Hcase as [Hsame | _ Hz | _ _ _ _ wnd'']; [congruence | congruence |].
  fold wnd'' in Hcoord, Hpx, Hnew, Hhi. fold s in Hcoord, Hpx, Hnew, Hhi.
  rewrite Hdiv in Hcoord, Hnew.
  split; [reflexivity |]. split.
  - rewrite Hcoord. f_equal.
    + rewrite Z.add_comm, Z.mod_add by lia. apply Z.mod_small. lia.
    + rewrite Z.add_comm, Z.div_add by lia. rewrite Z.div_small by lia. lia.
  - exact Hnew.
Qed.
End Clicks.

Lemma control_event_click_inside_file_witness :
  ∃ ofs,
    control_event (λ _, true) (λ _, 0) 0 histo_zero histo_zero (λ _ _ _, None)
      false (3, 2) fsense_1k
      (EVENT_IO EVENT_IDEVKIND_MOUSE EVENT_IDATATYPE_DIGITAL true)
    = Ret (fsense_1k, Some ofs)
    ∧ ofs = (2 * w (cont fsense_1k) + 3) * sample_step (map_sz fsense_1k) (cont fsense_1k)
    ∧ 0 ≤ ofs < map_sz fsense_1k.
Proof.
  apply (control_event_click_inside_file (λ _, true) (λ _, 0) 0 histo_zero histo_zero
           (λ _ _ _, None) fsense_1k).
  - split; simpl; try lia.
    vm_compute. split_and!; [reflexivity | discriminate | reflexivity].
  - simpl. lia.
  - simpl. lia.
Defined.

Lemma click_highlights_pixel_witness :
  ∃ ofs,
    control_event (λ _, true) (λ _, 0) 0 histo_zero histo_zero (λ _ _ _, None)
      false (3, 2) fsense_1k
      (EVENT_IO EVENT_IDEVKIND_MOUSE EVENT_IDATATYPE_DIGITAL true)
    = Ret (fsense_1k, Some ofs)
    ∧ (last_pos (windows_0 fsense_1k) ≠ ofs →
       ∃ c' wnd',
         update_region (map_sz fsense_1k) (cont fsense_1k) (windows_0 fsense_1k) ofs 8
         = Ret (c', wnd')
         ∧ last_pos wnd' = ofs ∧ last_coord wnd' = (3, 2)
         ∧ run_lo c' wnd' = 2 * w (cont fsense_1k) + 3).
Proof.
  apply (click_highlights_pixel (λ _, true) (λ _, 0) 0 histo_zero histo_zero
           (λ _ _ _, None) fsense_1k).
  - split; simpl; try lia.
    vm_compute. split_and!; [reflexivity | discriminate | reflexivity].
  - reflexivity.
  - unfold count_ok. simpl. lia.
  - vm_compute. discriminate.
  - simpl. lia.
  - simpl. lia.
  - unfold uint64. lia.
  - lia.
Defined.

(** ** What the preview shows *)

Lemma rgba_green_mask g :
  0 ≤ g < 256 → Z.land mask (SHMIF_RGBA 0 g 0 255) = SHMIF_RGBA 0 g 0 255.
Proof.
  intros Hg.
  assert (Hall : Forall (λ g, Z.land mask (SHMIF_RGBA 0 g 0 255) = SHMIF_RGBA 0 g 0 255)
                   (seqZ 0 256)).
  { apply (bool_decide_unpack _). vm_compute. exact I. }
  rewrite Forall_forall in Hall. apply Hall. apply elem_of_seqZ. lia.
Qed.

Lemma mask_land_tint x : Z.land mask (Z.lor edge_tint x) = Z.land mask x.
Proof.
  rewrite Z.land_lor_distr_r.
  change (Z.land mask edge_tint) with 0. apply Z.lor_0_l.
Qed.

Lemma pixel_shows_frame m step_sz vid vid' j :
  vid' !! j = vid !! j → pixel_shows m step_sz vid j → pixel_shows m step_sz vid' j.
Proof. intros E (g & px & ? & ? & ?). exists g, px. by rewrite E. Qed.

Lemma map_read_inv (m : list byte) idx g :
  map_read m idx = Ret g → 0 ≤ g < 256.
Proof.
  unfold map_read. destruct (m !! Z.to_nat idx) as [b |]; [| discriminate].
  intros [= <-]. pose proof (Byte.to_N_bounded b). lia.
Qed.

Lemma row_body_dirty m m_sz cut detail wd step_sz st st' :
  row_body m m_sz cut detail wd step_sz st = Ret st' → rb_dirty st' = true.
Proof.
  unfold row_body. intros ([[pos vid] dr] & _ & H)%bind_inv.
  destruct (is_nan cut); [by injection H as <- |].
  apply bind_inv in H as (vid' & _ & H). by injection H as <-.
Qed.

Section QuietRows.
Variable pump : Z → bool.
Variable timemillis : nat → Z.
Variable m : list byte.
Variable m_sz : Z.
Variable cut : spec_float.
Variable detail : bool.
Variable wd ht : Z.
Variable step_sz : Z.

Hypothesis Hwd : 0 < wd.
Hypothesis Hht : 0 < ht.
Hypothesis Hwh : wd * ht < 2 ^ 64.
Hypothesis Hlen : Z.of_nat (length m) = m_sz.
Hypothesis Hsz : m_sz < 2 ^ 63.
Hypothesis Hstep : step_sz = Z.max 1 (m_sz / (wd * ht)).

(** The pixels that [row_pixels] stores. *)
Lemma row_pixels_content fuel row : ∀ i pos vid dr pos' vid' dr',
  0 ≤ row < ht → 0 ≤ i ≤ wd → pos = (row * wd + i) * step_sz → pos ≤ m_sz →
  wd * ht ≤ Z.of_nat (length vid) →
  (Z.to_nat (wd - i) ≤ fuel)%nat →
  row_pixels m m_sz cut detail wd step_sz fuel row i pos vid dr
  = Ret (pos', vid', dr') →
  ∀ j : nat,
    row * wd + i ≤ Z.of_nat j → Z.of_nat j * step_sz < pos' →
    ∃ g, map_read m (Z.of_nat j * step_sz) = Ret g
         ∧ vid' !! j = Some (SHMIF_RGBA 0 g 0 255).
Proof.
  assert (Hs1 : 1 ≤ step_sz) by lia.
  assert (Hs2 : step_sz < 2 ^ 63).
  { assert (0 < wd * ht) by nia.
    assert (m_sz / (wd * ht) ≤ m_sz) by (apply Z.div_le_upper_bound; nia). lia. }
  induction fuel as [|fuel IH];
    intros i pos vid dr pos' vid' dr' Hrow Hi Hpos Hple Hbuf Hfuel; simpl.
  { intros [= <- <- <-] j Hj1 Hj2. nia. }
  destruct (Z.ltb_spec i wd) as [Hlt | Hge]; simpl.
  2:{ intros [= <- <- <-] j Hj1 Hj2. nia. }
  destruct (Z.ltb_spec pos m_sz) as [Hp | Hp]; simpl.
  2:{ intros [= <- <- <-] j Hj1 Hj2. nia. }
  pose proof (row_index m m_sz wd ht Hwd Hht row i Hrow ltac:(lia)) as Hk.
  assert (0 ≤ row * wd) by nia.
  assert (0 ≤ pos) by nia.
  destruct (map_read_Ret m pos) as (g & Hg & _); [lia |].
  assert (Hnext : (row * wd + i + 1) * step_sz ≤ m_sz).
  { apply (px_next m m_sz wd ht step_sz Hwd Hht Hstep); lia. }
  rewrite Hg, bind_Ret.
  rewrite (wrap64_small (row * wd)) by lia.
  rewrite (wrap64_small (row * wd + i)) by lia.
  rewrite vid_store_Ret by lia. rewrite bind_Ret.
  intros (dr1 & _ & Hrec)%bind_inv.
  rewrite (wrap64_small (pos + step_sz)) in Hrec by lia.
  intros j Hj1 Hj2.
  destruct (decide (Z.of_nat j = row * wd + i)) as [Ej | Hne].
  - exists g. split; [by rewrite Ej, <- Hpos |].
    destruct (row_pixels_spec m m_sz cut detail wd ht step_sz Hwd Hht Hwh Hlen Hsz Hstep
                fuel row (i + 1) (pos + step_sz)
                (alter (λ _, SHMIF_RGBA 0 g 0 255) (Z.to_nat (row * wd + i)) vid) dr1)
      as (i2 & pos2 & vid2 & dr2 & Hrec2 & _ & _ & _ & _ & _ & Hframe);
      [lia | lia | lia | lia | rewrite length_alter; lia | lia |].
    rewrite Hrec in Hrec2. injection Hrec2 as <- <- <-.
    rewrite Hframe by lia.
    replace (Z.to_nat (row * wd + i)) with j by lia.
    rewrite list_lookup_alter.
    destruct (lookup_lt_is_Some_2 vid j) as [x ->]; [lia |].
    by rewrite decide_True.
  - eapply (IH (i + 1) (pos + step_sz)); [done | lia | lia | lia | | lia | exact Hrec | lia | done].
    rewrite length_alter. lia.
Qed.

(** The pixels of the row after [row_body]: the tint leaves the green
    channel alone. *)
Lemma row_body_content st st' :
  0 ≤ rb_row st < ht → rb_pos st = rb_row st * wd * step_sz → rb_pos st ≤ m_sz →
  wd * ht ≤ Z.of_nat (length (rb_vid st)) →
  row_body m m_sz cut detail wd step_sz st = Ret st' →
  ∀ j : nat,
    rb_row st * wd ≤ Z.of_nat j < (rb_row st + 1) * wd →
    Z.of_nat j * step_sz < rb_pos st' →
    pixel_shows m step_sz (rb_vid st') j.
Proof.
  intros Hrow Hpos Hple Hbuf. unfold row_body.
  intros ([[pos' vid'] dr'] & Hpx & H)%bind_inv j Hj1 Hj2.
  assert (0 ≤ rb_row st * wd) by nia.
  assert ((rb_row st + 1) * wd ≤ wd * ht) by nia.
  pose proof (row_pixels_content (Z.to_nat wd) (rb_row st) 0 (rb_pos st) (rb_vid st)
                (rb_dr st) pos' vid' dr' Hrow ltac:(lia) ltac:(lia) Hple Hbuf
                ltac:(lia) Hpx j ltac:(lia)) as Hcontent.
  destruct (row_pixels_spec m m_sz cut detail wd ht step_sz Hwd Hht Hwh Hlen Hsz Hstep
              (Z.to_nat wd) (rb_row st) 0 (rb_pos st) (rb_vid st) (rb_dr st))
    as (i2 & pos2 & vid2 & dr2 & Hpx2 & _ & _ & _ & _ & Hl & _);
    [lia | lia | lia | lia | lia | lia |].
  rewrite Hpx in Hpx2. injection Hpx2 as <- <- <-.
  destruct (is_nan cut).
  - injection H as <-. cbn [rb_vid rb_pos rb_row] in *.
    destruct (Hcontent Hj2) as (g & Hg & Hv).
    exists g, (SHMIF_RGBA 0 g 0 255). split_and!; try done.
    apply rgba_green_mask. by eapply map_read_inv.
  - apply bind_inv in H as (vid1 & Hv1 & H). injection H as <-. cbn [rb_vid rb_pos rb_row] in *.
    destruct (Hcontent Hj2) as (g & Hg & Hv).
    pose proof (map_read_inv m _ g Hg) as Hgb.
    destruct (SFltb _ cut).
    + rewrite (wrap64_small (rb_row st * wd)) in Hv1 by lia.
      rewrite span_store_paint in Hv1; [| lia | lia | lia | lia | lia].
      injection Hv1 as <-.
      exists g, (Z.lor edge_tint (SHMIF_RGBA 0 g 0 255)). split_and!; try done.
      * rewrite paint_lookup, Hv. rewrite bool_decide_eq_true_2 by lia. reflexivity.
      * rewrite mask_land_tint. by apply rgba_green_mask.
    + injection Hv1 as <-.
      exists g, (SHMIF_RGBA 0 g 0 255). split_and!; try done.
      by apply rgba_green_mask.
Qed.

Lemma step_bounds : 1 ≤ step_sz < 2 ^ 63.
Proof.
  assert (0 < wd * ht) by nia.
  assert (m_sz / (wd * ht) ≤ m_sz) by (apply Z.div_le_upper_bound; nia). lia.
Qed.

(** One turn of the loop while the clock stays quiet. *)
Lemma quiet_turn st :
  quiet_inv timemillis m m_sz wd ht step_sz st →
  rb_row st < ht → rb_pos st + step_sz < m_sz →
  quiet timemillis (rb_clock st) →
  ∃ i' st1 st2,
    row_body m m_sz cut detail wd step_sz st = Ret st1
    ∧ edge_step timemillis wd ht st1 = Ret st2
    ∧ quiet_inv timemillis m m_sz wd ht step_sz st2
    ∧ rb_row st2 = rb_row st + 1
    ∧ 0 ≤ i' ≤ wd ∧ rb_pos st2 = (rb_row st * wd + i') * step_sz
    ∧ (i' = wd ∨ rb_pos st2 = m_sz)
    ∧ rb_dirty st2 = true ∧ rb_signals st2 = rb_signals st
    ∧ length (rb_vid st2) = length (rb_vid st)
    ∧ rb_vid st2 = rb_vid st1 ∧ rb_row st1 = rb_row st
    ∧ rb_clock st1 = rb_clock st ∧ rb_last st1 = rb_last st
    ∧ rb_signals st1 = rb_signals st.
Proof.
  intros (Hrow & Hpos & Hple & Hple' & Hbuf & Hlast & Hclock & Hshow) Hlt Hcond Hq.
  pose proof step_bounds as [Hs1 Hs2].
  destruct Hpos as [Hpos | Hpos]; [| lia].
  destruct (row_body_spec m m_sz cut detail wd ht step_sz Hwd Hht Hwh Hlen Hsz Hstep st)
    as (i' & st1 & Hbody & Hi' & Hpos1 & Hple1 & Hend & Hrow1 & Hl1 & Hframe
        & Hclock1 & Hlast1 & Hsig1);
    [lia | exact Hpos | lia | lia |].
  pose proof (row_body_dirty _ _ _ _ _ _ _ _ Hbody) as Hdirty.
  pose proof (row_body_content st st1 ltac:(lia) Hpos Hple Hbuf Hbody) as Hrowshow.
  assert (Hedge : edge_step timemillis wd ht st1
    = Ret {| rb_pos := rb_pos st1; rb_row := rb_row st + 1; rb_vid := rb_vid st1;
             rb_dr := rb_dr st1; rb_cr := rb_cr st1; rb_last := rb_last st1;
             rb_dirty := rb_dirty st1; rb_clock := S (rb_clock st1);
             rb_signals := rb_signals st1 |}).
  { unfold edge_step. assert (ht ≤ wd * ht) by nia.
    rewrite Hrow1, (wrap64_small (rb_row st + 1)) by lia.
    rewrite Hclock1, Hlast1, Hlast.
    unfold quiet in Hq.
    destruct (Z.ltb_spec 14 (wrap64 (timemillis (rb_clock st) - wrap64 (timemillis 0%nat))))
      as [? | _]; [lia | reflexivity]. }
  eexists i', st1, _. split; [exact Hbody |]. split; [exact Hedge |].
  cbn [rb_pos rb_row rb_vid rb_dr rb_cr rb_last rb_dirty rb_clock rb_signals].
  assert (0 ≤ rb_row st * wd) by nia.
  split_and!; try done; try lia.
  - unfold quiet_inv.
    cbn [rb_pos rb_row rb_vid rb_dr rb_cr rb_last rb_dirty rb_clock rb_signals].
    split_and!; try lia; [nia |].
    intros j Hj1 Hj2.
    destruct (decide (Z.of_nat j < rb_row st * wd)) as [Hold | Hnew].
    + apply (pixel_shows_frame m step_sz (rb_vid st)); [apply Hframe; lia |].
      by apply Hshow.
    + apply Hrowshow; [lia |].
      destruct Hend as [-> | ->]; [nia | lia].
Qed.

(** The whole loop when the pump never stops it and the clock stays quiet. *)
Lemma rebuild_rows_quiet fuel : ∀ st,
  quiet_inv timemillis m m_sz wd ht step_sz st →
  (Z.to_nat (ht - rb_row st) ≤ fuel)%nat →
  (∀ r, 0 ≤ r < ht → pump r = true) → (∀ n, quiet timemillis n) →
  ∃ st',
    rebuild_rows pump timemillis m m_sz cut detail wd ht step_sz fuel st
    = Ret (true, st')
    ∧ quiet_inv timemillis m m_sz wd ht step_sz st'
    ∧ (rb_row st' = ht ∨ m_sz ≤ rb_pos st' + step_sz)
    ∧ rb_signals st' = rb_signals st
    ∧ length (rb_vid st') = length (rb_vid st)
    ∧ (rb_dirty st' = true ∨ st' = st).
Proof.
  pose proof step_bounds as [Hs1 Hs2].
  induction fuel as [|fuel IH]; intros st Hinv Hfuel Hpump Hquiet.
  { exists st. simpl. pose proof Hinv as (Hrow & _).
    split_and!; [done | done | left; lia | done | done | by right]. }
  pose proof Hinv as (Hrow & Hpos & Hple & Hple' & Hbuf & Hlast & Hclock & Hshow).
  assert (0 ≤ rb_pos st).
  { destruct Hpos as [-> | ->]; [| lia].
    assert (0 ≤ rb_row st * wd) by nia. nia. }
  simpl. rewrite (wrap64_small (rb_pos st + step_sz)) by lia.
  destruct (Z.ltb_spec (rb_pos st + step_sz) m_sz) as [Hcond | ?]; simpl.
  2:{ exists st. split_and!; [done | done | right; lia | done | done | by right]. }
  destruct (Z.ltb_spec (rb_row st) ht) as [Hlt | ?]; simpl.
  2:{ exists st. split_and!; [done | done | left; lia | done | done | by right]. }
  destruct (quiet_turn st Hinv Hlt Hcond (Hquiet _))
    as (i' & st1 & st2 & -> & Hedge & Hinv2 & Hrow2 & _ & _ & _ & Hd2 & Hsig2 & Hl2 & _).
  rewrite bind_Ret. rewrite (Hpump (rb_row st)) by lia. simpl.
  rewrite Hedge, bind_Ret.
  destruct (IH st2 Hinv2 ltac:(lia) Hpump Hquiet)
    as (st' & -> & Hinv' & Hexit & Hsig' & Hl' & Hd').
  exists st'. split_and!; try done; try congruence.
  left. destruct Hd' as [? | ->]; done.
Qed.

(** On a file that fills a raster at least two pixels wide, every row is
    started, and started on its first sample. *)
Lemma big_file_row st :
  2 ≤ wd → wd * ht ≤ m_sz →
  quiet_inv timemillis m m_sz wd ht step_sz st → rb_row st < ht →
  rb_pos st = rb_row st * wd * step_sz ∧ rb_pos st + step_sz < m_sz.
Proof.
  intros Hw2 Hbig (Hrow & Hpos & Hple & Hple' & _) Hlt.
  pose proof step_bounds as [Hs1 Hs2].
  assert (0 < wd * ht) by nia.
  assert (Hfit : step_sz * (wd * ht) ≤ m_sz).
  { destruct (step_fits m m_sz wd ht step_sz Hwd Hht Hstep) as [-> | ?]; lia. }
  assert (Hin : rb_row st * wd * step_sz + step_sz < m_sz).
  { assert (rb_row st * wd + 1 < wd * ht) by nia. nia. }
  destruct Hpos as [Hpos | Hpos]; lia.
Qed.

(** The first [n] turns of the loop on such a file, when the pump lets them
    through and the clock is quiet after each of them. *)
Lemma rebuild_rows_prefix n : ∀ fuel st,
  2 ≤ wd → wd * ht ≤ m_sz →
  quiet_inv timemillis m m_sz wd ht step_sz st →
  rb_row st + Z.of_nat n ≤ ht →
  (∀ r, rb_row st ≤ r < rb_row st + Z.of_nat n →
        pump r = true ∧ quiet timemillis (S (Z.to_nat r))) →
  ∃ st',
    rebuild_rows pump timemillis m m_sz cut detail wd ht step_sz (n + fuel) st
    = rebuild_rows pump timemillis m m_sz cut detail wd ht step_sz fuel st'
    ∧ quiet_inv timemillis m m_sz wd ht step_sz st'
    ∧ rb_row st' = rb_row st + Z.of_nat n
    ∧ rb_signals st' = rb_signals st
    ∧ length (rb_vid st') = length (rb_vid st).
Proof.
  pose proof step_bounds as [Hs1 Hs2].
  induction n as [|n IH]; intros fuel st Hw2 Hbig Hinv Hn Hturns.
  { exists st. split_and!; try done. lia. }
  destruct (big_file_row st Hw2 Hbig Hinv ltac:(lia)) as [Hpos Hcond].
  pose proof Hinv as (Hrow & _ & _ & _ & _ & _ & Hclock & _).
  destruct (Hturns (rb_row st) ltac:(lia)) as [Hp Hq]. rewrite <- Hclock in Hq.
  destruct (quiet_turn st Hinv ltac:(lia) Hcond Hq)
    as (i' & st1 & st2 & Hbody & Hedge & Hinv2 & Hrow2 & _ & _ & _ & _ & Hsig2 & Hl2 & _).
  destruct (IH fuel st2 Hw2 Hbig Hinv2 ltac:(lia)) as (st' & Hrec & Hinv' & Hrow' & Hsig' & Hl').
  { intros r Hr. apply Hturns. lia. }
  exists st'. split_and!; try done; try lia; try congruence.
  rewrite <- Hrec. change (S n + fuel)%nat with (S (n + fuel)). simpl.
  assert (0 ≤ rb_pos st) by (assert (0 ≤ rb_row st * wd) by nia; nia).
  rewrite (wrap64_small (rb_pos st + step_sz)) by lia.
  destruct (Z.ltb_spec (rb_pos st + step_sz) m_sz) as [_ | ?]; [| lia].
  destruct (Z.ltb_spec (rb_row st) ht) as [_ | ?]; [| lia]. simpl.
  rewrite Hbody, bind_Ret, Hp. simpl. by rewrite Hedge, bind_Ret.
Qed.

End QuietRows.

(** ** The preview as a whole *)

Lemma pixel_shows_mask m step_sz vid vid' j :
  Z.land mask <$> vid' !! j = Z.land mask <$> vid !! j →
  pixel_shows m step_sz vid j → pixel_shows m step_sz vid' j.
Proof.
  intros E (g & px & Hg & Hpx & Hm). rewrite Hpx in E.
  destruct (vid' !! j) as [px' |] eqn:Hpx'; [| discriminate].
  injection E as E. exists g, px'. split_and!; try done. congruence.
Qed.

(** The overlay update that ends a rebuild returns. *)
Lemma closing_update_returns ch_size fs vid :
  0 < w (cont fs) → 0 < h (cont fs) → buffer_ok (cont fs) →
  length vid = length (vidp (cont fs)) →
  w (cont fs) * h (cont fs) ≤ map_sz fs → map_sz fs < 2 ^ 64 →
  count_ok (windows_0 fs) → overlay_reach fs →
  buffer_ok (set_vidp (cont fs) vid)
  ∧ count_ok (set_last_pos (windows_0 fs) (2 ^ 64 - 1))
  ∧ ∃ c2 wnd2,
      update_region (map_sz fs) (set_vidp (cont fs) vid)
        (set_last_pos (windows_0 fs) (2 ^ 64 - 1)) (last_pos (windows_0 fs)) ch_size
      = Ret (c2, wnd2).
Proof.
  intros Hw Hh Hbuf Hl Hfit Hlt Hcnt [Hlo Hnew].
  assert (Hb1 : buffer_ok (set_vidp (cont fs) vid)).
  { unfold buffer_ok in *. simpl. rewrite Hl. exact Hbuf. }
  split; [exact Hb1 |]. split; [exact Hcnt |].
  destruct (geometry_ok_intro (map_sz fs) (set_vidp (cont fs) vid))
    as (Hg1 & Hg2 & Hg3); simpl; try lia.
  by apply update_region_returns.
Qed.

Section Preview.
Variable pump : Z → bool.
Variable timemillis : nat → Z.
Variable ch_size : Z.
Variable dr0 cr0 : list Z.
Variable fs : fsense_t.
Variable m : list byte.
Variable cut : spec_float.
Variable detail : bool.

Hypothesis Hw : 0 < w (cont fs).
Hypothesis Hh : 0 < h (cont fs).
Hypothesis Hwh : w (cont fs) * h (cont fs) < 2 ^ 64.
Hypothesis Hpitch : w (cont fs) ≤ pitch (cont fs).
Hypothesis Hbuf : buffer_ok (cont fs).
Hypothesis Hsz : Z.of_nat (length m) < 2 ^ 63.

Lemma raster_in_buffer : w (cont fs) * h (cont fs) ≤ Z.of_nat (length (vidp (cont fs))).
Proof. pose proof Hbuf as (Hl & _). nia. Qed.

(** The prologue of [rebuild_preview]: the step, and the clear. *)
Lemma rebuild_preview_start :
  let c := cont fs in
  let m_sz := Z.of_nat (length m) in
  let vid0 := paint (λ _, clear_color) 0 (w c * h c) (vidp c) in
  rebuild_preview pump timemillis ch_size dr0 cr0 fs m m_sz cut detail
  = ('(completed, st) ← rebuild_rows pump timemillis m m_sz cut detail (w c) (h c)
                          (sample_step m_sz c) (Z.to_nat (h c))
                          (rebuild_start timemillis dr0 cr0 vid0);
     let c1 := set_vidp c (rb_vid st) in
     if negb completed then Ret (false, set_view fs c1 (windows_0 fs), rb_signals st)
     else if rb_dirty st then
       '(c2, wnd2) ← update_region (map_sz fs) c1
                       (set_last_pos (windows_0 fs) (2 ^ 64 - 1))
                       (last_pos (windows_0 fs)) ch_size;
       Ret (true, set_view fs c2 wnd2, S (rb_signals st))
     else Ret (true, set_view fs c1 (windows_0 fs), rb_signals st)).
Proof.
  intros c m_sz vid0. unfold rebuild_preview. fold c. fold m_sz.
  pose proof raster_in_buffer as Hrb. fold c in Hrb, Hw, Hh, Hwh.
  assert (Hwhpos : 0 < w c * h c) by nia.
  rewrite (wrap64_small (w c * h c)) by lia.
  rewrite udiv_Ret by lia. rewrite bind_Ret.
  assert (Hq : 0 ≤ m_sz / (w c * h c)) by (apply Z.div_pos; lia).
  rewrite (clamp_step _ Hq). fold (sample_step m_sz c).
  rewrite span_store_paint; [| lia | lia | lia | lia | lia].
  rewrite bind_Ret. reflexivity.
Qed.

Lemma rebuild_start_quiet vid0 :
  w (cont fs) * h (cont fs) ≤ Z.of_nat (length vid0) →
  quiet_inv timemillis m (Z.of_nat (length m)) (w (cont fs)) (h (cont fs))
    (sample_step (Z.of_nat (length m)) (cont fs))
    (rebuild_start timemillis dr0 cr0 vid0).
Proof.
  intros Hl. unfold quiet_inv, rebuild_start. simpl.
  split_and!; try done; lia.
Qed.

(** The whole raster after a rebuild that nothing interrupts. *)
Lemma preview_samples :
  let c := cont fs in
  let m_sz := Z.of_nat (length m) in
  2 ≤ w c → w c * h c ≤ m_sz → map_sz fs = m_sz → count_ok (windows_0 fs) →
  overlay_reach fs →
  (∀ r, 0 ≤ r < h c → pump r = true) → (∀ n, quiet timemillis n) →
  ∃ fs',
    rebuild_preview pump timemillis ch_size dr0 cr0 fs m m_sz cut detail
    = Ret (true, fs', 1%nat)
    ∧ ∀ j : nat, Z.of_nat j < w c * h c →
                 pixel_shows m (sample_step m_sz c) (vidp (cont fs')) j.
Proof.
  intros c m_sz Hw2 Hbig Hmap Hcnt Hreach Hpump Hquiet.
  subst c m_sz. rewrite rebuild_preview_start. cbv zeta.
  pose proof raster_in_buffer as Hrb.
  set (c := cont fs) in *. set (m_sz := Z.of_nat (length m)) in *.
  set (vid0 := paint (λ _, clear_color) 0 (w c * h c) (vidp c)).
  assert (Hl0 : length vid0 = length (vidp c)) by apply length_paint.
  pose proof (rebuild_start_quiet vid0) as Hinv0. fold c m_sz in Hinv0.
  specialize (Hinv0 ltac:(lia)).
  destruct (rebuild_rows_quiet pump timemillis m m_sz cut detail (w c) (h c)
              (sample_step m_sz c) Hw Hh Hwh eq_refl Hsz eq_refl
              (Z.to_nat (h c)) _ Hinv0 ltac:(simpl; lia) Hpump Hquiet)
    as (st & -> & Hinv & Hexit & Hsig & Hl & Hd).
  rewrite bind_Ret. cbv beta iota zeta. simpl negb. cbv iota.
  assert (Hrowh : rb_row st = h c).
  { destruct (Z.eq_dec (rb_row st) (h c)) as [? | Hne]; [done |].
    pose proof Hinv as (Hrow & _).
    destruct (big_file_row timemillis m m_sz (w c) (h c) (sample_step m_sz c)
                Hw Hh Hwh eq_refl Hsz eq_refl st Hw2 Hbig Hinv ltac:(lia)).
    destruct Hexit; lia. }
  assert (Hdirty : rb_dirty st = true).
  { destruct Hd as [? | ->]; [done |]. simpl in Hrowh. lia. }
  rewrite Hdirty.
  destruct (closing_update_returns ch_size fs (rb_vid st) Hw Hh Hbuf)
    as (Hb1 & Hc1 & c2 & wnd2 & Hret);
    [by rewrite Hl | fold c; lia | lia | done | done |]. fold c in Hb1, Hret.
  rewrite Hret, bind_Ret. cbv beta iota zeta.
  rewrite Hsig. eexists. split; [reflexivity |].
  intros j Hj. simpl.
  destruct (update_region_cases _ _ _ _ _ _ _ Hb1 Hc1 Hret) as [_ Hcase].
  apply (pixel_shows_mask m _ (rb_vid st)).
  { apply (update_case_mask _ _ _ _ _ _ _ j Hcase). }
  destruct Hinv as (_ & _ & _ & _ & _ & _ & _ & Hshow).
  apply Hshow; [rewrite Hrowh; lia |].
  pose proof (step_pos m_sz c).
  assert (m_sz / (w c * h c) * (w c * h c) ≤ m_sz)
    by (rewrite Z.mul_comm; apply Z.mul_div_le; lia).
  assert (sample_step m_sz c * (w c * h c) ≤ m_sz).
  { unfold sample_step.
    destruct (Z.max_spec 1 (m_sz / (w c * h c))) as [[_ ->] | [_ ->]]; lia. }
  nia.
Qed.

(** Without the condition on the pointers of the window the rebuild can end
    in a store outside the buffer: for a window that holds the offset
    2^64 - 2 and a channel of two bytes, on the 2 x 2 raster over 8 bytes,
    the overlay update that ends the rebuild computes the pixel index
    2^63 - 1, whose pointer is [&vidp[-1]]. *)
Lemma closing_update_below :
  rebuild_preview (λ _, true) (λ _, 0) 2 histo_zero histo_zero
    {| map := file_8; map_sz := 8; cont := raster_2x2; cutoff := cutoff_default;
       detailed := false; in_rebuild := false;
       windows_0 := set_last_pos fresh_window (2 ^ 64 - 2) |}
    file_8 8 cutoff_default false
  = Err (WriteOutOfBounds (-1)).
Proof. vm_compute. reflexivity. Qed.

(** X7.  On a file that fills a raster at least two pixels wide, with a pump that
    lets the rebuild run and a clock that stays within 14 ms, every pixel of
    the raster ends up with the byte at [j * step] in its green channel, and
    one frame is signalled, at the end.  The overlay update that ends the
    rebuild stores through the two pixel pointers of the window, neither of
    which lies below the buffer. *)
Theorem rebuild_preview_samples :
  let c := cont fs in
  let m_sz := Z.of_nat (length m) in
  2 ≤ w c → w c * h c ≤ m_sz → map_sz fs = m_sz → count_ok (windows_0 fs) →
  overlay_reach fs →
  (∀ r, 0 ≤ r < h c → pump r = true) → (∀ n, quiet timemillis n) →
  ∃ fs',
    rebuild_preview pump timemillis ch_size dr0 cr0 fs m m_sz cut detail
    = Ret (true, fs', 1%nat)
    ∧ ∀ j : nat, Z.of_nat j < w c * h c →
                 pixel_shows m (sample_step m_sz c) (vidp (cont fs')) j.
Proof. exact preview_samples. Qed.

(** X8.  A file of at least two bytes that does not fill the raster, rebuilt
    with a pump that lets the rebuild run and a clock that stays within
    14 ms, so that the last row leaves the frame to be signalled: the rows
    are drawn, and the overlay update that ends the rebuild divides by a
    step of zero.  The channel is not empty, the window holds an offset
    other than 2^64 - 1, and the run it records does not start below the
    buffer. *)
Theorem rebuild_preview_short_file_faults :
  let c := cont fs in
  let m_sz := Z.of_nat (length m) in
  2 ≤ m_sz < w c * h c → map_sz fs = m_sz → count_ok (windows_0 fs) →
  0 ≤ run_lo c (windows_0 fs) →
  last_pos (windows_0 fs) ≠ 2 ^ 64 - 1 → ch_size ≠ 0 →
  (∀ r, 0 ≤ r < h c → pump r = true) → (∀ n, quiet timemillis n) →
  rebuild_preview pump timemillis ch_size dr0 cr0 fs m m_sz cut detail
  = Err DivideByZero.
Proof.
  intros c m_sz Hsmall Hmap Hcnt Hlo Hpos Hch Hpump Hquiet.
  subst c m_sz. rewrite rebuild_preview_start. cbv zeta.
  pose proof raster_in_buffer as Hrb.
  set (c := cont fs) in *. set (m_sz := Z.of_nat (length m)) in *.
  set (vid0 := paint (λ _, clear_color) 0 (w c * h c) (vidp c)).
  assert (Hl0 : length vid0 = length (vidp c)) by apply length_paint.
  pose proof (rebuild_start_quiet vid0) as Hinv0. fold c m_sz in Hinv0.
  specialize (Hinv0 ltac:(lia)).
  assert (Hs : sample_step m_sz c = 1).
  { unfold sample_step. rewrite Z.div_small by lia. lia. }
  destruct (rebuild_rows_quiet pump timemillis m m_sz cut detail (w c) (h c)
              (sample_step m_sz c) Hw Hh Hwh eq_refl Hsz eq_refl
              (Z.to_nat (h c)) _ Hinv0 ltac:(simpl; lia) Hpump Hquiet)
    as (st & -> & Hinv & Hexit & Hsig & Hl & Hd).
  rewrite bind_Ret. cbv beta iota zeta. simpl negb. cbv iota.
  assert (Hdirty : rb_dirty st = true).
  { destruct Hd as [? | ->]; [done |]. simpl in Hexit. lia. }
  rewrite Hdirty.
  assert (Hb1 : buffer_ok (set_vidp c (rb_vid st))).
  { unfold buffer_ok in *. simpl. rewrite Hl. simpl. rewrite Hl0. exact Hbuf. }
  rewrite update_region_step_zero;
    [reflexivity | exact Hb1 | exact Hcnt | by intros _ | | | exact Hch].
  - simpl. rewrite (wrap64_small (w c * h c)) by lia. lia.
  - simpl. lia.
Qed.

(** X9.  A file of at most one byte, or a raster of a single pixel: no row is
    drawn.  The raster is left cleared, no frame is signalled and the overlay
    is not updated. *)
Theorem rebuild_preview_nothing_to_draw :
  let c := cont fs in
  let m_sz := Z.of_nat (length m) in
  m_sz ≤ 1 ∨ w c * h c = 1 →
  rebuild_preview pump timemillis ch_size dr0 cr0 fs m m_sz cut detail
  = Ret (true,
         set_view fs (set_vidp c (paint (λ _, clear_color) 0 (w c * h c) (vidp c)))
           (windows_0 fs),
         0%nat).
Proof.
  intros c m_sz Hcase. subst c m_sz. rewrite rebuild_preview_start. cbv zeta.
  set (c := cont fs) in *. set (m_sz := Z.of_nat (length m)) in *.
  assert (Hwhpos : 0 < w c * h c) by nia.
  assert (Hstop : (sample_step m_sz c <? m_sz) = false).
  { apply Z.ltb_ge. unfold sample_step.
    destruct Hcase as [? | ->]; [lia |]. rewrite Z.div_1_r. lia. }
  assert (0 < sample_step m_sz c < 2 ^ 64).
  { unfold sample_step.
    assert (m_sz / (w c * h c) ≤ m_sz) by (apply Z.div_le_upper_bound; nia). lia. }
  destruct (Z.to_nat (h c)) as [|fuel] eqn:Hfuel; [lia |].
  cbn [rebuild_rows rebuild_start rb_pos rb_row].
  rewrite Z.add_0_l, wrap64_small by lia. rewrite Hstop. reflexivity.
Qed.

(** X10.  The marker that follows the last row is stored one row below the
    raster: when the clock has moved on by more than 14 ms at the end of the
    last row (and not before), the rebuild writes at pixel [w * h], outside a
    buffer of [w * h] pixels. *)
Theorem rebuild_preview_marker_below_raster :
  let c := cont fs in
  let m_sz := Z.of_nat (length m) in
  2 ≤ w c → w c * h c ≤ m_sz → pitch c = w c →
  (∀ r, 0 ≤ r < h c → pump r = true) →
  (∀ r, 0 ≤ r < h c - 1 → quiet timemillis (S (Z.to_nat r))) →
  ¬ quiet timemillis (Z.to_nat (h c)) →
  rebuild_preview pump timemillis ch_size dr0 cr0 fs m m_sz cut detail
  = Err (WriteOutOfBounds (w c * h c)).
Proof.
  intros c m_sz Hw2 Hbig Hp Hpump Hquiet Hfire.
  subst c m_sz. rewrite rebuild_preview_start. cbv zeta.
  pose proof raster_in_buffer as Hrb.
  set (c := cont fs) in *. set (m_sz := Z.of_nat (length m)) in *.
  set (vid0 := paint (λ _, clear_color) 0 (w c * h c) (vidp c)).
  assert (Hl0 : length vid0 = length (vidp c)) by apply length_paint.
  pose proof (rebuild_start_quiet vid0) as Hinv0. fold c m_sz in Hinv0.
  specialize (Hinv0 ltac:(lia)).
  destruct (rebuild_rows_prefix pump timemillis m m_sz cut detail (w c) (h c)
              (sample_step m_sz c) Hw Hh Hwh eq_refl Hsz eq_refl
              (Z.to_nat (h c - 1)) 1%nat _ Hw2 Hbig Hinv0)
    as (st & Hrun & Hinv & Hrow & Hsig & Hl).
  { simpl. lia. }
  { simpl. intros r Hr. split; [apply Hpump | apply Hquiet]; lia. }
  replace (Z.to_nat (h c)) with (Z.to_nat (h c - 1) + 1)%nat by lia.
  rewrite Hrun. simpl in Hrow.
  destruct (big_file_row timemillis m m_sz (w c) (h c) (sample_step m_sz c)
              Hw Hh Hwh eq_refl Hsz eq_refl st Hw2 Hbig Hinv ltac:(lia)) as [Hpos Hcond].
  pose proof (step_pos m_sz c).
  pose proof Hinv as (_ & _ & Hple & _ & Hbuf1 & Hlast & Hclock & _).
  assert (0 ≤ rb_pos st) by (rewrite Hpos; nia).
  simpl. rewrite (wrap64_small (rb_pos st + sample_step m_sz c)) by lia.
  destruct (Z.ltb_spec (rb_pos st + sample_step m_sz c) m_sz) as [_ | ?]; [| lia].
  destruct (Z.ltb_spec (rb_row st) (h c)) as [_ | ?]; [| lia]. simpl.
  destruct (row_body_spec m m_sz cut detail (w c) (h c) (sample_step m_sz c)
              Hw Hh Hwh eq_refl Hsz eq_refl st)
    as (i' & st1 & -> & _ & _ & _ & _ & Hrow1 & Hl1 & _ & Hclock1 & Hlast1 & _);
    [lia | exact Hpos | lia | lia |].
  rewrite bind_Ret. rewrite (Hpump (rb_row st)) by lia. simpl.
  unfold edge_step. rewrite Hclock1, Hlast1, Hlast, Hclock, Hrow1, Hrow.
  replace (S (Z.to_nat (0 + Z.of_nat (Z.to_nat (h c - 1))))) with (Z.to_nat (h c)) by lia.
  unfold quiet in Hfire.
  destruct (Z.ltb_spec 14 (wrap64 (timemillis (Z.to_nat (h c)) - wrap64 (timemillis 0%nat))))
    as [_ | ?]; [| lia].
  replace (0 + Z.of_nat (Z.to_nat (h c - 1)) + 1) with (h c) by lia.
  assert (h c ≤ w c * h c) by nia.
  rewrite (wrap64_small (h c)) by lia.
  rewrite (wrap64_small (h c * w c)) by lia.
  destruct (Z.to_nat (w c)) as [|fuel] eqn:Hfuel; [lia |].
  simpl. destruct (Z.ltb_spec 0 (w c)) as [_ | ?]; [| lia].
  destruct (Z.ltb_spec (0 + Z.of_nat (Z.to_nat (h c - 1))) (h c)) as [_ | ?]; [| lia].
  simpl. rewrite Z.add_0_r, (wrap64_small (h c * w c)) by lia.
  unfold vid_store.
  assert (Hlen1 : Z.of_nat (length (rb_vid st1)) = h c * w c).
  { rewrite Hl1, Hl. simpl. rewrite Hl0. pose proof Hbuf as (-> & _). by rewrite Hp. }
  rewrite Hlen1, Z.ltb_irrefl. simpl. by rewrite (Z.mul_comm (h c)).
Qed.
End Preview.

Lemma rebuild_preview_samples_witness :
  ∃ fs',
    rebuild_preview (λ _, true) (λ _, 0) 1 histo_zero histo_zero fsense_8 file_8
      (Z.of_nat (length file_8)) cutoff_default false
    = Ret (true, fs', 1%nat)
    ∧ ∀ j : nat, Z.of_nat j < w (cont fsense_8) * h (cont fsense_8) →
                 pixel_shows file_8
                   (sample_step (Z.of_nat (length file_8)) (cont fsense_8))
                   (vidp (cont fs')) j.
Proof.
  apply (rebuild_preview_samples (λ _, true) (λ _, 0) 1 histo_zero histo_zero
           fsense_8 file_8 cutoff_default false).
  - simpl. lia.
  - simpl. lia.
  - simpl. lia.
  - simpl. lia.
  - vm_compute. split_and!; [reflexivity | discriminate | reflexivity].
  - simpl. lia.
  - simpl. lia.
  - simpl. lia.
  - reflexivity.
  - unfold count_ok. simpl. lia.
  - split; vm_compute; discriminate.
  - reflexivity.
  - intros n. unfold quiet. vm_compute. discriminate.
Defined.

Lemma rebuild_preview_short_file_faults_witness :
  rebuild_preview (λ _, true) (λ _, 0) 4 histo_zero histo_zero fsense_short file_8
    (Z.of_nat (length file_8)) cutoff_default false
  = Err DivideByZero.
Proof.
  apply (rebuild_preview_short_file_faults (λ _, true) (λ _, 0) 4 histo_zero histo_zero
           fsense_short file_8 cutoff_default false).
  - simpl. lia.
  - simpl. lia.
  - simpl. lia.
  - simpl. lia.
  - vm_compute. split_and!; [reflexivity | discriminate | reflexivity].
  - simpl. lia.
  - simpl. lia.
  - reflexivity.
  - unfold count_ok. simpl. lia.
  - vm_compute. discriminate.
  - simpl. lia.
  - lia.
  - reflexivity.
  - intros n. unfold quiet. vm_compute. discriminate.
Defined.

Lemma rebuild_preview_nothing_to_draw_witness :
  rebuild_preview (λ _, true) (λ _, 0) 4 histo_zero histo_zero fsense_short [x2a]
    (Z.of_nat (length [x2a])) cutoff_default false
  = Ret (true,
         set_view fsense_short
           (set_vidp (cont fsense_short)
              (paint (λ _, clear_color) 0
                 (w (cont fsense_short) * h (cont fsense_short))
                 (vidp (cont fsense_short))))
           (windows_0 fsense_short),
         0%nat).
Proof.
  apply (rebuild_preview_nothing_to_draw (λ _, true) (λ _, 0) 4 histo_zero histo_zero
           fsense_short [x2a] cutoff_default false).
  - simpl. lia.
  - simpl. lia.
  - simpl. lia.
  - simpl. lia.
  - vm_compute. split_and!; [reflexivity | discriminate | reflexivity].
  - simpl. lia.
  - left. simpl. lia.
Defined.

Lemma rebuild_preview_marker_below_raster_witness :
  rebuild_preview (λ _, true) clock_jump 1 histo_zero histo_zero fsense_8 file_8
    (Z.of_nat (length file_8)) cutoff_default false
  = Err (WriteOutOfBounds (w (cont fsense_8) * h (cont fsense_8))).
Proof.
  apply (rebuild_preview_marker_below_raster (λ _, true) clock_jump 1 histo_zero
           histo_zero fsense_8 file_8 cutoff_default false).
  - simpl. lia.
  - simpl. lia.
  - simpl. lia.
  - simpl. lia.
  - vm_compute. split_and!; [reflexivity | discriminate | reflexivity].
  - simpl. lia.
  - simpl. lia.
  - simpl. lia.
  - reflexivity.
  - reflexivity.
  - intros r Hr. simpl in Hr. assert (r = 0) as -> by lia. unfold quiet. vm_compute.
    discriminate.
  - unfold quiet. vm_compute. intros H. apply H. reflexivity.
Defined.

(** ** Reads of the sampled preview *)

Section SampledReads.
Variable pump : Z → bool.
Variable timemillis : nat → Z.
Variable m : list byte.
Variable m_sz : Z.
Variable cut : spec_float.
Variable detail : bool.
Variable wd ht step_sz : Z.
Hypothesis Hmode : detail = false ∨ is_nan cut = true.
Hypothesis Hlen : m_sz ≤ Z.of_nat (length m).

Lemma row_pixels_sampled fuel row : ∀ i pos vid dr,
  0 ≤ pos →
  no_read_fault (row_pixels m m_sz cut detail wd step_sz fuel row i pos vid dr)
  ∧ ∀ pos' vid' dr',
      row_pixels m m_sz cut detail wd step_sz fuel row i pos vid dr
      = Ret (pos', vid', dr') → 0 ≤ pos'.
Proof.
  induction fuel as [|fuel IH]; intros i pos vid dr Hpos; simpl.
  { split; [apply no_read_fault_Ret | by intros ? ? ? [= <- _ _]]. }
  destruct ((i <? wd) && (pos <? m_sz)) eqn:Hc.
  2:{ split; [apply no_read_fault_Ret | by intros ? ? ? [= <- _ _]]. }
  apply andb_true_iff in Hc as [_ Hp%Z.ltb_lt].
  destruct (map_read_Ret m pos) as (g & Hg & _); [lia |].
  assert (Hdr : ∃ dr',
    (if is_nan cut then Ret dr
     else if detail then histo_span m m_sz step_sz (Z.to_nat step_sz) 0 pos dr
     else b ← map_read m pos; Ret (histo_incr b dr)) = Ret dr').
  { destruct Hmode as [-> | ->]; [destruct (is_nan cut) |]; eauto.
    rewrite Hg, bind_Ret. eauto. }
  destruct Hdr as (dr' & Hdr). rewrite Hdr. clear Hdr.
  rewrite Hg, bind_Ret.
  pose proof (wrap64_range (pos + step_sz)) as Hw.
  destruct (IH (i + 1) (wrap64 (pos + step_sz)) (alter (λ _, SHMIF_RGBA 0 g 0 255)
              (Z.to_nat (wrap64 (wrap64 (row * wd) + i))) vid) dr' ltac:(lia))
    as [Hno Hnext].
  split.
  - apply no_read_fault_bind; [apply vid_store_no_read |]. intros vid1 Hst.
    unfold vid_store in Hst. destruct (_ <? _); [| discriminate]. injection Hst as <-.
    rewrite bind_Ret. exact Hno.
  - intros pos' vid' dr'' (vid1 & Hst & H)%bind_inv.
    unfold vid_store in Hst. destruct (_ <? _); [| discriminate]. injection Hst as <-.
    rewrite bind_Ret in H. by apply (Hnext pos' vid' dr'').
Qed.

Lemma row_body_sampled st :
  0 ≤ rb_pos st →
  no_read_fault (row_body m m_sz cut detail wd step_sz st)
  ∧ ∀ st', row_body m m_sz cut detail wd step_sz st = Ret st' → 0 ≤ rb_pos st'.
Proof.
  intros Hpos. unfold row_body.
  destruct (row_pixels_sampled (Z.to_nat wd) (rb_row st) 0 (rb_pos st) (rb_vid st)
              (rb_dr st) Hpos) as [Hno Hnext].
  split.
  - apply no_read_fault_bind; [exact Hno |]. intros [[pos vid] dr] _.
    destruct (is_nan cut); [apply no_read_fault_Ret |].
    apply no_read_fault_bind; [| intros; apply no_read_fault_Ret].
    destruct (SFltb _ cut); [apply span_store_no_read | apply no_read_fault_Ret].
  - intros st' ([[pos vid] dr] & Hpx & H)%bind_inv. apply Hnext in Hpx.
    destruct (is_nan cut); [by injection H as <- |].
    apply bind_inv in H as (vid' & _ & H). by injection H as <-.
Qed.

Lemma rebuild_rows_sampled fuel : ∀ st,
  0 ≤ rb_pos st →
  no_read_fault
    (rebuild_rows pump timemillis m m_sz cut detail wd ht step_sz fuel st).
Proof.
  induction fuel as [|fuel IH]; intros st Hpos; simpl; [apply no_read_fault_Ret |].
  destruct (_ && _); [| apply no_read_fault_Ret].
  destruct (row_body_sampled st Hpos) as [Hno Hnext].
  apply no_read_fault_bind; [exact Hno |]. intros st1 Hst1. apply Hnext in Hst1.
  destruct (pump (rb_row st)); simpl; [| apply no_read_fault_Ret].
  apply no_read_fault_bind.
  { unfold edge_step. destruct (14 <? _); [| apply no_read_fault_Ret].
    apply no_read_fault_bind; [apply span_store_no_read |].
    intros; apply no_read_fault_Ret. }
  intros st2 Hst2. apply IH.
  unfold edge_step in Hst2. destruct (14 <? _).
  - apply bind_inv in Hst2 as (vid' & _ & Hst2). by injection Hst2 as <-.
  - by injection Hst2 as <-.
Qed.
End SampledReads.

(** X11.  When each pixel counts one byte (no [-d], or no comparison at all), no
    read of the rebuild is outside the file, whatever the raster, the file
    length, the pump and the clock are. *)
Theorem rebuild_preview_sampled_reads pump timemillis ch_size dr0 cr0 fs m m_sz cut detail :
  detail = false ∨ is_nan cut = true → m_sz ≤ Z.of_nat (length m) →
  no_read_fault
    (rebuild_preview pump timemillis ch_size dr0 cr0 fs m m_sz cut detail).
Proof.
  intros Hmode Hlen. unfold rebuild_preview.
  apply no_read_fault_bind; [apply udiv_no_read | intros s0 _].
  apply no_read_fault_bind; [apply span_store_no_read | intros vid0 _].
  apply no_read_fault_bind.
  { by apply rebuild_rows_sampled. }
  intros [completed st] _.
  destruct completed; simpl; [| apply no_read_fault_Ret].
  destruct (rb_dirty st); [| apply no_read_fault_Ret].
  apply no_read_fault_bind; [apply update_region_no_read |].
  intros [c2 wnd2] _. apply no_read_fault_Ret.
Qed.

Lemma rebuild_preview_sampled_reads_witness :
  no_read_fault
    (rebuild_preview (λ _, true) clock_jump 4 histo_zero histo_zero fsense_short
       file_8 8 cutoff_default false).
Proof.
  apply (rebuild_preview_sampled_reads (λ _, true) clock_jump 4 histo_zero histo_zero
           fsense_short file_8 8 cutoff_default false).
  - by left.
  - simpl. lia.
Defined.

(** ** What the rebuild leaves alone *)

Lemma fill_length f fuel : ∀ np dst endm base v v',
  fill f fuel np dst endm base v = Ret v' → length v' = length v.
Proof.
  induction fuel as [|fuel IH]; intros np dst endm base v v'; simpl.
  - by intros [= <-].
  - destruct (_ && _); [| by intros [= <-]].
    intros (v1 & Hst & Hrec)%bind_inv. apply IH in Hrec. rewrite Hrec.
    by apply ptr_store_length in Hst.
Qed.

Lemma update_region_shape map_sz c wnd new_pos count c' wnd' :
  update_region map_sz c wnd new_pos count = Ret (c', wnd') →
  w c' = w c ∧ h c' = h c ∧ pitch c' = pitch c
  ∧ length (vidp c') = length (vidp c) ∧ pipe_in wnd' = pipe_in wnd.
Proof.
  unfold update_region, fill_run. intros (step & _ & H)%bind_inv. cbv beta zeta in H.
  destruct (last_pos wnd =? new_pos); [by injection H as <- <- |].
  apply bind_inv in H as (v1 & Hv1 & H).
  assert (Hl1 : length v1 = length (vidp c)).
  { destruct (last_pos_sz wnd =? 0); [by injection Hv1 as <- |].
    by apply fill_length in Hv1. }
  destruct (count =? 0); [by injection H as <- <- |].
  apply bind_inv in H as (coord1 & _ & H).
  apply bind_inv in H as (coord0 & _ & H).
  apply bind_inv in H as (nr & _ & H).
  apply bind_inv in H as (q & _ & H).
  apply bind_inv in H as (v2 & Hv2 & H).
  apply fill_length in Hv2. injection H as <- <-. simpl. split_and!; try done.
  congruence.
Qed.

Lemma row_pixels_length m m_sz cut detail wd step_sz fuel row :
  ∀ i pos vid dr pos' vid' dr',
    row_pixels m m_sz cut detail wd step_sz fuel row i pos vid dr
    = Ret (pos', vid', dr') →
    length vid' = length vid.
Proof.
  induction fuel as [|fuel IH]; intros i pos vid dr pos' vid' dr'; simpl.
  - by intros [= _ <- _].
  - destruct (_ && _); [| by intros [= _ <- _]].
    intros (g & _ & H)%bind_inv.
    apply bind_inv in H as (vid1 & Hst & H).
    apply bind_inv in H as (dr1 & _ & H).
    apply IH in H. rewrite H.
    unfold vid_store in Hst. destruct (_ <? _); [| discriminate].
    injection Hst as <-. apply length_alter.
Qed.

Lemma rebuild_rows_length pump timemillis m m_sz cut detail wd ht step_sz fuel :
  ∀ st b st',
    rebuild_rows pump timemillis m m_sz cut detail wd ht step_sz fuel st
    = Ret (b, st') →
    length (rb_vid st') = length (rb_vid st).
Proof.
  induction fuel as [|fuel IH]; intros st b st'; simpl.
  - by intros [= _ <-].
  - destruct (_ && _); [| by intros [= _ <-]].
    intros (st1 & Hbody & H)%bind_inv.
    assert (Hl1 : length (rb_vid st1) = length (rb_vid st)).
    { unfold row_body in Hbody.
      apply bind_inv in Hbody as ([[pos vid] dr] & Hpx & Hbody).
      apply row_pixels_length in Hpx.
      destruct (is_nan cut); [by injection Hbody as <- |].
      apply bind_inv in Hbody as (vid' & Hv & Hbody). injection Hbody as <-. simpl.
      destruct (SFltb _ cut); [| by injection Hv as <-].
      apply span_store_length in Hv. congruence. }
    destruct (pump (rb_row st)); simpl in H; [| injection H as _ <-; done].
    apply bind_inv in H as (st2 & Hedge & H). apply IH in H. rewrite H, <- Hl1.
    unfold edge_step in Hedge. destruct (14 <? _); [| by injection Hedge as <-].
    apply bind_inv in Hedge as (vid' & Hv & Hedge). injection Hedge as <-. simpl.
    by apply span_store_length in Hv.
Qed.

(** What [rebuild_preview] leaves as it is. *)
Lemma preview_frame pump timemillis ch_size dr0 cr0 fs m m_sz cut detail
    completed fs' signals :
  rebuild_preview pump timemillis ch_size dr0 cr0 fs m m_sz cut detail
  = Ret (completed, fs', signals) →
  map fs' = map fs ∧ map_sz fs' = map_sz fs ∧ cutoff fs' = cutoff fs
  ∧ detailed fs' = detailed fs ∧ in_rebuild fs' = false
  ∧ w (cont fs') = w (cont fs) ∧ h (cont fs') = h (cont fs)
  ∧ pitch (cont fs') = pitch (cont fs)
  ∧ length (vidp (cont fs')) = length (vidp (cont fs))
  ∧ pipe_in (windows_0 fs') = pipe_in (windows_0 fs).
Proof.
  unfold rebuild_preview. intros (s0 & _ & H)%bind_inv.
  apply bind_inv in H as (vid0 & Hclear & H). apply span_store_length in Hclear.
  apply bind_inv in H as ([done st] & Hrows & H).
  apply rebuild_rows_length in Hrows. simpl in Hrows.
  destruct done; simpl in H.
  - destruct (rb_dirty st).
    + apply bind_inv in H as ([c2 wnd2] & Hup & H). injection H as _ <- _.
      apply update_region_shape in Hup as (Ew & Eh & Ep & El & Epipe). simpl in *.
      split_and!; try done. congruence.
    + injection H as _ <- _. simpl. split_and!; try done. congruence.
  - injection H as _ <- _. simpl. split_and!; try done. congruence.
Qed.

(** ** The main loop *)

Lemma flush_last p : ∀ pos, flush p pos = (default pos (last p), []).
Proof.
  induction p as [|x p IH]; intros pos; simpl flush; [done |].
  rewrite IH, last_cons. by destruct (last p).
Qed.

Lemma update_region_moves map_sz c wnd new_pos count c' wnd' :
  buffer_ok c → count_ok wnd → count ≠ 0 →
  update_region map_sz c wnd new_pos count = Ret (c', wnd') →
  last_pos wnd' = new_pos ∧ buffer_ok c' ∧ count_ok wnd'
  ∧ w c' = w c ∧ h c' = h c.
Proof.
  intros Hb Hc Hnz Hret.
  destruct (update_region_cases _ _ _ _ _ _ _ Hb Hc Hret) as [_ Hcase].
  destruct (update_case_preserves _ _ _ _ _ _ _ Hcase Hb Hc) as (? & ? & ? & ? & _).
  split_and!; try done.
  destruct Hcase as [Hsame | _ Hz | _ _ _ _ wnd'']; [done | contradiction | done].
Qed.

(** One turn, from an empty pipe and what the worker wrote. *)
Lemma main_loop_body_written map_sz c wnd msgs count :
  pipe_in wnd = [] →
  main_loop_body map_sz c (pipe_write wnd msgs) count
  = match msgs with
    | [] => Ret (c, pipe_write wnd [], false)
    | x :: msgs' =>
        '(c', wnd') ← update_region map_sz c (set_pipe_in wnd [])
                        (default x (last msgs')) count;
        Ret (c', wnd', true)
    end.
Proof.
  intros Hpipe. unfold main_loop_body, pipe_write. simpl. rewrite Hpipe. simpl.
  destruct msgs as [|x msgs]; simpl; [reflexivity |].
  rewrite flush_last. reflexivity.
Qed.

Lemma update_region_reach map_sz c wnd new_pos count c' wnd' :
  buffer_ok c → count_ok wnd →
  update_region map_sz c wnd new_pos count = Ret (c', wnd') →
  0 ≤ run_lo c wnd → 0 ≤ offset_lo map_sz c new_pos →
  0 ≤ run_lo c' wnd' ∧ ∀ o, offset_lo map_sz c' o = offset_lo map_sz c o.
Proof.
  intros Hb Hc Hret Hlo Hnew.
  destruct (update_region_cases _ _ _ _ _ _ _ Hb Hc Hret) as [_ Hcase].
  destruct (update_case_preserves _ _ _ _ _ _ _ Hcase Hb Hc) as (_ & _ & Ew & Eh & Ep).
  pose proof (update_case_addr _ _ _ _ _ _ _ Hcase) as Ea.
  split; [by apply (update_case_reach _ _ _ _ _ _ _ Hcase) |].
  intros o. by apply offset_lo_dims.
Qed.

Lemma last_default_elem_of (x : Z) msgs : default x (last msgs) ∈ x :: msgs.
Proof.
  destruct (last msgs) as [y |] eqn:Hlast; simpl.
  - apply elem_of_cons. right. by apply last_Some_elem_of.
  - apply elem_of_cons. by left.
Qed.

(** X13.  Over any number of turns of the main loop, on a raster that the file
    fills and with a channel that is never empty, when no pixel pointer
    lies below the buffer (the one to the run that the window records, and
    the ones computed for the offsets that the worker sends): one frame is
    signalled for each turn in which offsets had arrived, the pipe is empty
    after the last turn, and the window stands at the newest offset the
    worker ever sent. *)
Theorem main_loop_follows_worker map_sz c wnd turns :
  raster_ok map_sz c → count_ok wnd → pipe_in wnd = [] →
  0 ≤ run_lo c wnd →
  Forall (λ t, t.2 ≠ 0) turns →
  Forall (λ o, 0 ≤ offset_lo map_sz c o) (offsets_sent turns) →
  ∃ c' wnd',
    main_loop map_sz c wnd 0 turns
    = Ret (c', wnd', length (filter (λ t, t.1 ≠ []) turns))
    ∧ pipe_in wnd' = []
    ∧ last_pos wnd' = default (last_pos wnd) (last (offsets_sent turns))
    ∧ raster_ok map_sz c'.
Proof.
  intros Hok Hc Hpipe Hlo Hturns Hoffs.
  enough (∀ frames, ∃ c' wnd',
    main_loop map_sz c wnd frames turns
    = Ret (c', wnd', (frames + length (filter (λ t, t.1 ≠ []) turns))%nat)
    ∧ pipe_in wnd' = []
    ∧ last_pos wnd' = default (last_pos wnd) (last (offsets_sent turns))
    ∧ raster_ok map_sz c') as Hgen by exact (Hgen 0%nat).
  revert c wnd Hok Hc Hpipe Hlo Hoffs.
  induction Hturns as [| [msgs count] turns Hnz _ IH];
    intros c wnd Hok Hc Hpipe Hlo Hoffs frames; simpl in *.
  { exists c, wnd. rewrite Nat.add_0_r. done. }
  unfold offsets_sent in Hoffs. rewrite fmap_cons in Hoffs. cbn [concat fst] in Hoffs.
  apply Forall_app in Hoffs as [Hmsgs Hoffs].
  rewrite main_loop_body_written by exact Hpipe.
  destruct msgs as [|x msgs].
  - rewrite bind_Ret. cbv beta iota zeta.
    rewrite filter_cons_False by (simpl; tauto).
    unfold offsets_sent. simpl.
    destruct (IH c (pipe_write wnd []) Hok Hc) with (frames := frames)
      as (c' & wnd' & Hrun & Hp & Hlast & Hok'); [| done | done |].
    { unfold pipe_write. simpl. by rewrite Hpipe. }
    exists c', wnd'. split_and!; done.
  - destruct (raster_geometry_ok _ _ Hok) as (Hwh & Hstep & Hbpl).
    assert (Hnew : 0 ≤ offset_lo map_sz c (default x (last msgs))).
    { revert Hmsgs. rewrite Forall_forall. intros Hall. apply Hall.
      apply last_default_elem_of. }
    assert (Hc0 : count_ok (set_pipe_in wnd [])) by exact Hc.
    destruct (update_region_returns map_sz c (set_pipe_in wnd [])
                (default x (last msgs)) count)
      as (c1 & wnd1 & Hret); try assumption; [by destruct Hok | done | done |].
    rewrite Hret, !bind_Ret. cbv beta iota zeta.
    destruct (update_region_moves _ _ _ _ _ _ _ (raster_buffer _ _ Hok) Hc0 Hnz Hret)
      as (Hpos1 & Hb1 & Hc1 & Ew & Eh).
    destruct (update_region_shape _ _ _ _ _ _ _ Hret) as (_ & _ & _ & _ & Hpipe1).
    destruct (update_region_reach _ _ _ _ _ _ _ (raster_buffer _ _ Hok) Hc0 Hret Hlo Hnew)
      as (Hlo1 & Hdims).
    destruct (IH c1 wnd1 (raster_ok_dims _ _ _ Hok Ew Eh Hb1) Hc1 Hpipe1 Hlo1)
      with (frames := S frames) as (c' & wnd' & Hrun & Hp & Hlast & Hok').
    { eapply Forall_impl; [exact Hoffs |]. intros o Ho. simpl. by rewrite Hdims. }
    exists c', wnd'. rewrite filter_cons_True by done.
    rewrite Hrun. split_and!; try done.
    + do 2 f_equal. simpl. lia.
    + rewrite Hlast, Hpos1. unfold offsets_sent.
      rewrite fmap_cons. cbn [concat fst]. rewrite last_app.
      destruct (last (concat turns.*1)); [done |]. simpl.
      rewrite last_cons. by destruct (last msgs).
Qed.

Lemma main_loop_follows_worker_witness :
  ∃ c' wnd',
    main_loop 16 raster_4x4 fresh_window 0 [([3; 9; 5], 1); ([], 1); ([7], 2)]
    = Ret (c', wnd', length (filter (λ t, t.1 ≠ []) [([3; 9; 5], 1); ([], 1); ([7], 2)]))
    ∧ pipe_in wnd' = []
    ∧ last_pos wnd'
      = default (last_pos fresh_window)
          (last (offsets_sent [([3; 9; 5], 1); ([], 1); ([7], 2)]))
    ∧ raster_ok 16 c'.
Proof.
  apply (main_loop_follows_worker 16 raster_4x4 fresh_window).
  - split; simpl; try lia.
    vm_compute. split_and!; [reflexivity | discriminate | reflexivity].
  - unfold count_ok. simpl. lia.
  - reflexivity.
  - vm_compute. discriminate.
  - apply (bool_decide_unpack _). vm_compute. exact I.
  - repeat constructor; vm_compute; discriminate.
Defined.

(** ** The options of [main] *)

(** ** Rounding never yields a NaN, and keeps what fits *)

Section RoundingShape.
Variable prec emax : Z.

Lemma shr_fexp_nonneg m e l : 0 ≤ m → 0 ≤ shr_m (shr_fexp prec emax m e l).1.
Proof.
  intros Hm. unfold shr_fexp, shr.
  destruct (fexp prec emax (Zdigits2 m + e) - e) as [|p|p]; simpl;
    try (rewrite shr_record_of_loc_m; exact Hm).
  rewrite iter_pos_nat, shr_iter_m by (by rewrite shr_record_of_loc_m).
  rewrite shr_record_of_loc_m. apply Z.div_pos; lia.
Qed.

Lemma binary_round_aux_sign sx mx ex lx :
  0 ≤ mx → has_sign sx (binary_round_aux prec emax sx mx ex lx).
Proof.
  intros Hm. unfold binary_round_aux.
  pose proof (shr_fexp_nonneg mx ex lx Hm) as H1.
  destruct (shr_fexp prec emax mx ex lx) as [mrs' e']. simpl in H1.
  assert (H2 : 0 ≤ round_nearest_even (shr_m mrs') (loc_of_shr_record mrs')).
  { destruct (round_nearest_even_cases (shr_m mrs') (loc_of_shr_record mrs')) as [-> | ->]; lia. }
  pose proof (shr_fexp_nonneg _ e' loc_Exact H2) as H3.
  destruct (shr_fexp prec emax _ e' loc_Exact) as [mrs'' e'']. simpl in H3.
  destruct (shr_m mrs'') as [|p|p]; [done | | lia].
  by destruct (_ <=? _).
Qed.

Lemma binary_round_sign sx m e : has_sign sx (binary_round prec emax sx m e).
Proof.
  unfold binary_round. destruct (shl_align _ _ _) as [mz ez].
  apply binary_round_aux_sign. lia.
Qed.

Lemma shr_1_double y :
  0 < y →
  shr_1 {| shr_m := 2 * y; shr_r := false; shr_s := false |}
  = {| shr_m := y; shr_r := false; shr_s := false |}.
Proof. intros Hy. destruct y as [|q|q]; [lia | reflexivity | lia]. Qed.

Lemma shr_iter_exact k : ∀ x,
  0 < x →
  Nat.iter k shr_1
    {| shr_m := x * 2 ^ Z.of_nat k; shr_r := false; shr_s := false |}
  = {| shr_m := x; shr_r := false; shr_s := false |}.
Proof.
  induction k as [|k IH]; intros x Hx.
  - simpl. by rewrite Z.mul_1_r.
  - rewrite Nat.iter_succ_r.
    replace (x * 2 ^ Z.of_nat (S k)) with (2 * (x * 2 ^ Z.of_nat k))
      by (rewrite Nat2Z.inj_succ, Z.pow_succ_r by lia; ring).
    rewrite shr_1_double by (apply Z.mul_pos_pos; lia). by apply IH.
Qed.

(** A mantissa of [prec] digits followed by [n] zero bits rounds to itself. *)
Lemma binary_round_aux_exact sx (m : positive) n ex :
  1 < prec → Zdigits2 (Z.pos m) = prec → 0 ≤ n →
  emin prec emax ≤ ex + n ≤ emax - prec →
  binary_round_aux prec emax sx (Z.pos m * 2 ^ n) ex loc_Exact
  = S754_finite sx m (ex + n).
Proof.
  intros Hprec Hd Hn He. unfold binary_round_aux.
  assert (Hfirst : shr_fexp prec emax (Z.pos m * 2 ^ n) ex loc_Exact
                   = ({| shr_m := Z.pos m; shr_r := false; shr_s := false |}, ex + n)).
  { unfold shr_fexp. rewrite Zdigits2_shift by lia. rewrite Hd.
    replace (fexp prec emax (prec + n + ex) - ex) with n by (unfold fexp; lia).
    unfold shr. destruct n as [|p|p]; [| | lia].
    - simpl. by rewrite Z.mul_1_r, Z.add_0_r.
    - rewrite iter_pos_nat. f_equal.
      rewrite <- (shr_iter_exact (Pos.to_nat p) (Z.pos m)) by lia.
      by rewrite positive_nat_Z. }
  rewrite Hfirst. cbn [shr_m loc_of_shr_record round_nearest_even].
  assert (Hsecond : shr_fexp prec emax (Z.pos m) (ex + n) loc_Exact
                    = ({| shr_m := Z.pos m; shr_r := false; shr_s := false |}, ex + n)).
  { unfold shr_fexp. rewrite Hd.
    replace (fexp prec emax (prec + (ex + n)) - (ex + n)) with 0 by (unfold fexp; lia).
    reflexivity. }
  rewrite Hsecond. cbn [shr_m].
  destruct (Z.leb_spec (ex + n) (emax - prec)); [reflexivity | lia].
Qed.
End RoundingShape.

(** A normal [float] survives the way to [double] and back. *)
Lemma f32_round_trip m e :
  canonical 24 128 m e →
  f32_of_f64 (f64_of_f32 (S754_finite false m e)) = S754_finite false m e.
Proof.
  intros Hc. pose proof (canonical_digits 24 128 m e Hc) as Hd.
  destruct Hc as [Hm He]. unfold emin in He.
  assert (Hup : f64_of_f32 (S754_finite false m e)
                = S754_finite false (Z.to_pos (Z.pos m * 2 ^ 29)) (e - 29)).
  { unfold f64_of_f32. cbn [cond_Zopp]. unfold binary_normalize, binary_round.
    change (Z.pos (digits2_pos m)) with (Zdigits2 (Z.pos m)). rewrite Hd.
    replace (fexp 53 1024 (24 + e)) with (e - 29) by (unfold fexp, emin; lia).
    destruct (shl_align_le m e (e - 29) ltac:(lia)) as [-> Hpos].
    replace (e - (e - 29)) with 29 in * by lia.
    set (M := Z.to_pos (Z.pos m * 2 ^ 29)) in *.
    pose proof (binary_round_aux_exact 53 1024 false M 0 (e - 29)) as Hx.
    change (2 ^ 0) with 1 in Hx. rewrite Z.mul_1_r, Z.add_0_r in Hx.
    apply Hx; [lia | | lia | unfold emin; lia].
    rewrite Hpos, Zdigits2_shift by lia. lia. }
  rewrite Hup. unfold f32_of_f64. cbn [cond_Zopp]. unfold binary_normalize, binary_round.
  assert (Hpos : Z.pos (Z.to_pos (Z.pos m * 2 ^ 29)) = Z.pos m * 2 ^ 29) by lia.
  change (Z.pos (digits2_pos (Z.to_pos (Z.pos m * 2 ^ 29))))
    with (Zdigits2 (Z.pos (Z.to_pos (Z.pos m * 2 ^ 29)))).
  rewrite Hpos, Zdigits2_shift, Hd by lia.
  replace (fexp 24 128 (24 + 29 + (e - 29))) with e by (unfold fexp, emin; lia).
  rewrite shl_align_ge by lia. rewrite Hpos.
  rewrite (binary_round_aux_exact 24 128 false m 29 (e - 29)); try lia.
  - f_equal. lia.
  - unfold emin. lia.
Qed.

Lemma f64_of_f32_sign s m e : has_sign s (f64_of_f32 (S754_finite s m e)).
Proof.
  destruct s.
  - change (has_sign true (binary_round 53 1024 true m e)). apply binary_round_sign.
  - change (has_sign false (binary_round 53 1024 false m e)). apply binary_round_sign.
Qed.

Lemma f32_of_f64_not_nan x : x ≠ S754_nan → f32_of_f64 x ≠ S754_nan.
Proof.
  destruct x as [s | s | | s m e]; try done. intros _.
  pose proof (binary_round_sign 24 128 s m e) as H.
  destruct s.
  - change (binary_round 24 128 true m e ≠ S754_nan).
    by destruct (binary_round 24 128 true m e).
  - change (binary_round 24 128 false m e ≠ S754_nan).
    by destruct (binary_round 24 128 false m e).
Qed.

Lemma f64_of_f32_not_nan x : x ≠ S754_nan → f64_of_f32 x ≠ S754_nan.
Proof.
  destruct x as [s | s | | s m e]; try done. intros _.
  pose proof (f64_of_f32_sign s m e) as H. by destruct (f64_of_f32 _).
Qed.

Lemma pcomp_cutoff_not_nan f : is_nan (pcomp_cutoff f) = false.
Proof.
  assert (Hdef : f32_of_f64 f64_0_9 = cutoff_default) by (vm_compute; reflexivity).
  unfold pcomp_cutoff.
  destruct (is_inf f || is_nan f || _ || _) eqn:Hc; [by rewrite Hdef |].
  apply orb_false_iff in Hc as [Hc _]. apply orb_false_iff in Hc as [Hc _].
  apply orb_false_iff in Hc as [_ Hnan].
  assert (f ≠ S754_nan) as Hf by (by destruct f).
  apply f64_of_f32_not_nan, f32_of_f64_not_nan in Hf.
  by destruct (f32_of_f64 (f64_of_f32 f)).
Qed.

(** X14.  The cutoff that [-p] stores.  It is never a NaN, so the option always
    switches the comparison on.  A normal [float] up to 1 is stored as it
    is; a NaN, an infinity, a zero, a negative number and a number above 1
    are replaced by [0.9]. *)
Theorem pcomp_cutoff_spec f :
  is_nan (pcomp_cutoff f) = false
  ∧ (∀ v, is_float 24 128 f v → (v <= 1)%R → pcomp_cutoff f = f)
  ∧ (∀ v, is_float 24 128 f v → (1 < v)%R → pcomp_cutoff f = cutoff_default)
  ∧ (has_sign true f ∨ f = S754_zero false ∨ f = S754_infinity false ∨ f = S754_nan →
     pcomp_cutoff f = cutoff_default).
Proof.
  assert (Hdef : f32_of_f64 f64_0_9 = cutoff_default) by (vm_compute; reflexivity).
  split_and!.
  - apply pcomp_cutoff_not_nan.
  - intros v Hf Hv. pose proof (f64_of_f32_real f v Hf) as Hf64.
    assert (Hgt : SFltb (f64_of_Z 1) (f64_of_f32 f) = false).
    { apply not_true_is_false. intros Hlt.
      apply (SFltb_real 53 1024 _ _ 1%R v f64_one_real Hf64) in Hlt. lra. }
    assert (Hle : SFleb (f64_of_f32 f) (S754_zero false) = false).
    { destruct Hf64 as (m64 & e64 & -> & _). reflexivity. }
    destruct Hf as (m & e & -> & Hcan & _).
    unfold pcomp_cutoff. rewrite Hgt, Hle. simpl. by apply f32_round_trip.
  - intros v Hf Hv. pose proof (f64_of_f32_real f v Hf) as Hf64.
    assert (Hgt : SFltb (f64_of_Z 1) (f64_of_f32 f) = true).
    { by apply (SFltb_real 53 1024 _ _ 1%R v f64_one_real Hf64). }
    unfold pcomp_cutoff. rewrite Hgt, !orb_true_r. exact Hdef.
  - intros [Hneg | [-> | [-> | ->]]]; try (vm_compute; reflexivity).
    destruct f as [s | s | | s m e]; simpl in Hneg; try done; subst s;
      try (vm_compute; reflexivity).
    unfold pcomp_cutoff. cbn [is_inf is_nan orb].
    assert (Hle : SFleb (f64_of_f32 (S754_finite true m e)) (S754_zero false) = true).
    { pose proof (f64_of_f32_sign true m e) as Hs.
      destruct (f64_of_f32 (S754_finite true m e)) as [s | s | | s m' e'];
        simpl in Hs; try done; by subst s. }
    rewrite Hle. exact Hdef.
Qed.

Section OptionLoop.
Variable PP_SHMPAGE_MAXW PP_SHMPAGE_MAXH : Z.
Hypothesis HmaxW : 128 ≤ PP_SHMPAGE_MAXW < 2 ^ 63.
Hypothesis HmaxH : 512 ≤ PP_SHMPAGE_MAXH < 2 ^ 63.

Lemma option_case_inv o ch o' :
  option_case PP_SHMPAGE_MAXW PP_SHMPAGE_MAXH o ch = inr o' →
  1 ≤ p_w o ≤ PP_SHMPAGE_MAXW → 1 ≤ p_h o ≤ PP_SHMPAGE_MAXH →
  1 ≤ p_w o' ≤ PP_SHMPAGE_MAXW ∧ 1 ≤ p_h o' ≤ PP_SHMPAGE_MAXH
  ∧ is_nan (opt_cutoff o') = is_nan (opt_cutoff o) && negb (is_pcomp ch)
  ∧ ch ≠ case_help.
Proof.
  intros Hcase Hw Hh. destruct ch as [| f | | | n | n]; simpl in Hcase.
  - discriminate.
  - injection Hcase as <-. cbn [p_w p_h opt_cutoff is_pcomp negb].
    split_and!; try done; try lia. by rewrite pcomp_cutoff_not_nan, andb_false_r.
  - injection Hcase as <-. simpl. split_and!; try done; try lia. by rewrite andb_true_r.
  - injection Hcase as <-. simpl. split_and!; try done; try lia. by rewrite andb_true_r.
  - pose proof (wrap64_range n).
    destruct (Z.eqb_spec (wrap64 n) 0); [discriminate |].
    destruct (Z.ltb_spec PP_SHMPAGE_MAXW (wrap64 n)); [discriminate |].
    injection Hcase as <-. simpl. split_and!; try done; try lia. by rewrite andb_true_r.
  - pose proof (wrap64_range n).
    destruct (Z.eqb_spec (wrap64 n) 0); [discriminate |].
    destruct (Z.ltb_spec PP_SHMPAGE_MAXH (wrap64 n)); [discriminate |].
    injection Hcase as <-. simpl. split_and!; try done; try lia. by rewrite andb_true_r.
Qed.

Lemma option_loop_inv chs : ∀ o o',
  option_loop PP_SHMPAGE_MAXW PP_SHMPAGE_MAXH o chs = inr o' →
  1 ≤ p_w o ≤ PP_SHMPAGE_MAXW → 1 ≤ p_h o ≤ PP_SHMPAGE_MAXH →
  1 ≤ p_w o' ≤ PP_SHMPAGE_MAXW ∧ 1 ≤ p_h o' ≤ PP_SHMPAGE_MAXH
  ∧ is_nan (opt_cutoff o') = is_nan (opt_cutoff o) && negb (existsb is_pcomp chs)
  ∧ Forall (λ ch, ch ≠ case_help) chs.
Proof.
  induction chs as [|ch chs IH]; intros o o' Hloop Hw Hh; simpl in Hloop.
  - injection Hloop as <-. simpl. split_and!; try done; try lia. by rewrite andb_true_r.
  - destruct (option_case _ _ o ch) as [st | o1] eqn:Hcase; [discriminate |].
    destruct (option_case_inv o ch o1 Hcase Hw Hh) as (Hw1 & Hh1 & Hnan1 & Hhelp).
    destruct (IH o1 o' Hloop Hw1 Hh1) as (Hw' & Hh' & Hnan' & Hall).
    split_and!; try done; try lia; [| by constructor].
    rewrite Hnan', Hnan1. simpl. rewrite negb_orb. by rewrite andb_assoc.
Qed.

(** X15.  When the option loop lets [main] go on, the preview is at least one
    pixel and at most [PP_SHMPAGE_MAXW] by [PP_SHMPAGE_MAXH] pixels, the
    comparison is on exactly when [-p] was given, and help was not asked
    for. *)
Theorem option_loop_accepts chs o :
  option_loop PP_SHMPAGE_MAXW PP_SHMPAGE_MAXH main_opts_init chs = inr o →
  1 ≤ p_w o ≤ PP_SHMPAGE_MAXW ∧ 1 ≤ p_h o ≤ PP_SHMPAGE_MAXH
  ∧ is_nan (opt_cutoff o) = negb (existsb is_pcomp chs)
  ∧ Forall (λ ch, ch ≠ case_help) chs.
Proof.
  intros Hloop. apply option_loop_inv in Hloop; simpl; [done | lia | lia].
Qed.

(** X16.  [-w] with the [long] that [strtol] returns: the option ends [main]
    with [EXIT_FAILURE] exactly when the number is zero, negative or above
    [PP_SHMPAGE_MAXW], and is stored otherwise. *)
Theorem option_case_width o n :
  - 2 ^ 63 ≤ n < 2 ^ 63 →
  option_case PP_SHMPAGE_MAXW PP_SHMPAGE_MAXH o (case_width n)
  = if bool_decide (1 ≤ n ≤ PP_SHMPAGE_MAXW)
    then inr {| p_w := n; p_h := p_h o; opt_detailed := opt_detailed o;
                opt_wrap := opt_wrap o; opt_cutoff := opt_cutoff o |}
    else inl EXIT_FAILURE.
Proof.
  intros Hn. simpl. case_bool_decide as Hr.
  - rewrite wrap64_small by lia.
    destruct (Z.eqb_spec n 0); [lia |].
    destruct (Z.ltb_spec PP_SHMPAGE_MAXW n); [lia | done].
  - destruct (Z.eqb_spec (wrap64 n) 0) as [| Hnz]; [done |].
    destruct (Z.ltb_spec PP_SHMPAGE_MAXW (wrap64 n)) as [| Hle]; [done |].
    exfalso. apply Hr.
    destruct (Z.le_gt_cases 0 n) as [Hpos | Hneg].
    + rewrite wrap64_small in Hnz, Hle by lia. lia.
    + assert (wrap64 n = n + 2 ^ 64); [| lia].
      unfold wrap64. symmetry. apply (Z.mod_unique n (2 ^ 64) (-1)); lia.
Qed.
End OptionLoop.

Lemma option_loop_accepts_witness :
  1 ≤ 64 ≤ 8192 ∧ 1 ≤ 512 ≤ 8192
  ∧ is_nan (pcomp_cutoff (f32_of_Z 7)) = negb (existsb is_pcomp [case_width 64; case_pcomp (f32_of_Z 7); case_pdetail])
  ∧ Forall (λ ch, ch ≠ case_help) [case_width 64; case_pcomp (f32_of_Z 7); case_pdetail].
Proof.
  apply (option_loop_accepts 8192 8192 ltac:(lia) ltac:(lia)
           [case_width 64; case_pcomp (f32_of_Z 7); case_pdetail]
           {| p_w := 64; p_h := 512; opt_detailed := true; opt_wrap := false;
              opt_cutoff := pcomp_cutoff (f32_of_Z 7) |}).
  reflexivity.
Defined.

Lemma option_case_width_witness :
  option_case 8192 8192 main_opts_init (case_width (-1))
  = if bool_decide (1 ≤ -1 ≤ 8192)
    then inr {| p_w := -1; p_h := p_h main_opts_init;
                opt_detailed := opt_detailed main_opts_init;
                opt_wrap := opt_wrap main_opts_init;
                opt_cutoff := opt_cutoff main_opts_init |}
    else inl EXIT_FAILURE.
Proof.
  apply (option_case_width 8192 8192 ltac:(lia) main_opts_init (-1)). lia.
Defined.

(** ** The samples of a row *)

Lemma hsum_alter (f : Z → Z) (l : list Z) : ∀ i : nat,
  (i < length l)%nat → hsum (alter f i l) = hsum l - l !!! i + f (l !!! i).
Proof.
  induction l as [|x l IH]; intros i Hi; simpl in Hi; [lia |].
  destruct i as [|i].
  - change (f x + hsum l = x + hsum l - x + f x). lia.
  - change (x + hsum (alter f i l) = x + hsum l - l !!! i + f (l !!! i)).
    rewrite IH by lia. lia.
Qed.

Lemma hsum_nonneg (l : list Z) : Forall (λ c, 0 ≤ c) l → 0 ≤ hsum l.
Proof. induction 1; simpl; lia. Qed.

Lemma hsum_elem (l : list Z) (i : nat) :
  Forall (λ c, 0 ≤ c) l → (i < length l)%nat → 0 ≤ l !!! i ≤ hsum l.
Proof.
  intros Hl. revert i. induction Hl as [|x l Hx Hl IH]; intros i Hi; simpl in Hi; [lia |].
  pose proof (hsum_nonneg l Hl). destruct i as [|i]; simpl; [lia |].
  change ((x :: l) !!! S i) with (l !!! i). specialize (IH i ltac:(lia)). lia.
Qed.

Lemma counts_zero : counts histo_zero 0.
Proof.
  split_and!; [done | | done]. apply Forall_forall. intros c Hc.
  apply elem_of_replicate in Hc as [-> _]. done.
Qed.

Lemma histo_incr_counts dr k b :
  counts dr k → 0 ≤ b < 256 → k + 1 < 2 ^ 31 → counts (histo_incr b dr) (k + 1).
Proof.
  intros (Hlen & Hall & Hsum) Hb Hk. unfold histo_incr.
  pose proof (hsum_elem dr (Z.to_nat b) Hall ltac:(lia)) as Hel.
  assert (Hs : sint32 (dr !!! Z.to_nat b + 1) = dr !!! Z.to_nat b + 1).
  { unfold sint32. rewrite Z.mod_small by lia. lia. }
  split_and!.
  - by rewrite length_alter.
  - apply Forall_alter; [done |]. intros c Hc.
    apply list_lookup_total_correct in Hc. subst c. rewrite Hs. lia.
  - rewrite hsum_alter by lia. rewrite Hs. lia.
Qed.

Lemma counts_histogram dr k : counts dr k → k < 2 ^ 31 → histogram dr.
Proof.
  intros (Hlen & Hall & Hsum) Hk. split; [done |].
  apply Forall_lookup_2. intros i c Hi.
  pose proof (hsum_elem dr i Hall (lookup_lt_Some _ _ _ Hi)) as Hel.
  apply list_lookup_total_correct in Hi. subst c. lia.
Qed.

Section RowSamples.
Variable m : list byte.
Variable m_sz : Z.
Variable cut : spec_float.
Variable detail : bool.
Variable wd ht : Z.
Variable step_sz : Z.

Hypothesis Hwd : 0 < wd.
Hypothesis Hht : 0 < ht.
Hypothesis Hwh : wd * ht < 2 ^ 64.
Hypothesis Hlen : Z.of_nat (length m) = m_sz.
Hypothesis Hsz : m_sz < 2 ^ 63.
Hypothesis Hstep : step_sz = Z.max 1 (m_sz / (wd * ht)).
Hypothesis Hcut : is_nan cut = false.

(** A property of [dr] and of the number of samples it holds that every
    [dr[map[pos]]++] keeps, for the offsets [pos] between [lo] and [hi]. *)
Variable P : list Z → Z → Prop.
Variable lo hi : Z.
Hypothesis HP : ∀ dr k pos b,
  P dr k → lo ≤ pos < hi → map_read m pos = Ret b → k + 1 < 2 ^ 31 →
  P (histo_incr b dr) (k + 1).

(** [for (j = 0; j < step_sz && pos < map_sz; j++) dr[map[pos+j]]++] counts
    the [step_sz] bytes of a pixel. *)
Lemma histo_span_counts fuel pos : ∀ j dr k,
  0 ≤ j ≤ step_sz → 0 ≤ pos → pos < m_sz →
  (∀ j', 0 ≤ j' < step_sz → pos + j' < m_sz ∧ lo ≤ pos + j' < hi) →
  (Z.to_nat (step_sz - j) ≤ fuel)%nat →
  P dr k → k + (step_sz - j) < 2 ^ 31 →
  ∃ dr', histo_span m m_sz step_sz fuel j pos dr = Ret dr'
         ∧ P dr' (k + (step_sz - j)).
Proof.
  intros j dr k Hj Hpos Hp Hin. revert j dr k Hj.
  induction fuel as [|fuel IH]; intros j dr k Hj Hfuel Hc Hk; simpl.
  { exists dr. split; [done |]. by replace (k + (step_sz - j)) with k by lia. }
  destruct (Z.ltb_spec j step_sz) as [Hlt | Hge]; simpl.
  2:{ exists dr. split; [done |]. by replace (k + (step_sz - j)) with k by lia. }
  destruct (Z.ltb_spec pos m_sz) as [_ | ?]; [| lia]. simpl.
  destruct (Hin j ltac:(lia)) as [Hin1 Hin2].
  rewrite (wrap64_small (pos + j)) by lia.
  destruct (map_read_Ret m (pos + j)) as (b & Hrd & Hb); [lia |].
  rewrite Hrd, bind_Ret.
  destruct (IH (j + 1) (histo_incr b dr) (k + 1)) as (dr' & -> & Hc');
    [lia | lia | apply (HP dr k (pos + j) b); [done | done | done | lia] | lia |].
  exists dr'. split; [done |].
  by replace (k + (step_sz - j)) with (k + 1 + (step_sz - (j + 1))) by lia.
Qed.

(** The samples that the pixels [i, w) of a row add to [dr], when the file
    holds all of them. *)
Lemma row_pixels_counts fuel row : ∀ i pos vid dr k,
  0 ≤ row < ht → 0 ≤ i ≤ wd → pos = (row * wd + i) * step_sz →
  (row * wd + wd) * step_sz ≤ m_sz →
  lo ≤ row * wd * step_sz → (row * wd + wd) * step_sz ≤ hi →
  wd * ht ≤ Z.of_nat (length vid) →
  (Z.to_nat (wd - i) ≤ fuel)%nat →
  P dr k → k + (wd - i) * (if detail then step_sz else 1) < 2 ^ 31 →
  ∃ vid' dr',
    row_pixels m m_sz cut detail wd step_sz fuel row i pos vid dr
    = Ret ((row * wd + wd) * step_sz, vid', dr')
    ∧ P dr' (k + (wd - i) * (if detail then step_sz else 1)).
Proof.
  intros i pos vid dr k Hrow. revert i pos vid dr k.
  assert (Hs1 : 1 ≤ step_sz) by lia.
  assert (Hs2 : step_sz < 2 ^ 63).
  { assert (0 < wd * ht) by nia.
    assert (m_sz / (wd * ht) ≤ m_sz) by (apply Z.div_le_upper_bound; nia). lia. }
  set (per := if detail then step_sz else 1).
  assert (Hper : 1 ≤ per) by (unfold per; destruct detail; lia).
  induction fuel as [|fuel IH];
    intros i pos vid dr k Hi Hpos Hfull Hlo Hhi Hbuf Hfuel Hc Hk; simpl.
  { assert (i = wd) as -> by lia. subst pos. exists vid, dr. split; [done |].
    by replace (k + (wd - wd) * per) with k by lia. }
  destruct (Z.ltb_spec i wd) as [Hlt | Hge]; simpl.
  2:{ assert (i = wd) as -> by lia. subst pos. exists vid, dr. split; [done |].
      by replace (k + (wd - wd) * per) with k by lia. }
  pose proof (row_index m m_sz wd ht Hwd Hht row i Hrow ltac:(lia)) as Hidx.
  assert (0 ≤ row * wd) by nia.
  assert (Hnext : (row * wd + i + 1) * step_sz ≤ m_sz) by nia.
  assert (Hp : pos < m_sz) by nia.
  assert (0 ≤ pos) by nia.
  destruct (Z.ltb_spec pos m_sz) as [_ | ?]; [| lia]. simpl.
  destruct (map_read_Ret m pos) as (g & Hg & Hgb); [lia |].
  assert (Hkper : k + per + (wd - (i + 1)) * per < 2 ^ 31) by nia.
  assert (Hdr : ∃ dr',
    (if is_nan cut then Ret dr
     else if detail then histo_span m m_sz step_sz (Z.to_nat step_sz) 0 pos dr
     else b ← map_read m pos; Ret (histo_incr b dr)) = Ret dr'
    ∧ P dr' (k + per)).
  { rewrite Hcut. unfold per in *. destruct detail.
    - destruct (histo_span_counts (Z.to_nat step_sz) pos 0 dr k) as (dr' & -> & Hc');
        [lia | lia | lia | | lia | done | | ].
      + intros j' Hj'. subst pos. nia.
      + nia.
      + eexists. split; [done |]. by rewrite Z.sub_0_r in Hc'.
    - rewrite Hg, bind_Ret. eexists. split; [done |].
      apply (HP dr k pos g); [done | subst pos; nia | done | nia]. }
  destruct Hdr as (dr' & Hdr & Hc'). rewrite Hdr. clear Hdr.
  rewrite Hg, bind_Ret.
  rewrite (wrap64_small (row * wd)) by lia.
  rewrite (wrap64_small (row * wd + i)) by lia.
  rewrite vid_store_Ret by lia. rewrite !bind_Ret.
  rewrite (wrap64_small (pos + step_sz)) by lia.
  destruct (IH (i + 1) (pos + step_sz)
              (alter (λ _, SHMIF_RGBA 0 g 0 255) (Z.to_nat (row * wd + i)) vid) dr' (k + per))
    as (vid' & dr'' & -> & Hc'');
    [lia | lia | lia | lia | lia | rewrite length_alter; lia | lia | done | lia |].
  exists vid', dr''. split; [done |].
  by replace (k + (wd - i) * per) with (k + per + (wd - (i + 1)) * per) by lia.
Qed.

End RowSamples.

Lemma counts_incr (m : list byte) (lo hi : Z) dr k pos b :
  counts dr k → lo ≤ pos < hi → map_read m pos = Ret b → k + 1 < 2 ^ 31 →
  counts (histo_incr b dr) (k + 1).
Proof.
  intros Hc _ Hrd Hk. apply histo_incr_counts; [done | | done].
  by apply (map_read_inv m pos).
Qed.

(** X17.  A row that the file fills, counted from a zeroed [dr]: the histogram
    holds as many samples as the row weight that [rebuild_preview] hands to
    [cmp_histo] with it, [w] or [step_sz * w]. *)
Theorem row_histogram_weight (m : list byte) (m_sz : Z) (cut : spec_float)
    (detail : bool) (wd ht step_sz row : Z) (vid : list Z) :
  0 < wd → 0 < ht → wd * ht < 2 ^ 64 →
  Z.of_nat (length m) = m_sz → m_sz < 2 ^ 63 →
  step_sz = Z.max 1 (m_sz / (wd * ht)) → is_nan cut = false →
  0 ≤ row < ht → (row * wd + wd) * step_sz ≤ m_sz →
  wd * ht ≤ Z.of_nat (length vid) →
  (if detail then wrap64 (step_sz * wd) else wd) < 2 ^ 31 →
  ∃ vid' hist,
    row_pixels m m_sz cut detail wd step_sz (Z.to_nat wd) row 0
      (row * wd * step_sz) vid histo_zero
    = Ret ((row * wd + wd) * step_sz, vid', hist)
    ∧ histogram hist
    ∧ hsum hist = (if detail then wrap64 (step_sz * wd) else wd).
Proof.
  intros Hwd Hht Hwh Hlen Hsz Hstep Hcut Hrow Hfull Hbuf Hw.
  assert (Hs1 : 1 ≤ step_sz) by lia.
  assert (0 ≤ row * wd) by nia.
  assert (Hsw : 0 ≤ step_sz * wd ≤ m_sz) by nia.
  assert (Ew : (if detail then wrap64 (step_sz * wd) else wd)
               = wd * (if detail then step_sz else 1)).
  { destruct detail; [rewrite wrap64_small by lia |]; lia. }
  rewrite Ew in *.
  destruct (row_pixels_counts m m_sz cut detail wd ht step_sz Hwd Hht Hwh Hlen Hsz Hstep
              Hcut counts 0 m_sz (counts_incr m 0 m_sz)
              (Z.to_nat wd) row 0 (row * wd * step_sz) vid histo_zero 0)
    as (vid' & hist & Hpx & Hc);
    [done | lia | lia | done | nia | done | done | lia | apply counts_zero | lia |].
  exists vid', hist. split; [exact Hpx |].
  rewrite Z.sub_0_r, Z.add_0_l in Hc.
  split; [by apply (counts_histogram hist _ Hc) | by destruct Hc as (_ & _ & ->)].
Qed.

Lemma row_histogram_weight_witness :
  ∃ vid' hist,
    row_pixels file_8 8 cutoff_default true 2 2 (Z.to_nat 2) 1 0
      (1 * 2 * 2) (replicate 4 clear_color) histo_zero
    = Ret ((1 * 2 + 2) * 2, vid', hist)
    ∧ histogram hist
    ∧ hsum hist = (if true then wrap64 (2 * 2) else 2).
Proof.
  apply (row_histogram_weight file_8 8 cutoff_default true 2 2 2); simpl; try lia;
    reflexivity.
Defined.

(** * The score of two rows of the same weight *)

(** The [float] after 1. *)
Lemma float_above_one x v :
  is_float 24 128 x v → (1 < v)%R → (1 + pow2 (-23) <= v)%R.
Proof.
  intros (m & e & -> & Hc & ->) H1.
  pose proof (canonical_value 24 128 m e Hc) as [Hl Hh].
  destruct Hc as [Hm _].
  assert (-24 < e) as He.
  { assert (0 < 24 + e); [| lia].
    apply pow2_lt_inv. rewrite pow2_0. lra. }
  pose proof (pow2_le (-23) (-1) ltac:(lia)) as H23.
  assert (pow2 (-1) = 1 / 2)%R as Hh2.
  { pose proof (F2R_half 0 ltac:(lia)) as Hf. unfold F2R in Hf.
    change (- (0 + 1)) with (-1) in Hf. change (2 ^ 0) with 1 in Hf. lra. }
  destruct (decide (e = -23)) as [-> | Hne].
  - unfold F2R in *. pose proof (pow2_pos (-23)).
    assert (IZR (2 ^ 23) * pow2 (-23) = 1)%R as Hone.
    { exact (F2R_one 23 ltac:(lia)). }
    assert (2 ^ 23 < Z.pos m) as Hlt.
    { apply lt_IZR. nra. }
    assert (IZR (2 ^ 23 + 1) <= IZR (Z.pos m))%R as Hb by (apply IZR_le; lia).
    rewrite plus_IZR in Hb. nra.
  - pose proof (pow2_le 1 (24 - 1 + e) ltac:(lia)) as H2.
    assert (pow2 1 = 2)%R as H21 by (unfold pow2; simpl; lra).
    lra.
Qed.

Lemma f32_le_one x v :
  is_float 24 128 x v → (v < 1 + 1 / 8388608)%R → (v <= 1)%R.
Proof.
  intros Hx Hv. destruct (Rle_or_lt v 1) as [? | Hgt]; [done |].
  pose proof (float_above_one x v Hx Hgt) as Hgap.
  rewrite (pow2_Zneg 23) in Hgap. change (2 ^ Z.pos 23) with 8388608 in Hgap. lra.
Qed.

(** The tail of [cmp_histo] for a [bcf] below [rnd = 1]. *)
Lemma score_tail bcf bv :
  is_float 24 128 bcf bv → (bv < 1)%R →
  f32_of_f64
    (SFsub 53 1024 (f64_of_Z 1)
       (f64_of_f32
          (SFsqrt 24 128 (SFsub 24 128 (S754_finite false 8388608 (-23)) bcf))))
  = S754_zero false
  ∨ ∃ v,
      is_float 24 128
        (f32_of_f64
           (SFsub 53 1024 (f64_of_Z 1)
              (f64_of_f32
                 (SFsqrt 24 128
                    (SFsub 24 128 (S754_finite false 8388608 (-23)) bcf))))) v
      ∧ (0 < v <= 1)%R ∧ (v <= bv + 1 / 1000000)%R.
Proof.
  intros Hb Hb1.
  pose proof (is_float_pos _ _ _ _ Hb) as Hb0.
  pose proof (float_below_one _ _ Hb Hb1) as Hgap.
  rewrite (pow2_Zneg 24) in Hgap. change (2 ^ Z.pos 24) with 16777216 in Hgap.
  destruct (SFsub_real 24 128 ltac:(lia) _ _ 1%R bv f32_one_real Hb Hb1)
    as (dv & Hd & Hnd).
  { apply in_range_both. lra. }
  apply near_bounds in Hnd. rewrite u32_value in Hnd.
  assert (dv <= 1)%R as Hd1 by (apply (f32_le_one _ _ Hd); lra).
  destruct (Req_dec dv 1) as [-> | Hdne].
  { left. rewrite <- (is_float_unique 24 128 _ _ 1%R f32_one_real Hd).
    vm_compute. reflexivity. }
  assert (dv < 1)%R as Hdlt by lra.
  pose proof (float_below_one _ _ Hd Hdlt) as Hdgap.
  rewrite (pow2_Zneg 24) in Hdgap. change (2 ^ Z.pos 24) with 16777216 in Hdgap.
  assert (1 / 8192 <= sqrt dv <= 1 - 1 / 33554432)%R as Hsq.
  { apply sqrt_bounds; lra. }
  assert (dv <= sqrt dv)%R as Hsq'.
  { apply (sqrt_bounds dv dv 1); [lra | lra |]. nra. }
  destruct (SFsqrt_real 24 128 ltac:(lia) ltac:(lia) _ dv Hd) as (s & Hs & Hns).
  { apply in_range_both. lra. }
  apply near_bounds in Hns. rewrite u32_value in Hns.
  assert (s <= 1)%R as Hs1 by (apply (f32_le_one _ _ Hs); lra).
  destruct (Req_dec s 1) as [-> | Hsne].
  { left. rewrite <- (is_float_unique 24 128 _ _ 1%R f32_one_real Hs).
    vm_compute. reflexivity. }
  assert (s < 1)%R as Hslt by lra.
  pose proof (float_below_one _ _ Hs Hslt) as Hsgap.
  rewrite (pow2_Zneg 24) in Hsgap. change (2 ^ Z.pos 24) with 16777216 in Hsgap.
  pose proof (f64_of_f32_real _ _ Hs) as Hs64.
  destruct (SFsub_real 53 1024 ltac:(lia) _ _ 1%R s f64_one_real Hs64 Hslt)
    as (w & Hw & Hnw).
  { apply in_range_both. lra. }
  apply near_bounds in Hnw. rewrite u64_value in Hnw.
  destruct (f32_of_f64_real _ w Hw) as (v & Hv & Hnv).
  { apply in_range_both. lra. }
  apply near_bounds in Hnv. rewrite u32_value in Hnv.
  right. exists v. split; [done |]. split; lra.
Qed.

Lemma square_le x y : (0 <= x)%R → (0 <= y)%R → (x * x <= y * y)%R → (x <= y)%R.
Proof.
  intros Hx Hy Hxy. destruct (Rle_or_lt x y) as [? | Hlt]; [done |].
  assert (y * y < x * x)%R; [| lra].
  apply Rmult_le_0_lt_compat; lra.
Qed.

Section Pairs.
Variable T : Z.
Variable roww : spec_float.
Variable Tv : R.
Hypothesis HT : 1 ≤ T < 2 ^ 39.
Hypothesis Hroww : is_float 24 128 roww Tv.
Hypothesis HTv : near 24 Tv (IZR T).

(** [na], [nb] and the term [sqrt(na * nb)] that the loop adds to [bcf]. *)
Lemma pair_terms c c' :
  0 ≤ c < 2 ^ 31 → 0 ≤ c' < 2 ^ 31 →
  ∃ tv,
    is_float 53 1024
      (SFsqrt 53 1024
         (f64_of_f32
            (SFmul 24 128
               (SFdiv 24 128 (SFadd 24 128 (f32_of_Z c) EPSILON) roww)
               (SFdiv 24 128 (SFadd 24 128 (f32_of_Z c') EPSILON) roww)))) tv
    ∧ (17 / 100000000000000000000 <= tv)%R
    ∧ (tv * tv
       <= (1 + 1 / 100000)
          * ((IZR c + EPSILON_R) / IZR T * ((IZR c' + EPSILON_R) / IZR T)))%R.
Proof.
  intros Hc Hc'.
  destruct (bin_terms T roww Tv HT Hroww HTv c Hc) as (nav & _ & Hna & _ & Hwn & _).
  destruct (bin_terms T roww Tv HT Hroww HTv c' Hc') as (nbv & _ & Hnb & _ & Hwn' & _).
  pose proof (quotient_bounds T HT c Hc) as [Hq1 Hq2].
  pose proof (quotient_bounds T HT c' Hc') as [Hq1' Hq2'].
  set (qa := ((IZR c + EPSILON_R) / IZR T)%R) in *.
  set (qb := ((IZR c' + EPSILON_R) / IZR T)%R) in *.
  unfold within in Hwn, Hwn'.
  assert (18 / 100000000000000000000 <= nav <= 2147500000)%R as [Hn1 Hn2] by lra.
  assert (18 / 100000000000000000000 <= nbv <= 2147500000)%R as [Hn1' Hn2'] by lra.
  assert (18 / 100000000000000000000 * (18 / 100000000000000000000) <= nav * nbv)%R
    as Hpl by (apply Rmult_le_compat; lra).
  assert (nav * nbv <= 2147500000 * 2147500000)%R
    as Hph by (apply Rmult_le_compat; lra).
  assert (nav * nbv <= (1 + 7 / 8388608) * qa * ((1 + 7 / 8388608) * qb))%R
    as Hpq by (apply Rmult_le_compat; lra).
  assert (0 <= qa * qb)%R as Hqq by (apply Rmult_le_pos; lra).
  replace ((1 + 7 / 8388608) * qa * ((1 + 7 / 8388608) * qb))%R
    with ((1 + 7 / 8388608) * (1 + 7 / 8388608) * (qa * qb))%R in Hpq by ring.
  set (P := (nav * nbv)%R) in *. set (Q := (qa * qb)%R) in *.
  destruct (SFmul_real 24 128 ltac:(lia) _ _ nav nbv Hna Hnb) as (pv & Hp & Hnp).
  { apply in_range_normal_32. fold P. lra. }
  fold P in Hnp. apply near_bounds in Hnp. rewrite u32_value in Hnp.
  pose proof (f64_of_f32_real _ _ Hp) as Hp64.
  assert (179 / 1000000000000000000000 <= sqrt pv <= 2147600000)%R as Hsq.
  { apply sqrt_bounds; lra. }
  assert (sqrt pv * sqrt pv = pv)%R as Hss by (apply sqrt_sqrt; lra).
  destruct (SFsqrt_real 53 1024 ltac:(lia) ltac:(lia) _ pv Hp64) as (tv & Ht & Hnt).
  { apply in_range_both. lra. }
  apply near_bounds in Hnt. rewrite u64_value in Hnt.
  exists tv. split; [done |]. split; [lra |].
  assert (tv * tv
          <= (1 + 1 / 4503599627370496) * sqrt pv
             * ((1 + 1 / 4503599627370496) * sqrt pv))%R as Htt
    by (apply Rmult_le_compat; lra).
  replace ((1 + 1 / 4503599627370496) * sqrt pv
           * ((1 + 1 / 4503599627370496) * sqrt pv))%R
    with ((1 + 1 / 4503599627370496) * (1 + 1 / 4503599627370496)
          * (sqrt pv * sqrt pv))%R in Htt by ring.
  rewrite Hss in Htt. lra.
Qed.

End Pairs.

(** One more bin on [bcf]. *)
Lemma bcf_step t (i : nat) bcf term tv :
  (1 ≤ i < 256)%nat → (0 < t <= 3)%R →
  bcf_ok t i bcf →
  is_float 53 1024 term tv →
  (17 / 100000000000000000000 <= tv)%R → (tv * (1001 / 1000) <= t)%R →
  bcf_ok t (S i) (f32_of_f64 (SFadd 53 1024 (f64_of_f32 bcf) term)).
Proof.
  intros Hi Ht (bv & Hb & Hb1 & Hb2) Hterm Htv1 Htv2.
  assert (INR i <= 255)%R as Hi255.
  { replace 255%R with (INR 255) by (rewrite INR_IZR_INZ; reflexivity).
    apply le_INR. lia. }
  assert (0 <= INR i)%R as Hi0 by apply pos_INR.
  assert (INR i * t <= 255 * t)%R as HU by (apply Rmult_le_compat_r; lra).
  unfold bcf_ok. rewrite S_INR.
  replace ((INR i + 1) * t)%R with (INR i * t + t)%R by ring.
  set (U := (INR i * t)%R) in *.
  pose proof (f64_of_f32_real _ _ Hb) as Hb64.
  destruct (SFadd_real 53 1024 ltac:(lia) _ _ bv tv Hb64 Hterm) as (w & Hw & Hnw).
  { apply in_range_both. lra. }
  apply near_bounds in Hnw. rewrite u64_value in Hnw.
  destruct (f32_of_f64_real _ w Hw) as (bv' & Hb' & Hnb).
  { apply in_range_both. lra. }
  apply near_bounds in Hnb. rewrite u32_value in Hnb.
  exists bv'. split; [done |]. lra.
Qed.

(** The first bin: [bcf] leaves zero. *)
Lemma bcf_first t term tv :
  (0 < t <= 3)%R →
  is_float 53 1024 term tv →
  (17 / 100000000000000000000 <= tv)%R → (tv * (1001 / 1000) <= t)%R →
  bcf_ok t 1 (f32_of_f64 (SFadd 53 1024 (f64_of_f32 (S754_zero false)) term)).
Proof.
  intros Ht Hterm Htv1 Htv2.
  change (f64_of_f32 (S754_zero false)) with (S754_zero false).
  rewrite (SFadd_zero_l 53 1024 _ tv Hterm).
  destruct (f32_of_f64_real _ tv Hterm) as (bv' & Hb' & Hnb).
  { apply in_range_both. lra. }
  apply near_bounds in Hnb. rewrite u32_value in Hnb.
  exists bv'. split; [done |]. simpl INR. lra.
Qed.

(** [sum_1] does not depend on the second row. *)
Lemma cmp_histo_loop_sum_1 n : ∀ (i : nat) a b b' roww bcf bcf' s1 s2 s2',
  (cmp_histo_loop n i a b roww (bcf, s1, s2)).1.2
  = (cmp_histo_loop n i a b' roww (bcf', s1, s2')).1.2.
Proof.
  induction n as [|n IH]; intros i a b b' roww bcf bcf' s1 s2 s2'; [done |].
  rewrite !cmp_histo_loop_S. apply IH.
Qed.

Section PairLoop.
Variable a b : list Z.
Variable q2 t : R.
Hypothesis Ha : histogram a.
Hypothesis Hb : histogram b.
Hypothesis Hsum : 1 ≤ hsum a.
Hypothesis Ht : (0 < t <= 3)%R.
Hypothesis Hq2 : ((1 + 1 / 100000) * q2 * (1001 / 1000 * (1001 / 1000)) <= t * t)%R.
Hypothesis Hbins : ∀ i : nat, (i < 256)%nat →
  ((IZR (a !!! i) + EPSILON_R) / IZR (hsum a)
   * ((IZR (b !!! i) + EPSILON_R) / IZR (hsum a)) <= q2)%R.

Lemma pair_bin (i : nat) :
  (i < 256)%nat →
  ∃ tv,
    is_float 53 1024
      (SFsqrt 53 1024
         (f64_of_f32
            (SFmul 24 128
               (SFdiv 24 128 (SFadd 24 128 (f32_of_Z (a !!! i)) EPSILON)
                  (f32_of_Z (hsum a)))
               (SFdiv 24 128 (SFadd 24 128 (f32_of_Z (b !!! i)) EPSILON)
                  (f32_of_Z (hsum a)))))) tv
    ∧ (17 / 100000000000000000000 <= tv)%R ∧ (tv * (1001 / 1000) <= t)%R.
Proof.
  intros Hi.
  destruct (roww_real a Ha Hsum) as (Tv & Hroww & HTv).
  pose proof (total_range a Ha Hsum) as HT.
  destruct (pair_terms (hsum a) _ Tv HT Hroww HTv (a !!! i) (b !!! i))
    as (tv & Htv & Hl & Hh).
  { by apply bin_range. }
  { by apply bin_range. }
  exists tv. split; [done |]. split; [done |].
  specialize (Hbins i Hi).
  apply square_le; [lra | lra |]. nra.
Qed.

Lemma cmp_histo_loop_pair n : ∀ (i : nat) bcf sum_1 sum_2,
  (1 ≤ i)%nat → (i + n = 256)%nat → bcf_ok t i bcf →
  ∃ bcf' sum_1' sum_2',
    cmp_histo_loop n i a b (f32_of_Z (hsum a)) (bcf, sum_1, sum_2)
    = (bcf', sum_1', sum_2')
    ∧ bcf_ok t 256 bcf'.
Proof.
  induction n as [|n IH]; intros i bcf sum_1 sum_2 Hi Hn Hacc.
  - replace i with 256%nat in Hacc by lia. simpl. eauto.
  - rewrite cmp_histo_loop_S. apply IH; [lia | lia |].
    destruct (pair_bin i ltac:(lia)) as (tv & Htv & Hl & Hh).
    apply (bcf_step t i bcf _ tv); [lia | done | done | done | done | done].
Qed.

(** [cmp_histo] of two rows of the same weight, down to the last steps. *)
Lemma pair_score :
  ∃ bcf bv,
    is_float 24 128 bcf bv
    ∧ (bv <= 256 * t)%R
    ∧ cmp_histo a b (f32_of_Z (hsum a))
      = f32_of_f64
          (SFsub 53 1024 (f64_of_Z 1)
             (f64_of_f32
                (SFsqrt 24 128
                   (SFsub 24 128 (S754_finite false 8388608 (-23))
                      (if SFltb (S754_finite false 8388608 (-23)) bcf
                       then S754_finite false 8388608 (-23) else bcf))))).
Proof.
  (* the run of [a] against itself gives [sum_1] *)
  destruct (first_bin a Ha Hsum (S754_zero false))
    as (b1 & s1 & t1 & Hfirst & Hacc1).
  destruct (cmp_histo_loop_self a Ha Hsum 255 1 b1 s1 t1 ltac:(lia) ltac:(lia) Hacc1)
    as (bcfs & sum_1 & sum_2s & Hloop & _ & sv & _ & Hs & _ & Hws).
  rewrite <- Hfirst in Hloop.
  pose proof (share_total a Ha Hsum) as [Hq1 Hq3].
  pose proof (step_factors 256 ltac:(lia)) as (Hf1 & Hf2 & _).
  assert (within (1 - 264 / 8388608) (1 + 530 / 8388608) sv (share a 256)) as Hs3.
  { eapply within_weaken; [| | | eassumption]; lra. }
  unfold within in Hs3.
  (* the run against [b] gives [bcf] *)
  destruct (pair_bin 0 ltac:(lia)) as (tv & Htv & Hl & Hh).
  pose proof (bcf_first t _ tv Ht Htv Hl Hh) as Hacc.
  destruct (cmp_histo_loop_pair 255 1 _
              (SFadd 24 128 (S754_zero false)
                 (SFdiv 24 128 (SFadd 24 128 (f32_of_Z (a !!! 0%nat)) EPSILON)
                    (f32_of_Z (hsum a))))
              (SFadd 24 128 (S754_zero false)
                 (SFdiv 24 128 (SFadd 24 128 (f32_of_Z (b !!! 0%nat)) EPSILON)
                    (f32_of_Z (hsum a))))
              ltac:(lia) ltac:(lia) Hacc)
    as (bcf & sum_1' & sum_2 & Hrun & bv & Hbv & _ & Hbh).
  rewrite <- cmp_histo_loop_S in Hrun.
  assert (sum_1' = sum_1) as ->.
  { pose proof (cmp_histo_loop_sum_1 256 0 a b a (f32_of_Z (hsum a))
                  (S754_zero false) (S754_zero false) (S754_zero false)
                  (S754_zero false) (S754_zero false)) as E.
    rewrite Hrun, Hloop in E. exact E. }
  exists bcf, bv. split; [done |].
  split.
  { replace 256%R with (INR 256) by (rewrite INR_IZR_INZ; reflexivity). done. }
  unfold cmp_histo. rewrite Hrun. cbv beta iota zeta.
  rewrite (rnd_one sum_1 sv Hs) by lra. reflexivity.
Qed.

End PairLoop.

(** A bin of a row holds at most the samples of the row. *)
Lemma bin_le_sum (a : list Z) (i : nat) :
  histogram a → (i < 256)%nat → 0 ≤ a !!! i ≤ hsum a.
Proof.
  intros [Hlen Hall] Hi.
  assert (Forall (λ c, 0 ≤ c) a) as Hpos.
  { eapply Forall_impl; [exact Hall |]. simpl. intros c Hc. lia. }
  apply (hsum_elem a i Hpos). lia.
Qed.

Lemma quotient_le_one (c T : Z) :
  0 ≤ c ≤ T → 1 ≤ T →
  (0 <= (IZR c + EPSILON_R) / IZR T <= 1 + 1 / 1000000)%R.
Proof.
  intros Hc HT.
  assert (0 <= IZR c <= IZR T)%R as [Hr0 Hr1] by (split; apply IZR_le; lia).
  assert (1 <= IZR T)%R as Hr2 by (apply IZR_le; lia).
  rewrite EPSILON_R_value. split.
  - apply Rmult_le_pos; [lra |]. apply Rlt_le, Rinv_0_lt_compat. lra.
  - apply (Rmult_le_reg_r (IZR T)); [lra |].
    unfold Rdiv. rewrite Rmult_assoc, Rinv_l by lra. lra.
Qed.

(** The empty bin of a pair. *)
Lemma quotient_empty (T : Z) :
  1 ≤ T → (0 <= (IZR 0 + EPSILON_R) / IZR T <= EPSILON_R)%R.
Proof.
  intros HT. assert (1 <= IZR T)%R as Hr2 by (apply IZR_le; lia).
  rewrite EPSILON_R_value. split.
  - apply Rmult_le_pos; [lra |]. apply Rlt_le, Rinv_0_lt_compat. lra.
  - apply (Rmult_le_reg_r (IZR T)); [lra |].
    unfold Rdiv. rewrite Rmult_assoc, Rinv_l by lra. lra.
Qed.

(** The score when [bcf] has been clamped to [rnd], or equals it. *)
Lemma score_one : unit_score (S754_finite false 8388608 (-23)).
Proof. right. exists 1%R. split; [exact f32_one_real | lra]. Qed.

(** X18.  Two rows of the same weight, as [rebuild_preview] compares them from
    the third row on: the score is zero or a positive [float] up to 1, for
    all histograms of 256 counts between 0 and [INT32_MAX] with the same
    number of samples, at least one, and [roww] that number. *)
Theorem cmp_histo_unit_interval (a b : list Z) :
  histogram a → histogram b → 1 ≤ hsum a → hsum b = hsum a →
  unit_score (cmp_histo a b (f32_of_Z (hsum a))).
Proof.
  intros Ha Hb Hsum Heq.
  destruct (pair_score a b ((1 + 1 / 1000000) * (1 + 1 / 1000000)) (101 / 100) Ha Hb Hsum)
    as (bcf & bv & Hbv & _ & ->).
  { lra. }
  { lra. }
  { intros i Hi.
    pose proof (quotient_le_one _ _ (bin_le_sum a i Ha Hi) Hsum).
    pose proof (bin_le_sum b i Hb Hi) as Hbi. rewrite Heq in Hbi.
    pose proof (quotient_le_one _ _ Hbi Hsum).
    apply Rmult_le_compat; lra. }
  destruct (SFltb (S754_finite false 8388608 (-23)) bcf) eqn:Hlt.
  { rewrite (SFsub_same 24 128 _ 1%R f32_one_real), score_exact. apply score_one. }
  assert (¬ (1 < bv)%R) as Hle.
  { intros Hc. apply (SFltb_real 24 128 _ _ 1%R bv f32_one_real Hbv) in Hc.
    congruence. }
  destruct (Req_dec bv 1) as [-> | Hne].
  { rewrite <- (is_float_unique 24 128 _ _ 1%R f32_one_real Hbv).
    rewrite (SFsub_same 24 128 _ 1%R f32_one_real), score_exact. apply score_one. }
  destruct (score_tail bcf bv Hbv ltac:(lra)) as [-> | (v & Hv & Hv1 & _)].
  - by left.
  - right. by exists v.
Qed.

Lemma cmp_histo_unit_interval_witness :
  unit_score
    (cmp_histo (hist_of [(0%nat, 64)]) (hist_of [(255%nat, 64)])
       (f32_of_Z (hsum (hist_of [(0%nat, 64)])))).
Proof.
  apply (cmp_histo_unit_interval (hist_of [(0%nat, 64)]) (hist_of [(255%nat, 64)])).
  - split; [reflexivity |]. apply (bool_decide_unpack _). vm_compute. exact I.
  - split; [reflexivity |]. apply (bool_decide_unpack _). vm_compute. exact I.
  - vm_compute. discriminate.
  - reflexivity.
Defined.

(** The score of two rows of the same weight that share no byte value is
    below 0.1. *)
Lemma disjoint_score_below (a b : list Z) (cut : spec_float) (cv : R) :
  histogram a → histogram b → 1 ≤ hsum a →
  (∀ i : nat, (i < 256)%nat → b !!! i ≤ hsum a) →
  (∀ i : nat, (i < 256)%nat → a !!! i = 0 ∨ b !!! i = 0) →
  is_float 24 128 cut cv → (1 / 10 <= cv)%R →
  SFltb (cmp_histo a b (f32_of_Z (hsum a))) cut = true.
Proof.
  intros Ha Hb Hsum Hle Hdis Hcut Hcv.
  destruct (pair_score a b (EPSILON_R * (1 + 1 / 1000000)) (32 / 100000) Ha Hb Hsum)
    as (bcf & bv & Hbv & Hbh & ->).
  { lra. }
  { rewrite EPSILON_R_value. lra. }
  { intros i Hi.
    pose proof (quotient_le_one _ _ (bin_le_sum a i Ha Hi) Hsum) as Hqa.
    pose proof (bin_le_sum b i Hb Hi) as [Hb0 _].
    pose proof (quotient_le_one _ _ (conj Hb0 (Hle i Hi)) Hsum) as Hqb.
    pose proof (quotient_empty (hsum a) Hsum) as Hq0.
    assert (0 <= EPSILON_R)%R by (rewrite EPSILON_R_value; lra).
    destruct (Hdis i Hi) as [E | E]; rewrite E.
    - apply Rmult_le_compat; lra.
    - rewrite (Rmult_comm EPSILON_R). apply Rmult_le_compat; lra. }
  assert (SFltb (S754_finite false 8388608 (-23)) bcf = false) as ->.
  { destruct (SFltb _ bcf) eqn:Hlt; [| done].
    apply (SFltb_real 24 128 _ _ 1%R bv f32_one_real Hbv) in Hlt. lra. }
  destruct (score_tail bcf bv Hbv ltac:(lra)) as [-> | (v & Hv & _ & Hvb)].
  - destruct Hcut as (mc & ec & -> & _). reflexivity.
  - apply (SFltb_real 24 128 _ _ v cv Hv Hcut). lra.
Qed.

(** X19.  Two rows of the same weight that share no byte value: the score is
    below 0.1, so below every cutoff from 0.1 on, the default 0.9 among
    them, and the later row is tinted. *)
Theorem cmp_histo_disjoint_marked (a b : list Z) (cut : spec_float) (cv : R) :
  histogram a → histogram b → 1 ≤ hsum a → hsum b = hsum a →
  (∀ i : nat, (i < 256)%nat → a !!! i = 0 ∨ b !!! i = 0) →
  is_float 24 128 cut cv → (1 / 10 <= cv)%R →
  SFltb (cmp_histo a b (f32_of_Z (hsum a))) cut = true.
Proof.
  intros Ha Hb Hsum Heq. apply disjoint_score_below; try done.
  intros i Hi. rewrite <- Heq. by apply bin_le_sum.
Qed.

Lemma cmp_histo_disjoint_marked_witness :
  SFltb
    (cmp_histo (hist_of [(0%nat, 64)]) (hist_of [(255%nat, 64)])
       (f32_of_Z (hsum (hist_of [(0%nat, 64)])))) cutoff_default = true.
Proof.
  apply (cmp_histo_disjoint_marked (hist_of [(0%nat, 64)]) (hist_of [(255%nat, 64)])
           cutoff_default (F2R 15099494 (-24))).
  - split; [reflexivity |]. apply (bool_decide_unpack _). vm_compute. exact I.
  - split; [reflexivity |]. apply (bool_decide_unpack _). vm_compute. exact I.
  - vm_compute. discriminate.
  - reflexivity.
  - intros i Hi. do 256 (destruct i as [|i]; [vm_compute; tauto |]). lia.
  - replace cutoff_default with (S754_finite false 15099494 (-24))
      by (vm_compute; reflexivity).
    apply is_float_intro. unfold canonical, emin. simpl. lia.
  - unfold F2R. rewrite (pow2_Zneg 24). change (2 ^ Z.pos 24) with 16777216. lra.
Defined.

(** ** The order of the two rows *)

Lemma SFmul_comm prec emax x y : SFmul prec emax x y = SFmul prec emax y x.
Proof.
  destruct x as [sx | sx | | sx mx ex], y as [sy | sy | | sy my ey]; simpl;
    rewrite ?(xorb_comm sx sy); try reflexivity.
  by rewrite (Pos.mul_comm mx my), (Z.add_comm ex ey).
Qed.

(** [bcf] is the same for the two orders. *)
Lemma cmp_histo_loop_bcf n : ∀ (i : nat) a b roww bcf s1 s2 s1' s2',
  (cmp_histo_loop n i a b roww (bcf, s1, s2)).1.1
  = (cmp_histo_loop n i b a roww (bcf, s1', s2')).1.1.
Proof.
  induction n as [|n IH]; intros i a b roww bcf s1 s2 s1' s2'; [done |].
  rewrite !cmp_histo_loop_S.
  rewrite (SFmul_comm 24 128
             (SFdiv 24 128 (SFadd 24 128 (f32_of_Z (b !!! i)) EPSILON) roww)).
  apply IH.
Qed.

(** [rnd], the rounded [sum_1], is 1 whatever the second row is. *)
Lemma sum_1_rounds (a b : list Z) bcf sum_1 sum_2 :
  histogram a → 1 ≤ hsum a →
  cmp_histo_loop 256 0 a b (f32_of_Z (hsum a))
    (S754_zero false, S754_zero false, S754_zero false) = (bcf, sum_1, sum_2) →
  f32_of_f64 (f64_floor (SFadd 53 1024 (f64_of_f32 sum_1) f64_half))
  = S754_finite false 8388608 (-23).
Proof.
  intros Ha Hsum Hrun.
  destruct (first_bin a Ha Hsum (S754_zero false))
    as (b1 & s1 & t1 & Hfirst & Hacc1).
  destruct (cmp_histo_loop_self a Ha Hsum 255 1 b1 s1 t1 ltac:(lia) ltac:(lia) Hacc1)
    as (bcfs & sum_1s & sum_2s & Hloop & _ & sv & _ & Hs & _ & Hws).
  rewrite <- Hfirst in Hloop.
  pose proof (share_total a Ha Hsum) as [Hq1 Hq3].
  pose proof (step_factors 256 ltac:(lia)) as (Hf1 & Hf2 & _).
  assert (within (1 - 264 / 8388608) (1 + 530 / 8388608) sv (share a 256)) as Hs3.
  { eapply within_weaken; [| | | eassumption]; lra. }
  unfold within in Hs3.
  assert (sum_1 = sum_1s) as ->.
  { pose proof (cmp_histo_loop_sum_1 256 0 a b a (f32_of_Z (hsum a))
                  (S754_zero false) (S754_zero false) (S754_zero false)
                  (S754_zero false) (S754_zero false)) as E.
    rewrite Hrun, Hloop in E. exact E. }
  apply (rnd_one sum_1s sv Hs). lra.
Qed.

(** X20.  The score of two rows of the same weight does not depend on which of
    them is the later one. *)
Theorem cmp_histo_symmetric (a b : list Z) :
  histogram a → histogram b → 1 ≤ hsum a → hsum b = hsum a →
  cmp_histo a b (f32_of_Z (hsum a)) = cmp_histo b a (f32_of_Z (hsum a)).
Proof.
  intros Ha Hb Hsum Heq.
  destruct (cmp_histo_loop 256 0 a b (f32_of_Z (hsum a))
              (S754_zero false, S754_zero false, S754_zero false))
    as [[bcf sum_1] sum_2] eqn:Hab.
  destruct (cmp_histo_loop 256 0 b a (f32_of_Z (hsum a))
              (S754_zero false, S754_zero false, S754_zero false))
    as [[bcf' sum_1'] sum_2'] eqn:Hba.
  assert (bcf' = bcf) as ->.
  { pose proof (cmp_histo_loop_bcf 256 0 a b (f32_of_Z (hsum a)) (S754_zero false)
                  (S754_zero false) (S754_zero false) (S754_zero false)
                  (S754_zero false)) as E.
    rewrite Hab, Hba in E. by symmetry. }
  unfold cmp_histo. rewrite Hab, Hba. cbv beta iota zeta.
  rewrite (sum_1_rounds a b bcf sum_1 sum_2 Ha Hsum Hab).
  rewrite <- Heq in Hba.
  rewrite (sum_1_rounds b a bcf sum_1' sum_2' Hb ltac:(lia) Hba).
  reflexivity.
Qed.

Lemma cmp_histo_symmetric_witness :
  cmp_histo (hist_of [(0%nat, 64)]) (hist_of [(255%nat, 64)])
    (f32_of_Z (hsum (hist_of [(0%nat, 64)])))
  = cmp_histo (hist_of [(255%nat, 64)]) (hist_of [(0%nat, 64)])
      (f32_of_Z (hsum (hist_of [(0%nat, 64)]))).
Proof.
  apply (cmp_histo_symmetric (hist_of [(0%nat, 64)]) (hist_of [(255%nat, 64)])).
  - split; [reflexivity |]. apply (bool_decide_unpack _). vm_compute. exact I.
  - split; [reflexivity |]. apply (bool_decide_unpack _). vm_compute. exact I.
  - vm_compute. discriminate.
  - reflexivity.
Defined.

(** ** Files made of rows of one byte *)

(** The score of a row against a row with the same histogram. *)
Lemma self_score (a : list Z) :
  histogram a → 1 ≤ hsum a →
  ∃ v, is_float 24 128 (cmp_histo a a (f32_of_Z (hsum a))) v
       ∧ (99 / 100 <= v <= 1)%R.
Proof.
  intros Ha Hsum.
  destruct (first_bin a Ha Hsum (S754_zero false))
    as (b1 & s1 & t1 & Hfirst & Hacc1).
  destruct (cmp_histo_loop_self a Ha Hsum 255 1 b1 s1 t1 ltac:(lia) ltac:(lia) Hacc1)
    as (bcf & sum_1 & sum_2 & Hloop & bv & sv & Hb & Hs & Hwb & Hws).
  unfold cmp_histo. rewrite Hfirst, Hloop. cbv beta iota zeta.
  pose proof (share_total a Ha Hsum) as [Hq1 Hq2].
  pose proof (step_factors 256 ltac:(lia)) as (Hf1 & Hf2 & _).
  assert (within (1 - 264 / 8388608) (1 + 530 / 8388608) bv (share a 256)
          ∧ within (1 - 264 / 8388608) (1 + 530 / 8388608) sv (share a 256))
    as [Hb3 Hs3].
  { split; (eapply within_weaken; [| | | eassumption]; lra). }
  unfold within in Hb3, Hs3.
  rewrite (rnd_one sum_1 sv Hs) by lra.
  destruct (SFltb (S754_finite false 8388608 (-23)) bcf) eqn:Hlt.
  - exists 1%R. rewrite (SFsub_same 24 128 _ 1%R f32_one_real), score_exact.
    split; [exact f32_one_real | lra].
  - assert (¬ (1 < bv)%R) as Hle.
    { intros Hc. apply (SFltb_real 24 128 _ _ 1%R bv f32_one_real Hb) in Hc.
      congruence. }
    destruct (Req_dec bv 1) as [-> | Hne].
    + rewrite <- (is_float_unique 24 128 _ _ 1%R f32_one_real Hb).
      exists 1%R. rewrite (SFsub_same 24 128 _ 1%R f32_one_real), score_exact.
      split; [exact f32_one_real | lra].
    + apply (score_near bcf bv Hb). lra.
Qed.

(** Such a score is not below a cutoff of at most 0.99. *)
Lemma self_score_passes (a : list Z) cut cv :
  histogram a → 1 ≤ hsum a →
  is_float 24 128 cut cv → (cv <= 99 / 100)%R →
  SFltb (cmp_histo a a (f32_of_Z (hsum a))) cut = false.
Proof.
  intros Ha Hsum Hcut Hcv.
  destruct (self_score a Ha Hsum) as (v & Hv & Hb).
  destruct (SFltb _ cut) eqn:E; [| done].
  apply (SFltb_real 24 128 _ _ v cv Hv Hcut) in E. lra.
Qed.

Lemma alter_insert {A} (f : A → A) (l : list A) : ∀ (i : nat) (x : A),
  alter f i (<[i := x]> l) = <[i := f x]> l.
Proof.
  induction l as [|y l IH]; intros [|i] x; simpl; try done.
  f_equal. apply IH.
Qed.

Lemma uniform_hist_zero g : 0 ≤ g < 256 → uniform_hist g 0 = histo_zero.
Proof.
  intros Hg. unfold uniform_hist. apply list_insert_id.
  apply lookup_replicate. split; [done | lia].
Qed.

Lemma uniform_hist_incr g k :
  0 ≤ k → k + 1 < 2 ^ 31 →
  histo_incr g (uniform_hist g k) = uniform_hist g (k + 1).
Proof.
  intros Hk Hk'. unfold histo_incr, uniform_hist. rewrite alter_insert.
  f_equal. unfold sint32. rewrite Z.mod_small by lia. lia.
Qed.

Lemma map_read_replicate (n : nat) (b : byte) pos v :
  map_read (replicate n b) pos = Ret v → v = Z.of_N (Byte.to_N b).
Proof.
  unfold map_read. destruct (replicate n b !! Z.to_nat pos) as [b' |] eqn:E; [| done].
  apply lookup_replicate in E as [-> _]. by intros [= <-].
Qed.

Lemma uniform_hist_lookup g k (i : nat) :
  0 ≤ g < 256 → (i < 256)%nat →
  uniform_hist g k !!! i = if decide (i = Z.to_nat g) then k else 0.
Proof.
  intros Hg Hi. unfold uniform_hist, histo_zero.
  rewrite list_lookup_total_insert, length_replicate.
  destruct (decide (i = Z.to_nat g)) as [-> | Hne].
  - rewrite decide_True by (split; [done | lia]). done.
  - rewrite decide_False by (intros [? _]; done).
    apply lookup_total_replicate_2. lia.
Qed.

Lemma uniform_hist_disjoint g g' k (i : nat) :
  0 ≤ g < 256 → 0 ≤ g' < 256 → g ≠ g' → (i < 256)%nat →
  uniform_hist g k !!! i = 0 ∨ uniform_hist g' k !!! i = 0.
Proof.
  intros Hg Hg' Hne Hi. rewrite !uniform_hist_lookup by done.
  destruct (decide (i = Z.to_nat g)) as [-> | ?]; [| by left].
  right. destruct (decide (Z.to_nat g = Z.to_nat g')); [lia | done].
Qed.

(** The row of an offset, and of a pixel. *)
Lemma row_of_offset bpl row pos :
  0 < bpl → row * bpl ≤ pos < (row + 1) * bpl → pos / bpl = row.
Proof.
  intros Hb Hp. symmetry. apply (Z.div_unique pos bpl row (pos - bpl * row)); lia.
Qed.

(** What the overlay makes of a pixel that only has green and alpha. *)
Lemma update_case_sample map_sz c wnd o k c' wnd' (i : nat) px :
  update_case map_sz c wnd o k c' wnd' →
  vidp c !! i = Some px → Z.land mask px = px ∨ last_pos_sz wnd = 0 →
  vidp c' !! i = Some px ∨ vidp c' !! i = Some (Z.lor olay px).
Proof.
  intros Hcase Hpx Hm.
  assert (Hun : unpainted c wnd !! i = Some px).
  { unfold unpainted. destruct (Z.eqb_spec (last_pos_sz wnd) 0) as [? | Hnz]; [done |].
    destruct Hm as [Hm | ?]; [| done].
    rewrite paint_lookup, Hpx. case_bool_decide; [| done]. simpl. by rewrite Hm. }
  destruct Hcase as [Hsame | _ _ | _ _ _ _ wnd'']; simpl; [by left | by left |].
  rewrite paint_lookup, Hun. case_bool_decide; [by right | by left].
Qed.

Lemma all_rows_fit m_sz wd ht step_sz :
  0 < wd → 0 < ht → step_sz = Z.max 1 (m_sz / (wd * ht)) → wd * ht ≤ m_sz →
  step_sz * (wd * ht) ≤ m_sz.
Proof.
  intros Hwd Hht -> Hbig. assert (0 < wd * ht) by nia.
  assert (m_sz / (wd * ht) * (wd * ht) ≤ m_sz)
    by (rewrite Z.mul_comm; apply Z.mul_div_le; lia).
  destruct (Z.max_spec 1 (m_sz / (wd * ht))) as [[_ ->] | [_ ->]]; lia.
Qed.

Section UniformFile.
Variable pump : Z → bool.
Variable timemillis : nat → Z.
Variable rowbyte : Z → Z.
Variable m : list byte.
Variable m_sz : Z.
Variable cut : spec_float.
Variable cv : R.
Variable detail : bool.
Variable wd ht : Z.
Variable step_sz : Z.
Variable weight : Z.

Hypothesis Hwd : 0 < wd.
Hypothesis Hht : 0 < ht.
Hypothesis Hwh : wd * ht < 2 ^ 64.
Hypothesis Hlen : Z.of_nat (length m) = m_sz.
Hypothesis Hsz : m_sz < 2 ^ 63.
Hypothesis Hstep : step_sz = Z.max 1 (m_sz / (wd * ht)).
Hypothesis Hweq : weight = if detail then wrap64 (step_sz * wd) else wd.
Hypothesis Hg : ∀ r, 0 ≤ rowbyte r < 256.
Hypothesis Hm : ∀ pos v,
  0 ≤ pos → map_read m pos = Ret v → v = rowbyte (pos / (step_sz * wd)).
Hypothesis Hcut : is_float 24 128 cut cv.
Hypothesis Hcv : (cv <= 99 / 100)%R.
Hypothesis Hcv' : (∀ r, rowbyte r = rowbyte (r - 1)) ∨ (1 / 10 <= cv)%R.
Hypothesis Hw2 : 2 ≤ wd.
Hypothesis Hbig : wd * ht ≤ m_sz.
Hypothesis Hweight : weight < 2 ^ 31.

Lemma cut_not_nan : is_nan cut = false.
Proof. destruct Hcut as (mc & ec & -> & _). reflexivity. Qed.

Lemma weight_eq : weight = wd * (if detail then step_sz else 1).
Proof.
  pose proof (all_rows_fit m_sz wd ht step_sz Hwd Hht Hstep Hbig). rewrite Hweq.
  destruct detail; [| lia].
  assert (1 ≤ step_sz) by lia.
  assert (step_sz * wd ≤ step_sz * (wd * ht)) by nia.
  rewrite wrap64_small by nia. lia.
Qed.

(** The byte at an offset of the row [row]. *)
Lemma row_read row pos v :
  0 ≤ row → row * wd * step_sz ≤ pos < (row * wd + wd) * step_sz →
  map_read m pos = Ret v → v = rowbyte row.
Proof.
  intros Hrow Hpos Hrd.
  assert (Hs1 : 1 ≤ step_sz) by lia.
  assert (0 ≤ row * wd) by nia. assert (0 ≤ row * wd * step_sz) by nia.
  rewrite (Hm pos v ltac:(lia) Hrd). f_equal.
  apply row_of_offset; nia.
Qed.

(** The histogram of a row. *)
Lemma uniform_row row vid :
  0 ≤ row < ht → wd * ht ≤ Z.of_nat (length vid) →
  ∃ vid',
    row_pixels m m_sz cut detail wd step_sz (Z.to_nat wd) row 0
      (row * wd * step_sz) vid histo_zero
    = Ret ((row * wd + wd) * step_sz, vid', uniform_hist (rowbyte row) weight)
    ∧ histogram (uniform_hist (rowbyte row) weight)
    ∧ hsum (uniform_hist (rowbyte row) weight) = weight.
Proof.
  intros Hrow Hbuf.
  pose proof (all_rows_fit m_sz wd ht step_sz Hwd Hht Hstep Hbig) as Hfit.
  pose proof weight_eq as Ew.
  assert (Hs1 : 1 ≤ step_sz) by lia.
  assert (0 ≤ row * wd) by nia.
  assert (Hfull : (row * wd + wd) * step_sz ≤ m_sz) by nia.
  destruct (row_pixels_counts m m_sz cut detail wd ht step_sz Hwd Hht Hwh Hlen Hsz Hstep
              cut_not_nan (λ dr k, counts dr k ∧ dr = uniform_hist (rowbyte row) k)
              (row * wd * step_sz) ((row * wd + wd) * step_sz)) with
    (fuel := Z.to_nat wd) (row := row) (i := 0) (pos := row * wd * step_sz)
    (vid := vid) (dr := histo_zero) (k := 0)
    as (vid' & hist & Hpx & Hc & Hu).
  - intros dr k pos v [Hc ->] Hpos Hrd Hk.
    pose proof (row_read row pos v ltac:(lia) Hpos Hrd) as ->.
    assert (0 ≤ k).
    { destruct Hc as (_ & Hall & <-). by apply hsum_nonneg. }
    split; [apply histo_incr_counts; [done | apply Hg | done] |].
    by apply uniform_hist_incr.
  - done.
  - lia.
  - lia.
  - done.
  - lia.
  - lia.
  - done.
  - lia.
  - split; [apply counts_zero | by rewrite uniform_hist_zero].
  - lia.
  - rewrite Z.sub_0_r, Z.add_0_l, <- Ew in Hc, Hu. subst hist.
    exists vid'. split; [exact Hpx |].
    split; [by apply (counts_histogram _ _ Hc) | by destruct Hc as (_ & _ & ?)].
Qed.

(** What [row_body] leaves in the state. *)
Lemma uniform_body st st1 :
  0 ≤ rb_row st < ht → rb_pos st = rb_row st * wd * step_sz →
  wd * ht ≤ Z.of_nat (length (rb_vid st)) →
  uniform_inv rowbyte weight wd st →
  row_body m m_sz cut detail wd step_sz st = Ret st1 →
  rb_dr st1 = histo_zero
  ∧ (1 ≤ rb_row st → rb_cr st1 = uniform_hist (rowbyte (rb_row st)) weight)
  ∧ (2 ≤ rb_row st →
     ∀ j : nat, rb_row st * wd ≤ Z.of_nat j < (rb_row st + 1) * wd →
                rb_vid st1 !! j = Some (row_pixel rowbyte (rb_row st))).
Proof.
  intros Hrow Hpos Hbuf (Hdr & Hcr & _) Hbody.
  pose proof (all_rows_fit m_sz wd ht step_sz Hwd Hht Hstep Hbig) as Hfit.
  assert (Hs1 : 1 ≤ step_sz) by lia.
  assert (0 ≤ rb_row st * wd) by nia.
  assert (Hfull : (rb_row st * wd + wd) * step_sz ≤ m_sz) by nia.
  unfold row_body in Hbody.
  apply bind_inv in Hbody as ([[pos' vid'] dr'] & Hpx & Hbody).
  rewrite cut_not_nan in Hbody. cbv zeta in Hbody.
  apply bind_inv in Hbody as (vid1 & Hv1 & Hbody).
  injection Hbody as <-. cbn [rb_dr rb_cr rb_vid].
  split; [done |].
  assert (Hone : 1 ≤ rb_row st →
                 dr' = uniform_hist (rowbyte (rb_row st)) weight
                 ∧ pos' = (rb_row st * wd + wd) * step_sz).
  { intros H1. destruct (uniform_row (rb_row st) (rb_vid st) Hrow Hbuf)
      as (vid2 & Hpx2 & _).
    rewrite (Hdr H1), Hpos, Hpx2 in Hpx. by injection Hpx as <- <- <-. }
  split; [intros H1; by apply Hone |].
  intros H2 j Hj.
  destruct (Hone ltac:(lia)) as [-> ->].
  destruct (uniform_row (rb_row st) (rb_vid st) Hrow Hbuf) as (_ & _ & Hhist & Hsum).
  destruct (uniform_row (rb_row st - 1) (rb_vid st) ltac:(lia) Hbuf)
    as (_ & _ & Hhist' & Hsum').
  rewrite (Hcr H2) in Hv1.
  assert (H1w : 1 ≤ weight) by (rewrite weight_eq; destruct detail; nia).
  rewrite <- Hweq in Hv1.
  replace (f32_of_Z weight)
    with (f32_of_Z (hsum (uniform_hist (rowbyte (rb_row st)) weight))) in Hv1
    by (by rewrite Hsum).
  assert (Hp0 : rb_pos st = (rb_row st * wd + 0) * step_sz) by lia.
  assert (Hple : rb_pos st ≤ m_sz) by nia.
  assert (Hj2 : Z.of_nat j * step_sz < (rb_row st * wd + wd) * step_sz) by nia.
  destruct (row_pixels_content m m_sz cut detail wd ht step_sz Hwd Hht Hwh Hlen Hsz Hstep
              (Z.to_nat wd) (rb_row st) 0 (rb_pos st) (rb_vid st) (rb_dr st)
              _ _ _ Hrow ltac:(lia) Hp0 Hple Hbuf ltac:(lia) Hpx j
              ltac:(lia) Hj2) as (v & Hv & Hlook).
  assert (v = rowbyte (rb_row st)) as ->.
  { apply (row_read (rb_row st) (Z.of_nat j * step_sz)); [lia | nia | done]. }
  apply row_pixels_length in Hpx.
  unfold row_pixel.
  destruct (Z.eqb_spec (rowbyte (rb_row st)) (rowbyte (rb_row st - 1))) as [Esame | Ediff].
  - rewrite <- Esame in Hv1.
    rewrite (self_score_passes _ cut cv Hhist) in Hv1; [| lia | done | done].
    by injection Hv1 as <-.
  - assert (Hlow : (1 / 10 <= cv)%R).
    { destruct Hcv' as [Hall | ?]; [| done]. by specialize (Hall (rb_row st)). }
    rewrite (disjoint_score_below _ _ cut cv Hhist Hhist') in Hv1;
      [| lia | | | done | done].
    2:{ intros i Hi. pose proof (bin_le_sum _ i Hhist' Hi) as Hle.
        rewrite Hsum' in Hle. rewrite Hsum. lia. }
    2:{ intros i Hi. by apply uniform_hist_disjoint. }
    assert ((rb_row st + 1) * wd ≤ wd * ht) by nia.
    rewrite (wrap64_small (rb_row st * wd)) in Hv1 by lia.
    rewrite span_store_paint in Hv1; [| lia | lia | lia | lia | lia].
    injection Hv1 as <-.
    rewrite paint_lookup, Hlook. rewrite bool_decide_eq_true_2 by lia. reflexivity.
Qed.

(** One turn of the loop. *)
Lemma uniform_turn st :
  quiet_inv timemillis m m_sz wd ht step_sz st →
  uniform_inv rowbyte weight wd st →
  rb_row st < ht → quiet timemillis (rb_clock st) →
  ∃ st1 st2,
    row_body m m_sz cut detail wd step_sz st = Ret st1
    ∧ edge_step timemillis wd ht st1 = Ret st2
    ∧ quiet_inv timemillis m m_sz wd ht step_sz st2
    ∧ uniform_inv rowbyte weight wd st2
    ∧ rb_row st2 = rb_row st + 1
    ∧ rb_dirty st2 = true ∧ rb_signals st2 = rb_signals st
    ∧ length (rb_vid st2) = length (rb_vid st).
Proof.
  intros Hinv Huni Hlt Hq.
  destruct (big_file_row timemillis m m_sz wd ht step_sz Hwd Hht Hwh Hlen Hsz Hstep
              st Hw2 Hbig Hinv Hlt) as [Hpos Hcond].
  pose proof Hinv as (Hrow & _ & Hple & _ & Hbuf & Hlast & _).
  destruct (quiet_turn timemillis m m_sz cut detail wd ht step_sz Hwd Hht Hwh Hlen Hsz
              Hstep st Hinv Hlt Hcond Hq)
    as (i' & st1 & st2 & Hbody & Hedge & Hinv2 & Hrow2 & _ & _ & _ & Hd2 & Hsig2 & Hl2
        & Hvid2 & Hrow1 & Hclock1 & Hlast1 & _).
  destruct (row_body_spec m m_sz cut detail wd ht step_sz Hwd Hht Hwh Hlen Hsz Hstep st)
    as (_ & st1' & Hbody' & _ & _ & _ & _ & _ & _ & Hframe & _);
    [lia | exact Hpos | lia | lia |].
  rewrite Hbody in Hbody'. injection Hbody' as <-.
  destruct (uniform_body st st1 ltac:(lia) Hpos Hbuf Huni Hbody) as (Hdr1 & Hcr1 & Hpix1).
  assert (Hkeep : rb_dr st2 = rb_dr st1 ∧ rb_cr st2 = rb_cr st1).
  { unfold edge_step in Hedge. rewrite Hclock1, Hlast1, Hlast in Hedge.
    unfold quiet in Hq.
    destruct (Z.ltb_spec 14 (wrap64 (timemillis (rb_clock st) - wrap64 (timemillis 0%nat))))
      as [? | _]; [lia |].
    by injection Hedge as <-. }
  destruct Hkeep as [Hdr2 Hcr2].
  exists st1, st2. split_and!; try done.
  destruct Huni as (_ & _ & Hold).
  unfold uniform_inv. rewrite Hrow2, Hdr2, Hcr2, Hvid2.
  split_and!.
  - done.
  - intros ?. replace (rb_row st + 1 - 1) with (rb_row st) by lia. apply Hcr1. lia.
  - intros j Hj.
    destruct (decide (Z.of_nat j < rb_row st * wd)) as [Hlo | Hhi].
    + rewrite Hframe by lia. apply Hold. lia.
    + assert (2 ≤ rb_row st) by nia.
      rewrite (row_of_offset wd (rb_row st)) by lia.
      apply Hpix1; [done | lia].
Qed.

(** The whole loop. *)
Lemma rebuild_rows_uniform fuel : ∀ st,
  quiet_inv timemillis m m_sz wd ht step_sz st →
  uniform_inv rowbyte weight wd st →
  (Z.to_nat (ht - rb_row st) ≤ fuel)%nat →
  (∀ r, 0 ≤ r < ht → pump r = true) → (∀ k, quiet timemillis k) →
  ∃ st',
    rebuild_rows pump timemillis m m_sz cut detail wd ht step_sz fuel st
    = Ret (true, st')
    ∧ uniform_inv rowbyte weight wd st'
    ∧ rb_row st' = ht
    ∧ rb_signals st' = rb_signals st
    ∧ length (rb_vid st') = length (rb_vid st)
    ∧ (rb_dirty st' = true ∨ st' = st).
Proof.
  pose proof (step_bounds m m_sz wd ht step_sz Hwd Hht Hlen Hsz Hstep) as [Hs1 Hs2].
  induction fuel as [|fuel IH]; intros st Hinv Huni Hfuel Hpump Hquiet.
  { exists st. simpl. pose proof Hinv as (Hrow & _).
    split_and!; [done | done | lia | done | done | by right]. }
  pose proof Hinv as (Hrow & _).
  destruct (Z.eq_dec (rb_row st) ht) as [Hend | Hne].
  { exists st. simpl. destruct (Z.ltb_spec (rb_row st) ht) as [? | _]; [lia |].
    rewrite andb_false_r. split_and!; [done | done | done | done | done | by right]. }
  destruct (big_file_row timemillis m m_sz wd ht step_sz Hwd Hht Hwh Hlen Hsz Hstep
              st Hw2 Hbig Hinv ltac:(lia)) as [Hpos Hcond].
  assert (0 ≤ rb_pos st) by (assert (0 ≤ rb_row st * wd) by nia; nia).
  simpl. rewrite (wrap64_small (rb_pos st + step_sz)) by lia.
  destruct (Z.ltb_spec (rb_pos st + step_sz) m_sz) as [_ | ?]; [| lia].
  destruct (Z.ltb_spec (rb_row st) ht) as [_ | ?]; [| lia]. simpl.
  destruct (uniform_turn st Hinv Huni ltac:(lia) (Hquiet _))
    as (st1 & st2 & -> & Hedge & Hinv2 & Huni2 & Hrow2 & Hd2 & Hsig2 & Hl2).
  rewrite bind_Ret. rewrite (Hpump (rb_row st)) by lia. simpl.
  rewrite Hedge, bind_Ret.
  destruct (IH st2 Hinv2 Huni2 ltac:(lia) Hpump Hquiet)
    as (st' & -> & Huni' & Hrow' & Hsig' & Hl' & Hd').
  exists st'. split_and!; try done; try congruence.
  left. destruct Hd' as [? | ->]; done.
Qed.

End UniformFile.

(** The preview of a file made of rows of one byte, under the highlight. *)
Lemma preview_rows_of_bytes pump timemillis ch_size dr0 cr0 fs (rowbyte : Z → Z)
    (m : list byte) (cut : spec_float) (cv : R) (detail : bool) :
  let c := cont fs in
  let m_sz := Z.of_nat (length m) in
  0 < h c → w c ≤ pitch c → buffer_ok c → m_sz < 2 ^ 63 →
  2 ≤ w c → w c * h c ≤ m_sz → map_sz fs = m_sz → count_ok (windows_0 fs) →
  overlay_reach fs →
  (∀ r, 0 ≤ rowbyte r < 256) →
  (∀ pos v, 0 ≤ pos → map_read m pos = Ret v →
            v = rowbyte (pos / (sample_step m_sz c * w c))) →
  is_float 24 128 cut cv → (cv <= 99 / 100)%R →
  (∀ r, rowbyte r = rowbyte (r - 1)) ∨ (1 / 10 <= cv)%R →
  (if detail then sample_step m_sz c * w c else w c) < 2 ^ 31 →
  (∀ r, 0 ≤ r < h c → pump r = true) → (∀ k, quiet timemillis k) →
  ∃ fs',
    rebuild_preview pump timemillis ch_size dr0 cr0 fs m m_sz cut detail
    = Ret (true, fs', 1%nat)
    ∧ ∀ j : nat, 2 * w c ≤ Z.of_nat j < w c * h c →
        Z.land mask (row_pixel rowbyte (Z.of_nat j / w c))
        = row_pixel rowbyte (Z.of_nat j / w c)
        ∨ last_pos_sz (windows_0 fs) = 0 →
        vidp (cont fs') !! j = Some (row_pixel rowbyte (Z.of_nat j / w c))
        ∨ vidp (cont fs') !! j
          = Some (Z.lor olay (row_pixel rowbyte (Z.of_nat j / w c))).
Proof.
  intros c m_sz Hh Hpitch Hbuf Hsz Hw2 Hbig Hmap Hcnt Hreach Hg Hm Hcut Hcv Hcv' Hweight
    Hpump Hquiet.
  assert (Hw : 0 < w c) by lia.
  assert (Hwh : w c * h c < 2 ^ 64) by lia.
  pose proof (rebuild_preview_start pump timemillis ch_size dr0 cr0 fs m cut detail
                Hw Hh Hwh Hpitch Hbuf) as Hstart.
  cbv zeta in Hstart. fold m_sz c in Hstart. rewrite Hstart. clear Hstart.
  pose proof (raster_in_buffer fs m Hh Hpitch Hbuf) as Hrb. fold c in Hrb.
  set (vid0 := paint (λ _, clear_color) 0 (w c * h c) (vidp c)).
  assert (Hl0 : length vid0 = length (vidp c)) by apply length_paint.
  pose proof (rebuild_start_quiet timemillis dr0 cr0 fs m Hh vid0) as Hinv0.
  fold m_sz c in Hinv0. specialize (Hinv0 ltac:(lia)).
  assert (Hstepw : sample_step m_sz c * w c < 2 ^ 64).
  { pose proof (all_rows_fit m_sz (w c) (h c) (sample_step m_sz c) Hw Hh eq_refl Hbig).
    assert (sample_step m_sz c * w c ≤ sample_step m_sz c * (w c * h c)).
    { pose proof (step_pos m_sz c). nia. }
    lia. }
  assert (Hweight' : (if detail then wrap64 (sample_step m_sz c * w c) else w c) < 2 ^ 31).
  { pose proof (step_pos m_sz c).
    destruct detail; [rewrite wrap64_small by nia |]; done. }
  assert (Huni0 : uniform_inv rowbyte
                    (if detail then wrap64 (sample_step m_sz c * w c) else w c) (w c)
                    (rebuild_start timemillis dr0 cr0 vid0)).
  { unfold uniform_inv, rebuild_start. simpl. split_and!; try lia. }
  destruct (rebuild_rows_uniform pump timemillis rowbyte m m_sz cut cv
              detail (w c) (h c) (sample_step m_sz c) _ Hw Hh Hwh eq_refl Hsz eq_refl
              eq_refl Hg Hm Hcut Hcv Hcv' Hw2 Hbig Hweight'
              (Z.to_nat (h c)) _ Hinv0 Huni0 ltac:(simpl; lia) Hpump Hquiet)
    as (st & -> & Huni & Hrowh & Hsig & Hl & Hd).
  rewrite bind_Ret. cbv beta iota zeta. simpl negb. cbv iota.
  assert (Hdirty : rb_dirty st = true).
  { destruct Hd as [? | ->]; [done |]. simpl in Hrowh. lia. }
  rewrite Hdirty.
  destruct (closing_update_returns ch_size fs (rb_vid st) Hw Hh Hbuf)
    as (Hb1 & Hc1 & c2 & wnd2 & Hret);
    [by rewrite Hl | fold c; lia | lia | done | done |]. fold c in Hb1, Hret.
  rewrite Hret, bind_Ret. cbv beta iota zeta.
  rewrite Hsig. eexists. split; [reflexivity |].
  intros j Hj Hmask. simpl.
  destruct (update_region_cases _ _ _ _ _ _ _ Hb1 Hc1 Hret) as [_ Hcase].
  apply (update_case_sample _ _ _ _ _ _ _ j _ Hcase); [| exact Hmask].
  simpl. destruct Huni as (_ & _ & Hpix). apply Hpix. rewrite Hrowh. lia.
Qed.

(** X21.  On a file that repeats one byte and fills a raster at least two pixels
    wide, with a cutoff of at most 0.99, a pump that lets the rebuild run and
    a clock that stays within 14 ms: no row from the third on is tinted.
    Every pixel from the third row on is the sample itself, or the sample
    under the highlight of the window.  What the first two rows get depends
    on what [dr] and [cr] held at the start.  The overlay update that ends
    the rebuild stores through the two pixel pointers of the window, neither
    of which lies below the buffer. *)
Theorem rebuild_preview_uniform_file pump timemillis ch_size dr0 cr0 fs
    (b : byte) (n : nat) (cut : spec_float) (cv : R) (detail : bool) :
  let c := cont fs in
  let m_sz := Z.of_nat n in
  let sample := SHMIF_RGBA 0x00 (Z.of_N (Byte.to_N b)) 0x00 0xff in
  0 < h c → w c ≤ pitch c → buffer_ok c → m_sz < 2 ^ 63 →
  2 ≤ w c → w c * h c ≤ m_sz → map_sz fs = m_sz → count_ok (windows_0 fs) →
  overlay_reach fs →
  is_float 24 128 cut cv → (cv <= 99 / 100)%R →
  (if detail then sample_step m_sz c * w c else w c) < 2 ^ 31 →
  (∀ r, 0 ≤ r < h c → pump r = true) → (∀ k, quiet timemillis k) →
  ∃ fs',
    rebuild_preview pump timemillis ch_size dr0 cr0 fs (replicate n b) m_sz cut detail
    = Ret (true, fs', 1%nat)
    ∧ ∀ j : nat, 2 * w c ≤ Z.of_nat j < w c * h c →
        vidp (cont fs') !! j = Some sample
        ∨ vidp (cont fs') !! j = Some (Z.lor olay sample).
Proof.
  intros c m_sz sample Hh Hpitch Hbuf Hsz Hw2 Hbig Hmap Hcnt Hreach Hcut Hcv Hweight
    Hpump Hquiet.
  assert (Hlen : Z.of_nat (length (replicate n b)) = m_sz)
    by (by rewrite length_replicate).
  assert (Hgb : 0 ≤ Z.of_N (Byte.to_N b) < 256)
    by (pose proof (Byte.to_N_bounded b); lia).
  destruct (preview_rows_of_bytes pump timemillis ch_size dr0 cr0 fs
              (λ _, Z.of_N (Byte.to_N b)) (replicate n b) cut cv detail)
    as (fs' & Hrun & Hpix); rewrite ?Hlen; fold c; try done.
  { intros pos v _. apply map_read_replicate. }
  { by left. }
  rewrite Hlen in Hrun. exists fs'. split; [exact Hrun |].
  intros j Hj. specialize (Hpix j Hj).
  unfold row_pixel in Hpix. rewrite Z.eqb_refl in Hpix. fold sample in Hpix.
  apply Hpix. left. by apply rgba_green_mask.
Qed.

Lemma rebuild_preview_uniform_file_witness :
  ∃ fs',
    rebuild_preview (λ _, true) (λ _, 0) 1 histo_zero histo_zero fsense_1k
      (replicate 1024 x00) 1024 cutoff_default false
    = Ret (true, fs', 1%nat)
    ∧ ∀ j : nat, 2 * 16 ≤ Z.of_nat j < 16 * 16 →
        vidp (cont fs') !! j = Some (SHMIF_RGBA 0x00 0 0x00 0xff)
        ∨ vidp (cont fs') !! j = Some (Z.lor olay (SHMIF_RGBA 0x00 0 0x00 0xff)).
Proof.
  apply (rebuild_preview_uniform_file (λ _, true) (λ _, 0) 1 histo_zero histo_zero
           fsense_1k x00 1024 cutoff_default (F2R 15099494 (-24)) false).
  - simpl. lia.
  - simpl. lia.
  - vm_compute. split_and!; [reflexivity | discriminate | reflexivity].
  - simpl. lia.
  - simpl. lia.
  - simpl. lia.
  - reflexivity.
  - unfold count_ok. simpl. lia.
  - split; vm_compute; discriminate.
  - replace cutoff_default with (S754_finite false 15099494 (-24))
      by (vm_compute; reflexivity).
    apply is_float_intro. unfold canonical, emin. simpl. lia.
  - unfold F2R. rewrite (pow2_Zneg 24). change (2 ^ Z.pos 24) with 16777216. lra.
  - simpl. lia.
  - reflexivity.
  - intros k. unfold quiet. vm_compute. discriminate.
Defined.

(** X22.  Edge detection on a file made of rows of one byte each (the byte at
    offset [pos] is [rowbyte (pos / bytes_per_row)]) that fills a raster at
    least two pixels wide, with a cutoff between 0.1 and 0.99, nothing
    highlighted yet, a pump that lets the rebuild run and a clock that stays
    within 14 ms: a row from the third on is tinted exactly when its byte is
    not the byte of the row before.  Every pixel of such a row is
    [row_pixel], or [row_pixel] under the new highlight.  The overlay update
    that ends the rebuild stores through the two pixel pointers of the
    window, neither of which lies below the buffer. *)
Theorem rebuild_preview_marks_changes pump timemillis ch_size dr0 cr0 fs
    (rowbyte : Z → Z) (m : list byte) (cut : spec_float) (cv : R) (detail : bool) :
  let c := cont fs in
  let m_sz := Z.of_nat (length m) in
  0 < h c → w c ≤ pitch c → buffer_ok c → m_sz < 2 ^ 63 →
  2 ≤ w c → w c * h c ≤ m_sz → map_sz fs = m_sz → count_ok (windows_0 fs) →
  overlay_reach fs → last_pos_sz (windows_0 fs) = 0 →
  (∀ r, 0 ≤ rowbyte r < 256) →
  (∀ pos v, 0 ≤ pos → map_read m pos = Ret v →
            v = rowbyte (pos / bytes_per_row m_sz c)) →
  is_float 24 128 cut cv → (1 / 10 <= cv <= 99 / 100)%R →
  (if detail then sample_step m_sz c * w c else w c) < 2 ^ 31 →
  (∀ r, 0 ≤ r < h c → pump r = true) → (∀ k, quiet timemillis k) →
  ∃ fs',
    rebuild_preview pump timemillis ch_size dr0 cr0 fs m m_sz cut detail
    = Ret (true, fs', 1%nat)
    ∧ ∀ j : nat, 2 * w c ≤ Z.of_nat j < w c * h c →
        vidp (cont fs') !! j = Some (row_pixel rowbyte (Z.of_nat j / w c))
        ∨ vidp (cont fs') !! j
          = Some (Z.lor olay (row_pixel rowbyte (Z.of_nat j / w c))).
Proof.
  intros c m_sz Hh Hpitch Hbuf Hsz Hw2 Hbig Hmap Hcnt Hreach Hfresh Hg Hm Hcut [Hcv1 Hcv2]
    Hweight Hpump Hquiet.
  destruct (preview_rows_of_bytes pump timemillis ch_size dr0 cr0 fs rowbyte m cut cv
              detail Hh Hpitch Hbuf Hsz Hw2 Hbig Hmap Hcnt Hreach Hg Hm Hcut Hcv2
              (or_intror Hcv1) Hweight Hpump Hquiet) as (fs' & Hrun & Hpix).
  exists fs'. split; [exact Hrun |].
  intros j Hj. apply (Hpix j Hj). by right.
Qed.

Lemma rebuild_preview_marks_changes_witness :
  ∃ fs',
    rebuild_preview (λ _, true) (λ _, 0) 1 histo_zero histo_zero fsense_striped
      file_striped (Z.of_nat (length file_striped)) cutoff_default false
    = Ret (true, fs', 1%nat)
    ∧ ∀ j : nat, 2 * 4 ≤ Z.of_nat j < 4 * 4 →
        vidp (cont fs') !! j
        = Some (row_pixel (λ r, if r <? 2 then 0 else 255) (Z.of_nat j / 4))
        ∨ vidp (cont fs') !! j
          = Some (Z.lor olay (row_pixel (λ r, if r <? 2 then 0 else 255)
                                (Z.of_nat j / 4))).
Proof.
  apply (rebuild_preview_marks_changes (λ _, true) (λ _, 0) 1 histo_zero histo_zero
           fsense_striped (λ r, if r <? 2 then 0 else 255) file_striped cutoff_default
           (F2R 15099494 (-24)) false).
  - simpl. lia.
  - simpl. lia.
  - vm_compute. split_and!; [reflexivity | discriminate | reflexivity].
  - simpl. lia.
  - simpl. lia.
  - simpl. lia.
  - reflexivity.
  - unfold count_ok. simpl. lia.
  - split; vm_compute; discriminate.
  - reflexivity.
  - intros r. destruct (r <? 2); lia.
  - intros pos v Hpos. unfold map_read.
    assert (pos = Z.of_nat (Z.to_nat pos)) as -> by lia.
    rewrite Nat2Z.id. generalize (Z.to_nat pos). intros k.
    do 16 (destruct k as [|k]; [vm_compute; congruence |]).
    vm_compute. discriminate.
  - replace cutoff_default with (S754_finite false 15099494 (-24))
      by (vm_compute; reflexivity).
    apply is_float_intro. unfold canonical, emin. simpl. lia.
  - unfold F2R. rewrite (pow2_Zneg 24). change (2 ^ Z.pos 24) with 16777216. lra.
  - simpl. lia.
  - reflexivity.
  - intros k. unfold quiet. vm_compute. discriminate.
Defined.

(** ** What [dr] and [cr] hold at the start *)

Lemma same_outcome_bind {A B} (R : A → A → Prop) (S : B → B → Prop)
    (x y : result A) (k k' : A → result B) :
  same_outcome R x y →
  (∀ a a', x = Ret a → y = Ret a' → R a a' → same_outcome S (k a) (k' a')) →
  same_outcome S (x ≫= k) (y ≫= k').
Proof.
  destruct x as [a | f], y as [a' | f']; simpl; try done.
  intros HR Hk. by apply Hk.
Qed.

Lemma same_outcome_refl {A} (R : A → A → Prop) (x : result A) :
  (∀ a, x = Ret a → R a a) → same_outcome R x x.
Proof. destruct x; simpl; [intros H; by apply H | done]. Qed.

Lemma keeps_const c : keeps_sim (λ _, c).
Proof. by intros x y _. Qed.

Lemma keeps_tint : keeps_sim (Z.lor edge_tint).
Proof. intros x y E. by rewrite E. Qed.

Lemma keeps_olay : keeps_sim (Z.lor olay).
Proof.
  intros x y E.
  rewrite !Z.lor_assoc, !(Z.lor_comm edge_tint olay), <- !Z.lor_assoc. by rewrite E.
Qed.

Lemma keeps_mask : keeps_sim (Z.land mask).
Proof.
  intros x y E. f_equal.
  rewrite <- (mask_land_tint x), E. apply mask_land_tint.
Qed.

Lemma vid_sim_refl lim v : vid_sim lim v v.
Proof. split; [done |]. intros j x y Hx Hy. rewrite Hx in Hy. by injection Hy as <-. Qed.

Lemma vid_store_sim lim f idx v v' :
  keeps_sim f → vid_sim lim v v' →
  same_outcome (vid_sim lim) (vid_store f idx v) (vid_store f idx v').
Proof.
  intros Hf [Hl Hp]. unfold vid_store. rewrite <- Hl.
  destruct (idx <? _); [| done]. simpl.
  split; [by rewrite !length_alter |].
  intros j x y. rewrite !list_lookup_alter.
  destruct (decide (Z.to_nat idx = j)) as [-> | _]; [| apply Hp].
  destruct (v !! j) as [x0 |] eqn:E1; [| done].
  destruct (v' !! j) as [y0 |] eqn:E2; [| done].
  intros [= <-] [= <-]. destruct (Hp j x0 y0 E1 E2) as [H1 H2].
  split; [by apply Hf |]. intros Hj. by rewrite (H2 Hj).
Qed.

Lemma span_store_sim lim f fuel : ∀ i n guard base v v',
  keeps_sim f → vid_sim lim v v' →
  same_outcome (vid_sim lim) (span_store f fuel i n guard base v)
    (span_store f fuel i n guard base v').
Proof.
  induction fuel as [|fuel IH]; intros i n guard base v v' Hf Hv; simpl; [done |].
  destruct (_ && _); [| done].
  apply (same_outcome_bind (vid_sim lim)); [by apply vid_store_sim |].
  intros v1 v1' _ _ Hv1. by apply IH.
Qed.

Lemma ptr_store_sim lim f base dst v v' :
  keeps_sim f → vid_sim lim v v' →
  same_outcome (vid_sim lim) (ptr_store f base dst v) (ptr_store f base dst v').
Proof.
  intros Hf [Hl Hp]. unfold ptr_store. rewrite <- Hl.
  destruct (_ && _); [| done]. simpl.
  split; [by rewrite !length_alter |].
  intros j x y. rewrite !list_lookup_alter.
  destruct (decide (Z.to_nat ((dst - base) / 4) = j)) as [-> | _]; [| apply Hp].
  destruct (v !! j) as [x0 |] eqn:E1; [| done].
  destruct (v' !! j) as [y0 |] eqn:E2; [| done].
  intros [= <-] [= <-]. destruct (Hp j x0 y0 E1 E2) as [H1 H2].
  split; [by apply Hf |]. intros Hj. by rewrite (H2 Hj).
Qed.

Lemma fill_sim lim f fuel : ∀ np dst endm base v v',
  keeps_sim f → vid_sim lim v v' →
  same_outcome (vid_sim lim) (fill f fuel np dst endm base v)
    (fill f fuel np dst endm base v').
Proof.
  induction fuel as [|fuel IH]; intros np dst endm base v v' Hf Hv; simpl; [done |].
  destruct (_ && _); [| done].
  apply (same_outcome_bind (vid_sim lim)); [by apply ptr_store_sim |].
  intros v1 v1' _ _ Hv1. by apply IH.
Qed.

Lemma fill_run_sim lim f np dst endm base v v' :
  keeps_sim f → vid_sim lim v v' →
  same_outcome (vid_sim lim) (fill_run f np dst endm base v)
    (fill_run f np dst endm base v').
Proof.
  intros Hf Hv. unfold fill_run. destruct Hv as [Hl Hp]. rewrite <- Hl.
  apply fill_sim; [done | by split].
Qed.

(** A tint on one side only, below [lim]. *)
Lemma tint_sim lim lo hi (bl bl' : bool) v v' :
  vid_sim lim v v' → bl = bl' ∨ hi ≤ lim →
  vid_sim lim (if bl then paint (Z.lor edge_tint) lo hi v else v)
    (if bl' then paint (Z.lor edge_tint) lo hi v' else v').
Proof.
  intros [Hl Hp] Hb. split.
  { destruct bl, bl'; by rewrite ?length_paint. }
  intros j x y Hx Hy.
  set (px := λ (b : bool) (z : Z),
         if b && bool_decide (lo ≤ Z.of_nat j < hi) then Z.lor edge_tint z else z).
  assert (Hpx : ∀ (b : bool) u z,
             (if b then paint (Z.lor edge_tint) lo hi u else u) !! j = Some z →
             ∃ z0, u !! j = Some z0 ∧ z = px b z0).
  { intros b u z. unfold px. destruct b; simpl; [| by eauto].
    rewrite paint_lookup. destruct (u !! j) as [z0 |]; [| by case_bool_decide].
    case_bool_decide; intros [= <-]; eauto. }
  destruct (Hpx _ _ _ Hx) as (x0 & Ex & ->). destruct (Hpx _ _ _ Hy) as (y0 & Ey & ->).
  destruct (Hp j x0 y0 Ex Ey) as [H1 H2].
  assert (Hidem : ∀ b z, Z.lor edge_tint (px b z) = Z.lor edge_tint z).
  { intros b z. unfold px. destruct (_ && _); [| done].
    by rewrite Z.lor_assoc, Z.lor_diag. }
  split; [by rewrite !Hidem |].
  intros Hj. rewrite (H2 Hj). destruct Hb as [-> | Hb]; [done |].
  unfold px. rewrite bool_decide_eq_false_2 by lia. by rewrite !andb_false_r.
Qed.

Lemma histo_span_sim (Q : Prop) m m_sz step_sz fuel pos : ∀ j dr dr',
  (Q → dr = dr') →
  same_outcome (λ d d', Q → d = d')
    (histo_span m m_sz step_sz fuel j pos dr)
    (histo_span m m_sz step_sz fuel j pos dr').
Proof.
  induction fuel as [|fuel IH]; intros j dr dr' H; simpl; [done |].
  destruct (_ && _); [| done].
  destruct (map_read m _) as [b | f]; rewrite ?bind_Ret, ?bind_Err; [| done].
  apply IH. intros q. by rewrite (H q).
Qed.

Section InitialArrays.
Variable pump : Z → bool.
Variable timemillis : nat → Z.
Variable m : list byte.
Variable m_sz : Z.
Variable cut : spec_float.
Variable detail : bool.
Variable wd ht : Z.
Variable step_sz : Z.
Variable lim : Z.

Hypothesis Hwd : 0 < wd.
Hypothesis Hht : 0 < ht.
Hypothesis Hwh : wd * ht < 2 ^ 64.
Hypothesis Hlim : is_nan cut = false → 2 * wd ≤ lim.

Lemma row_pixels_sim (Q : Prop) fuel row : ∀ i pos vid vid' dr dr',
  vid_sim lim vid vid' → (Q → dr = dr') →
  same_outcome (λ x y, x.1.1 = y.1.1 ∧ vid_sim lim x.1.2 y.1.2 ∧ (Q → x.2 = y.2))
    (row_pixels m m_sz cut detail wd step_sz fuel row i pos vid dr)
    (row_pixels m m_sz cut detail wd step_sz fuel row i pos vid' dr').
Proof.
  induction fuel as [|fuel IH]; intros i pos vid vid' dr dr' Hv Hd; simpl; [done |].
  destruct (_ && _); [| done].
  destruct (map_read m pos) as [g | f]; rewrite ?bind_Ret, ?bind_Err; [| done].
  apply (same_outcome_bind (vid_sim lim)).
  { apply vid_store_sim; [apply keeps_const | done]. }
  intros v1 v1' _ _ Hv1.
  apply (same_outcome_bind (λ d d', Q → d = d')).
  - destruct (is_nan cut); [done |]. destruct detail; [by apply histo_span_sim |].
    rewrite ?bind_Ret. simpl. intros q. by rewrite (Hd q).
  - intros d d' _ _ Hd'. by apply IH.
Qed.

Lemma row_body_sim st st' :
  rebuild_sim cut lim (rb_row st) st st' →
  0 ≤ rb_row st < ht → wd * ht ≤ Z.of_nat (length (rb_vid st)) →
  same_outcome
    (λ s s', rebuild_sim cut lim (rb_row st + 1) s s'
             ∧ rb_row s = rb_row st
             ∧ length (rb_vid s) = length (rb_vid st))
    (row_body m m_sz cut detail wd step_sz st)
    (row_body m m_sz cut detail wd step_sz st').
Proof.
  intros (Hpos & Hrow & Hlast & Hdirty & Hclock & Hsig & Hvid & Hh) Hr Hbuf.
  unfold row_body. rewrite <- Hpos, <- Hrow, <- Hlast, <- Hclock, <- Hsig.
  apply (same_outcome_bind
           (λ x y, x.1.1 = y.1.1 ∧ vid_sim lim x.1.2 y.1.2
                   ∧ (is_nan cut = false ∧ 1 ≤ rb_row st → x.2 = y.2))).
  { apply row_pixels_sim; [done |]. intros [Hc H1]. by apply Hh. }
  intros [[p v] d] [[p' v'] d'] E1 E2 (Hp & Hv & Hd).
  cbn [fst snd] in Hp, Hv, Hd. subst p'.
  apply row_pixels_length in E1.
  destruct (is_nan cut) eqn:Hnan.
  { cbn [same_outcome]. unfold rebuild_sim.
    cbn [rb_pos rb_row rb_vid rb_dr rb_cr rb_last rb_dirty rb_clock rb_signals].
    split_and!; try done. intros Hc. rewrite Hnan in Hc. discriminate. }
  cbv zeta.
  assert (0 ≤ rb_row st * wd) by nia.
  assert ((rb_row st + 1) * wd ≤ wd * ht) by nia.
  pose proof Hv as [Hlv _].
  rewrite (wrap64_small (rb_row st * wd)) by lia.
  rewrite !span_store_paint by lia.
  set (bl := SFltb (cmp_histo d (rb_cr st) _) cut).
  set (bl' := SFltb (cmp_histo d' (rb_cr st') _) cut).
  assert (Hb : bl = bl' ∨ rb_row st * wd + wd ≤ lim).
  { destruct (Z.le_gt_cases 2 (rb_row st)) as [H2 | H2].
    - left. unfold bl, bl'. destruct (Hh eq_refl) as [_ Hcr].
      rewrite (Hd ltac:(split; [done | lia])), (Hcr H2). done.
    - right. specialize (Hlim eq_refl). nia. }
  pose proof (tint_sim lim (rb_row st * wd + 0) (rb_row st * wd + wd) bl bl' v v' Hv Hb)
    as Htint.
  replace (if bl then Ret (paint (Z.lor edge_tint) (rb_row st * wd + 0)
                             (rb_row st * wd + wd) v) else Ret v)
    with (Ret (if bl then paint (Z.lor edge_tint) (rb_row st * wd + 0)
                              (rb_row st * wd + wd) v else v))
    by (by destruct bl).
  replace (if bl' then Ret (paint (Z.lor edge_tint) (rb_row st * wd + 0)
                              (rb_row st * wd + wd) v') else Ret v')
    with (Ret (if bl' then paint (Z.lor edge_tint) (rb_row st * wd + 0)
                               (rb_row st * wd + wd) v' else v'))
    by (by destruct bl').
  rewrite !bind_Ret. cbn [same_outcome]. unfold rebuild_sim.
  cbn [rb_pos rb_row rb_vid rb_dr rb_cr rb_last rb_dirty rb_clock rb_signals].
  split_and!; try done.
  - intros _. split; [done |]. intros H2. apply Hd. split; [done | lia].
  - destruct bl; by rewrite ?length_paint.
Qed.

Lemma edge_step_sim r st st' :
  rebuild_sim cut lim r st st' →
  same_outcome
    (λ s s', rebuild_sim cut lim r s s'
             ∧ rb_row s = wrap64 (rb_row st + 1)
             ∧ length (rb_vid s) = length (rb_vid st))
    (edge_step timemillis wd ht st) (edge_step timemillis wd ht st').
Proof.
  intros (Hpos & Hrow & Hlast & Hdirty & Hclock & Hsig & Hvid & Hh).
  unfold edge_step. rewrite <- Hpos, <- Hrow, <- Hlast, <- Hclock, <- Hsig, <- Hdirty.
  destruct (14 <? _).
  - apply (same_outcome_bind (vid_sim lim)).
    { apply span_store_sim; [apply keeps_const | done]. }
    intros v1 v1' E1 _ Hv1. apply span_store_length in E1.
    cbn [same_outcome]. unfold rebuild_sim.
    cbn [rb_pos rb_row rb_vid rb_dr rb_cr rb_last rb_dirty rb_clock rb_signals].
    split_and!; done.
  - cbn [same_outcome]. unfold rebuild_sim.
    cbn [rb_pos rb_row rb_vid rb_dr rb_cr rb_last rb_dirty rb_clock rb_signals].
    split_and!; done.
Qed.

Lemma rebuild_rows_sim fuel : ∀ st st',
  rebuild_sim cut lim (rb_row st) st st' →
  0 ≤ rb_row st → wd * ht ≤ Z.of_nat (length (rb_vid st)) →
  same_outcome (λ x y, x.1 = y.1 ∧ ∃ r, rebuild_sim cut lim r x.2 y.2)
    (rebuild_rows pump timemillis m m_sz cut detail wd ht step_sz fuel st)
    (rebuild_rows pump timemillis m m_sz cut detail wd ht step_sz fuel st').
Proof.
  induction fuel as [|fuel IH]; intros st st' Hsim Hr Hbuf; simpl.
  { split; [done |]. by exists (rb_row st). }
  pose proof Hsim as (Hpos & Hrow & _).
  rewrite <- Hpos, <- Hrow.
  destruct (Z.ltb_spec (rb_row st) ht) as [Hlt | Hge].
  2:{ rewrite andb_false_r. split; [done |]. by exists (rb_row st). }
  destruct (_ <? m_sz); simpl.
  2:{ split; [done |]. by exists (rb_row st). }
  eapply same_outcome_bind; [by apply row_body_sim |].
  intros st1 st1' _ _ (Hsim1 & Hrow1 & Hl1). cbv beta.
  destruct (pump (rb_row st)); simpl.
  2:{ split; [done |]. by exists (rb_row st + 1). }
  eapply same_outcome_bind; [by apply edge_step_sim |].
  intros st2 st2' _ _ (Hsim2 & Hrow2 & Hl2). cbv beta.
  assert (ht ≤ wd * ht) by nia.
  rewrite Hrow1, wrap64_small in Hrow2 by lia.
  apply IH; [by rewrite Hrow2 | lia | lia].
Qed.

End InitialArrays.

Lemma update_region_sim lim map_sz c wnd new_pos count v v' :
  vid_sim lim v v' →
  same_outcome
    (λ x y, x.2 = y.2 ∧ w x.1 = w y.1 ∧ h x.1 = h y.1 ∧ pitch x.1 = pitch y.1
            ∧ vid_sim lim (vidp x.1) (vidp y.1))
    (update_region map_sz (set_vidp c v) wnd new_pos count)
    (update_region map_sz (set_vidp c v') wnd new_pos count).
Proof.
  intros Hv. unfold update_region, pixel_ptr, coord_index.
  cbn [w h pitch vidp vidp_addr set_vidp].
  destruct (udiv map_sz _) as [step | f]; rewrite ?bind_Ret, ?bind_Err; [| done].
  destruct (last_pos wnd =? new_pos).
  { cbn [same_outcome fst snd w h pitch vidp set_vidp]. done. }
  apply (same_outcome_bind (vid_sim lim)).
  { destruct (last_pos_sz wnd =? 0); [done |]. apply fill_run_sim; [apply keeps_mask | done]. }
  intros v1 v1' _ _ Hv1.
  destruct (count =? 0).
  { cbn [same_outcome fst snd w h pitch vidp set_vidp]. done. }
  destruct (udiv new_pos _) as [coord1 | f]; rewrite ?bind_Ret, ?bind_Err; [| done].
  destruct (udiv _ step) as [coord0 | f]; rewrite ?bind_Ret, ?bind_Err; [| done].
  destruct (udiv count _) as [nr | f]; rewrite ?bind_Ret, ?bind_Err; [| done].
  destruct (udiv _ step) as [q | f]; rewrite ?bind_Ret, ?bind_Err; [| done].
  apply (same_outcome_bind (vid_sim lim)).
  { apply fill_run_sim; [apply keeps_olay | done]. }
  intros v2 v2' _ _ Hv2.
  cbn [same_outcome fst snd w h pitch vidp set_vidp]. done.
Qed.

(** X23.  The arrays [dr] and [cr] are not initialised.  On a buffer that holds
    the raster, whatever they hold at the start, [rebuild_preview] ends in
    the same way: with the same fault, or with the same result, frames and
    window, and with the same pixels but for the tint (the red channel) of
    the first two rows.  With the comparison off there is no difference at
    all. *)
Theorem rebuild_preview_initial_arrays pump timemillis ch_size dr0 cr0 dr0' cr0'
    fs m m_sz (cut : spec_float) detail :
  let c := cont fs in
  0 < w c → 0 < h c → w c * h c < 2 ^ 64 →
  w c * h c ≤ Z.of_nat (length (vidp c)) →
  same_outcome (preview_sim (if is_nan cut then 0 else 2 * w c))
    (rebuild_preview pump timemillis ch_size dr0 cr0 fs m m_sz cut detail)
    (rebuild_preview pump timemillis ch_size dr0' cr0' fs m m_sz cut detail).
Proof.
  intros c Hw Hh Hwh Hbuf. unfold rebuild_preview. fold c.
  set (lim := if is_nan cut then 0 else 2 * w c).
  assert (Hlim : is_nan cut = false → 2 * w c ≤ lim).
  { unfold lim. intros ->. lia. }
  destruct (udiv m_sz _) as [s0 | f]; rewrite ?bind_Ret, ?bind_Err; [| done].
  destruct (span_store _ _ _ _ _ _ (vidp c)) as [vid0 | f] eqn:Hclear;
    rewrite ?bind_Ret, ?bind_Err; [| done].
  apply span_store_length in Hclear.
  eapply same_outcome_bind.
  { apply (rebuild_rows_sim pump timemillis m m_sz cut detail (w c) (h c) _ lim
             Hw Hh Hwh Hlim).
    - unfold rebuild_sim, rebuild_start.
      cbn [rb_pos rb_row rb_vid rb_dr rb_cr rb_last rb_dirty rb_clock rb_signals].
      split_and!; try done; try apply vid_sim_refl.
    - simpl. lia.
    - simpl. lia. }
  intros [b st] [b' st'] _ _ [Hb (r & Hsim)]. cbn [fst snd] in Hb, Hsim. subst b'.
  destruct Hsim as (_ & _ & _ & Hdirty & _ & Hsig & Hvid & _).
  rewrite <- Hdirty, <- Hsig.
  destruct b; simpl negb; cbv iota.
  2:{ cbn [same_outcome]. unfold preview_sim. simpl. split_and!; done. }
  destruct (rb_dirty st).
  2:{ cbn [same_outcome]. unfold preview_sim. simpl. split_and!; done. }
  eapply same_outcome_bind; [by apply (update_region_sim lim) |].
  intros [c2 wnd2] [c2' wnd2'] _ _ (Hwnd & Hw2 & Hh2 & Hp2 & Hv2).
  cbn [fst snd] in Hwnd, Hw2, Hh2, Hp2, Hv2. subst wnd2'.
  cbn [same_outcome]. unfold preview_sim. simpl. split_and!; done.
Qed.

Lemma rebuild_preview_initial_arrays_witness :
  same_outcome (preview_sim (if is_nan cutoff_default then 0 else 2 * 2))
    (rebuild_preview (λ _, true) (λ _, 0) 1 histo_zero histo_zero fsense_8 file_8 8
       cutoff_default false)
    (rebuild_preview (λ _, true) (λ _, 0) 1 (replicate 256 7) (replicate 256 3)
       fsense_8 file_8 8 cutoff_default false).
Proof.
  apply (rebuild_preview_initial_arrays (λ _, true) (λ _, 0) 1 histo_zero histo_zero
           (replicate 256 7) (replicate 256 3) fsense_8 file_8 8 cutoff_default false);
    simpl; lia.
Defined.

(** ** Display hints *)

Section Hints.
Variable pump : Z → bool.
Variable timemillis : nat → Z.
Variable ch_size : Z.
Variable dr0 cr0 : list Z.
Variable senseye_resize : arcan_shmif_cont → Z → Z → option arcan_shmif_cont.
Variable mouse_moved : bool.
Variable mouse_xy : Z * Z.
Variable fs : fsense_t.

(** X24.  A display hint with a zero dimension, with the size the raster already
    has, or that [senseye_resize] refuses: nothing is redrawn and nothing is
    written to the worker. *)
Theorem control_event_hint_ignored iv0 iv1 :
  0 ≤ w (cont fs) < 2 ^ 31 → 0 ≤ h (cont fs) < 2 ^ 31 →
  iv0 = 0 ∨ iv1 = 0 ∨ (iv0 = w (cont fs) ∧ iv1 = h (cont fs))
  ∨ senseye_resize (cont fs) iv0 iv1 = None →
  control_event pump timemillis ch_size dr0 cr0 senseye_resize mouse_moved mouse_xy fs
    (EVENT_TARGET TARGET_COMMAND_DISPLAYHINT iv0 iv1)
  = Ret (fs, None).
Proof.
  intros Hw Hh Hcase. unfold control_event.
  assert (Esw : sint32 (w (cont fs)) = w (cont fs)).
  { unfold sint32. rewrite Z.mod_small by lia. lia. }
  assert (Esh : sint32 (h (cont fs)) = h (cont fs)).
  { unfold sint32. rewrite Z.mod_small by lia. lia. }
  destruct Hcase as [-> | [-> | [[-> ->] | Hnone]]].
  - reflexivity.
  - rewrite andb_false_r. reflexivity.
  - rewrite Esw, Esh, !Z.sub_diag. simpl Z.abs.
    change (0 <? 0) with false. rewrite andb_false_r. reflexivity.
  - rewrite Hnone. by destruct (_ && _).
Qed.

(** X25.  A display hint with another size that [senseye_resize] accepts: the
    preview is drawn anew on the resized segment.  On a file that fills it,
    with a pump that lets the rebuild run and a clock that stays within 14
    ms, every pixel of the new raster shows its sample.  The overlay update
    that ends the rebuild stores through the two pixel pointers of the
    window, taken on the new segment, neither of which lies below its
    buffer. *)
Theorem control_event_resize_redraws iv0 iv1 c' :
  iv0 ≠ 0 → iv1 ≠ 0 →
  iv0 ≠ sint32 (w (cont fs)) ∨ iv1 ≠ sint32 (h (cont fs)) →
  senseye_resize (cont fs) iv0 iv1 = Some c' →
  0 < h c' → 2 ≤ w c' → w c' ≤ pitch c' → buffer_ok c' →
  Z.of_nat (length (map fs)) = map_sz fs → map_sz fs < 2 ^ 63 →
  w c' * h c' ≤ map_sz fs → count_ok (windows_0 fs) →
  0 ≤ run_lo c' (windows_0 fs) →
  0 ≤ offset_lo (map_sz fs) c' (last_pos (windows_0 fs)) →
  (∀ r, 0 ≤ r < h c' → pump r = true) → (∀ n, quiet timemillis n) →
  ∃ fs',
    control_event pump timemillis ch_size dr0 cr0 senseye_resize mouse_moved mouse_xy fs
      (EVENT_TARGET TARGET_COMMAND_DISPLAYHINT iv0 iv1)
    = Ret (fs', None)
    ∧ w (cont fs') = w c' ∧ h (cont fs') = h c' ∧ pitch (cont fs') = pitch c'
    ∧ map fs' = map fs ∧ map_sz fs' = map_sz fs ∧ in_rebuild fs' = false
    ∧ ∀ j : nat, Z.of_nat j < w c' * h c' →
        pixel_shows (map fs) (sample_step (map_sz fs) c') (vidp (cont fs')) j.
Proof.
  intros H0 H1 Hsize Hres Hh Hw2 Hpitch Hbuf Hlen Hsz Hbig Hcnt Hlo Hnew Hpump Hquiet.
  unfold control_event.
  assert (Hdev : (negb (iv0 =? 0) && negb (iv1 =? 0))
                 && ((0 <? Z.abs (iv0 - sint32 (w (cont fs))))
                     || (0 <? Z.abs (iv1 - sint32 (h (cont fs))))) = true).
  { destruct (Z.eqb_spec iv0 0); [done |]. destruct (Z.eqb_spec iv1 0); [done |].
    simpl. apply orb_true_iff.
    destruct Hsize; [left | right]; apply Z.ltb_lt; lia. }
  rewrite Hdev, Hres.
  set (fs1 := {| map := map fs; map_sz := map_sz fs; cont := c'; cutoff := cutoff fs;
                 detailed := detailed fs; in_rebuild := in_rebuild fs;
                 windows_0 := windows_0 fs |}).
  destruct (preview_samples pump timemillis ch_size dr0 cr0 fs1 (map fs) (cutoff fs)
              (detailed fs)) as (fs' & Hrun & Hpix); simpl; try lia; try done.
  simpl in Hrun, Hpix. rewrite Hlen in Hrun, Hpix. rewrite Hrun, !bind_Ret.
  exists fs'. split; [reflexivity |].
  destruct (preview_frame _ _ _ _ _ _ _ _ _ _ _ _ _ Hrun)
    as (Hm & Hms & _ & _ & Hir & Hw' & Hh' & Hp' & _).
  split_and!; done.
Qed.

End Hints.

Lemma control_event_hint_ignored_witness :
  control_event (λ _, true) (λ _, 0) 1 histo_zero histo_zero resize_4x4 false (0, 0)
    fsense_1k (EVENT_TARGET TARGET_COMMAND_DISPLAYHINT 16 16)
  = Ret (fsense_1k, None).
Proof.
  apply (control_event_hint_ignored (λ _, true) (λ _, 0) 1 histo_zero histo_zero
           resize_4x4 false (0, 0) fsense_1k 16 16).
  - simpl. lia.
  - simpl. lia.
  - right. right. left. split; reflexivity.
Defined.

Lemma control_event_resize_redraws_witness :
  ∃ fs',
    control_event (λ _, true) (λ _, 0) 1 histo_zero histo_zero resize_4x4 false (0, 0)
      fsense_1k (EVENT_TARGET TARGET_COMMAND_DISPLAYHINT 4 4)
    = Ret (fs', None)
    ∧ w (cont fs') = w raster_4x4 ∧ h (cont fs') = h raster_4x4
    ∧ pitch (cont fs') = pitch raster_4x4
    ∧ map fs' = map fsense_1k ∧ map_sz fs' = map_sz fsense_1k ∧ in_rebuild fs' = false
    ∧ ∀ j : nat, Z.of_nat j < w raster_4x4 * h raster_4x4 →
        pixel_shows (map fsense_1k) (sample_step (map_sz fsense_1k) raster_4x4)
          (vidp (cont fs')) j.
Proof.
  apply (control_event_resize_redraws (λ _, true) (λ _, 0) 1 histo_zero histo_zero
           resize_4x4 false (0, 0) fsense_1k 4 4 raster_4x4).
  - lia.
  - lia.
  - left. vm_compute. discriminate.
  - reflexivity.
  - simpl. lia.
  - simpl. lia.
  - simpl. lia.
  - vm_compute. split_and!; [reflexivity | discriminate | reflexivity].
  - reflexivity.
  - simpl. lia.
  - simpl. lia.
  - unfold count_ok. simpl. lia.
  - vm_compute. discriminate.
  - vm_compute. discriminate.
  - reflexivity.
  - intros k. unfold quiet. vm_compute. discriminate.
Defined.

(** ** The tint under the highlight *)

(** X26.  When the highlight moves on, a pixel that it covered and that the new
    highlight does not cover keeps its green and alpha channels only: the
    red of an edge tint goes with the red of the overlay.  The runs are
    those of the pixel pointers: a run starts at the pixel its pointer
    points to. *)
Theorem update_region_wipes_tint map_sz c wnd new_pos count c' wnd' (i : nat) px :
  buffer_ok c → count_ok wnd →
  update_region map_sz c wnd new_pos count = Ret (c', wnd') →
  last_pos wnd ≠ new_pos →
  in_run c wnd i → ¬ in_run c' wnd' i →
  vidp c !! i = Some px →
  vidp c' !! i = Some (Z.land mask px)
  ∧ Z.land edge_tint (Z.land mask px) = 0.
Proof.
  intros Hb Hc Hret Hne [Hsz Hin] Hout Hpx.
  destruct (update_region_cases _ _ _ _ _ _ _ Hb Hc Hret) as [_ Hcase].
  assert (Hun : unpainted c wnd !! i = Some (Z.land mask px)).
  { unfold unpainted. destruct (Z.eqb_spec (last_pos_sz wnd) 0); [done |].
    rewrite paint_lookup, Hpx. by rewrite bool_decide_eq_true_2. }
  split.
  - destruct Hcase as [Hsame | _ _ | _ Hcnt _ _ wnd'']; [done | done |].
    cbn [vidp set_vidp]. rewrite paint_lookup, Hun.
    rewrite bool_decide_eq_false_2; [done |].
    intros Hin'. apply Hout. split; [| exact Hin'].
    subst wnd''. unfold painted_window. cbv zeta. simpl. exact Hcnt.
  - rewrite Z.land_assoc. change (Z.land edge_tint mask) with 0. apply Z.land_0_l.
Qed.

Lemma update_region_wipes_tint_witness :
  ∃ c' wnd',
    update_region 16 highlighted_raster highlighted_window 12 4 = Ret (c', wnd')
    ∧ vidp c' !! 0%nat = Some (Z.land mask (Z.lor olay clear_color))
    ∧ Z.land edge_tint (Z.land mask (Z.lor olay clear_color)) = 0.
Proof.
  destruct (update_region 16 highlighted_raster highlighted_window 12 4)
    as [[c' wnd'] |] eqn:E; [| vm_compute in E; discriminate].
  exists c', wnd'. split; [reflexivity |].
  apply (update_region_wipes_tint 16 highlighted_raster highlighted_window 12 4 c' wnd'
           0%nat (Z.lor olay clear_color)).
  - vm_compute. split_and!; [reflexivity | discriminate | reflexivity].
  - unfold count_ok. simpl. lia.
  - exact E.
  - simpl. lia.
  - split; [simpl; lia |]. apply (bool_decide_unpack _). vm_compute. exact I.
  - vm_compute in E. injection E as <- <-. intros [_ Hin].
    apply (bool_decide_pack _) in Hin. vm_compute in Hin. exact Hin.
  - reflexivity.
Defined.

(** ** The first row when [dr] and [cr] start from zero *)

Lemma histo_zero_histogram : histogram histo_zero.
Proof.
  split; [reflexivity |]. apply Forall_forall. intros c Hc.
  apply elem_of_replicate in Hc as [-> _]. lia.
Qed.

Section FirstRow.
Variable pump : Z → bool.
Variable timemillis : nat → Z.
Variable m : list byte.
Variable m_sz : Z.
Variable cut : spec_float.
Variable cv : R.
Variable detail : bool.
Variable wd ht : Z.
Variable step_sz : Z.

Hypothesis Hwd : 0 < wd.
Hypothesis Hht : 0 < ht.
Hypothesis Hwh : wd * ht < 2 ^ 64.
Hypothesis Hlen : Z.of_nat (length m) = m_sz.
Hypothesis Hsz : m_sz < 2 ^ 63.
Hypothesis Hstep : step_sz = Z.max 1 (m_sz / (wd * ht)).
Hypothesis Hcut : is_float 24 128 cut cv.
Hypothesis Hcv : (1 / 10 <= cv)%R.
Hypothesis Hw2 : 2 ≤ wd.
Hypothesis Hbig : wd * ht ≤ m_sz.
Hypothesis Hweight : (if detail then wrap64 (step_sz * wd) else wd) < 2 ^ 31.

(** The rows that are done are not written again. *)
Lemma rebuild_rows_done fuel : ∀ st,
  quiet_inv timemillis m m_sz wd ht step_sz st →
  (Z.to_nat (ht - rb_row st) ≤ fuel)%nat →
  (∀ r, 0 ≤ r < ht → pump r = true) → (∀ n, quiet timemillis n) →
  ∃ st',
    rebuild_rows pump timemillis m m_sz cut detail wd ht step_sz fuel st
    = Ret (true, st')
    ∧ rb_signals st' = rb_signals st
    ∧ length (rb_vid st') = length (rb_vid st)
    ∧ (rb_dirty st' = true ∨ st' = st)
    ∧ ∀ j : nat, Z.of_nat j < rb_row st * wd → rb_vid st' !! j = rb_vid st !! j.
Proof.
  pose proof (step_bounds m m_sz wd ht step_sz Hwd Hht Hlen Hsz Hstep) as [Hs1 Hs2].
  induction fuel as [|fuel IH]; intros st Hinv Hfuel Hpump Hquiet.
  { exists st. simpl. split_and!; [done | done | done | by right | done]. }
  pose proof Hinv as (Hrow & _ & Hple & _ & Hbuf & _).
  destruct (Z.eq_dec (rb_row st) ht) as [Hend | Hne].
  { exists st. simpl. destruct (Z.ltb_spec (rb_row st) ht) as [? | _]; [lia |].
    rewrite andb_false_r. split_and!; [done | done | done | by right | done]. }
  destruct (big_file_row timemillis m m_sz wd ht step_sz Hwd Hht Hwh Hlen Hsz Hstep
              st Hw2 Hbig Hinv ltac:(lia)) as [Hpos Hcond].
  assert (0 ≤ rb_row st * wd) by nia. assert (0 ≤ rb_pos st) by nia.
  simpl. rewrite (wrap64_small (rb_pos st + step_sz)) by lia.
  destruct (Z.ltb_spec (rb_pos st + step_sz) m_sz) as [_ | ?]; [| lia].
  destruct (Z.ltb_spec (rb_row st) ht) as [_ | ?]; [| lia]. simpl.
  destruct (quiet_turn timemillis m m_sz cut detail wd ht step_sz Hwd Hht Hwh Hlen Hsz
              Hstep st Hinv ltac:(lia) Hcond (Hquiet _))
    as (i' & st1 & st2 & Hbody & Hedge & Hinv2 & Hrow2 & _ & _ & _ & Hd2 & Hsig2 & Hl2
        & Hvid2 & _).
  destruct (row_body_spec m m_sz cut detail wd ht step_sz Hwd Hht Hwh Hlen Hsz Hstep st)
    as (_ & st1' & Hbody' & _ & _ & _ & _ & _ & _ & Hframe & _);
    [lia | exact Hpos | lia | lia |].
  rewrite Hbody in Hbody'. injection Hbody' as <-.
  rewrite Hbody, bind_Ret. rewrite (Hpump (rb_row st)) by lia. simpl.
  rewrite Hedge, bind_Ret.
  destruct (IH st2 Hinv2 ltac:(lia) Hpump Hquiet)
    as (st' & -> & Hsig' & Hl' & Hd' & Hkeep).
  exists st'. split_and!; try done; try congruence.
  - left. destruct Hd' as [? | ->]; done.
  - intros j Hj. rewrite Hkeep by nia. rewrite Hvid2. apply Hframe. lia.
Qed.

(** The first row, compared with the zeroed [cr]. *)
Lemma first_row_tinted vid0 st1 :
  wd * ht ≤ Z.of_nat (length vid0) →
  row_body m m_sz cut detail wd step_sz
    (rebuild_start timemillis histo_zero histo_zero vid0) = Ret st1 →
  ∀ j : nat, Z.of_nat j < wd →
    ∃ g, map_read m (Z.of_nat j * step_sz) = Ret g
         ∧ rb_vid st1 !! j = Some (Z.lor edge_tint (SHMIF_RGBA 0x00 g 0x00 0xff)).
Proof.
  intros Hbuf Hbody j Hj.
  pose proof (all_rows_fit m_sz wd ht step_sz Hwd Hht Hstep Hbig) as Hfit.
  assert (Hs1 : 1 ≤ step_sz) by lia.
  assert (Hrow : 0 ≤ 0 < ht) by lia.
  assert (Hfull : (0 * wd + wd) * step_sz ≤ m_sz) by nia.
  assert (Ew : (if detail then wrap64 (step_sz * wd) else wd)
               = wd * (if detail then step_sz else 1)).
  { destruct detail; [| lia].
    assert (step_sz * wd ≤ step_sz * (wd * ht)) by nia.
    rewrite wrap64_small by nia. lia. }
  assert (Hnan : is_nan cut = false).
  { destruct Hcut as (mc & ec & -> & _). reflexivity. }
  destruct (row_pixels_counts m m_sz cut detail wd ht step_sz Hwd Hht Hwh Hlen Hsz Hstep
              Hnan counts 0 m_sz (counts_incr m 0 m_sz)
              (Z.to_nat wd) 0 0 (0 * wd * step_sz) vid0 histo_zero 0)
    as (vid' & hist & Hpx & Hc);
    [done | lia | lia | done | lia | done | done | lia | apply counts_zero | lia |].
  rewrite Z.sub_0_r, Z.add_0_l, <- Ew in Hc.
  pose proof (counts_histogram hist _ Hc Hweight) as Hhist.
  assert (Hsum : hsum hist = if detail then wrap64 (step_sz * wd) else wd)
    by (by destruct Hc as (_ & _ & ?)).
  assert (H1w : 1 ≤ hsum hist).
  { rewrite Hsum, Ew. destruct detail; nia. }
  unfold row_body, rebuild_start in Hbody.
  cbn [rb_pos rb_row rb_vid rb_dr rb_cr rb_last rb_dirty rb_clock rb_signals] in Hbody.
  change (0 * wd * step_sz) with 0 in Hpx. rewrite Hpx, bind_Ret in Hbody.
  rewrite Hnan in Hbody. cbv zeta in Hbody. rewrite <- Hsum in Hbody.
  rewrite (disjoint_score_below hist histo_zero cut cv Hhist histo_zero_histogram)
    in Hbody; [| done | | | done | done].
  2:{ intros i Hi. unfold histo_zero. rewrite lookup_total_replicate_2 by lia. lia. }
  2:{ intros i Hi. right. unfold histo_zero. apply lookup_total_replicate_2. lia. }
  pose proof (row_pixels_length _ _ _ _ _ _ _ _ _ _ _ _ _ _ _ Hpx) as Hl.
  change (0 * wd) with 0 in Hbody. rewrite (wrap64_small 0) in Hbody by lia.
  rewrite span_store_paint in Hbody; [| lia | lia | nia | lia | lia].
  rewrite bind_Ret in Hbody. injection Hbody as <-. cbn [rb_vid].
  destruct (row_pixels_content m m_sz cut detail wd ht step_sz Hwd Hht Hwh Hlen Hsz Hstep
              (Z.to_nat wd) 0 0 0 vid0 histo_zero _ _ _ Hrow ltac:(lia) ltac:(lia)
              ltac:(lia) Hbuf ltac:(lia) Hpx j ltac:(lia) ltac:(nia))
    as (g & Hg & Hlook).
  exists g. split; [done |].
  rewrite paint_lookup, Hlook. rewrite bool_decide_eq_true_2 by lia. reflexivity.
Qed.

End FirstRow.

(** X27.  When the arrays [dr] and [cr] happen to start from zero, the first row
    of the preview is tinted, whatever the file holds: on a file that fills
    a raster at least two pixels wide, with a cutoff of at least 0.1 and a
    row weight below 2^31, nothing highlighted yet, a pump that lets the
    rebuild run and a clock that stays within 14 ms, every pixel of the
    first row is its sample with the red channel full, alone or under the
    new highlight.  The overlay update that ends the rebuild stores through
    the two pixel pointers of the window, neither of which lies below the
    buffer. *)
Theorem rebuild_preview_first_row_zeroed pump timemillis ch_size fs
    (m : list byte) (cut : spec_float) (cv : R) (detail : bool) :
  let c := cont fs in
  let m_sz := Z.of_nat (length m) in
  0 < h c → w c ≤ pitch c → buffer_ok c → m_sz < 2 ^ 63 →
  2 ≤ w c → w c * h c ≤ m_sz → map_sz fs = m_sz → count_ok (windows_0 fs) →
  overlay_reach fs → last_pos_sz (windows_0 fs) = 0 →
  is_float 24 128 cut cv → (1 / 10 <= cv)%R →
  (if detail then sample_step m_sz c * w c else w c) < 2 ^ 31 →
  (∀ r, 0 ≤ r < h c → pump r = true) → (∀ k, quiet timemillis k) →
  ∃ fs',
    rebuild_preview pump timemillis ch_size histo_zero histo_zero fs m m_sz cut detail
    = Ret (true, fs', 1%nat)
    ∧ ∀ j : nat, Z.of_nat j < w c →
        ∃ g, map_read m (Z.of_nat j * sample_step m_sz c) = Ret g
             ∧ (vidp (cont fs') !! j
                = Some (Z.lor edge_tint (SHMIF_RGBA 0x00 g 0x00 0xff))
                ∨ vidp (cont fs') !! j
                  = Some (Z.lor olay (Z.lor edge_tint (SHMIF_RGBA 0x00 g 0x00 0xff)))).
Proof.
  intros c m_sz Hh Hpitch Hbuf Hsz Hw2 Hbig Hmap Hcnt Hreach Hfresh Hcut Hcv Hweight
    Hpump Hquiet.
  assert (Hw : 0 < w c) by lia.
  assert (Hwh : w c * h c < 2 ^ 64) by lia.
  pose proof (rebuild_preview_start pump timemillis ch_size histo_zero histo_zero fs m
                cut detail Hw Hh Hwh Hpitch Hbuf) as Hstart.
  cbv zeta in Hstart. fold m_sz c in Hstart. rewrite Hstart. clear Hstart.
  pose proof (raster_in_buffer fs m Hh Hpitch Hbuf) as Hrb. fold c in Hrb.
  set (vid0 := paint (λ _, clear_color) 0 (w c * h c) (vidp c)).
  assert (Hl0 : length vid0 = length (vidp c)) by apply length_paint.
  pose proof (rebuild_start_quiet timemillis histo_zero histo_zero fs m Hh vid0) as Hinv0.
  fold m_sz c in Hinv0. specialize (Hinv0 ltac:(lia)).
  assert (Hweight' : (if detail then wrap64 (sample_step m_sz c * w c) else w c) < 2 ^ 31).
  { pose proof (step_pos m_sz c).
    pose proof (all_rows_fit m_sz (w c) (h c) (sample_step m_sz c) Hw Hh eq_refl Hbig).
    assert (sample_step m_sz c * w c ≤ sample_step m_sz c * (w c * h c)) by nia.
    destruct detail; [rewrite wrap64_small by nia |]; done. }
  set (st0 := rebuild_start timemillis histo_zero histo_zero vid0) in *.
  (* the first turn *)
  destruct (big_file_row timemillis m m_sz (w c) (h c) (sample_step m_sz c) Hw Hh Hwh
              eq_refl Hsz eq_refl st0 Hw2 Hbig Hinv0 ltac:(simpl; lia)) as [Hpos Hcond].
  destruct (quiet_turn timemillis m m_sz cut detail (w c) (h c) (sample_step m_sz c)
              Hw Hh Hwh eq_refl Hsz eq_refl st0 Hinv0 ltac:(simpl; lia) Hcond (Hquiet _))
    as (i' & st1 & st2 & Hbody & Hedge & Hinv2 & Hrow2 & _ & _ & _ & Hd2 & Hsig2 & Hl2
        & Hvid2 & _).
  pose proof (first_row_tinted timemillis m m_sz cut cv detail (w c) (h c)
                (sample_step m_sz c) Hw Hh Hwh eq_refl Hsz eq_refl Hcut Hcv Hw2 Hbig
                Hweight' vid0 st1 ltac:(lia) Hbody) as Hfirst.
  (* the other rows *)
  destruct (rebuild_rows_done pump timemillis m m_sz cut detail (w c) (h c)
              (sample_step m_sz c) Hw Hh Hwh eq_refl Hsz eq_refl Hw2 Hbig
              (Z.to_nat (h c) - 1) st2 Hinv2)
    as (st & Hrest & Hsig & Hl & Hd & Hkeep); [simpl in *; lia | done | done |].
  assert (Hrun : rebuild_rows pump timemillis m m_sz cut detail (w c) (h c)
                   (sample_step m_sz c) (Z.to_nat (h c)) st0 = Ret (true, st)).
  { replace (Z.to_nat (h c)) with (S (Z.to_nat (h c) - 1)) by lia.
    rewrite <- Hrest. simpl.
    assert (0 ≤ sample_step m_sz c) by (pose proof (step_pos m_sz c); lia).
    change (rb_pos st0) with 0 in *. change (rb_row st0) with 0 in *.
    rewrite (wrap64_small (0 + sample_step m_sz c)) by lia.
    destruct (Z.ltb_spec (0 + sample_step m_sz c) m_sz) as [_ | ?]; [| lia].
    destruct (Z.ltb_spec 0 (h c)) as [_ | ?]; [| lia]. simpl.
    rewrite Hbody, bind_Ret. rewrite (Hpump 0) by lia. simpl.
    by rewrite Hedge, bind_Ret. }
  rewrite Hrun, bind_Ret. cbv beta iota zeta. simpl negb. cbv iota.
  assert (Hdirty : rb_dirty st = true).
  { destruct Hd as [? | ->]; done. }
  rewrite Hdirty.
  assert (Hlen_st : length (rb_vid st) = length vid0).
  { rewrite Hl, Hl2. reflexivity. }
  destruct (closing_update_returns ch_size fs (rb_vid st) Hw Hh Hbuf)
    as (Hb1 & Hc1 & c2 & wnd2 & Hret);
    [by rewrite Hlen_st | fold c; lia | lia | done | done |]. fold c in Hb1, Hret.
  rewrite Hret, bind_Ret. cbv beta iota zeta.
  rewrite Hsig, Hsig2. eexists. split; [reflexivity |].
  intros j Hj. simpl.
  destruct (Hfirst j Hj) as (g & Hg & Hlook).
  exists g. split; [exact Hg |].
  destruct (update_region_cases _ _ _ _ _ _ _ Hb1 Hc1 Hret) as [_ Hcase].
  apply (update_case_sample _ _ _ _ _ _ _ j _ Hcase); [| by right].
  simpl. rewrite Hkeep by (rewrite Hrow2; simpl; lia). by rewrite Hvid2.
Qed.

Lemma rebuild_preview_first_row_zeroed_witness :
  ∃ fs',
    rebuild_preview (λ _, true) (λ _, 0) 1 histo_zero histo_zero fsense_striped
      file_striped (Z.of_nat (length file_striped)) cutoff_default false
    = Ret (true, fs', 1%nat)
    ∧ ∀ j : nat, Z.of_nat j < 4 →
        ∃ g, map_read file_striped (Z.of_nat j * sample_step 16 raster_4x4) = Ret g
             ∧ (vidp (cont fs') !! j
                = Some (Z.lor edge_tint (SHMIF_RGBA 0x00 g 0x00 0xff))
                ∨ vidp (cont fs') !! j
                  = Some (Z.lor olay (Z.lor edge_tint (SHMIF_RGBA 0x00 g 0x00 0xff)))).
Proof.
  apply (rebuild_preview_first_row_zeroed (λ _, true) (λ _, 0) 1 fsense_striped
           file_striped cutoff_default (F2R 15099494 (-24)) false).
  - simpl. lia.
  - simpl. lia.
  - vm_compute. split_and!; [reflexivity | discriminate | reflexivity].
  - simpl. lia.
  - simpl. lia.
  - simpl. lia.
  - reflexivity.
  - unfold count_ok. simpl. lia.
  - split; vm_compute; discriminate.
  - reflexivity.
  - replace cutoff_default with (S754_finite false 15099494 (-24))
      by (vm_compute; reflexivity).
    apply is_float_intro. unfold canonical, emin. simpl. lia.
  - unfold F2R. rewrite (pow2_Zneg 24). change (2 ^ Z.pos 24) with 16777216. lra.
  - simpl. lia.
  - reflexivity.
  - intros k. unfold quiet. vm_compute. discriminate.
Defined.
